(* ===== verification/_CoqProject ===== *)
-Q . S2P
Prelude.v
GoRuntime.v
Json.v
JsonText.v
Compact.v
GoTime.v
Proto.v
Crdt.v
StateSvc.v
Registry.v
Store.v
Dispatch.v
WorkerSvc.v
Relay.v
Reaper.v
System.v
Protoconv.v
RaftNode.v
SchedulerSvc.v
LeaderClient.v
Reporting.v
CrdtView.v
Observer.v
Conns.v
Config.v
Boot.v
Gateway.v
EndToEnd.v
Render.v
Lifecycle.v
RelaySteps.v
Cluster.v
Interleaved.v
Progress.v
Timing.v
Deadlines.v
Accounting.v
Placements.v
Statistics.v
