(* ===== verification/Prelude.v ===== *)
(** * Ironwork: a verification development

    Ironwork is a job scheduler. A client submits a job to the gateway (REST);
    the gateway routes it to the scheduler that leads a Raft group; the leader
    stores the job together with a dispatch command in one Postgres transaction;
    a relay on the leader drains the commands to workers; a worker accepts a job,
    executes it in the background and records the outcome; heartbeats tell the
    schedulers which workers live and have room, and a reaper on the leader
    returns the jobs of dead workers to the queue. Workers also report outcomes
    to statemanager replicas, which keep eventually consistent statistics as
    CRDTs and gossip with each other. An observer aggregates health.

    ** Files

    Shared ground
    - Prelude: this documentation; tactics, the [ironwork] hint database, the
      [result] type of fallible calls and the state-passing monad [stM].
    - GoRuntime: what the code uses of Go and gRPC. Fixed-width integers are [Z]
      with [wrap_u]/[wrap_s]; map iteration order, which Go leaves open, is a
      [Ranger] (a function from maps to listings of them) that theorems quantify
      over; sort.Slice with its [LessOk] interface; saturating time.Time.Sub;
      wrapped errors and gRPC codes.
    - Json, JsonText: encoding/json as the code uses it, on bytes: scanner, parser
      with its nesting limit, decoders into structs and slices with Go's case
      folding of names, quoting and printing; that printed trees are read back,
      and that the text of a member of an object is itself valid.
    - Compact: how a raw value is copied into a text that is written, blanks removed
      and HTML escaped, and that the copy means the same value.
    - GoTime: time.Time in RFC 3339, written and read back.
    - Proto: the generated messages of gen/ironwork/v1 that the code handles.

    Replicated statistics
    - Crdt (internal/crdt): [Crdt.GCounter] and [Crdt.LWWMap], one definition per
      method; [JoinLaws] is the interface a mergeable state offers.
    - StateSvc (internal/statesvc): the replica's handlers, merge, snapshot and
      gossip tick; [cl_step] runs any number of replicas over a network that
      loses, repeats and reorders messages.

    Job pipeline
    - Registry (internal/registry): liveness and load from heartbeats.
    - Store (internal/store, migrations): the two tables as [gmap]s, every SQL
      statement as a function on them, every method as a call on a [world]. An
      [env] gives each statement its clock, its generated ids and its fate: it
      works, it fails before it took effect, or it takes effect and its answer is
      lost. A transaction that does not commit leaves no trace.
    - Dispatch (internal/dispatch), Relay (internal/outbox), Reaper
      (internal/reaper): the scheduler's loops, one definition per function, over
      the interfaces the Go packages declare, instantiated with Store.
    - WorkerSvc (internal/workersvc): ExecuteJob and run as sequential functions
      and again as goroutines that interleave action by action ([thread_step]);
      the class [JobStore] is what the worker relies on of the store, and
      [pg_job_store] shows that Store provides it.
    - System: the abstract specification of the pipeline. Submissions, relays of
      any number of would-be leaders, worker runs and reapers on shared tables
      ([sys_step]), one database call per step.
    - RelaySteps: the goroutines of relay and reaper cut into their calls
      ([relay_act], [reaper_act]); run alone they are [drain] and [sweep].

    Services and edges
    - Protoconv (internal/protoconv), RaftNode (internal/raftnode), SchedulerSvc
      (internal/schedulersvc), LeaderClient (internal/leaderclient), Reporting
      (internal/heartbeat and internal/statereport), CrdtView (internal/crdtview),
      Observer (internal/healthsvc and internal/observersvc), Config
      (internal/config), Gateway (internal/gatewayhttp).
    - Conns: the connections that constructors open and Close methods close.
    - Boot (internal/tlsutil, raftnode.New and its stream layer): how a consensus
      member starts, as a trace of calls that an arbitrary outside world answers.

    Compositions
    - EndToEnd: a request through gateway, router, a network that refuses calls or
      loses answers, schedulers whose leadership moves, and the database.
    - Render (internal/gatewayhttp and the structs it encodes): the texts of the
      gateway's responses, and what a client that parses them finds.
    - Lifecycle (internal/app, internal/logging, cmd): each main as a script of what
      it opens, starts, serves and releases; how a stop meets requests in flight.
    - Cluster (cmd/scheduler and cmd/worker running): schedulers with registry,
      dispatcher and wake channel, workers with their goroutines, and the database
      and consensus group they share. An [event] is a request, a turn of a loop or
      an action of a goroutine; [step] runs the components' code on it.
    - Interleaved: the same cluster, its relays and reapers making one call per
      event, so that anything happens between two calls of a loop.
    - Progress: runs of the cluster in which jobs get done.
    - Timing: runs of the cluster with the clock of heartbeats and reaper.
    - Deadlines: the components' code over calls that take time, under the timeouts
      the code gives them; targets may take any time or never answer.
    - Accounting, Placements, Statistics: multisets of worker goroutines over a run;
      the placements in the consensus log, and the statistics of the replicas behind
      the workers' reporting clients, compared with what workers did.

    ** What is shown

    - Durability. A submission and a reclaim are atomic whatever statement fails
      ([create_with_outbox_atomic], [reclaim_atomic], [submit_durable]); in every
      interleaving a pending job has a command that is pending or was abandoned
      ([no_lost_intent]) and the rows keep the schema's constraints
      ([tables_stay_typed]). The code of schedulers and workers, composed as the
      programs compose it, with crashes, restarts, lost calls and failing
      statements, only takes steps of that system, turn by turn
      ([cluster_refines_system]) and call by call ([interleaved_refines_system]; the
      calls are those of the loops, [goroutines_are_the_loops]).
    - Progress. A waiting job is placed, run and recorded in a fixed number of
      turns when nothing fails ([job_completes]), also when its worker crashed
      ([crash_recovery]); with a healthy database the relay empties the outbox
      whatever workers answer ([relay_settles]); a command changes only for the
      reasons the code gives ([handle_verdict]); a sweep of the reaper is exact
      ([reaper_sweep_exact]); a routed call finds the leader ([route_outcome],
      [route_finds_leader]).
    - Time. A worker that loses at most two beats in a row keeps its jobs
      ([heartbeats_keep_alive]); one that falls silent loses them between eight
      and ten seconds after its last message ([crash_noticed_in_time]). Slow or
      silent schedulers delay no beat ([heartbeats_on_time]); how long a dispatch, a
      gossip round, a partition switch and a health check last at most
      ([dispatch_time], [gossip_pace], [set_gossip_time], [hung_target_reported]).
    - Placement. Candidates are exact and ordered ([available_exact]); the first
      accepting worker gets the job ([dispatch_first_accepting]); every placement a
      member shows is a job that worker took ([placements_happened]).
    - Workers. The capacity holds under every interleaving
      ([worker_capacity_respected]); the goroutines refine to the sequential code
      ([accept_and_run]); the sleep of an execution, overflow included
      ([sleep_of_payload]).
    - Statistics. The merge laws and order independence of the counters
      ([gcounter_merge_laws]); the bounded window keeps the newest entries
      ([lww_merge_keeps_newest]); reports are counted exactly once
      ([no_report_miscounted], [converged_total_exact]); an exchange makes two
      replicas equal ([push_pull_converges]). In the running cluster replicas never
      show more outcomes than were recorded in the database ([statistics_truthful],
      [recorded_written]), and all of them when no report is lost
      ([statistics_complete]).
    - Requests. What POST /jobs stores and answers ([post_jobs_outcome],
      [post_succeeds], [posted_payload_executes]); a posted job is shown with its
      name and payload, in the answer and ever after ([posted_job_shown]); every
      answer is one readable JSON text ([response_readable]); what GET /jobs,
      /health, /raft and the convergence verdict show ([list_jobs_end_to_end],
      [health_exact], [raft_leader_majority], [fetch_converged_iff]).
    - Consensus view and start-up. Snapshots and log entries of the placement
      history round trip through their JSON texts ([snapshot_resumes],
      [proposed_placement_applies]); mutual TLS and an agreed bootstrap
      configuration ([member_boot]).
    - Processes. Connections are closed ([connections_balanced]), resources are
      released in reverse order ([process_exit]), the wait for the database ends
      ([migrate_waits]), no call is handled after a graceful stop ([server_stop]).
    - Limits of the code, each proved on reachable states:
      [abandon_strands_job], [failed_start_strands_job], [late_start_strands_job],
      [unheard_worker_never_reaped], [restart_loses_report], [post_may_duplicate],
      [one_missed_beat_goes_stale], [finished_job_reopens], [hung_scheduler_blocks].

    ** Bounds and fuel

    The pruning loop of the last-writer-wins map runs on fuel equal to the size
    of the map, which each turn reduces by one; trimming a text and the parser's
    loops over elements and members run on fuel equal to the length of the text,
    of which every turn consumes a byte; the parser's recursion is on the nesting
    limit of encoding/json, 10000. [relay_settles] uses 31 batches per command: 30
    refused dispatches and the abandonment. A goroutine of an accepted job takes six
    actions; a batch of the relay is 50 commands; cmd/migrate pings at most 32 times
    before its deadline. Counting theorems assume fewer than 2^64 events, the width
    of a shard. Attempt counts are 32-bit columns whose overflow is an error of the
    statement.

    ** Not modelled

    Sockets, the TLS protocol, signals and the text of logs; hashicorp/raft, pgx and
    Postgres beyond the statements used, grpc, chi's matching of paths, viper, goose
    and google/uuid, which are parameters where the code depends on their answers,
    as is the text strconv prints for a float64 (durations are exact rationals); the
    embedded dashboard page; generated descriptors and stubs. Outside Deadlines a
    timeout appears as a failure of the call it bounds, and a tick is handled when it
    fires. Statements of the database and proposals to the consensus group take no
    time in the model, so the relay's, the reaper's and the handlers' own deadlines on
    them have no definition beyond the failure they cause. Placements and Statistics
    are stated on the cluster of turns, not on the one of single calls. *)

From stdpp Require Export base tactics option list gmap strings fin_maps sorting pretty.
From stdpp Require Export ssreflect.

(** ** Automation *)

Create HintDb ironwork.

(** Case analysis on every boolean or [match] scrutinee the goal is stuck on. *)
Ltac split_match :=
  repeat first [progress simplify_eq/= | case_match].

(** Reflect the boolean tests of the code into propositions. *)
Ltac reflect_bools :=
  repeat match goal with
  | H : andb _ _ = true |- _ => apply andb_true_iff in H as [? ?]
  | H : orb _ _ = false |- _ => apply orb_false_iff in H as [? ?]
  | H : negb _ = true |- _ => apply negb_true_iff in H
  | H : negb _ = false |- _ => apply negb_false_iff in H
  | H : Z.ltb _ _ = true |- _ => apply Z.ltb_lt in H
  | H : Z.ltb _ _ = false |- _ => apply Z.ltb_ge in H
  | H : Z.leb _ _ = true |- _ => apply Z.leb_le in H
  | H : Z.leb _ _ = false |- _ => apply Z.leb_gt in H
  | H : Z.eqb _ _ = true |- _ => apply Z.eqb_eq in H
  | H : Z.eqb _ _ = false |- _ => apply Z.eqb_neq in H
  | H : String.eqb _ _ = true |- _ => apply String.eqb_eq in H
  | H : String.eqb _ _ = false |- _ => apply String.eqb_neq in H
  | H : bool_decide _ = true |- _ => apply bool_decide_eq_true in H
  | H : bool_decide _ = false |- _ => apply bool_decide_eq_false in H
  end.

(** ** Results: a Go pair [(value, error)] with exactly one of the two set *)

Inductive result (E A : Type) : Type :=
| Ok (a : A)
| Err (e : E).
Arguments Ok {E A} a.
Arguments Err {E A} e.

Definition is_ok {E A} (r : result E A) : bool :=
  match r with Ok _ => true | Err _ => false end.

(** ** A state monad for code that threads a world through many calls *)

Definition stM (W A : Type) : Type := W → A * W.

Definition st_ret {W A} (a : A) : stM W A := λ w, (a, w).
Definition st_bind {W A B} (m : stM W A) (k : A → stM W B) : stM W B :=
  λ w, let '(a, w') := m w in k a w'.

Declare Scope go_scope.
Delimit Scope go_scope with go.
Notation "'let!' x := m 'in' k" := (st_bind m (λ x, k))
  (at level 10, x binder, m at level 100, k at level 200) : go_scope.
Notation "m ;;; k" := (st_bind m (λ _, k))
  (at level 100, k at level 200, right associativity) : go_scope.

(** [for _, x := range xs { f(x) }] over a slice. *)
Fixpoint st_iter {W A} (f : A → stM W unit) (xs : list A) : stM W unit :=
  match xs with
  | [] => st_ret tt
  | x :: xs' => st_bind (f x) (λ _, st_iter f xs')
  end.

(** ** Generic lemmas *)

Lemma st_iter_app {W A} (f : A → stM W unit) (xs ys : list A) (w : W) :
  st_iter f (xs ++ ys) w = st_iter f ys (st_iter f xs w).2.
Proof.
  revert w. induction xs as [|x xs IH]; intros w; simpl; [done|].
  unfold st_bind. destruct (f x w) as [[] w']. apply IH.
Qed.

Lemma st_iter_inv {W A} (P : W → Prop) (f : A → stM W unit) (xs : list A) (w : W) :
  (∀ x w, x ∈ xs → P w → P (f x w).2) → P w → P (st_iter f xs w).2.
Proof.
  revert w. induction xs as [|x xs IH]; intros w Hf Hw; simpl; [done|].
  unfold st_bind. pose proof (Hf x w ltac:(set_solver) Hw) as Hx.
  destruct (f x w) as [[] w']. apply IH; [|done]. set_solver.
Qed.

(** A fold whose steps commute does not depend on the order of the list. *)
Lemma foldl_comm_perm {A B} (f : B → A → B) (l l' : list A) (b : B) :
  (∀ b x y, f (f b x) y = f (f b y) x) → l ≡ₚ l' → foldl f b l = foldl f b l'.
Proof.
  intros Hc Hp. revert b. induction Hp as [|x l l' Hp IH|x y l|l l' l'' H1 IH1 H2 IH2];
    intros b; simpl; [done|apply IH|by rw Hc|by rw IH1].
Qed.

Lemma NoDup_fst_lookup_perm {A} (l : list (string * A)) (m : gmap string A) k v :
  l ≡ₚ map_to_list m → (k, v) ∈ l ↔ m !! k = Some v.
Proof. intros Hp. by rw Hp elem_of_map_to_list. Qed.

Lemma length_range_size {A} (l : list (string * A)) (m : gmap string A) :
  l ≡ₚ map_to_list m → length l = size m.
Proof. intros ->. apply length_map_to_list. Qed.

Lemma elem_of_take_le {A} (x : A) n l : x ∈ take n l → x ∈ l.
Proof. intros H. rw -(take_drop n l). set_solver. Qed.

Lemma last_n_app {A} (n : nat) (l1 l2 : list A) :
  n ≤ length l2 → drop (length (l1 ++ l2) - n) (l1 ++ l2) = drop (length l2 - n) l2.
Proof.
  intros Hn. rw length_app drop_app.
  rw (drop_ge l1); [|lia]. simpl. f_equal. lia.
Qed.

Lemma fmap_sublist {A B} (f : A → B) (l l' : list A) :
  l `sublist_of` l' → f <$> l `sublist_of` f <$> l'.
Proof. induction 1; simpl; [done|by constructor..]. Qed.
