(* ===== verification/GoRuntime.v ===== *)
(** * The part of Go, its standard library and gRPC that Ironwork's code uses

    Machine integers with their wrap-around, bytewise string order, [sort.Slice]
    and [sort.Strings], the unspecified iteration order of [range] over a map,
    [time.Duration] arithmetic, wrapped errors and gRPC status codes. Every
    component file builds on these definitions. *)

From S2P Require Import Prelude.
Local Open Scope Z_scope.

(** ** Machine integers *)

(** An unsigned [w]-bit result keeps the low [w] bits; a signed one is the
    representative in [-2^(w-1), 2^(w-1)). *)
Definition wrap_u (w : Z) (x : Z) : Z := x `mod` 2 ^ w.
Definition wrap_s (w : Z) (x : Z) : Z := (x + 2 ^ (w - 1)) `mod` 2 ^ w - 2 ^ (w - 1).

Abbreviation u64 := (wrap_u 64).
Abbreviation u32 := (wrap_u 32).
Abbreviation i64 := (wrap_s 64).
Abbreviation i32 := (wrap_s 32).

Definition max_i64 : Z := 2 ^ 63 - 1.
Definition min_i64 : Z := - 2 ^ 63.

(** ** Durations and instants, in nanoseconds *)

Definition Millisecond : Z := 1000000.
Definition Second : Z := 1000 * Millisecond.

(** [t.Sub(u)] saturates at the bounds of [time.Duration]. *)
Definition time_sub (t u : Z) : Z := Z.max min_i64 (Z.min max_i64 (t - u)).

(** ** Comparators and sorting *)

(** Go compares strings bytewise: [s1 < s2]. *)
Definition str_ltb (s1 s2 : string) : bool := String.ltb s1 s2.

(** What [sort.Slice] needs of [less]: a strict weak order. *)
Class LessOk {A} (less : A → A → bool) : Prop := {
  less_asym : ∀ x y, less x y = true → less y x = false;
  less_negtrans : ∀ x y z, less y x = false → less z y = false → less z x = false;
}.

(** [x] may stand before [y] in a slice sorted by [less]. *)
Definition not_after {A} (less : A → A → bool) (x y : A) : Prop := less y x = false.

#[export] Instance not_after_dec {A} (less : A → A → bool) x y : Decision (not_after less x y).
Proof. unfold not_after. apply _. Defined.

(** [sort.Slice(l, less)]: the slice rearranged so that no element is [less]
    than one before it. Go leaves the order of equivalent elements open; where
    [less] is total on the slice the result is unique ([go_sort_unique]). *)
Definition go_sort {A} (less : A → A → bool) (l : list A) : list A :=
  merge_sort (not_after less) l.

(** [sort.Strings]. *)
Definition sort_strings (l : list string) : list string := go_sort str_ltb l.

(** ** Byte strings *)

Abbreviation bytes := (list Ascii.ascii).

(** [s] without the leading [p], if it has it. *)
Fixpoint strip_prefix (p s : bytes) : option bytes :=
  match p, s with
  | [], _ => Some s
  | c :: p', d :: s' => if decide (c = d) then strip_prefix p' s' else None
  | _ :: _, [] => None
  end.

(** ** Iteration over a map *)

(** [for k, v := range m] visits the entries in an order Go leaves open and may
    change from one loop to the next: the [n]-th loop of a call visits them as
    [range_of n m]. Every theorem about code whose result could depend on the
    order quantifies over all of these. *)
Record Ranger (A : Type) : Type := mk_ranger {
  range_of :> nat → gmap string A → list (string * A);
  range_perm : ∀ n m, range_of n m ≡ₚ map_to_list m;
}.
Arguments range_of {A} _ _ _.
Arguments range_perm {A} _ _ _.

Definition ranger_asc (A : Type) : Ranger A :=
  mk_ranger A (λ _ m, map_to_list m) (λ _ m, reflexivity (map_to_list m)).

Definition ranger_desc (A : Type) : Ranger A :=
  mk_ranger A (λ _ m, reverse (map_to_list m)) (λ _ m, reverse_Permutation (map_to_list m)).

(** ** Errors *)

(** gRPC status codes, google.golang.org/grpc/codes. *)
Inductive code : Type :=
| CodeOK | Canceled | Unknown | InvalidArgument | DeadlineExceeded | NotFound
| AlreadyExists | PermissionDenied | ResourceExhausted | FailedPrecondition
| Aborted | OutOfRange | Unimplemented | Internal | Unavailable | DataLoss
| Unauthenticated.

#[export] Instance code_eq_dec : EqDecision code.
Proof. solve_decision. Defined.

(** A Go error: a text, the sentinel [store.ErrNotFound], a gRPC status error,
    or [fmt.Errorf("<prefix>%w", e)]. *)
Inductive err : Type :=
| EText (msg : string)
| ErrNotFound
| EStatus (c : code) (msg : string)
| EWrap (prefix : string) (e : err).

#[export] Instance err_eq_dec : EqDecision err.
Proof. solve_decision. Defined.

(** [errors.Is(err, store.ErrNotFound)] walks the wrapping chain. *)
Fixpoint is_not_found (e : err) : bool :=
  match e with
  | ErrNotFound => true
  | EWrap _ e' => is_not_found e'
  | _ => false
  end.

(** [status.Code(err)] of a non-nil error: that of the status error in the
    chain, [Unknown] when there is none. *)
Fixpoint status_code (e : err) : code :=
  match e with
  | EStatus c _ => c
  | EWrap _ e' => status_code e'
  | _ => Unknown
  end.

Definition code_string (c : code) : string :=
  match c with
  | CodeOK => "OK" | Canceled => "Canceled" | Unknown => "Unknown"
  | InvalidArgument => "InvalidArgument" | DeadlineExceeded => "DeadlineExceeded"
  | NotFound => "NotFound" | AlreadyExists => "AlreadyExists"
  | PermissionDenied => "PermissionDenied" | ResourceExhausted => "ResourceExhausted"
  | FailedPrecondition => "FailedPrecondition" | Aborted => "Aborted"
  | OutOfRange => "OutOfRange" | Unimplemented => "Unimplemented"
  | Internal => "Internal" | Unavailable => "Unavailable" | DataLoss => "DataLoss"
  | Unauthenticated => "Unauthenticated"
  end.

(** [err.Error()]. *)
Fixpoint err_string (e : err) : string :=
  match e with
  | EText s => s
  | ErrNotFound => "job not found"
  | EStatus c m => "rpc error: code = " +:+ code_string c +:+ " desc = " +:+ m
  | EWrap p e' => p +:+ err_string e'
  end.

(** [status.Convert(err).Message()]: the bare description of a status error, the
    whole text of any other error (grpc-go prefixes the chain's text when the
    status error is wrapped). *)
Definition status_message (e : err) : string :=
  match e with
  | EStatus _ m => m
  | _ => err_string e
  end.

(** ** Formatting *)

(** [%q] of a text without characters that need escaping. *)
Definition dquote : string := String (Ascii.ascii_of_nat 34) EmptyString.
Definition go_quote (s : string) : string := dquote +:+ s +:+ dquote.

(** [%d]. *)
Definition fmt_d (n : Z) : string := pretty n.

(** ** Lemmas: integers *)

Lemma wrap_u_small w x : 0 ≤ x < 2 ^ w → wrap_u w x = x.
Proof. intros. unfold wrap_u. by apply Z.mod_small. Qed.

Lemma wrap_u_range w x : 0 ≤ w → 0 ≤ wrap_u w x < 2 ^ w.
Proof. intros. apply Z.mod_pos_bound. lia. Qed.

Lemma wrap_s_small w x : 0 < w → - 2 ^ (w - 1) ≤ x < 2 ^ (w - 1) → wrap_s w x = x.
Proof.
  intros Hw Hx. unfold wrap_s. rw Z.mod_small; [lia|].
  replace (2 ^ w) with (2 * 2 ^ (w - 1)); [lia|].
  rw -Z.pow_succ_r; [f_equal; lia|lia].
Qed.

Lemma wrap_s_range w x : 0 < w → - 2 ^ (w - 1) ≤ wrap_s w x < 2 ^ (w - 1).
Proof.
  intros Hw. unfold wrap_s.
  assert (2 ^ w = 2 * 2 ^ (w - 1)) as E.
  { rw -Z.pow_succ_r; [f_equal; lia|lia]. }
  pose proof (Z.mod_pos_bound (x + 2 ^ (w - 1)) (2 ^ w) ltac:(lia)). lia.
Qed.

Lemma time_sub_exact t u : min_i64 ≤ t - u ≤ max_i64 → time_sub t u = t - u.
Proof. unfold time_sub. lia. Qed.

Lemma time_sub_mono t t' u : t ≤ t' → time_sub t u ≤ time_sub t' u.
Proof. unfold time_sub. lia. Qed.

(** ** Lemmas: string order *)

Lemma str_ltb_leb s1 s2 : str_ltb s1 s2 = negb (String.leb s2 s1).
Proof.
  unfold str_ltb, String.ltb, String.leb. rw (String.compare_antisym s2 s1).
  by destruct (String.compare s1 s2).
Qed.

Lemma str_leb_trans s1 s2 s3 :
  String.leb s1 s2 = true → String.leb s2 s3 = true → String.leb s1 s3 = true.
Proof. rw -!Is_true_true. apply (transitivity (R := String.le)). Qed.

Lemma str_leb_total s1 s2 : String.leb s1 s2 = true ∨ String.leb s2 s1 = true.
Proof. apply String.leb_total. Qed.

Lemma str_ltb_irrefl s : str_ltb s s = false.
Proof. rw str_ltb_leb. by destruct (str_leb_total s s) as [-> | ->]. Qed.

Lemma str_ltb_false_antisym s1 s2 : str_ltb s1 s2 = false → str_ltb s2 s1 = false → s1 = s2.
Proof.
  rw !str_ltb_leb. intros H1%negb_false_iff H2%negb_false_iff.
  by apply String.leb_antisym.
Qed.

Lemma str_ltb_total s1 s2 : s1 ≠ s2 → str_ltb s1 s2 = true ∨ str_ltb s2 s1 = true.
Proof.
  intros Hne. destruct (str_ltb s1 s2) eqn:E1; [by left|].
  destruct (str_ltb s2 s1) eqn:E2; [by right|].
  by pose proof (str_ltb_false_antisym _ _ E1 E2).
Qed.

#[export] Instance str_ltb_ok : LessOk str_ltb.
Proof.
  split.
  - intros x y. rw !str_ltb_leb. intros H%negb_true_iff. apply negb_false_iff.
    destruct (str_leb_total x y) as [?|?]; [done|congruence].
  - intros x y z. rw !str_ltb_leb !negb_false_iff. intros. by eapply str_leb_trans.
Qed.

(** ** Lemmas: comparators *)

Section less.
Context {A : Type} (less : A → A → bool).

Lemma less_irrefl `{!LessOk less} x : less x x = false.
Proof. destruct (less x x) eqn:E; [|done]. pose proof (less_asym x x E). congruence. Qed.

Lemma less_trans `{!LessOk less} x y z : less x y = true → less y z = true → less x z = true.
Proof.
  intros Hxy Hyz. destruct (less x z) eqn:E; [done|].
  pose proof (less_negtrans z x y E (less_asym _ _ Hxy)). congruence.
Qed.

#[export] Instance not_after_trans `{!LessOk less} : Transitive (not_after less).
Proof. intros x y z. unfold not_after. intros. by eapply less_negtrans. Qed.

#[export] Instance not_after_total `{!LessOk less} : Total (not_after less).
Proof.
  intros x y. unfold not_after. destruct (less y x) eqn:E; [|by left].
  right. by apply less_asym.
Qed.

Lemma go_sort_perm l : go_sort less l ≡ₚ l.
Proof. apply merge_sort_Permutation. Qed.

Lemma go_sort_sorted `{!LessOk less} l : StronglySorted (not_after less) (go_sort less l).
Proof. apply StronglySorted_merge_sort; apply _. Qed.

Lemma elem_of_go_sort x l : x ∈ go_sort less l ↔ x ∈ l.
Proof. by rw go_sort_perm. Qed.

Lemma length_go_sort l : length (go_sort less l) = length l.
Proof. by rw go_sort_perm. Qed.

(** Where distinct elements are comparable, sorting has one result: the input's
    order, and so the iteration order of a map it was collected from, is
    irrelevant. *)
Lemma go_sort_unique `{!LessOk less} l l' :
  (∀ x y, x ∈ l → y ∈ l → less x y = false → less y x = false → x = y) →
  l ≡ₚ l' → go_sort less l = go_sort less l'.
Proof.
  intros Htot Hp. apply (StronglySorted_unique_strong (not_after less)).
  - intros x y Hx Hy. rw !elem_of_go_sort in Hx Hy.
    rw -Hp in Hy. unfold not_after. intros. by apply Htot.
  - apply go_sort_sorted.
  - apply go_sort_sorted.
  - by rw !go_sort_perm.
Qed.
End less.

#[export] Instance less_on_ok {A B} (f : B → A) (less : A → A → bool) `{!LessOk less} :
  LessOk (λ x y, less (f x) (f y)).
Proof.
  split; [intros x y; apply less_asym | intros x y z; apply less_negtrans].
Qed.

(** The reversed comparator: [sort.Slice] in descending order. *)
Lemma less_flip_ok {A} (less : A → A → bool) `{!LessOk less} : LessOk (λ x y, less y x).
Proof.
  split; [intros x y; apply less_asym|].
  intros x y z H1 H2. by eapply less_negtrans.
Qed.

#[export] Instance zltb_ok : LessOk Z.ltb.
Proof. split; intros; lia. Qed.

#[export] Instance zgtb_ok : LessOk (λ x y, Z.ltb y x).
Proof. split; intros; lia. Qed.

(** [if k(x) != k(y) { return k(x) > k(y) }; return name(x) < name(y)]. *)
Lemma less_lex_ok {A} (k : A → Z) (less : A → A → bool) `{!LessOk less} :
  LessOk (λ x y, if negb (k x =? k y) then k y <? k x else less x y).
Proof.
  split.
  - intros x y. destruct (Z.eqb_spec (k x) (k y)) as [E|E].
    + rw E Z.eqb_refl /=. apply less_asym.
    + replace (k y =? k x) with false by lia. simpl. lia.
  - intros x y z. destruct (Z.eqb_spec (k y) (k x)) as [E1|E1];
      destruct (Z.eqb_spec (k z) (k y)) as [E2|E2]; simpl; intros H1 H2.
    + replace (k z =? k x) with true by lia. by eapply less_negtrans.
    + replace (k z =? k x) with false by lia. simpl. lia.
    + replace (k z =? k x) with false by lia. simpl. lia.
    + replace (k z =? k x) with false by lia. simpl. lia.
Qed.

Lemma sort_strings_perm l : sort_strings l ≡ₚ l.
Proof. apply go_sort_perm. Qed.

Lemma sort_strings_unique l l' : l ≡ₚ l' → sort_strings l = sort_strings l'.
Proof.
  intros Hp. apply go_sort_unique; [apply _| |done].
  intros x y _ _. apply str_ltb_false_antisym.
Qed.

#[export] Hint Resolve wrap_u_small wrap_u_range wrap_s_range : ironwork.

(** ** Lemmas: loops over maps *)

Lemma range_NoDup {A} (rg : Ranger A) n m : NoDup (rg n m).*1.
Proof. rw (range_perm rg n m). apply NoDup_fst_map_to_list. Qed.

Lemma list_to_map_range {A} (rg : Ranger A) n m : list_to_map (rg n m) = m.
Proof.
  rw -{2}(list_to_map_to_list m). apply list_to_map_proper.
  - apply range_NoDup.
  - apply range_perm.
Qed.

Lemma elem_of_range {A} (rg : Ranger A) n m k v : (k, v) ∈ rg n m ↔ m !! k = Some v.
Proof. rw (range_perm rg n m). apply elem_of_map_to_list. Qed.

Lemma length_range {A} (rg : Ranger A) n m : length (rg n m) = size m.
Proof. rw (range_perm rg n m). apply length_map_to_list. Qed.

(** A loop whose body, at key [k], only rewrites entry [k] of the map it builds
    computes each entry independently, whatever the order of the visits. *)
Section keyed_loop.
Context {A B : Type} (step : gmap string B → string * A → gmap string B).
Context (f : option B → A → option B).
Hypothesis step_keyed : ∀ m k v k',
  step m (k, v) !! k' = if decide (k = k') then f (m !! k) v else m !! k'.

Lemma foldl_keyed (l : list (string * A)) (m : gmap string B) k :
  NoDup l.*1 →
  foldl step m l !! k =
    match (list_to_map l : gmap string A) !! k with
    | Some v => f (m !! k) v
    | None => m !! k
    end.
Proof using step_keyed.
  revert m. induction l as [|[k0 v0] l IH]; intros m Hnd; simpl; [done|].
  inversion_clear Hnd as [|? ? Hni Hnd'].
  rw IH; [|done]. rw step_keyed lookup_insert. case_decide as E; [|done].
  subst. by rw (not_elem_of_list_to_map_1 l k Hni).
Qed.

Lemma foldl_range_keyed (rg : Ranger A) n (o : gmap string A) (m : gmap string B) k :
  foldl step m (rg n o) !! k =
    match o !! k with Some v => f (m !! k) v | None => m !! k end.
Proof using step_keyed.
  rw foldl_keyed; [|apply range_NoDup]. by rw list_to_map_range.
Qed.
End keyed_loop.

(** [out := make(map..); for k, v := range m { out[k] = v }] is a copy. *)
Lemma range_copy {A} (rg : Ranger A) n (m : gmap string A) :
  foldl (λ out '(k, v), <[k := v]> out) ∅ (rg n m) = m.
Proof.
  apply map_eq. intros k.
  rw (foldl_range_keyed _ (λ _ v, Some v)).
  - rw lookup_empty. by destruct (m !! k).
  - intros m' k1 v k2. rw lookup_insert. by case_decide.
Qed.
