(* ===== verification/Json.v ===== *)
(** * encoding/json: the texts Ironwork reads and writes

    Job payloads, the entries and snapshots of the placement log and the gateway's
    request bodies are JSON texts. This file models what encoding/json does with
    them: the grammar its scanner accepts ([parse_value]), what a string literal
    stands for ([unquote]), how a string is written ([quote_body]), how an object is
    decoded into a struct ([decode_struct]) and the compact printer. A text that is
    rejected is [None]: the wording of the error is left to the callers. *)

From S2P Require Import Prelude GoRuntime.
Local Open Scope Z_scope.

(** ** Characters *)

Definition byte_of (n : Z) : Ascii.ascii := Ascii.ascii_of_nat (Z.to_nat n).
Definition code_of (c : Ascii.ascii) : Z := Z.of_nat (Ascii.nat_of_ascii c).
Definition in_range (lo hi : Z) (c : Ascii.ascii) : bool := (lo <=? code_of c) && (code_of c <=? hi).

Definition c_quote : Ascii.ascii := Ascii.ascii_of_nat 34.
Definition c_backslash : Ascii.ascii := Ascii.ascii_of_nat 92.

Definition is_ws (c : Ascii.ascii) : bool :=
  (code_of c =? 32) || (code_of c =? 9) || (code_of c =? 10) || (code_of c =? 13).
Definition is_digit (c : Ascii.ascii) : bool := in_range 48 57 c.

Fixpoint skip_ws (s : bytes) : bytes :=
  match s with
  | c :: s' => if is_ws c then skip_ws s' else s
  | [] => []
  end.

Fixpoint span_digits (s : bytes) : bytes * bytes :=
  match s with
  | c :: s' => if is_digit c then let '(ds, r) := span_digits s' in (c :: ds, r) else ([], s)
  | [] => ([], [])
  end.

Definition hex_value (c : Ascii.ascii) : option Z :=
  if in_range 48 57 c then Some (code_of c - 48)
  else if in_range 97 102 c then Some (code_of c - 87)
  else if in_range 65 70 c then Some (code_of c - 55)
  else None.

(** The value of four hexadecimal digits. *)
Definition hex4 (a b c d : Ascii.ascii) : option Z :=
  match hex_value a, hex_value b, hex_value c, hex_value d with
  | Some x, Some y, Some z, Some w => Some (((x * 16 + y) * 16 + z) * 16 + w)
  | _, _, _, _ => None
  end.

(** ** Numbers: [-]int[frac][exp] *)

Definition scan_int (s : bytes) : option (bytes * bytes) :=
  match s with
  | c :: s' =>
      if code_of c =? 48 then Some ([c], s')
      else if is_digit c then Some (span_digits s) else None
  | [] => None
  end.

Definition scan_frac (s : bytes) : option (bytes * bytes) :=
  match s with
  | c :: s' =>
      if code_of c =? 46 then
        match span_digits s' with
        | ([], _) => None
        | (ds, r) => Some (c :: ds, r)
        end
      else Some ([], s)
  | [] => Some ([], [])
  end.

Definition scan_exp (s : bytes) : option (bytes * bytes) :=
  match s with
  | c :: s' =>
      if (code_of c =? 101) || (code_of c =? 69) then
        let '(sign, s'') :=
          match s' with
          | g :: t => if (code_of g =? 43) || (code_of g =? 45) then ([g], t) else ([], s')
          | [] => ([], s')
          end in
        match span_digits s'' with
        | ([], _) => None
        | (ds, r) => Some (c :: sign ++ ds, r)
        end
      else Some ([], s)
  | [] => Some ([], [])
  end.

Definition scan_unsigned (s : bytes) : option (bytes * bytes) :=
  match scan_int s with
  | None => None
  | Some (i, r1) =>
      match scan_frac r1 with
      | None => None
      | Some (f, r2) => match scan_exp r2 with None => None | Some (e, r3) => Some (i ++ f ++ e, r3) end
      end
  end.

Definition scan_number (s : bytes) : option (bytes * bytes) :=
  match s with
  | c :: s' =>
      if code_of c =? 45 then match scan_unsigned s' with Some (l, r) => Some (c :: l, r) | None => None end
      else scan_unsigned s
  | [] => None
  end.

(** ** Strings *)

(** The byte a two-character escape stands for. *)
Definition unescape (e : Ascii.ascii) : option Ascii.ascii :=
  let n := code_of e in
  if n =? 98 then Some (byte_of 8)
  else if n =? 102 then Some (byte_of 12)
  else if n =? 110 then Some (byte_of 10)
  else if n =? 114 then Some (byte_of 13)
  else if n =? 116 then Some (byte_of 9)
  else if (n =? 92) || (n =? 47) || (n =? 34) then Some e
  else None.

(** The body of a string literal up to its closing quote, as written, and what
    follows the quote. *)
Fixpoint scan_string (s : bytes) : option (bytes * bytes) :=
  match s with
  | [] => None
  | c :: s' =>
      if Ascii.eqb c c_quote then Some ([], s')
      else if Ascii.eqb c c_backslash then
        match s' with
        | [] => None
        | e :: s'' =>
            match unescape e with
            | Some _ => match scan_string s'' with Some (b, r) => Some (c :: e :: b, r) | None => None end
            | None =>
                if code_of e =? 117 then
                  match s'' with
                  | h1 :: h2 :: h3 :: h4 :: t =>
                      match hex4 h1 h2 h3 h4 with
                      | Some _ =>
                          match scan_string t with
                          | Some (b, r) => Some (c :: e :: h1 :: h2 :: h3 :: h4 :: b, r)
                          | None => None
                          end
                      | None => None
                      end
                  | _ => None
                  end
                else None
            end
        end
      else if code_of c <? 32 then None
      else match scan_string s' with Some (b, r) => Some (c :: b, r) | None => None end
  end.

(** The length of the well-formed UTF-8 sequence a text starts with
    ([utf8.DecodeRune]). *)
Definition cont (c : Ascii.ascii) : bool := in_range 128 191 c.

Definition rune_len (s : bytes) : option nat :=
  match s with
  | [] => None
  | a :: s' =>
      if code_of a <? 128 then Some 1%nat
      else if in_range 194 223 a then
        match s' with b :: _ => if cont b then Some 2%nat else None | [] => None end
      else if in_range 224 239 a then
        match s' with
        | b :: c :: _ =>
            let lo := if code_of a =? 224 then 160 else 128 in
            let hi := if code_of a =? 237 then 159 else 191 in
            if in_range lo hi b && cont c then Some 3%nat else None
        | _ => None
        end
      else if in_range 240 244 a then
        match s' with
        | b :: c :: d :: _ =>
            let lo := if code_of a =? 240 then 144 else 128 in
            let hi := if code_of a =? 244 then 143 else 191 in
            if in_range lo hi b && cont c && cont d then Some 4%nat else None
        | _ => None
        end
      else None
  end.

Definition replacement : bytes := [byte_of 239; byte_of 191; byte_of 189].

Definition is_surrogate (r : Z) : bool := (55296 <=? r) && (r <=? 57343).

(** [utf8.AppendRune]. *)
Definition encode_rune (r : Z) : bytes :=
  if r <? 128 then [byte_of r]
  else if r <? 2048 then [byte_of (192 + r / 64); byte_of (128 + r mod 64)]
  else if is_surrogate r || (1114111 <? r) then replacement
  else if r <? 65536 then
    [byte_of (224 + r / 4096); byte_of (128 + r / 64 mod 64); byte_of (128 + r mod 64)]
  else [byte_of (240 + r / 262144); byte_of (128 + r / 4096 mod 64); byte_of (128 + r / 64 mod 64);
        byte_of (128 + r mod 64)].

(** [utf16.DecodeRune]. *)
Definition surrogate_pair (hi lo : Z) : option Z :=
  if (55296 <=? hi) && (hi <? 56320) && (56320 <=? lo) && (lo <? 57344)
  then Some ((hi - 55296) * 1024 + (lo - 56320) + 65536) else None.

(** [unquoteBytes] on the body of a literal: escapes are replaced, lone surrogates
    and bytes that are no UTF-8 become U+FFFD. [pass] bytes of a sequence already
    recognised are copied first. *)
Fixpoint unquote (pass : nat) (s : bytes) : bytes :=
  match s with
  | [] => []
  | c :: s' =>
      match pass with
      | S k => c :: unquote k s'
      | O =>
          if Ascii.eqb c c_backslash then
            match s' with
            | [] => []
            | e :: s'' =>
                match unescape e with
                | Some x => x :: unquote 0 s''
                | None =>
                    match s'' with
                    | h1 :: h2 :: h3 :: h4 :: t =>
                        let r := default 0 (hex4 h1 h2 h3 h4) in
                        if is_surrogate r then
                          match t with
                          | b :: u :: g1 :: g2 :: g3 :: g4 :: t' =>
                              match (if Ascii.eqb b c_backslash && (code_of u =? 117)
                                     then hex4 g1 g2 g3 g4 ≫= surrogate_pair r else None) with
                              | Some p => encode_rune p ++ unquote 0 t'
                              | None => replacement ++ unquote 0 t
                              end
                          | _ => replacement ++ unquote 0 t
                          end
                        else encode_rune r ++ unquote 0 t
                    | _ => []
                    end
                end
            end
          else
            match rune_len s with
            | Some n => c :: unquote (n - 1) s'
            | None => replacement ++ unquote 0 s'
            end
      end
  end.

(** ** Writing strings *)

Definition hex_digit (n : Z) : Ascii.ascii := byte_of (if n <? 10 then 48 + n else 87 + n).

(** \u00XX. *)
Definition hex_escape (n : Z) : bytes :=
  [c_backslash; byte_of 117; byte_of 48; byte_of 48; hex_digit (n / 16); hex_digit (n mod 16)].

(** A single byte below 128, as [appendString] writes it with HTML escaping on. *)
Definition escape_byte (c : Ascii.ascii) : bytes :=
  let n := code_of c in
  if (n =? 34) || (n =? 92) then [c_backslash; c]
  else if n =? 8 then [c_backslash; byte_of 98]
  else if n =? 12 then [c_backslash; byte_of 102]
  else if n =? 10 then [c_backslash; byte_of 110]
  else if n =? 13 then [c_backslash; byte_of 114]
  else if n =? 9 then [c_backslash; byte_of 116]
  else if (n <? 32) || (n =? 60) || (n =? 62) || (n =? 38) then hex_escape n
  else [c].

Definition is_line_sep (s : bytes) : option Ascii.ascii :=
  match s with
  | a :: b :: c :: _ =>
      if (code_of a =? 226) && (code_of b =? 128) && ((code_of c =? 168) || (code_of c =? 169))
      then Some c else None
  | _ => None
  end.

(** \u2028 or \u2029. *)
Definition line_sep_escape (c : Ascii.ascii) : bytes :=
  [c_backslash; byte_of 117; byte_of 50; byte_of 48; byte_of 50; if code_of c =? 168 then byte_of 56 else byte_of 57].

(** The body of the literal for [s]; [pass] bytes are copied and [drop] bytes left
    out first. *)
Fixpoint quote_body (pass drop : nat) (s : bytes) : bytes :=
  match s with
  | [] => []
  | c :: s' =>
      match pass, drop with
      | S k, _ => c :: quote_body k 0 s'
      | O, S k => quote_body 0 k s'
      | O, O =>
          if code_of c <? 128 then escape_byte c ++ quote_body 0 0 s'
          else match is_line_sep s with
               | Some x => line_sep_escape x ++ quote_body 0 2 s'
               | None =>
                   match rune_len s with
                   | Some n => c :: quote_body (n - 1) 0 s'
                   | None =>
                       [c_backslash; byte_of 117; byte_of 102; byte_of 102; byte_of 102; byte_of 100] ++
                       quote_body 0 0 s'
                   end
               end
      end
  end.

(** ** Values *)

(** A number and a string are kept as written; a member of an object is its key as
    written, the text of its value and the value. *)
Inductive json : Type :=
| JNull
| JBool (b : bool)
| JNumber (lit : bytes)
| JString (body : bytes)
| JArray (l : list json)
| JObject (ms : list (bytes * (bytes * json))).

(** ** Parsing *)

Section loops.
(** The parser of a value that starts at the first byte. *)
Context (pv : bytes → option (json * bytes)).

Fixpoint parse_elems (fuel : nat) (s : bytes) : option (list json * bytes) :=
  match fuel with
  | O => None
  | S f =>
      match pv (skip_ws s) with
      | None => None
      | Some (v, r) =>
          match skip_ws r with
          | c :: r' =>
              if code_of c =? 44 then
                match parse_elems f r' with Some (vs, r'') => Some (v :: vs, r'') | None => None end
              else if code_of c =? 93 then Some ([v], r')
              else None
          | [] => None
          end
      end
  end.

Definition parse_array (fuel : nat) (s : bytes) : option (list json * bytes) :=
  match skip_ws s with
  | c :: r => if code_of c =? 93 then Some ([], r) else parse_elems fuel s
  | [] => None
  end.

(** One member: key, colon, value. *)
Definition parse_member (s : bytes) : option ((bytes * (bytes * json)) * bytes) :=
  match skip_ws s with
  | q :: s1 =>
      if negb (Ascii.eqb q c_quote) then None
      else match scan_string s1 with
           | None => None
           | Some (k, r) =>
               match skip_ws r with
               | c :: r1 =>
                   if negb (code_of c =? 58) then None
                   else let s2 := skip_ws r1 in
                        match pv s2 with
                        | None => None
                        | Some (v, r2) => Some ((k, (take (length s2 - length r2) s2, v)), r2)
                        end
               | [] => None
               end
           end
  | [] => None
  end.

Fixpoint parse_members (fuel : nat) (s : bytes) : option (list (bytes * (bytes * json)) * bytes) :=
  match fuel with
  | O => None
  | S f =>
      match parse_member s with
      | None => None
      | Some (m, r) =>
          match skip_ws r with
          | c :: r' =>
              if code_of c =? 44 then
                match parse_members f r' with Some (ms, r'') => Some (m :: ms, r'') | None => None end
              else if code_of c =? 125 then Some ([m], r')
              else None
          | [] => None
          end
      end
  end.

Definition parse_object (fuel : nat) (s : bytes) : option (list (bytes * (bytes * json)) * bytes) :=
  match skip_ws s with
  | c :: r => if code_of c =? 125 then Some ([], r) else parse_members fuel s
  | [] => None
  end.
End loops.

Definition t_true : bytes := String.list_ascii_of_string "true".
Definition t_false : bytes := String.list_ascii_of_string "false".
Definition t_null : bytes := String.list_ascii_of_string "null".

Definition parse_literal (s : bytes) : option (json * bytes) :=
  match strip_prefix t_true s, strip_prefix t_false s, strip_prefix t_null s with
  | Some r, _, _ => Some (JBool true, r)
  | _, Some r, _ => Some (JBool false, r)
  | _, _, Some r => Some (JNull, r)
  | _, _, _ => match scan_number s with Some (l, r) => Some (JNumber l, r) | None => None end
  end.

(** A value and the text after it; arrays and objects nest at most [depth] deep.
    The loops run on the length of the text, and every turn consumes some of it. *)
Fixpoint parse_value (depth : nat) (s : bytes) : option (json * bytes) :=
  match s with
  | [] => None
  | c :: s' =>
      if Ascii.eqb c c_quote then
        match scan_string s' with Some (b, r) => Some (JString b, r) | None => None end
      else if code_of c =? 91 then
        match depth with
        | O => None
        | S d => match parse_array (parse_value d) (length s) s' with
                 | Some (l, r) => Some (JArray l, r)
                 | None => None
                 end
        end
      else if code_of c =? 123 then
        match depth with
        | O => None
        | S d => match parse_object (parse_value d) (length s) s' with
                 | Some (l, r) => Some (JObject l, r)
                 | None => None
                 end
        end
      else parse_literal s
  end.

Definition maxNestingDepth : nat := Z.to_nat 10000.

(** What [Unmarshal] and [Valid] accept: one value and nothing else. *)
Definition parse (s : bytes) : option json :=
  match parse_value maxNestingDepth (skip_ws s) with
  | Some (v, r) => match skip_ws r with [] => Some v | _ => None end
  | None => None
  end.

Definition Valid (s : bytes) : bool := match parse s with Some _ => true | None => false end.

Definition is_compound (v : json) : bool :=
  match v with JArray _ | JObject _ | JString _ => true | _ => false end.

(** [NewDecoder(r).Decode]: the first value of the text, whatever follows it. When
    the reader fails after the text ([cut]), a value whose end is only known by
    what follows is not complete. *)
Definition decode_first (s : bytes) (cut : bool) : option json :=
  match parse_value maxNestingDepth (skip_ws s) with
  | Some (v, r) => match r with [] => if cut && negb (is_compound v) then None else Some v | _ => Some v end
  | None => None
  end.

(** ** Decoding into Go values *)

(** [foldName]: field names match without regard to case; U+017F folds to S and
    U+212A to K. *)
Fixpoint fold_name (s : bytes) : bytes :=
  match s with
  | [] => []
  | c :: s' =>
      if in_range 97 122 c then byte_of (code_of c - 32) :: fold_name s'
      else match s' with
           | d :: s'' =>
               if (code_of c =? 197) && (code_of d =? 191) then byte_of 83 :: fold_name s''
               else match s'' with
                    | e :: s3 =>
                        if (code_of c =? 226) && (code_of d =? 132) && (code_of e =? 170)
                        then byte_of 75 :: fold_name s3 else c :: fold_name s'
                    | [] => c :: fold_name s'
                    end
           | [] => c :: fold_name s'
           end
  end.

(** The [strconv.ParseInt] and [strconv.ParseUint] of a number literal: digits
    only, within 64 bits. *)
Fixpoint digits_value (acc : Z) (s : bytes) : option Z :=
  match s with
  | [] => Some acc
  | c :: s' => if is_digit c then digits_value (acc * 10 + (code_of c - 48)) s' else None
  end.

Definition parse_uint64 (s : bytes) : option Z :=
  match s with
  | [] => None
  | _ => match digits_value 0 s with
         | Some n => if n <? 2 ^ 64 then Some n else None
         | None => None
         end
  end.

Definition parse_int64 (s : bytes) : option Z :=
  match s with
  | [] => None
  | c :: s' =>
      let '(neg, ds) := if code_of c =? 45 then (true, s') else (false, s) in
      match ds with
      | [] => None
      | _ => match digits_value 0 ds with
             | Some n => let v := if neg : bool then - n else n in
                         if (min_i64 <=? v) && (v <=? max_i64) then Some v else None
             | None => None
             end
      end
  end.

(** A decoder takes the value to decode into, the text and the JSON value; null
    leaves a scalar as it is. *)
Definition decoder (A : Type) : Type := A → bytes → json → option A.

Definition dec_int : decoder Z := λ old _ v,
  match v with JNull => Some old | JNumber l => parse_int64 l | _ => None end.
Definition dec_uint : decoder Z := λ old _ v,
  match v with JNull => Some old | JNumber l => parse_uint64 l | _ => None end.
Definition dec_bool : decoder bool := λ old _ v,
  match v with JNull => Some old | JBool b => Some b | _ => None end.
Definition dec_string : decoder string := λ old _ v,
  match v with
  | JNull => Some old
  | JString b => Some (String.string_of_list_ascii (unquote 0 b))
  | _ => None
  end.
(** [json.RawMessage]: the text of the value, null included. *)
Definition dec_raw : decoder string := λ _ raw _, Some (String.string_of_list_ascii raw).

(** A struct's fields: the name in the tag and how a value is stored. *)
Definition fields (A : Type) : Type := list (bytes * decoder A).

Definition field {A B : Type} (name : string) (get : A → B) (set : B → A → A) (d : decoder B) : bytes * decoder A :=
  (String.list_ascii_of_string name,
   λ a raw v, match d (get a) raw v with Some b => Some (set b a) | None => None end).

Fixpoint find_field {A} (same : bytes → bool) (fs : fields A) : option (decoder A) :=
  match fs with
  | [] => None
  | (n, d) :: fs' => if same n then Some d else find_field same fs'
  end.

(** The exact name first, then one that differs in case only. *)
Definition lookup_field {A} (fs : fields A) (key : bytes) : option (decoder A) :=
  match find_field (λ n, bool_decide (n = key)) fs with
  | Some d => Some d
  | None => find_field (λ n, bool_decide (fold_name n = fold_name key)) fs
  end.

Definition decode_member {A} (fs : fields A) (acc : option A) (m : bytes * (bytes * json)) : option A :=
  match acc with
  | None => None
  | Some a =>
      match lookup_field fs (unquote 0 m.1) with
      | None => Some a
      | Some d => d a m.2.1 m.2.2
      end
  end.

(** An object into a struct: members in order, unknown ones ignored. *)
Definition decode_struct {A} (fs : fields A) : decoder A := λ a _ v,
  match v with
  | JNull => Some a
  | JObject ms => foldl (decode_member fs) (Some a) ms
  | _ => None
  end.

(** An array into a slice: an element is decoded into the one already there, or
    into [zero]. *)
Fixpoint decode_elems {A} (zero : A) (d : decoder A) (old : list A) (vs : list json) : option (list A) :=
  match vs with
  | [] => Some []
  | v :: vs' =>
      match d (default zero (head old)) [] v with
      | None => None
      | Some a => match decode_elems zero d (tail old) vs' with Some l => Some (a :: l) | None => None end
      end
  end.

(** null makes the slice nil. *)
Definition dec_slice {A} (zero : A) (d : decoder A) : decoder (list A) := λ old _ v,
  match v with
  | JNull => Some []
  | JArray vs => decode_elems zero d old vs
  | _ => None
  end.

(** What a caller cannot compute here: the error for a text that is rejected (the
    flag tells that the reader failed after the text), and [time.Parse] on texts
    outside the strict RFC 3339 grammar. *)
Class JsonEnv : Type := {
  json_error : string → bool → err;
  time_Parse : bytes → option Z;
}.

(** [json.Unmarshal] into [zero]. *)
Definition Unmarshal {JE : JsonEnv} {A} (d : decoder A) (zero : A) (data : string) : result err A :=
  match parse (String.list_ascii_of_string data) ≫= d zero [] with
  | Some a => Ok a
  | None => Err (json_error data false)
  end.

(** [json.NewDecoder(r).Decode] into [zero]. *)
Definition Decode {JE : JsonEnv} {A} (d : decoder A) (zero : A) (data : string) (cut : bool) : result err A :=
  match decode_first (String.list_ascii_of_string data) cut ≫= d zero [] with
  | Some a => Ok a
  | None => Err (json_error data cut)
  end.

(** ** Printing *)

Definition intersperse (sep : bytes) (l : list bytes) : bytes :=
  match l with
  | [] => []
  | x :: l' => x ++ mjoin ((λ y, sep ++ y) <$> l')
  end.

(** The compact text [Marshal] writes for a tree. *)
Fixpoint print (v : json) : bytes :=
  match v with
  | JNull => t_null
  | JBool true => t_true
  | JBool false => t_false
  | JNumber l => l
  | JString b => c_quote :: b ++ [c_quote]
  | JArray l => byte_of 91 :: intersperse [byte_of 44] (print <$> l) ++ [byte_of 93]
  | JObject ms =>
      byte_of 123 ::
      intersperse [byte_of 44] ((λ m, c_quote :: m.1 ++ c_quote :: byte_of 58 :: print m.2.2) <$> ms) ++
      [byte_of 125]
  end.

(** The text of a tree as a Go value of type []byte. *)
Definition text_of (v : json) : string := String.string_of_list_ascii (print v).

Definition jstr (s : string) : json := JString (quote_body 0 0 (String.list_ascii_of_string s)).

(** The member [name: v] of an object that is printed. *)
Definition jmember (name : string) (v : json) : bytes * (bytes * json) :=
  (quote_body 0 0 (String.list_ascii_of_string name), (print v, v)).

(** Decimal digits, least significant first; twenty are enough for 64 bits. *)
Fixpoint digits_rev (fuel : nat) (n : Z) : bytes :=
  match fuel with
  | O => []
  | S f => byte_of (48 + n mod 10) :: (if n / 10 =? 0 then [] else digits_rev f (n / 10))
  end.

Definition juint (n : Z) : json := JNumber (reverse (digits_rev 20 n)).
Definition jint (n : Z) : json :=
  if n <? 0 then JNumber (byte_of 45 :: reverse (digits_rev 20 (- n))) else juint n.

(** ** Lemmas: strings *)

(** Well-formed UTF-8, after [pass] bytes of a sequence already begun. *)
Fixpoint utf8_ok (pass : nat) (s : bytes) : bool :=
  match s with
  | [] => Nat.eqb pass 0
  | c :: s' =>
      match pass with
      | S k => cont c && utf8_ok k s'
      | O => match rune_len s with Some n => utf8_ok (n - 1) s' | None => false end
      end
  end.

Lemma code_byte n : 0 ≤ n < 256 → code_of (byte_of n) = n.
Proof. intros H. unfold code_of, byte_of. rw Ascii.nat_ascii_embedding; lia. Qed.

Lemma code_range c : 0 ≤ code_of c < 256.
Proof. unfold code_of. pose proof (Ascii.nat_ascii_bounded c). lia. Qed.

Lemma code_inj c d : code_of c = code_of d → c = d.
Proof.
  unfold code_of. intros H.
  assert (Ascii.nat_of_ascii c = Ascii.nat_of_ascii d) as E by lia.
  rw -(Ascii.ascii_nat_embedding c) -(Ascii.ascii_nat_embedding d). by f_equal.
Qed.

Lemma in_range_true lo hi c : in_range lo hi c = true ↔ lo ≤ code_of c ≤ hi.
Proof. unfold in_range. lia. Qed.

(** The bytes that make a sequence well formed are looked at and no others. *)
Lemma rune_len_local c s t n :
  rune_len (c :: s) = Some n → rune_len (c :: take (n - 1) s ++ t) = Some n.
Proof.
  unfold rune_len. intros H.
  repeat (case_match; simplify_eq/=; try done).
Qed.

Lemma rune_len_bound s n : rune_len s = Some n → (1 ≤ n ≤ length s)%nat ∧ (n ≤ 4)%nat.
Proof.
  unfold rune_len. destruct s as [|a s]; [done|]. intros H.
  repeat (case_match; simplify_eq/=); lia.
Qed.

(** A byte below 128 is written so that it is read back. *)
Lemma escape_byte_unquote c t : code_of c < 128 → unquote 0 (escape_byte c ++ t) = c :: unquote 0 t.
Proof.
  destruct c as [[] [] [] [] [] [] [] []]; intros H; first [exfalso; by vm_compute in H|reflexivity].
Qed.

Lemma escape_byte_scan c t :
  code_of c < 128 →
  scan_string (escape_byte c ++ t) = (λ br, (escape_byte c ++ br.1, br.2)) <$> scan_string t.
Proof.
  destruct c as [[] [] [] [] [] [] [] []]; intros H;
    first [exfalso; by vm_compute in H|simpl; by destruct (scan_string t) as [[b r]|]].
Qed.

Lemma line_sep_inv s c : is_line_sep s = Some c → ∃ t, s = byte_of 226 :: byte_of 128 :: c :: t ∧
  (c = byte_of 168 ∨ c = byte_of 169).
Proof.
  unfold is_line_sep. destruct s as [|a [|b [|x t]]]; try done. intros H. case_match; [|done]. simplify_eq.
  apply andb_true_iff in H0 as [[Ha Hb]%andb_true_iff Hc%orb_true_iff]. reflect_bools.
  exists t. split; [by rw (code_inj a (byte_of 226)) // (code_inj b (byte_of 128))|].
  destruct Hc as [Hc|Hc]; reflect_bools; [left|right]; by apply code_inj.
Qed.

Lemma line_sep_unquote c t :
  c = byte_of 168 ∨ c = byte_of 169 →
  unquote 0 (line_sep_escape c ++ t) = byte_of 226 :: byte_of 128 :: c :: unquote 0 t.
Proof. by intros [-> | ->]. Qed.

Lemma line_sep_scan c t :
  c = byte_of 168 ∨ c = byte_of 169 →
  scan_string (line_sep_escape c ++ t) = (λ br, (line_sep_escape c ++ br.1, br.2)) <$> scan_string t.
Proof. intros [-> | ->]; simpl; by destruct (scan_string t) as [[b r]|]. Qed.

Lemma quote_body_pass k s : quote_body k 0 s = take k s ++ quote_body 0 0 (drop k s).
Proof.
  revert k. induction s as [|c s IH]; intros [|k]; try done. simpl. by rw IH.
Qed.

Lemma utf8_ok_pass k s :
  utf8_ok k s = true → (k ≤ length s)%nat ∧ Forall (λ c, cont c = true) (take k s) ∧ utf8_ok 0 (drop k s) = true.
Proof.
  revert k. induction s as [|c s IH]; intros [|k] H;
    [done|done|split; [lia|split; [constructor|done]]|]. simpl in *.
  apply andb_true_iff in H as [Hc H]. destruct (IH _ H) as (? & ? & ?). split; [lia|]. split; [|done].
  by constructor.
Qed.

Lemma unquote_pass l t :
  unquote (length l) (l ++ t) = l ++ unquote 0 t.
Proof. induction l as [|c l IH]; [by destruct t|]. simpl. by rw IH. Qed.

Lemma scan_string_high l t :
  Forall (λ c, 128 ≤ code_of c) l →
  scan_string (l ++ t) = (λ br, (l ++ br.1, br.2)) <$> scan_string t.
Proof.
  induction 1 as [|c l Hc _ IH]; simpl; [by destruct (scan_string t) as [[b r]|]|].
  destruct (Ascii.eqb_spec c c_quote) as [->|_]; [by vm_compute in Hc|].
  destruct (Ascii.eqb_spec c c_backslash) as [->|_]; [by vm_compute in Hc|].
  replace (code_of c <? 32) with false by lia. rw IH. by destruct (scan_string t) as [[b r]|].
Qed.

(** What one step of [quote_body] on well-formed text does. *)
Lemma quote_step c s n :
  rune_len (c :: s) = Some n →
  ∃ e, quote_body 0 0 (c :: s) = e ++ quote_body 0 0 (drop (n - 1) s) ∧
    (∀ t, utf8_ok (n - 1) s = true → unquote 0 (e ++ t) = c :: take (n - 1) s ++ unquote 0 t) ∧
    (∀ t, utf8_ok (n - 1) s = true → scan_string (e ++ t) = (λ br, (e ++ br.1, br.2)) <$> scan_string t).
Proof.
  intros Hn. cbn [quote_body]. destruct (Z.ltb_spec (code_of c) 128) as [Hc|Hc].
  - assert (n = 1%nat) as -> by (unfold rune_len in Hn; replace (code_of c <? 128) with true in Hn by lia; congruence).
    exists (escape_byte c). split; [done|]. split; intros t _; [by apply escape_byte_unquote|by apply escape_byte_scan].
  - destruct (is_line_sep (c :: s)) as [x|] eqn:El.
    + apply line_sep_inv in El as (t & Heq & Hx). simplify_eq.
      assert (n = 3%nat) as ->.
      { destruct Hx as [-> | ->]; vm_compute in Hn; congruence. }
      exists (line_sep_escape x). split; [by destruct t|]. split; intros t' _; [by apply line_sep_unquote|by apply line_sep_scan].
    + rw Hn. exists (c :: take (n - 1) s). split; [by rw quote_body_pass|]. split; intros t Hok.
      * destruct (utf8_ok_pass _ _ Hok) as (Hlen & _). cbn [unquote app].
        destruct (Ascii.eqb_spec c c_backslash) as [->|_]; [by vm_compute in Hc|].
        pose proof (rune_len_local c s t n Hn) as Hl. rw Hl.
        rw -{1}(length_take_le s (n - 1) Hlen). by rw unquote_pass.
      * destruct (utf8_ok_pass _ _ Hok) as (_ & Hcont & _). apply (scan_string_high (c :: take (n - 1) s)).
        constructor; [done|]. eapply Forall_impl; [exact Hcont|]. intros d Hd. apply in_range_true in Hd. lia.
Qed.

(** A well-formed text survives being written and read. *)
Lemma quote_unquote s t :
  utf8_ok 0 s = true →
  unquote 0 (quote_body 0 0 s ++ t) = s ++ unquote 0 t ∧
  scan_string (quote_body 0 0 s ++ t) = (λ br, (quote_body 0 0 s ++ br.1, br.2)) <$> scan_string t.
Proof.
  revert t. induction s as [s IH] using (well_founded_induction (well_founded_ltof _ (@length _))). intros t Hok.
  destruct s as [|c s]; [simpl; by destruct (scan_string t) as [[b r]|]|].
  assert (∃ n, rune_len (c :: s) = Some n ∧ utf8_ok (n - 1) s = true) as (n & Hn & Hok').
  { cbn [utf8_ok] in Hok. destruct (rune_len (c :: s)) as [n|]; [by exists n|done]. }
  destruct (quote_step c s n Hn) as (e & -> & Hu & Hs). rw -!app_assoc.
  destruct (utf8_ok_pass _ _ Hok') as (Hlen & _ & Hrest).
  destruct (IH (drop (n - 1) s)) with (t := t) as [IHu IHs]; [unfold ltof; rw length_drop; simpl; lia|done|].
  rw (Hu _ Hok') (Hs _ Hok') IHu IHs. split.
  - simpl. by rw app_assoc take_drop.
  - destruct (scan_string t) as [[b r]|]; [simpl; by rw !app_assoc|done].
Qed.

#[local] Arguments rune_len _ : simpl never.

(** One encoded character in front of a text. *)
Definition chunk (l : bytes) : Prop :=
  match l with
  | [] => False
  | c :: t => rune_len l = Some (length l) ∧ Forall (λ d, cont d = true) t
  end.

Lemma utf8_ok_cont l t : Forall (λ d, cont d = true) l → utf8_ok (length l) (l ++ t) = utf8_ok 0 t.
Proof. induction 1 as [|c l Hc _ IH]; [by destruct t|]. simpl. by rw Hc IH. Qed.

Lemma utf8_ok_chunk l t : chunk l → utf8_ok 0 (l ++ t) = utf8_ok 0 t.
Proof.
  destruct l as [|c l]; [done|]. intros [Hn Hl]. pose proof (rune_len_local c l t _ Hn) as Hn'.
  simpl in Hn'. rw Nat.sub_0_r firstn_all in Hn'. cbn [app utf8_ok]. rw Hn'. simpl. rw Nat.sub_0_r.
  by apply utf8_ok_cont.
Qed.

Lemma rune_len_cont c s n :
  rune_len (c :: s) = Some n → Forall (λ d, cont d = true) (take (n - 1) s) ∧ chunk (c :: take (n - 1) s).
Proof.
  intros Hn. assert (Forall (λ d, cont d = true) (take (n - 1) s)) as Hc.
  { unfold rune_len in Hn. repeat (case_match; simplify_eq/=); rw ?take_0; repeat (apply Forall_cons_2); try apply Forall_nil_2; try done;
      repeat match goal with H : _ && _ = true |- _ => apply andb_true_iff in H as [? ?] end; try done;
      match goal with H : in_range _ _ ?x = true |- cont ?x = true => apply in_range_true in H end;
      apply in_range_true; repeat case_match; lia. }
  split; [done|]. split; [|done]. pose proof (rune_len_bound _ _ Hn) as [Hb _].
  pose proof (rune_len_local c s [] n Hn) as Hl. rw app_nil_r in Hl. rw Hl. f_equal. simpl in *.
  rw length_take. lia.
Qed.

Lemma hex_value_range c x : hex_value c = Some x → 0 ≤ x < 16.
Proof.
  unfold hex_value. repeat (case_match; simplify_eq);
    repeat match goal with H : in_range _ _ _ = true |- _ => apply in_range_true in H end; intros; simplify_eq; lia.
Qed.

Lemma hex4_range a b c d r : hex4 a b c d = Some r → 0 ≤ r < 65536.
Proof.
  unfold hex4. intros H. repeat (case_match; simplify_eq).
  repeat match goal with H : hex_value _ = Some _ |- _ => apply hex_value_range in H end. lia.
Qed.

Lemma cont_byte n : 0 ≤ n < 64 → cont (byte_of (128 + n)) = true.
Proof. intros H. apply in_range_true. rw code_byte; lia. Qed.

Lemma encode_rune_chunk r : 0 ≤ r → r < 1114112 → chunk (encode_rune r).
Proof.
  intros H0 H1. unfold encode_rune.
  destruct (Z.ltb_spec r 128).
  { split; [|constructor]. unfold rune_len. rw code_byte; [|lia]. by replace (r <? 128) with true by lia. }
  destruct (Z.ltb_spec r 2048).
  { assert (0 ≤ r mod 64 < 64) by (apply Z.mod_pos_bound; lia). split.
    - unfold rune_len. rw code_byte; [|Z.to_euclidean_division_equations; lia].
      replace (192 + r / 64 <? 128) with false by (Z.to_euclidean_division_equations; lia).
      replace (in_range 194 223 (byte_of (192 + r / 64))) with true.
      + by rw cont_byte.
      + symmetry. apply in_range_true. rw code_byte; Z.to_euclidean_division_equations; lia.
    - constructor; [by apply cont_byte|constructor]. }
  destruct (is_surrogate r) eqn:Hs; [simpl; split; [done|by repeat constructor]|].
  replace (1114111 <? r) with false by lia. simpl.
  unfold is_surrogate in Hs.
  assert (0 ≤ r mod 64 < 64) as Hm1 by (apply Z.mod_pos_bound; lia).
  assert (0 ≤ (r / 64) mod 64 < 64) as Hm2 by (apply Z.mod_pos_bound; lia).
  destruct (Z.ltb_spec r 65536).
  { split; [|repeat constructor; by apply cont_byte].
    unfold rune_len. rw code_byte; [|Z.to_euclidean_division_equations; lia].
    replace (224 + r / 4096 <? 128) with false by (Z.to_euclidean_division_equations; lia).
    replace (in_range 194 223 (byte_of (224 + r / 4096))) with false.
    2:{ symmetry. apply not_true_iff_false. rw in_range_true. rw code_byte; Z.to_euclidean_division_equations; lia. }
    replace (in_range 224 239 (byte_of (224 + r / 4096))) with true.
    2:{ symmetry. rw in_range_true. rw code_byte; Z.to_euclidean_division_equations; lia. }
    rw (cont_byte (r mod 64)); [|done]. rw andb_true_r.
    match goal with |- context [in_range ?lo ?hi ?x] => assert (in_range lo hi x = true) as -> end; [|done].
    apply in_range_true. rw code_byte; [|lia].
    destruct (Z.eqb_spec (224 + r / 4096) 224), (Z.eqb_spec (224 + r / 4096) 237);
      Z.to_euclidean_division_equations; lia. }
  assert (0 ≤ (r / 4096) mod 64 < 64) as Hm3 by (apply Z.mod_pos_bound; lia).
  split; [|repeat constructor; by apply cont_byte].
  unfold rune_len. rw code_byte; [|Z.to_euclidean_division_equations; lia].
  replace (240 + r / 262144 <? 128) with false by (Z.to_euclidean_division_equations; lia).
  replace (in_range 194 223 (byte_of (240 + r / 262144))) with false.
  2:{ symmetry. apply not_true_iff_false. rw in_range_true. rw code_byte; Z.to_euclidean_division_equations; lia. }
  replace (in_range 224 239 (byte_of (240 + r / 262144))) with false.
  2:{ symmetry. apply not_true_iff_false. rw in_range_true. rw code_byte; Z.to_euclidean_division_equations; lia. }
  replace (in_range 240 244 (byte_of (240 + r / 262144))) with true.
  2:{ symmetry. rw in_range_true. rw code_byte; Z.to_euclidean_division_equations; lia. }
  rw (cont_byte (r mod 64)); [|done]. rw (cont_byte ((r / 64) mod 64)); [|done]. rw !andb_true_r.
  match goal with |- context [in_range ?lo ?hi ?x] => assert (in_range lo hi x = true) as -> end; [|done].
  apply in_range_true. rw code_byte; [|lia].
  destruct (Z.eqb_spec (240 + r / 262144) 240), (Z.eqb_spec (240 + r / 262144) 244);
    Z.to_euclidean_division_equations; lia.
Qed.

Lemma unescape_chunk e x : unescape e = Some x → chunk [x].
Proof.
  destruct e as [[] [] [] [] [] [] [] []]; intros H; vm_compute in H; simplify_eq; by split.
Qed.

Lemma replacement_chunk : chunk replacement.
Proof. split; [done|by repeat constructor]. Qed.

Lemma surrogate_pair_range hi lo p : surrogate_pair hi lo = Some p → 65536 ≤ p < 1114112.
Proof. unfold surrogate_pair. case_match; [|done]. intros [= <-]. lia. Qed.

(** Whatever a literal holds, what it stands for is well-formed. *)
Lemma unquote_utf8 b : utf8_ok 0 (unquote 0 b) = true.
Proof.
  induction b as [b IH] using (well_founded_induction (well_founded_ltof _ (@length _))).
  assert (∀ l t, chunk l → (length t < length b)%nat → utf8_ok 0 (l ++ unquote 0 t) = true) as Hstep.
  { intros l t Hl Ht. rw utf8_ok_chunk; [|done]. by apply IH. }
  destruct b as [|c s]; [done|]. cbn [unquote].
  destruct (Ascii.eqb c c_backslash).
  - destruct s as [|e s]; [done|]. destruct (unescape e) as [x|] eqn:He.
    { apply (Hstep [x]); [by eapply unescape_chunk|simpl; lia]. }
    destruct s as [|h1 [|h2 [|h3 [|h4 t]]]]; try done. simpl in Hstep.
    set (r := default 0 (hex4 h1 h2 h3 h4)).
    assert (0 ≤ r < 65536) as Hr.
    { unfold r. destruct (hex4 h1 h2 h3 h4) eqn:Hh; [by eapply hex4_range|simpl; lia]. }
    destruct (is_surrogate r) eqn:Hsur.
    + assert (utf8_ok 0 (replacement ++ unquote 0 t) = true) as Hrep.
      { apply Hstep; [apply replacement_chunk|lia]. }
      destruct t as [|b0 [|u [|g1 [|g2 [|g3 [|g4 t']]]]]]; try done.
      case_match eqn:Hp; [|done]. apply Hstep; [|simpl; lia].
      destruct (Ascii.eqb b0 c_backslash && (code_of u =? 117)); [|done].
      apply bind_Some in Hp as (lo & _ & Hp). apply surrogate_pair_range in Hp. apply encode_rune_chunk; lia.
    + apply Hstep; [apply encode_rune_chunk; lia|lia].
  - destruct (rune_len (c :: s)) as [n|] eqn:Hn.
    + destruct (rune_len_cont c s n Hn) as [_ Hch]. pose proof (rune_len_bound _ _ Hn) as [Hb _]. simpl in Hb.
      rw -(take_drop (n - 1) s). replace (n - 1)%nat with (length (take (n - 1) s)) at 1 by (rw length_take; lia).
      rw unquote_pass. apply (Hstep (c :: take (n - 1) s)); [done|]. rw length_drop. simpl. lia.
    + apply Hstep; [apply replacement_chunk|simpl; lia].
Qed.

(** ** Lemmas: numbers *)

Lemma digit_code n : code_of (byte_of (48 + n mod 10)) = 48 + n mod 10.
Proof. apply code_byte. pose proof (Z.mod_pos_bound n 10). lia. Qed.

Lemma is_digit_byte n : is_digit (byte_of (48 + n mod 10)) = true.
Proof. apply in_range_true. rw digit_code. pose proof (Z.mod_pos_bound n 10). lia. Qed.

Lemma digits_value_app acc s t :
  digits_value acc (s ++ t) = digits_value acc s ≫= λ a, digits_value a t.
Proof. revert acc. induction s as [|c s IH]; intros acc; [done|]. simpl. by destruct (is_digit c). Qed.

(** The digits of a number: all digits, the first one not zero unless it is the
    only one, and they stand for the number. *)
Lemma digits_rev_spec f n :
  0 ≤ n < 10 ^ Z.of_nat (S f) →
  let ds := reverse (digits_rev (S f) n) in
  digits_value 0 ds = Some n ∧ Forall (λ c, is_digit c = true) ds ∧
  ∃ c t, ds = c :: t ∧ (code_of c = 48 → t = []).
Proof.
  revert n. induction f as [|f IH]; intros n Hn; cbn zeta.
  - assert (n / 10 = 0) as Hd by (apply Z.div_small; lia). assert (n mod 10 = n) as Hm by (apply Z.mod_small; lia).
    cbn [digits_rev]. rw Hd. simpl. rw is_digit_byte digit_code Hm.
    split; [f_equal; lia|]. split; [constructor; [rw -{1}Hm; apply is_digit_byte|constructor]|].
    eexists _, []. by split.
  - cbn [digits_rev]. cbn [digits_rev] in IH. destruct (Z.eqb_spec (n / 10) 0) as [Hd|Hd].
    + assert (n mod 10 = n) as Hm by (pose proof (Z.div_mod n 10); lia).
      simpl. rw is_digit_byte digit_code Hm. split; [f_equal; lia|].
      split; [constructor; [rw -{1}Hm; apply is_digit_byte|constructor]|]. eexists _, []. by split.
    + destruct (IH (n / 10)) as (Hv & Hf & c & t & Heq & Hz).
      { split; [apply Z.div_pos; lia|]. apply Z.div_lt_upper_bound; [lia|].
        rw (Nat2Z.inj_succ (S f)) Z.pow_succ_r in Hn; lia. }
      rw reverse_cons. rw Heq in Hv Hf |- *. split.
      { rw digits_value_app Hv. simpl. rw is_digit_byte digit_code. f_equal. pose proof (Z.div_mod n 10). lia. }
      split; [apply Forall_app; split; [done|constructor; [apply is_digit_byte|constructor]]|].
      exists c, (t ++ [byte_of (48 + n mod 10)]). split; [done|]. intros Hc. specialize (Hz Hc) as ->.
      simpl in Hv. rw Hc in Hv. destruct (is_digit c); by simplify_eq.
Qed.

(** A text that cannot continue a number. *)
Definition stops (r : bytes) : Prop :=
  match r with
  | [] => True
  | c :: _ => is_digit c = false ∧ code_of c ≠ 46 ∧ code_of c ≠ 101 ∧ code_of c ≠ 69
  end.

Lemma span_digits_stops s ds t r :
  stops r → span_digits s = (ds, t) → span_digits (s ++ r) = (ds, t ++ r).
Proof.
  intros Hr. revert ds t. induction s as [|c s IH]; intros ds t H; simpl in *.
  - simplify_eq. destruct r as [|c r]; [done|]. destruct Hr as [Hd _]. simpl. by rw Hd.
  - destruct (is_digit c); [|by simplify_eq]. destruct (span_digits s) as [ds' t']. simplify_eq.
    by rw (IH ds' t).
Qed.

Lemma scan_int_stops s i t r : stops r → scan_int s = Some (i, t) → scan_int (s ++ r) = Some (i, t ++ r).
Proof.
  intros Hr. unfold scan_int. destruct s as [|c s]; [done|]. simpl. destruct (code_of c =? 48); [intros; by simplify_eq|].
  destruct (is_digit c); [|done]. destruct (span_digits s) as [ds t'] eqn:Hs. intros; simplify_eq.
  by rw (span_digits_stops s ds t r).
Qed.

Lemma scan_frac_stops s i t r : stops r → scan_frac s = Some (i, t) → scan_frac (s ++ r) = Some (i, t ++ r).
Proof.
  intros Hr. unfold scan_frac. destruct s as [|c s]; simpl.
  - intros; simplify_eq. destruct r as [|c r]; [done|]. destruct Hr as (_ & H & _).
    by replace (code_of c =? 46) with false by lia.
  - destruct (code_of c =? 46); [|intros; by simplify_eq].
    destruct (span_digits s) as [ds t'] eqn:Hs. rw (span_digits_stops s ds t' r) //.
    destruct ds; intros; by simplify_eq.
Qed.

Lemma scan_exp_stops s i t r : stops r → scan_exp s = Some (i, t) → scan_exp (s ++ r) = Some (i, t ++ r).
Proof.
  intros Hr. unfold scan_exp. destruct s as [|c s]; simpl.
  - intros; simplify_eq. destruct r as [|c r]; [done|]. destruct Hr as (_ & _ & H1 & H2).
    by replace ((code_of c =? 101) || (code_of c =? 69)) with false by lia.
  - destruct ((code_of c =? 101) || (code_of c =? 69)); [|intros; by simplify_eq].
    destruct s as [|g s]; [done|]. cbn [app]. destruct ((code_of g =? 43) || (code_of g =? 45)).
    + destruct (span_digits s) as [ds t'] eqn:Hs. rw (span_digits_stops s ds t' r) //.
      destruct ds; intros; by simplify_eq.
    + destruct (span_digits (g :: s)) as [ds t'] eqn:Hs.
      pose proof (span_digits_stops (g :: s) ds t' r Hr Hs) as Hs'. cbn [app] in Hs'. rw Hs'.
      destruct ds; intros; by simplify_eq.
Qed.

Lemma scan_unsigned_stops s l t r :
  stops r → scan_unsigned s = Some (l, t) → scan_unsigned (s ++ r) = Some (l, t ++ r).
Proof.
  intros Hr. unfold scan_unsigned. destruct (scan_int s) as [[i r1]|] eqn:H1; [|done].
  rw (scan_int_stops s i r1 r) //. destruct (scan_frac r1) as [[f r2]|] eqn:H2; [|done].
  rw (scan_frac_stops r1 f r2 r) //. destruct (scan_exp r2) as [[e r3]|] eqn:H3; [|done].
  rw (scan_exp_stops r2 e r3 r) //. intros; by simplify_eq.
Qed.

Lemma scan_number_stops s l t r :
  stops r → scan_number s = Some (l, t) → scan_number (s ++ r) = Some (l, t ++ r).
Proof.
  intros Hr. unfold scan_number. destruct s as [|c s]; [done|]. simpl. destruct (code_of c =? 45).
  - destruct (scan_unsigned s) as [[l' t']|] eqn:H; [|done]. rw (scan_unsigned_stops s l' t' r) //.
    intros; by simplify_eq.
  - by apply (scan_unsigned_stops (c :: s)).
Qed.

Lemma span_digits_all ds : Forall (λ c, is_digit c = true) ds → span_digits ds = (ds, []).
Proof. induction 1 as [|c ds Hc _ IH]; [done|]. simpl. by rw Hc IH. Qed.

Lemma scan_unsigned_digits c t :
  Forall (λ c, is_digit c = true) (c :: t) → (code_of c = 48 → t = []) →
  scan_unsigned (c :: t) = Some (c :: t, []).
Proof.
  intros Hd Hz. unfold scan_unsigned, scan_int. destruct (Z.eqb_spec (code_of c) 48) as [Hc|_]; [by rw Hz|].
  rw (span_digits_all (c :: t)) //. destruct (is_digit c) eqn:H; [simpl; by rw app_nil_r|by inversion Hd; congruence].
Qed.

(** The literal of an integer is a number and stands for it. *)
Lemma juint_literal n :
  0 ≤ n < 2 ^ 64 → ∃ c t, reverse (digits_rev 20 n) = c :: t ∧ is_digit c = true ∧
    scan_number (c :: t) = Some (c :: t, []) ∧ digits_value 0 (c :: t) = Some n ∧ scan_unsigned (c :: t) = Some (c :: t, []).
Proof.
  intros Hn. destruct (digits_rev_spec 19 n) as (Hv & Hf & c & t & Heq & Hz); [change (Z.of_nat 20) with 20; lia|].
  rw Heq in Hv Hf. exists c, t. split; [exact Heq|].
  assert (is_digit c = true) as Hc by (by inversion Hf).
  assert (scan_unsigned (c :: t) = Some (c :: t, [])) as Hs by (by apply scan_unsigned_digits).
  split; [done|]. split; [|done]. unfold scan_number. apply in_range_true in Hc.
  by replace (code_of c =? 45) with false by lia.
Qed.

Lemma dec_uint_juint old raw n : 0 ≤ n < 2 ^ 64 → dec_uint old raw (juint n) = Some n.
Proof.
  intros Hn. destruct (juint_literal n Hn) as (c & t & Heq & _ & _ & Hv & _). unfold juint. rw Heq.
  cbn [dec_uint parse_uint64]. rw Hv.
  by replace (n <? 2 ^ 64) with true by lia.
Qed.

Lemma dec_int_jint old raw n : min_i64 ≤ n ≤ max_i64 → dec_int old raw (jint n) = Some n.
Proof.
  unfold min_i64, max_i64. intros Hn. unfold jint. destruct (Z.ltb_spec n 0) as [H|H].
  - destruct (juint_literal (- n)) as (c & t & Hj & _ & _ & Hv & _); [lia|]. rw Hj. cbn [dec_int parse_int64]. rw code_byte; [|lia]. rw Z.eqb_refl Hv.
    replace ((min_i64 <=? - - n) && (- - n <=? max_i64)) with true by (unfold min_i64, max_i64; lia). f_equal. lia.
  - destruct (juint_literal n) as (c & t & Heq & Hc & _ & Hv & _); [lia|]. unfold juint. rw Heq. cbn [dec_int parse_int64].
    apply in_range_true in Hc. replace (code_of c =? 45) with false by lia. rw Hv.
    by replace ((min_i64 <=? n) && (n <=? max_i64)) with true by (unfold min_i64, max_i64; lia).
Qed.

(** ** Lemmas: printing and parsing *)

Section json_induction.
Context (P : json → Prop).
Context (Hnull : P JNull) (Hbool : ∀ b, P (JBool b)) (Hnum : ∀ l, P (JNumber l)) (Hstr : ∀ b, P (JString b)).
Context (Harr : ∀ l, Forall P l → P (JArray l)).
Context (Hobj : ∀ ms, Forall (λ m : bytes * (bytes * json), P m.2.2) ms → P (JObject ms)).

Fixpoint json_nested_ind (v : json) : P v :=
  match v with
  | JNull => Hnull
  | JBool b => Hbool b
  | JNumber l => Hnum l
  | JString b => Hstr b
  | JArray l =>
      Harr l ((fix go (l : list json) : Forall P l :=
                 match l with
                 | [] => Forall_nil_2 _
                 | x :: l' => Forall_cons_2 _ _ _ (json_nested_ind x) (go l')
                 end) l)
  | JObject ms =>
      Hobj ms ((fix go (ms : list (bytes * (bytes * json))) : Forall (λ m, P m.2.2) ms :=
                  match ms with
                  | [] => Forall_nil_2 _
                  | m :: ms' => Forall_cons_2 _ _ _ (json_nested_ind m.2.2) (go ms')
                  end) ms)
  end.
End json_induction.

Definition literal_ok (b : bytes) : bool := bool_decide (scan_string (b ++ [c_quote]) = Some (b, [])).

(** A tree whose literals are literals, whose members carry their texts, and that
    nests at most [d] deep. *)
Fixpoint json_ok (v : json) (d : nat) : bool :=
  match v with
  | JNull | JBool _ => true
  | JNumber l => bool_decide (scan_number l = Some (l, []))
  | JString b => literal_ok b
  | JArray l => match d with O => false | S d' => forallb (λ x, json_ok x d') l end
  | JObject ms =>
      match d with
      | O => false
      | S d' => forallb (λ m, literal_ok m.1 && bool_decide (m.2.1 = print m.2.2) && json_ok m.2.2 d') ms
      end
  end.

Lemma scan_string_ext s b t r : scan_string s = Some (b, t) → scan_string (s ++ r) = Some (b, t ++ r).
Proof.
  revert b t. induction s as [s IH] using (well_founded_induction (well_founded_ltof _ (@length _))). intros b t.
  assert (∀ s' pre, (length s' < length s)%nat →
    (match scan_string s' with Some (b, r) => Some (pre ++ b, r) | None => None end) = Some (b, t) →
    (match scan_string (s' ++ r) with Some (b, r) => Some (pre ++ b, r) | None => None end) = Some (b, t ++ r)) as Hstep.
  { intros s' pre Hlen H. destruct (scan_string s') as [[b' t']|] eqn:E; [|done]. simplify_eq.
    by rw (IH s' Hlen b' t E). }
  destruct s as [|c s]; [done|]. cbn [scan_string app].
  destruct (Ascii.eqb c c_quote); [intros; by simplify_eq|].
  destruct (Ascii.eqb c c_backslash).
  - destruct s as [|e s]; [done|]. cbn [app]. destruct (unescape e); [apply (Hstep s [c; e]); simpl; lia|].
    destruct (code_of e =? 117); [|done]. destruct s as [|h1 [|h2 [|h3 [|h4 s]]]]; try done. cbn [app].
    destruct (hex4 h1 h2 h3 h4); [|done]. apply (Hstep s [c; e; h1; h2; h3; h4]). simpl. lia.
  - destruct (code_of c <? 32); [done|]. apply (Hstep s [c]). simpl. lia.
Qed.

Lemma literal_ok_scan b r : literal_ok b = true → scan_string (b ++ c_quote :: r) = Some (b, r).
Proof.
  intros H%bool_decide_eq_true. apply (scan_string_ext _ _ _ r) in H. by rw -app_assoc in H.
Qed.

Lemma quote_literal_ok s : utf8_ok 0 s = true → literal_ok (quote_body 0 0 s) = true.
Proof.
  intros H. apply bool_decide_eq_true. destruct (quote_unquote s [c_quote] H) as [_ ->]. simpl. by rw app_nil_r.
Qed.

Lemma skip_ws_head c s : is_ws c = false → skip_ws (c :: s) = c :: s.
Proof. intros H. simpl. by rw H. Qed.

(** The first byte of a printed value is none of the separators. *)
Lemma print_head v d :
  json_ok v d = true → ∃ c t, print v = c :: t ∧ is_ws c = false ∧ code_of c ≠ 93 ∧ code_of c ≠ 125.
Proof.
  destruct v as [|[]|l|b|l|ms]; cbn [print json_ok]; intros H; try (eexists _, _; split; [reflexivity|]; by vm_compute).
  apply bool_decide_eq_true in H. destruct l as [|c t]; [done|]. exists c, t. split; [done|].
  assert (code_of c = 45 ∨ is_digit c = true) as Hc.
  { unfold scan_number in H. destruct (Z.eqb_spec (code_of c) 45); [by left|right].
    unfold scan_unsigned, scan_int in H. destruct (Z.eqb_spec (code_of c) 48); [apply in_range_true; lia|].
    by destruct (is_digit c). }
  unfold is_ws. rw /is_digit in_range_true in Hc. lia.
Qed.

(** A value that is read back wherever it is printed. *)
Definition reads (d : nat) (v : json) : Prop :=
  json_ok v d = true → ∀ r, stops r → parse_value d (print v ++ r) = Some (v, r).

Lemma stops_sep c r : code_of c = 44 ∨ code_of c = 93 ∨ code_of c = 125 → stops (c :: r).
Proof.
  intros H. split; [|lia]. apply not_true_iff_false. unfold is_digit. rw in_range_true. lia.
Qed.

Lemma skip_ws_print v d r : json_ok v d = true → skip_ws (print v ++ r) = print v ++ r.
Proof. intros (c & t & -> & Hws & _)%print_head. rw -app_comm_cons. by apply skip_ws_head. Qed.

Lemma reads_elem d v c r :
  reads d v → json_ok v d = true → code_of c = 44 ∨ code_of c = 93 ∨ code_of c = 125 →
  parse_value d (skip_ws (print v ++ c :: r)) = Some (v, c :: r).
Proof. intros Hr Hok Hc. rw (skip_ws_print v d); [|done]. apply Hr; [done|]. by apply stops_sep. Qed.

Lemma parse_elems_print d x l fuel r :
  Forall (reads d) (x :: l) → forallb (λ x, json_ok x d) (x :: l) = true → (length l < fuel)%nat →
  parse_elems (parse_value d) fuel
    (print x ++ mjoin ((λ y, [byte_of 44] ++ y) <$> (print <$> l)) ++ byte_of 93 :: r) = Some (x :: l, r).
Proof.
  revert x fuel. induction l as [|y l IH]; intros x fuel Hr Hok Hf;
    (destruct fuel as [|fuel]; [simpl in Hf; lia|]); cbn [forallb] in Hok; reflect_bools;
    apply Forall_cons in Hr as [Hx Hl]; cbn [parse_elems].
  - cbn [fmap list_fmap mjoin list_join app]. rw reads_elem //. rw code_byte; lia.
  - rw !fmap_cons. cbn [mjoin list_join]. rw -!app_assoc. cbn [app].
    rw reads_elem //; [|rw code_byte; lia]. cbn [skip_ws]. 
    replace (is_ws (byte_of 44)) with false by done. replace (code_of (byte_of 44) =? 44) with true by done.
    specialize (IH y fuel Hl). cbn [forallb] in IH. rw IH; [done|by apply andb_true_iff|simpl in Hf; lia].
Qed.

(** A member as it is printed. *)
Definition print_member (m : bytes * (bytes * json)) : bytes := c_quote :: m.1 ++ c_quote :: byte_of 58 :: print m.2.2.

Definition member_ok (d : nat) (m : bytes * (bytes * json)) : bool :=
  literal_ok m.1 && bool_decide (m.2.1 = print m.2.2) && json_ok m.2.2 d.

Lemma parse_member_print d m c r :
  reads d m.2.2 → member_ok d m = true → code_of c = 44 ∨ code_of c = 93 ∨ code_of c = 125 →
  parse_member (parse_value d) (print_member m ++ c :: r) = Some (m, c :: r).
Proof.
  destruct m as [k [raw v]]. intros Hr Hok Hc. unfold member_ok in Hok. simpl in *.
  apply andb_true_iff in Hok as [[Hk Hraw]%andb_true_iff Hv]. apply bool_decide_eq_true in Hraw.
  unfold parse_member, print_member. cbn [app skip_ws fst snd].
  replace (is_ws c_quote) with false by done. rw Ascii.eqb_refl. simpl negb. cbv iota.
  rw -app_assoc. cbn [app]. rw literal_ok_scan //. cbn [skip_ws].
  replace (is_ws (byte_of 58)) with false by done. replace (code_of (byte_of 58) =? 58) with true by done.
  simpl negb. cbv iota. rw reads_elem //. rw (skip_ws_print v d) //. do 3 f_equal.
  rw Hraw length_app. f_equal. replace (length (print v) + length (c :: r) - length (c :: r))%nat with (length (print v)) by lia.
  apply take_app_length.
Qed.

Lemma parse_members_print d m ms fuel r :
  Forall (λ m : bytes * (bytes * json), reads d m.2.2) (m :: ms) → forallb (member_ok d) (m :: ms) = true →
  (length ms < fuel)%nat →
  parse_members (parse_value d) fuel
    (print_member m ++ mjoin ((λ y, [byte_of 44] ++ y) <$> (print_member <$> ms)) ++ byte_of 125 :: r) =
    Some (m :: ms, r).
Proof.
  revert m fuel. induction ms as [|y ms IH]; intros m fuel Hr Hok Hf;
    (destruct fuel as [|fuel]; [simpl in Hf; lia|]); cbn [forallb] in Hok; reflect_bools;
    apply Forall_cons in Hr as [Hx Hl]; cbn [parse_members].
  - cbn [fmap list_fmap mjoin list_join app]. rw parse_member_print //. rw code_byte; lia.
  - rw !fmap_cons. cbn [mjoin list_join]. rw -!app_assoc. cbn [app].
    rw parse_member_print //; [|rw code_byte; lia]. cbn [skip_ws].
    replace (is_ws (byte_of 44)) with false by done. replace (code_of (byte_of 44) =? 44) with true by done.
    specialize (IH y fuel Hl). cbn [forallb] in IH. rw IH; [done|by apply andb_true_iff|simpl in Hf; lia].
Qed.

Lemma intersperse_length {A} (p : A → bytes) sep l :
  (∀ x, x ∈ l → p x ≠ []) → (length l ≤ length (intersperse sep (p <$> l)))%nat.
Proof.
  destruct l as [|x l]; [done|]. intros H. cbn [intersperse fmap list_fmap length]. rw length_app.
  assert (1 ≤ length (p x))%nat by (destruct (p x) eqn:E; [by destruct (H x (list_elem_of_here _ _))|simpl; lia]).
  assert (length l ≤ length (mjoin ((λ y, sep ++ y) <$> (p <$> l))))%nat; [|lia].
  assert (∀ y, y ∈ l → p y ≠ []) as Hl by (intros; apply H; by constructor). clear H.
  induction l as [|y l IH]; [done|]. rw !fmap_cons. cbn [length mjoin list_join]. rw !length_app.
  assert (1 ≤ length (p y))%nat by (destruct (p y) eqn:E; [by destruct (Hl y (list_elem_of_here _ _))|simpl; lia]).
  ospecialize (IH _); [intros; apply Hl; by constructor|]. apply (Nat.add_le_mono 1 _ (length l)); [lia|exact IH].
Qed.

Lemma intersperse_fuel {A} (p : A → bytes) sep l c e r :
  (∀ x, x ∈ l → p x ≠ []) → (length l < length (c :: (intersperse sep (p <$> l) ++ e) ++ r))%nat.
Proof. intros H%(intersperse_length p sep). cbn [length]. rw !length_app. lia. Qed.

(** The loops of the parser get as many turns as the text has bytes. *)
Lemma print_array d l r :
  Forall (reads d) l → forallb (λ x, json_ok x d) l = true →
  parse_value (S d) (print (JArray l) ++ r) = Some (JArray l, r).
Proof.
  intros Hr Hok. cbn [print app parse_value].
  replace (Ascii.eqb (byte_of 91) c_quote) with false by done. replace (code_of (byte_of 91) =? 91) with true by done.
  assert (parse_array (parse_value d)
    (length (byte_of 91 :: (intersperse [byte_of 44] (print <$> l) ++ [byte_of 93]) ++ r))
    ((intersperse [byte_of 44] (print <$> l) ++ [byte_of 93]) ++ r) = Some (l, r)) as ->; [|done].
  destruct l as [|x l]; [done|]. pose proof Hok as [Hx _]%andb_true_iff.
  unfold parse_array. assert (length l < length (byte_of 91 :: (intersperse [byte_of 44] (print <$> x :: l) ++ [byte_of 93]) ++ r))%nat as Hlen.
  { etrans; [apply Nat.lt_succ_diag_r|]. apply (intersperse_fuel print _ (x :: l)). intros y Hy%list_elem_of_In.
    rw forallb_forall in Hok. by destruct (print_head y d (Hok y Hy)) as (c & t & -> & _). }
  set (fuel := length (byte_of 91 :: _)) in *. cbn [intersperse fmap list_fmap]. rw -!app_assoc.
  destruct (print_head x d Hx) as (c & t & Hp & Hws & H93 & _). rw {1}Hp. cbn [app skip_ws]. rw Hws.
  replace (code_of c =? 93) with false by lia. by apply parse_elems_print.
Qed.

Lemma print_object d ms r :
  Forall (λ m : bytes * (bytes * json), reads d m.2.2) ms → forallb (member_ok d) ms = true →
  parse_value (S d) (print (JObject ms) ++ r) = Some (JObject ms, r).
Proof.
  intros Hr Hok. cbn [print app parse_value]. change (λ m : bytes * (bytes * json), c_quote :: m.1 ++ _) with print_member.
  replace (Ascii.eqb (byte_of 123) c_quote) with false by done. replace (code_of (byte_of 123) =? 91) with false by done.
  replace (code_of (byte_of 123) =? 123) with true by done.
  assert (parse_object (parse_value d)
    (length (byte_of 123 :: (intersperse [byte_of 44] (print_member <$> ms) ++ [byte_of 125]) ++ r))
    ((intersperse [byte_of 44] (print_member <$> ms) ++ [byte_of 125]) ++ r) = Some (ms, r)) as ->; [|done].
  destruct ms as [|m ms]; [done|].
  unfold parse_object. assert (length ms < length (byte_of 123 :: (intersperse [byte_of 44] (print_member <$> m :: ms) ++ [byte_of 125]) ++ r))%nat as Hlen.
  { etrans; [apply Nat.lt_succ_diag_r|]. by apply (intersperse_fuel print_member _ (m :: ms)). }
  set (fuel := length (byte_of 123 :: _)) in *. cbn [intersperse fmap list_fmap]. rw -!app_assoc.
  unfold print_member at 1. cbn [app skip_ws]. replace (is_ws c_quote) with false by done.
  replace (code_of c_quote =? 125) with false by done.
  by apply parse_members_print.
Qed.

Lemma number_head l :
  scan_number l = Some (l, []) → ∃ c t, l = c :: t ∧ (code_of c = 45 ∨ 48 ≤ code_of c ≤ 57).
Proof.
  intros H. destruct l as [|c t]; [done|]. exists c, t. split; [done|].
  unfold scan_number in H. destruct (Z.eqb_spec (code_of c) 45); [by left|right].
  unfold scan_unsigned, scan_int in H. destruct (Z.eqb_spec (code_of c) 48); [lia|].
  destruct (is_digit c) eqn:E; [|done]. by apply in_range_true in E.
Qed.

Lemma parse_literal_number l r :
  scan_number l = Some (l, []) → stops r → parse_literal (l ++ r) = Some (JNumber l, r).
Proof.
  intros H Hr. apply (scan_number_stops _ _ _ r) in H as Hs; [|done]. cbn [app] in Hs.
  destruct (number_head l H) as (c & t & -> & Hc). unfold parse_literal. rw Hs. cbn [app].
  assert (∀ n w, n = 116 ∨ n = 102 ∨ n = 110 → strip_prefix (byte_of n :: w) (c :: t ++ r) = None) as Hnone.
  { intros n w Hn. cbn [strip_prefix]. case_decide as E; [|done].
    exfalso. subst c. rw code_byte in Hc; lia. }
  change t_true with (byte_of 116 :: tail t_true). change t_false with (byte_of 102 :: tail t_false).
  change t_null with (byte_of 110 :: tail t_null). rw !Hnone; auto.
Qed.

(** Every tree is read back from its text, whatever text follows it. *)
Lemma parse_value_print v d : reads d v.
Proof.
  revert d. induction v as [|b|l|b|l IH|ms IH] using json_nested_ind; intros d Hok r Hr.
  - destruct d; reflexivity.
  - destruct d, b; reflexivity.
  - cbn [json_ok] in Hok. apply bool_decide_eq_true in Hok. cbn [print].
    destruct (number_head l Hok) as (c & t & Hl & Hc). rw -(parse_literal_number l r) //.
    subst l. destruct d; cbn [app parse_value];
      (destruct (Ascii.eqb_spec c c_quote) as [->|_]; [change (code_of c_quote) with 34 in Hc; lia|]);
      by replace (code_of c =? 91) with false by lia; replace (code_of c =? 123) with false by lia.
  - cbn [print]. destruct d; cbn [app parse_value]; rw Ascii.eqb_refl -app_assoc; cbn [app]; by rw literal_ok_scan.
  - destruct d as [|d]; [done|]. apply print_array; [|done]. eapply Forall_impl; [exact IH|]. auto.
  - destruct d as [|d]; [done|]. apply print_object; [|done]. eapply Forall_impl; [exact IH|]. intros m H. apply H.
Qed.

Lemma parse_print v : json_ok v maxNestingDepth = true → parse (print v) = Some v.
Proof.
  intros Hok. unfold parse. pose proof (parse_value_print v maxNestingDepth Hok [] I) as H. rw app_nil_r in H.
  pose proof (skip_ws_print v maxNestingDepth [] Hok) as Hs. rw app_nil_r in Hs. by rw Hs H.
Qed.

(** What was printed is what is decoded. *)
Lemma Unmarshal_text {JE : JsonEnv} {A} (d : decoder A) zero v a :
  json_ok v maxNestingDepth = true → d zero [] v = Some a → Unmarshal d zero (text_of v) = Ok a.
Proof.
  intros Hok Hd. unfold Unmarshal, text_of. rw String.list_ascii_of_string_of_list_ascii parse_print //. cbn [mbind option_bind].
  by rw Hd.
Qed.

Lemma Decode_text {JE : JsonEnv} {A} (d : decoder A) zero v a :
  json_ok v maxNestingDepth = true → d zero [] v = Some a → Decode d zero (text_of v) false = Ok a.
Proof.
  intros Hok Hd. unfold Decode, text_of, decode_first. rw String.list_ascii_of_string_of_list_ascii.
  pose proof (parse_value_print v maxNestingDepth Hok [] I) as H. rw app_nil_r in H.
  pose proof (skip_ws_print v maxNestingDepth [] Hok) as Hs. rw app_nil_r in Hs. rw Hs H. cbn [andb mbind option_bind]. by rw Hd.
Qed.

(** Member by member. *)
Lemma decode_struct_member {A} (fs : fields A) a m ms d :
  lookup_field fs (unquote 0 m.1) = Some d →
  foldl (decode_member fs) (Some a) (m :: ms) = foldl (decode_member fs) (d a m.2.1 m.2.2) ms.
Proof. intros H. cbn [foldl decode_member]. by rw H. Qed.

(** A Go string that is well-formed UTF-8. *)
Definition utf8 (s : string) : Prop := utf8_ok 0 (String.list_ascii_of_string s) = true.

Lemma jstr_ok s d : utf8 s → json_ok (jstr s) d = true.
Proof. apply quote_literal_ok. Qed.

Lemma dec_string_jstr s old raw : utf8 s → dec_string old raw (jstr s) = Some s.
Proof.
  intros H. unfold dec_string, jstr. destruct (quote_unquote _ [] H) as [Hq _].
  rw !app_nil_r in Hq. by rw Hq String.string_of_list_ascii_of_string.
Qed.

Lemma juint_ok n d : 0 ≤ n < 2 ^ 64 → json_ok (juint n) d = true.
Proof.
  intros Hn. destruct (juint_literal n Hn) as (c & t & Heq & _ & Hs & _). unfold juint. rw Heq.
  cbn [json_ok]. by apply bool_decide_eq_true.
Qed.

(** A property every field keeps is kept by the struct. *)
Definition keeps {A} (P : A → Prop) (f : bytes * decoder A) : Prop :=
  ∀ a raw v a', P a → f.2 a raw v = Some a' → P a'.

Lemma field_keeps {A B} (P : A → Prop) name (get : A → B) set d :
  (∀ a raw v b, P a → d (get a) raw v = Some b → P (set b a)) → keeps P (field name get set d).
Proof. intros H a raw v a' Ha. cbn [field snd]. case_match eqn:E; [|done]. intros [= <-]. by eapply H. Qed.

Lemma decode_struct_inv {A} (P : A → Prop) (fs : fields A) a raw v a' :
  Forall (keeps P) fs → P a → decode_struct fs a raw v = Some a' → P a'.
Proof.
  intros Hfs Ha. unfold decode_struct. destruct v; try done; [by intros [= <-]|].
  assert (∀ same d, find_field same fs = Some d → ∃ n, (n, d) ∈ fs) as Hfind.
  { intros same d. clear. induction fs as [|[n d'] fs IH]; [done|]. simpl. case_match.
    - intros [= <-]. exists n. by constructor.
    - intros [n' Hn]%IH. exists n'. by constructor. }
  revert a Ha. induction ms as [|m ms IH]; intros a Ha; [by intros [= <-]|]. cbn [foldl decode_member].
  destruct (lookup_field fs (unquote 0 m.1)) as [d|] eqn:Hl; [|by apply IH].
  destruct (d a m.2.1 m.2.2) as [a1|] eqn:Hd.
  - apply IH. unfold lookup_field in Hl.
    destruct (find_field _ fs) eqn:E; simplify_eq; [apply Hfind in E as [n Hn]|apply Hfind in Hl as [n Hn]];
      rewrite ->Forall_forall in Hfs; by eapply (Hfs _ Hn).
  - intros H. assert (foldl (decode_member fs) None ms = None) as Hnone by (clear; by induction ms). congruence.
Qed.

Lemma dec_string_utf8 old raw v s : utf8 old → dec_string old raw v = Some s → utf8 s.
Proof.
  intros Ho. destruct v; try done; intros [= <-]; [done|].
  unfold utf8. rw String.list_ascii_of_string_of_list_ascii. apply unquote_utf8.
Qed.

Lemma jmember_ok name v d : utf8 name → json_ok v d = true → member_ok d (jmember name v) = true.
Proof.
  intros Hn Hv. unfold member_ok, jmember. cbn [fst snd]. rw quote_literal_ok // Hv bool_decide_true //.
Qed.

Lemma jobject_ok ms d : Forall (λ m, member_ok d m = true) ms → json_ok (JObject ms) (S d) = true.
Proof. intros H. cbn [json_ok]. apply forallb_forall. intros m Hm%list_elem_of_In. by eapply Forall_forall in H. Qed.

(** A field's own member, in an object that is decoded. *)
Lemma decode_field {A} (fs : fields A) a name v ms d :
  lookup_field fs (unquote 0 (quote_body 0 0 (String.list_ascii_of_string name))) = Some d →
  foldl (decode_member fs) (Some a) (jmember name v :: ms) = foldl (decode_member fs) (d a (print v) v) ms.
Proof. intros H. by apply decode_struct_member. Qed.

Lemma max_depth : ∃ d, maxNestingDepth = S (S (S d)).
Proof. exists (Z.to_nat 9997). unfold maxNestingDepth. lia. Qed.

Lemma max_depth_many : ∃ d, maxNestingDepth = (8 + d)%nat.
Proof. exists (Z.to_nat 9992). unfold maxNestingDepth. lia. Qed.

(** An environment for examples: it rejects whatever is left to it. *)
Definition demo_json_env : JsonEnv := {| json_error := λ _ _, EText "invalid"; time_Parse := λ _, None |}.

(** The nesting limit is a large numeral and the parser runs on it: neither is to
    be unfolded by conversion. *)
#[global] Opaque maxNestingDepth parse_value.
