(* ===== verification/JsonText.v ===== *)
(** * encoding/json: a value inside a text

    [json.RawMessage] hands on a part of a request as it was written. This file
    shows that such a part is a text of its own: whatever encloses a value, its
    text alone is accepted and stands for the same value ([parse_local],
    [parse_raw]). *)

From S2P Require Import Prelude GoRuntime Json.
Local Open Scope Z_scope.

(** A text that can stand where [r] stood: it is empty or begins with the same
    byte. *)
Definition alike (r r' : bytes) : Prop := r' = [] ∨ head r' = head r.

Lemma alike_nil r : alike r [].
Proof. by left. Qed.

Lemma alike_head c x y : alike (c :: x) (c :: y).
Proof. by right. Qed.

(** What a scanner reads does not depend on what follows, except for its first
    byte; the result may be claimed of a more generous scanner [q]. *)
Definition local_scan {A} (p q : bytes → option (A * bytes)) : Prop :=
  ∀ s a r, p s = Some (a, r) →
    ∃ raw, s = raw ++ r ∧ ∀ r', alike r r' → q (raw ++ r') = Some (a, r').

(** ** Blanks and numbers *)

Lemma skip_ws_split s : ∃ ws, s = ws ++ skip_ws s ∧ Forall (λ c, is_ws c = true) ws.
Proof.
  induction s as [|c s (ws & IH & Hw)]; [by exists []|]. cbn [skip_ws]. destruct (is_ws c) eqn:E.
  - exists (c :: ws). split; [by rw {1}IH|by constructor].
  - by exists [].
Qed.

Lemma skip_ws_app ws s : Forall (λ c, is_ws c = true) ws → skip_ws (ws ++ s) = skip_ws s.
Proof. induction 1 as [|c ws Hc _ IH]; [done|]. simpl. by rw Hc. Qed.

Lemma span_digits_local s ds r :
  span_digits s = (ds, r) → s = ds ++ r ∧ ∀ r', alike r r' → span_digits (ds ++ r') = (ds, r').
Proof.
  revert ds r. induction s as [|c s IH]; intros ds r; cbn [span_digits].
  - intros [= <- <-]. split; [done|]. intros [|c r'] [H|H]; try done.
  - destruct (is_digit c) eqn:E.
    + destruct (span_digits s) as [ds' t] eqn:Es. intros [= <- <-]. destruct (IH _ _ eq_refl) as [-> IH'].
      split; [done|]. intros r' Hr. simpl. by rw E IH'.
    + intros [= <- <-]. split; [done|]. intros [|c' r'] [H|H]; try done. simpl in H. simplify_eq. simpl. by rw E.
Qed.

Lemma scan_int_local : local_scan scan_int scan_int.
Proof.
  intros [|c s] a r; [done|]. cbn [scan_int]. destruct (code_of c =? 48) eqn:E0.
  - intros [= <- <-]. exists [c]. split; [done|]. intros r' _. simpl. by rw E0.
  - destruct (is_digit c) eqn:E; [|done]. destruct (span_digits (c :: s)) as [ds t] eqn:Es. intros [= -> ->].
    destruct (span_digits_local _ _ _ Es) as [Hs Hl]. exists a. split; [done|]. intros r' Hr. specialize (Hl r' Hr).
    destruct a as [|c' a]; [simpl in Es; rw E in Es; by destruct (span_digits s)|]. simpl in Hs. simplify_eq.
    cbn [app scan_int]. rw E0 E. by f_equal.
Qed.

Lemma scan_frac_local : local_scan scan_frac scan_frac.
Proof.
  intros s a r H. destruct s as [|c s].
  - injection H as <- <-. exists []. split; [done|]. intros [|c r'] [Hr|Hr]; done.
  - cbn [scan_frac] in H. destruct (code_of c =? 46) eqn:E.
    + destruct (span_digits s) as [[|d ds] t] eqn:Es; [done|]. injection H as <- <-.
      destruct (span_digits_local _ _ _ Es) as [-> Hl]. exists (c :: d :: ds). split; [done|]. intros r' Hr.
      cbn [app scan_frac]. rw E. specialize (Hl r' Hr). cbn [app] in Hl. by rw Hl.
    + injection H as <- <-. exists []. split; [done|]. intros [|c' r'] [Hr|Hr]; try done. simpl in Hr. simplify_eq.
      simpl. by rw E.
Qed.

Lemma scan_exp_local : local_scan scan_exp scan_exp.
Proof.
  intros s a r H. destruct s as [|c s].
  - injection H as <- <-. exists []. split; [done|]. intros [|c r'] [Hr|Hr]; done.
  - cbn [scan_exp] in H. destruct ((code_of c =? 101) || (code_of c =? 69)) eqn:E.
    + destruct (match s with g :: t => _ | [] => _ end) as [sign s2] eqn:Eg.
      destruct (span_digits s2) as [[|d ds] t] eqn:Es; [done|]. injection H as <- <-.
      destruct (span_digits_local _ _ _ Es) as [Hs2 Hl]. exists (c :: sign ++ d :: ds).
      destruct s as [|g s]; [by injection Eg as <- <-|]. destruct ((code_of g =? 43) || (code_of g =? 45)) eqn:Hg; injection Eg as <- <-.
      * split; [by rw Hs2|]. intros r' Hr. cbn [app scan_exp]. rw E Hg. specialize (Hl r' Hr). cbn [app] in Hl. by rw Hl.
      * split; [by rw Hs2|]. injection Hs2 as -> _. intros r' Hr. cbn [app scan_exp]. rw E Hg. specialize (Hl r' Hr). cbn [app] in Hl. by rw Hl.
    + injection H as <- <-. exists []. split; [done|]. intros [|c' r'] [Hr|Hr]; try done. simpl in Hr. simplify_eq.
      simpl. by rw E.
Qed.

(** A scanner after another: what follows the first is alike when what follows
    both is. *)
Lemma alike_app a r r' : alike r r' → alike (a ++ r) (a ++ r').
Proof. destruct a as [|c a]; [done|]. intros _. by right. Qed.

Lemma scan_unsigned_local : local_scan scan_unsigned scan_unsigned.
Proof.
  intros s a r. unfold scan_unsigned.
  destruct (scan_int s) as [[i r1]|] eqn:H1; [|done]. destruct (scan_frac r1) as [[f r2]|] eqn:H2; [|done].
  destruct (scan_exp r2) as [[e r3]|] eqn:H3; [|done]. intros [= <- <-].
  apply scan_int_local in H1 as (w1 & -> & L1). apply scan_frac_local in H2 as (w2 & -> & L2).
  apply scan_exp_local in H3 as (w3 & -> & L3). exists (w1 ++ w2 ++ w3). split; [by rw -!app_assoc|].
  intros r' Hr. rw -!app_assoc L1; [|by do 2 apply alike_app]. rw L2; [|by apply alike_app]. by rw L3.
Qed.

Lemma scan_number_local : local_scan scan_number scan_number.
Proof.
  intros s a r. unfold scan_number. destruct s as [|c s]; [done|]. destruct (code_of c =? 45) eqn:E.
  - destruct (scan_unsigned s) as [[l t]|] eqn:H; [|done]. intros [= <- <-].
    apply scan_unsigned_local in H as (w & -> & L). exists (c :: w). split; [done|]. intros r' Hr. simpl. by rw E L.
  - intros H. destruct (scan_unsigned_local _ _ _ H) as (w & Hs & L). exists w. split; [done|]. intros r' Hr.
    destruct w as [|c' w]; [by specialize (L [] (alike_nil _))|]. specialize (L r' Hr). simpl in Hs. simplify_eq.
    simpl. by rw E.
Qed.

(** ** Strings and literals *)

Lemma scan_string_local s b r :
  scan_string s = Some (b, r) → s = b ++ c_quote :: r ∧ ∀ r', scan_string (b ++ c_quote :: r') = Some (b, r').
Proof.
  revert b r. induction s as [s IH] using (well_founded_induction (well_founded_ltof _ (@length _))). intros b r.
  assert (∀ s' pre, s = pre ++ s' → (0 < length pre)%nat →
    (∀ x, scan_string (pre ++ x) = match scan_string x with Some (b, r) => Some (pre ++ b, r) | None => None end) →
    scan_string s = Some (b, r) →
    s = b ++ c_quote :: r ∧ ∀ r', scan_string (b ++ c_quote :: r') = Some (b, r')) as Hstep.
  { intros s' pre Hs Hpre Hx H. rw Hs Hx in H. destruct (scan_string s') as [[b' t']|] eqn:E; [|done]. simplify_eq.
    destruct (IH s') with (b := b') (r := r) as [-> IH']; [unfold ltof; rw length_app; lia|done|].
    split; [by rw -app_assoc|]. intros r'. by rw -app_assoc Hx IH'. }
  destruct s as [|c s]; [done|]. destruct (Ascii.eqb c c_quote) eqn:Eq.
  { cbn [scan_string]. rw Eq. intros [= <- <-]. apply Ascii.eqb_eq in Eq as ->. by split. }
  destruct (Ascii.eqb c c_backslash) eqn:Eb.
  - destruct s as [|e s]; [cbn [scan_string]; by rw Eq Eb|]. destruct (unescape e) eqn:Eu.
    + apply (Hstep s [c; e]); [done|simpl; lia|]. intros x. cbn [scan_string app]. by rw Eq Eb Eu.
    + destruct (code_of e =? 117) eqn:E117; [|cbn [scan_string]; by rw Eq Eb Eu E117].
      destruct s as [|h1 [|h2 [|h3 [|h4 s]]]]; try (cbn [scan_string]; by rw Eq Eb Eu E117).
      destruct (hex4 h1 h2 h3 h4) eqn:Eh; [|cbn [scan_string]; by rw Eq Eb Eu E117 Eh].
      apply (Hstep s [c; e; h1; h2; h3; h4]); [done|simpl; lia|]. intros x. cbn [scan_string app]. by rw Eq Eb Eu E117 Eh.
  - destruct (code_of c <? 32) eqn:El; [cbn [scan_string]; by rw Eq Eb El|].
    apply (Hstep s [c]); [done|simpl; lia|]. intros x. cbn [scan_string app]. by rw Eq Eb El.
Qed.

Lemma strip_prefix_spec p s r : strip_prefix p s = Some r ↔ s = p ++ r.
Proof.
  revert s. induction p as [|c p IH]; intros s; simpl; [split; congruence|].
  destruct s as [|d s]; [done|]. case_decide as E; [|split; [done|congruence]]. rw IH. split; [intros ->; by subst|congruence].
Qed.

(** The first byte decides which literal it can be. *)
Lemma strip_prefix_other p c s : head p ≠ Some c → p ≠ [] → strip_prefix p (c :: s) = None.
Proof. destruct p as [|d p]; [done|]. intros H _. simpl in *. case_decide; [congruence|done]. Qed.

Lemma parse_literal_local : local_scan parse_literal parse_literal.
Proof.
  intros s a r. unfold parse_literal.
  destruct (strip_prefix t_true s) as [x|] eqn:H1.
  { intros [= <- <-]. apply strip_prefix_spec in H1 as ->. exists t_true. split; [done|]. intros r' _.
    by rw (proj2 (strip_prefix_spec t_true (t_true ++ r') r') eq_refl). }
  destruct (strip_prefix t_false s) as [x|] eqn:H2.
  { intros [= <- <-]. apply strip_prefix_spec in H2 as ->. exists t_false. split; [done|]. intros r' _.
    by rw (proj2 (strip_prefix_spec t_false (t_false ++ r') r') eq_refl). }
  destruct (strip_prefix t_null s) as [x|] eqn:H3.
  { intros [= <- <-]. apply strip_prefix_spec in H3 as ->. exists t_null. split; [done|]. intros r' _.
    by rw (proj2 (strip_prefix_spec t_null (t_null ++ r') r') eq_refl). }
  destruct (scan_number s) as [[l t]|] eqn:Hn; [|done]. intros [= <- <-].
  destruct (scan_number_local _ _ _ Hn) as (w & Hs & L). exists w. split; [done|]. intros r' Hr.
  destruct w as [|c w]; [by specialize (L [] (alike_nil _))|].
  assert (∀ p, p = t_true ∨ p = t_false ∨ p = t_null → strip_prefix p ((c :: w) ++ r') = None) as Hp.
  { intros p Hp. apply strip_prefix_other; [|naive_solver]. intros Hc.
    specialize (L [] (alike_nil _)). rw app_nil_r in L.
    destruct Hp as [->|[->| ->]]; simpl in Hc; simplify_eq; vm_compute in L; done. }
  rw !Hp; [by rw L|auto..].
Qed.

(** ** Arrays and objects *)

Lemma skip_ws_stuck s c t t' : skip_ws s = c :: t → skip_ws (c :: t') = c :: t'.
Proof.
  induction s as [|x s IH]; [done|]. simpl. destruct (is_ws x) eqn:E; [done|]. intros [= <- _]. by rw E.
Qed.

Section loops.
Context (p q : bytes → option (json * bytes)).
Hypothesis pq : local_scan p q.
Hypothesis q_empty : q [] = None.
Hypothesis q_close : ∀ c t, code_of c = 93 → q (c :: t) = None.

(** A value read after blanks, and what it leaves. *)
Lemma after_ws s v r :
  p (skip_ws s) = Some (v, r) →
  ∃ ws val, s = (ws ++ val) ++ r ∧ (1 ≤ length val)%nat ∧ (∀ x, skip_ws ((ws ++ val) ++ x) = val ++ x) ∧
    ∀ r', alike r r' → q (val ++ r') = Some (v, r').
Proof using pq q_empty.
  intros (w & Hs & L)%pq. destruct (skip_ws_split s) as (ws & Hws & Hf). exists ws, w.
  destruct w as [|c w]; [specialize (L [] (alike_nil _)); simpl in L; congruence|].
  split; [by rw {1}Hws Hs app_assoc|]. split; [simpl; lia|]. split; [|done]. intros x.
  rw -app_assoc skip_ws_app //. cbn [app]. by rw (skip_ws_stuck s c (w ++ r)).
Qed.

(** The separator after a value, and the blanks before it. *)
Lemma separator r c t :
  skip_ws r = c :: t → ∃ ws, r = ws ++ c :: t ∧ ∀ t', skip_ws (ws ++ c :: t') = c :: t' ∧ alike r (ws ++ c :: t').
Proof using.
  intros H. destruct (skip_ws_split r) as (ws & Hr & Hf). rw H in Hr. exists ws. split; [done|]. intros t'. split.
  - rw skip_ws_app //. by rw (skip_ws_stuck r c t).
  - rw Hr. destruct ws; [apply alike_head|by right].
Qed.

Lemma parse_elems_local f s l r :
  parse_elems p f s = Some (l, r) →
  ∃ raw, s = raw ++ r ∧ (length l ≤ length raw)%nat ∧
    ∀ f' r', (length l ≤ f')%nat → parse_elems q f' (raw ++ r') = Some (l, r').
Proof using pq q_empty.
  revert s l r. induction f as [|f IH]; intros s l r; [done|]. cbn [parse_elems].
  destruct (p (skip_ws s)) as [[v r1]|] eqn:Hp; [|done]. destruct (after_ws _ _ _ Hp) as (ws0 & w & -> & Hw & Hskip & L).
  destruct (skip_ws r1) as [|c t] eqn:Hc; [done|]. destruct (separator _ _ _ Hc) as (ws & -> & Hsep).
  destruct (code_of c =? 44) eqn:E44.
  - destruct (parse_elems p f t) as [[vs t2]|] eqn:He; [|done]. intros [= <- <-].
    destruct (IH _ _ _ He) as (w2 & -> & Hlen & L2). exists ((ws0 ++ w) ++ ws ++ c :: w2).
    split; [by rw -!app_assoc|]. split; [rw !length_app /=; lia|].
    intros [|f'] r' Hf'; [simpl in Hf'; lia|]. cbn [parse_elems]. rw -(app_assoc (ws0 ++ w)) -(app_assoc ws). cbn [app].
    destruct (Hsep (w2 ++ r')) as [Hs1 Hs2]. rw Hskip L; [|done]. rw Hs1 E44 L2; [done|simpl in Hf'; lia].
  - destruct (code_of c =? 93) eqn:E93; [|done]. intros [= <- <-]. exists ((ws0 ++ w) ++ ws ++ [c]).
    split; [by rw -!app_assoc|]. split; [rw !length_app /=; lia|].
    intros [|f'] r' Hf'; [simpl in Hf'; lia|]. cbn [parse_elems]. rw -(app_assoc (ws0 ++ w)) -(app_assoc ws). cbn [app].
    destruct (Hsep r') as [Hs1 Hs2]. rw Hskip L; [|done]. by rw Hs1 E44 E93.
Qed.

Lemma parse_member_local s m r :
  parse_member p s = Some (m, r) →
  ∃ raw, s = raw ++ r ∧ raw ≠ [] ∧ ∀ r', alike r r' → parse_member q (raw ++ r') = Some (m, r').
Proof using pq q_empty.
  unfold parse_member. destruct (skip_ws s) as [|qc s1] eqn:Hq; [done|].
  destruct (separator _ _ _ Hq) as (ws & -> & Hsep).
  destruct (Ascii.eqb qc c_quote) eqn:Eq; [|done]. cbn [negb].
  destruct (scan_string s1) as [[k t]|] eqn:Hk; [|done]. apply scan_string_local in Hk as [-> Lk].
  destruct (skip_ws t) as [|c r1] eqn:Hc; [done|]. destruct (separator _ _ _ Hc) as (ws2 & -> & Hsep2).
  destruct (code_of c =? 58) eqn:E58; [|done]. cbn [negb].
  destruct (p (skip_ws r1)) as [[v r2]|] eqn:Hp; [|done]. intros [= <- <-].
  destruct (after_ws _ _ _ Hp) as (ws3 & w & -> & _ & Hskip & L).
  exists (ws ++ qc :: k ++ c_quote :: ws2 ++ c :: ws3 ++ w). split; [by list_simplifier|].
  split; [by destruct ws|]. intros r' Hr.
  replace ((ws ++ qc :: k ++ c_quote :: ws2 ++ c :: ws3 ++ w) ++ r')
    with (ws ++ qc :: k ++ c_quote :: ws2 ++ c :: (ws3 ++ w) ++ r') by (by list_simplifier).
  rw (proj1 (Hsep _)) Eq. cbn [negb]. rw Lk (proj1 (Hsep2 _)) E58. cbn [negb]. rw !Hskip L //.
  rw !length_app. replace (length w + length r' - length r')%nat with (length w) by lia.
  replace (length w + length r2 - length r2)%nat with (length w) by lia. by rw !take_app_length.
Qed.

Lemma parse_members_local f s l r :
  parse_members p f s = Some (l, r) →
  ∃ raw, s = raw ++ r ∧ (length l ≤ length raw)%nat ∧
    ∀ f' r', (length l ≤ f')%nat → parse_members q f' (raw ++ r') = Some (l, r').
Proof using pq q_empty.
  revert s l r. induction f as [|f IH]; intros s l r; [done|]. cbn [parse_members].
  destruct (parse_member p s) as [[v r1]|] eqn:Hp; [|done]. destruct (parse_member_local _ _ _ Hp) as (w & -> & Hw & L).
  assert (1 ≤ length w)%nat by (destruct w; [done|simpl; lia]).
  destruct (skip_ws r1) as [|c t] eqn:Hc; [done|]. destruct (separator _ _ _ Hc) as (ws & -> & Hsep).
  destruct (code_of c =? 44) eqn:E44.
  - destruct (parse_members p f t) as [[vs t2]|] eqn:He; [|done]. intros [= <- <-].
    destruct (IH _ _ _ He) as (w2 & -> & Hlen & L2). exists (w ++ ws ++ c :: w2).
    split; [by rw -!app_assoc|]. split; [rw !length_app /=; lia|].
    intros [|f'] r' Hf'; [simpl in Hf'; lia|]. cbn [parse_members]. rw -!app_assoc. cbn [app].
    destruct (Hsep (w2 ++ r')) as [Hs1 Hs2]. rw L; [|done]. rw Hs1 E44 L2; [done|simpl in Hf'; lia].
  - destruct (code_of c =? 125) eqn:E125; [|done]. intros [= <- <-]. exists (w ++ ws ++ [c]).
    split; [by rw -!app_assoc|]. split; [rw !length_app /=; lia|].
    intros [|f'] r' Hf'; [simpl in Hf'; lia|]. cbn [parse_members]. rw -!app_assoc. cbn [app].
    destruct (Hsep r') as [Hs1 Hs2]. rw L; [|done]. by rw Hs1 E44 E125.
Qed.

Lemma parse_array_local f s l r :
  parse_array p f s = Some (l, r) →
  ∃ raw, s = raw ++ r ∧ ∀ f' r', (length raw ≤ f')%nat → parse_array q f' (raw ++ r') = Some (l, r').
Proof using pq q_empty q_close.
  unfold parse_array. destruct (skip_ws s) as [|c t] eqn:Hc; [done|]. destruct (separator _ _ _ Hc) as (ws & Hs & Hsep).
  destruct (code_of c =? 93) eqn:E.
  - intros [= <- <-]. exists (ws ++ [c]). split; [by rw -app_assoc|]. intros f' r' _. rw -app_assoc. cbn [app].
    by rw (proj1 (Hsep r')) E.
  - intros (w & Hw & Hl & L)%parse_elems_local. exists w. split; [done|]. intros f' r' Hf.
    specialize (L f' r' ltac:(lia)). rw L. destruct f' as [|f']; [done|]. cbn [parse_elems] in L.
    destruct (skip_ws (w ++ r')) as [|c' t']; [by rw q_empty in L|].
    destruct (Z.eqb_spec (code_of c') 93) as [E'|]; [|done]. by rw q_close in L.
Qed.

Lemma parse_object_local f s l r :
  parse_object p f s = Some (l, r) →
  ∃ raw, s = raw ++ r ∧ ∀ f' r', (length raw ≤ f')%nat → parse_object q f' (raw ++ r') = Some (l, r').
Proof using pq q_empty.
  unfold parse_object. destruct (skip_ws s) as [|c t] eqn:Hc; [done|]. destruct (separator _ _ _ Hc) as (ws & Hs & Hsep).
  destruct (code_of c =? 125) eqn:E.
  - intros [= <- <-]. exists (ws ++ [c]). split; [by rw -app_assoc|]. intros f' r' _. rw -app_assoc. cbn [app].
    by rw (proj1 (Hsep r')) E.
  - intros (w & Hw & Hl & L)%parse_members_local. exists w. split; [done|]. intros f' r' Hf.
    specialize (L f' r' ltac:(lia)). rw L. destruct f' as [|f']; [done|]. cbn [parse_members] in L.
    unfold parse_member in L. destruct (skip_ws (w ++ r')) as [|c' t']; [done|].
    destruct (Ascii.eqb_spec c' c_quote) as [->|]; [done|done].
Qed.
End loops.

(** ** Values *)

Lemma parse_value_empty d : parse_value d [] = None.
Proof. by destruct d. Qed.

Lemma parse_value_close d c t : code_of c = 93 → parse_value d (c :: t) = None.
Proof.
  intros Hc. assert (c = byte_of 93) as -> by (apply code_inj; by rw code_byte).
  destruct d; reflexivity.
Qed.

(** A value's text does not depend on what follows, nor on how deep it may nest. *)
Lemma parse_local d d' : (d ≤ d')%nat → local_scan (parse_value d) (parse_value d').
Proof.
  revert d'. induction d as [d IH] using (well_founded_induction lt_wf). intros d' Hd s v r.
  destruct s as [|c s]; [by rw parse_value_empty|].
  assert (∀ d s, parse_value d (c :: s) =
    if Ascii.eqb c c_quote then match scan_string s with Some (b, r) => Some (JString b, r) | None => None end
    else if code_of c =? 91 then
      match d with
      | O => None
      | S d0 => match parse_array (parse_value d0) (length (c :: s)) s with Some (l, r) => Some (JArray l, r) | None => None end
      end
    else if code_of c =? 123 then
      match d with
      | O => None
      | S d0 => match parse_object (parse_value d0) (length (c :: s)) s with Some (l, r) => Some (JObject l, r) | None => None end
      end
    else parse_literal (c :: s)) as Heq by (clear; intros []; reflexivity).
  rw Heq. destruct (Ascii.eqb c c_quote) eqn:Eq.
  { destruct (scan_string s) as [[b t]|] eqn:Hs; [|done]. intros [= <- <-]. apply scan_string_local in Hs as [-> L].
    exists (c :: b ++ [c_quote]). split; [by rw /= -app_assoc|]. intros r' _.
    cbn [app]. rw Heq -app_assoc. cbn [app]. by rw L. }
  destruct (code_of c =? 91) eqn:E91.
  { destruct d as [|d]; [done|]. destruct d' as [|d']; [lia|].
    destruct (parse_array _ _ s) as [[l t]|] eqn:Ha; [|done]. intros [= <- <-].
    apply (parse_array_local _ (parse_value d')) in Ha as (w & -> & L);
      [|apply IH; lia|apply parse_value_empty|apply parse_value_close].
    exists (c :: w). split; [done|]. intros r' _. cbn [app]. rw Heq L; [done|]. cbn [length]. rw length_app. lia. }
  destruct (code_of c =? 123) eqn:E123.
  { destruct d as [|d]; [done|]. destruct d' as [|d']; [lia|].
    destruct (parse_object _ _ s) as [[l t]|] eqn:Ha; [|done]. intros [= <- <-].
    apply (parse_object_local _ (parse_value d')) in Ha as (w & -> & L);
      [|apply IH; lia|apply parse_value_empty].
    exists (c :: w). split; [done|]. intros r' _. cbn [app]. rw Heq L; [done|]. cbn [length]. rw length_app. lia. }
  intros H. destruct (parse_literal_local _ _ _ H) as (w & Hs & L).
  destruct w as [|c' w]; [by specialize (L [] (alike_nil _))|]. injection Hs as <- Hs.
  exists (c :: w). split; [by rw Hs|]. intros r' Hr. cbn [app]. rw Heq. by apply (L r' Hr).
Qed.

(** The texts of an object's members are texts of their values. *)
Lemma members_text d f s ms r :
  parse_members (parse_value d) f s = Some (ms, r) → (d ≤ maxNestingDepth)%nat →
  Forall (λ m : bytes * (bytes * json), parse m.2.1 = Some m.2.2) ms.
Proof.
  intros H Hd. revert s ms r H. induction f as [|f IH]; intros s ms r; [done|]. cbn [parse_members].
  destruct (parse_member _ s) as [[m r1]|] eqn:Hm; [|done].
  assert (parse m.2.1 = Some m.2.2) as Htext.
  { unfold parse_member in Hm. destruct (skip_ws s) as [|qc s1]; [done|].
    destruct (negb (Ascii.eqb qc c_quote)); [done|]. destruct (scan_string s1) as [[k t]|]; [|done].
    destruct (skip_ws t) as [|c r2]; [done|]. destruct (negb (code_of c =? 58)); [done|].
    destruct (parse_value d (skip_ws r2)) as [[v r3]|] eqn:Hv; [|done]. injection Hm as <- <-. cbn [fst snd].
    destruct (after_ws _ _ (parse_local d maxNestingDepth Hd) (parse_value_empty _) _ _ _ Hv)
      as (ws & w & -> & Hw & Hskip & L).
    rw Hskip length_app. replace (length w + length r3 - length r3)%nat with (length w) by lia. rw take_app_length.
    pose proof (Hskip []) as Hs. rw !app_nil_r in Hs.
    assert (skip_ws w = w) as Hw'.
    { destruct w as [|c0 w]; [done|]. by apply (skip_ws_stuck (ws ++ c0 :: w) c0 w). }
    unfold parse. rw Hw'. specialize (L [] (alike_nil _)). rw app_nil_r in L. by rw L. }
  destruct (skip_ws r1) as [|c t]; [done|]. destruct (code_of c =? 44).
  - destruct (parse_members _ f t) as [[vs t2]|] eqn:He; [|done]. intros [= <- <-]. constructor; [done|by eapply IH].
  - destruct (code_of c =? 125); [|done]. intros [= <- <-]. by constructor.
Qed.

(** A member taken out of an accepted text is itself accepted, with the same value. *)
Lemma parse_raw d s ms r :
  parse_value d s = Some (JObject ms, r) → (d ≤ maxNestingDepth)%nat →
  Forall (λ m : bytes * (bytes * json), parse m.2.1 = Some m.2.2) ms.
Proof.
  intros H Hd. destruct s as [|c s]; [by destruct d|].
  destruct d as [|d]; cbn [parse_value] in H; repeat case_match; simplify_eq;
    try (unfold parse_literal in H; repeat case_match; by simplify_eq).
  rename select (parse_object _ _ _ = _) into Ho. unfold parse_object in Ho.
  repeat case_match; simplify_eq; [constructor|]. eapply members_text; [exact Ho|lia].
Qed.
