(* ===== verification/Compact.v ===== *)
(** * encoding/json: a raw value inside a text that is written

    A [json.RawMessage] is copied into the output by [appendCompact]: blanks go, and
    the characters that are dangerous inside HTML are escaped. This file shows that
    the copy is a well-formed text ([compact_ok]) of the same value
    ([compact_meaning]), and that every Go string is written as a literal, also one
    that is no UTF-8 ([quote_literal]). *)

From S2P Require Import Prelude GoRuntime Json JsonText.
Local Open Scope Z_scope.

(** The bytes of a string literal, as [appendCompact] copies them; [drop] bytes of a
    sequence already escaped are left out first. Outside literals no byte of a valid
    text is escaped. *)
Fixpoint html_escape (drop : nat) (s : bytes) : bytes :=
  match s with
  | [] => []
  | c :: s' =>
      match drop with
      | S k => html_escape k s'
      | O =>
          if (code_of c =? 60) || (code_of c =? 62) || (code_of c =? 38) then hex_escape (code_of c) ++ html_escape 0 s'
          else match is_line_sep s with
               | Some x => line_sep_escape x ++ html_escape 2 s'
               | None => c :: html_escape 0 s'
               end
      end
  end.

(** The tree of the copy: its print is the text without blanks. *)
Fixpoint compact (v : json) : json :=
  match v with
  | JString b => JString (html_escape 0 b)
  | JArray l => JArray (compact <$> l)
  | JObject ms => JObject ((λ m, (html_escape 0 m.1, (print (compact m.2.2), compact m.2.2))) <$> ms)
  | _ => v
  end.

(** [RawMessage.MarshalJSON] and the copy; a text that is not valid is an error. *)
Definition raw_json (raw : string) : option json := compact <$> parse (String.list_ascii_of_string raw).

(** What a value means, whatever way its strings are spelled. *)
Fixpoint meaning (v : json) : json :=
  match v with
  | JString b => JString (unquote 0 b)
  | JArray l => JArray (meaning <$> l)
  | JObject ms => JObject ((λ m, (unquote 0 m.1, ([], meaning m.2.2))) <$> ms)
  | _ => v
  end.

(** ** Literals *)

(** The bodies of string literals. *)
Inductive literal : bytes → Prop :=
| literal_nil : literal []
| literal_escape e b : is_Some (unescape e) → literal b → literal (c_backslash :: e :: b)
| literal_hex e h1 h2 h3 h4 x b :
    unescape e = None → code_of e = 117 → hex4 h1 h2 h3 h4 = Some x → literal b →
    literal (c_backslash :: e :: h1 :: h2 :: h3 :: h4 :: b)
| literal_byte c b : c ≠ c_quote → c ≠ c_backslash → 32 ≤ code_of c → literal b → literal (c :: b).

Lemma scan_literal s b r : scan_string s = Some (b, r) → literal b.
Proof.
  revert b r. induction s as [s IH] using (well_founded_induction (well_founded_ltof _ (@length _))). intros b r.
  destruct s as [|c s]; [done|]. cbn [scan_string]. destruct (Ascii.eqb_spec c c_quote) as [->|Hq]; [intros [= <- _]; constructor|].
  destruct (Ascii.eqb_spec c c_backslash) as [->|Hb].
  - destruct s as [|e s]; [done|]. destruct (unescape e) as [x|] eqn:He.
    + destruct (scan_string s) as [[b' r']|] eqn:Hs; [|done]. intros [= <- _]. constructor; [by eexists|].
      eapply (IH s); [unfold ltof; simpl; lia|done].
    + destruct (Z.eqb_spec (code_of e) 117) as [Hu|]; [|done]. destruct s as [|h1 [|h2 [|h3 [|h4 s]]]]; try done.
      destruct (hex4 h1 h2 h3 h4) eqn:Hx; [|done]. destruct (scan_string s) as [[b' r']|] eqn:Hs; [|done]. intros [= <- _].
      eapply literal_hex; [done..|]. eapply (IH s); [unfold ltof; simpl; lia|done].
  - destruct (Z.ltb_spec (code_of c) 32); [done|]. destruct (scan_string s) as [[b' r']|] eqn:Hs; [|done]. intros [= <- _].
    constructor; [done..|]. eapply (IH s); [unfold ltof; simpl; lia|done].
Qed.

Lemma literal_literal_ok b : literal b → literal_ok b = true.
Proof.
  intros H. apply bool_decide_eq_true. induction H as [|e b [x He] _ IH|e h1 h2 h3 h4 x b He Hu Hx _ IH|c b Hq Hb Hc _ IH].
  - done.
  - cbn [app scan_string]. by rw He IH.
  - cbn [app scan_string]. rw He Hu Hx IH. done.
  - cbn [app scan_string]. apply Ascii.eqb_neq in Hq, Hb. rw Hq Hb IH. by replace (code_of c <? 32) with false by lia.
Qed.

Lemma literal_ok_literal b : literal_ok b = true → literal b.
Proof. intros H%bool_decide_eq_true. by eapply scan_literal. Qed.

Lemma literal_app a b : literal a → literal b → literal (a ++ b).
Proof. induction 1; intros Hb; cbn [app]; [done|by constructor; auto|by eapply literal_hex; eauto|by constructor; auto]. Qed.

Lemma literal_high c b : 128 ≤ code_of c → literal b → literal (c :: b).
Proof. intros Hc. constructor; [by intros -> | by intros -> | lia|done]. Qed.

Lemma literal_tail c b : 128 ≤ code_of c → literal (c :: b) → literal b.
Proof. intros Hc H. inversion H; subst; done. Qed.

(** ** Escaping a literal *)

(** A byte [appendCompact] copies. *)
Definition copied (c : Ascii.ascii) : Prop := code_of c ≠ 60 ∧ code_of c ≠ 62 ∧ code_of c ≠ 38 ∧ code_of c ≠ 226.

Lemma html_escape_copied c s : copied c → html_escape 0 (c :: s) = c :: html_escape 0 s.
Proof.
  intros (H1 & H2 & H3 & H4). cbn [html_escape].
  replace ((code_of c =? 60) || (code_of c =? 62) || (code_of c =? 38)) with false by lia.
  destruct (is_line_sep (c :: s)) as [x|] eqn:E; [|done]. apply line_sep_inv in E as (t & [= -> _] & _). by vm_compute in H4.
Qed.

Lemma cont_copied c : cont c = true → copied c.
Proof. intros H%in_range_true. unfold copied. lia. Qed.

Lemma html_escape_conts k s :
  Forall (λ c, cont c = true) (take k s) → html_escape 0 s = take k s ++ html_escape 0 (drop k s).
Proof.
  revert s. induction k as [|k IH]; intros [|c s] H; [done..|]. cbn [take drop] in *. apply Forall_cons in H as [Hc H].
  rw html_escape_copied; [|by apply cont_copied]. by rw (IH s H).
Qed.

(** Continuation bytes in front of the copy were there before. *)
Lemma conts_html_escape k s :
  (k ≤ length (html_escape 0 s))%nat → Forall (λ c, cont c = true) (take k (html_escape 0 s)) →
  take k s = take k (html_escape 0 s).
Proof.
  revert s. induction k as [|k IH]; intros s Hk H; [done|]. destruct s as [|c s]; [simpl in Hk; lia|].
  cbn [html_escape] in *. destruct ((code_of c =? 60) || (code_of c =? 62) || (code_of c =? 38)).
  { cbn [hex_escape app take] in H. apply Forall_cons in H as [H _]. by vm_compute in H. }
  destruct (is_line_sep (c :: s)).
  { cbn [line_sep_escape app take] in H. apply Forall_cons in H as [H _]. by vm_compute in H. }
  cbn [take] in *. apply Forall_cons in H as [_ H]. f_equal. apply IH; [simpl in Hk; lia|done].
Qed.

Lemma rune_len_html c s : rune_len (c :: html_escape 0 s) = rune_len (c :: s).
Proof.
  destruct (rune_len (c :: s)) as [n|] eqn:Hn.
  - destruct (rune_len_cont c s n Hn) as [Hc _]. rw (html_escape_conts (n - 1) s Hc). by apply rune_len_local.
  - destruct (rune_len (c :: html_escape 0 s)) as [n|] eqn:Hm; [|done]. exfalso.
    destruct (rune_len_cont _ _ _ Hm) as [Hc _]. destruct (rune_len_bound _ _ Hm) as [Hl _]. simpl in Hl.
    apply conts_html_escape in Hc; [|lia]. apply (rune_len_local c _ (drop (n - 1) s)) in Hm. rw -Hc take_drop Hn in Hm. done.
Qed.

Lemma hex_value_copied h x : hex_value h = Some x → copied h.
Proof. destruct h as [[] [] [] [] [] [] [] []]; intros H; vm_compute in H; try done; by vm_compute. Qed.

Lemma hex4_copied h1 h2 h3 h4 x : hex4 h1 h2 h3 h4 = Some x → copied h1 ∧ copied h2 ∧ copied h3 ∧ copied h4.
Proof.
  unfold hex4. destruct (hex_value h1) eqn:E1; [|done]. destruct (hex_value h2) eqn:E2; [|done].
  destruct (hex_value h3) eqn:E3; [|done]. destruct (hex_value h4) eqn:E4; [|done]. intros _.
  split_and!; by eapply hex_value_copied.
Qed.

Lemma unescape_copied e x : unescape e = Some x → copied e ∧ code_of e ≠ 117.
Proof. destruct e as [[] [] [] [] [] [] [] []]; intros H; vm_compute in H; try done; by vm_compute. Qed.

Lemma backslash_copied : copied c_backslash.
Proof. by vm_compute. Qed.

Lemma html_escape_escape e b : is_Some (unescape e) → html_escape 0 (c_backslash :: e :: b) = c_backslash :: e :: html_escape 0 b.
Proof.
  intros [x He]. rw html_escape_copied; [|apply backslash_copied]. by rw html_escape_copied; [|eapply unescape_copied].
Qed.

Lemma html_escape_hex e h1 h2 h3 h4 x b :
  code_of e = 117 → hex4 h1 h2 h3 h4 = Some x →
  html_escape 0 (c_backslash :: e :: h1 :: h2 :: h3 :: h4 :: b) = c_backslash :: e :: h1 :: h2 :: h3 :: h4 :: html_escape 0 b.
Proof.
  intros He Hx. destruct (hex4_copied _ _ _ _ _ Hx) as (H1 & H2 & H3 & H4).
  rw html_escape_copied; [|apply backslash_copied]. rw html_escape_copied; [|unfold copied; lia].
  by rw !html_escape_copied.
Qed.

(** A byte of a literal: escaped on its own, with the two bytes after it, or copied. *)
Lemma html_escape_byte c b :
  literal (c :: b) → c ≠ c_backslash →
  (escape_byte c = hex_escape (code_of c) ∧ code_of c < 128 ∧ html_escape 0 (c :: b) = hex_escape (code_of c) ++ html_escape 0 b) ∨
  (∃ x t, c :: b = byte_of 226 :: byte_of 128 :: x :: t ∧ (x = byte_of 168 ∨ x = byte_of 169) ∧ literal t ∧
     html_escape 0 (c :: b) = line_sep_escape x ++ html_escape 0 t) ∨
  html_escape 0 (c :: b) = c :: html_escape 0 b.
Proof.
  intros Hl Hb. cbn [html_escape].
  destruct ((code_of c =? 60) || (code_of c =? 62) || (code_of c =? 38)) eqn:E.
  - left. split; [|split; [lia|done]]. clear Hl Hb. destruct c as [[] [] [] [] [] [] [] []]; vm_compute in E; try done; by vm_compute.
  - destruct (is_line_sep (c :: b)) as [x|] eqn:Els; [|by right; right]. right. left.
    apply line_sep_inv in Els as (t & [= -> ->] & Hx). exists x, t. split; [done|]. split; [done|].
    split; [|by destruct t]. apply literal_tail in Hl; [|by vm_compute]. apply literal_tail in Hl; [|by vm_compute].
    apply literal_tail in Hl; [done|]. by destruct Hx as [-> | ->]; vm_compute.
Qed.

Lemma hex_escape_literal n b : 32 ≤ n < 128 → literal b → literal (hex_escape n ++ b).
Proof.
  intros Hn Hb. assert (∃ x, hex4 (byte_of 48) (byte_of 48) (hex_digit (n / 16)) (hex_digit (n mod 16)) = Some x) as [x Hx].
  { assert (n ∈ seqZ 32 96) as H by (apply elem_of_seqZ; lia). revert H. clear.
    assert (Forall (λ n, is_Some (hex4 (byte_of 48) (byte_of 48) (hex_digit (n / 16)) (hex_digit (n mod 16)))) (seqZ 32 96)) as H
      by (apply (bool_decide_unpack _); by vm_compute).
    rewrite ->Forall_forall in H. apply H. }
  cbn [hex_escape app]. by eapply literal_hex.
Qed.

Lemma line_sep_literal x b : x = byte_of 168 ∨ x = byte_of 169 → literal b → literal (line_sep_escape x ++ b).
Proof. intros [-> | ->] Hb; cbn [line_sep_escape app]; (eapply literal_hex; [by vm_compute..|done]). Qed.

Lemma html_escape_literal b : literal b → literal (html_escape 0 b).
Proof.
  induction b as [b IH] using (well_founded_induction (well_founded_ltof _ (@length _))). intros Hl.
  assert (∀ t, (length t < length b)%nat → literal t → literal (html_escape 0 t)) as IH' by (intros t Ht; by apply IH).
  clear IH. destruct Hl as [|e t He Ht|e h1 h2 h3 h4 x t He Hu Hx Ht|c t Hq Hb Hc Ht].
  - constructor.
  - rw html_escape_escape //. constructor; [done|]. apply IH'; [simpl; lia|done].
  - rw (html_escape_hex _ _ _ _ _ x) //. eapply literal_hex; [done..|]. apply IH'; [simpl; lia|done].
  - destruct (html_escape_byte c t) as [(_ & H128 & ->)|[(x & u & Heq & Hx & Hu & ->)| ->]]; [by constructor|done|..].
    + apply hex_escape_literal; [lia|]. apply IH'; [simpl; lia|done].
    + apply line_sep_literal; [done|]. apply IH'; [|done]. simplify_eq. simpl. lia.
    + constructor; [done..|]. apply IH'; [simpl; lia|done].
Qed.

(** The low half of a surrogate pair at the start of a text, with what follows. *)
Definition low_half (r : Z) (t : bytes) : option (Z * bytes) :=
  match t with
  | b :: u :: g1 :: g2 :: g3 :: g4 :: t' =>
      if Ascii.eqb b c_backslash && (code_of u =? 117)
      then match hex4 g1 g2 g3 g4 ≫= surrogate_pair r with Some p => Some (p, t') | None => None end
      else None
  | _ => None
  end.

Lemma unquote_hex e h1 h2 h3 h4 x b :
  unescape e = None → hex4 h1 h2 h3 h4 = Some x →
  unquote 0 (c_backslash :: e :: h1 :: h2 :: h3 :: h4 :: b) =
    if is_surrogate x
    then match low_half x b with Some (p, t) => encode_rune p ++ unquote 0 t | None => replacement ++ unquote 0 b end
    else encode_rune x ++ unquote 0 b.
Proof.
  intros He Hx. cbn [unquote]. rw Ascii.eqb_refl He Hx. cbn [default from_option id]. destruct (is_surrogate x); [|done].
  destruct b as [|b0 [|u [|g1 [|g2 [|g3 [|g4 b']]]]]]; try done. cbn [low_half].
  destruct (Ascii.eqb b0 c_backslash && (code_of u =? 117)); [|done].
  by destruct (hex4 g1 g2 g3 g4 ≫= surrogate_pair x).
Qed.

(** The copy has a low half where the literal has one. *)
Lemma low_half_html r b :
  literal b →
  match low_half r b with
  | Some (p, t) => literal t ∧ (length t < length b)%nat ∧ low_half r (html_escape 0 b) = Some (p, html_escape 0 t)
  | None => low_half r (html_escape 0 b) = None
  end.
Proof.
  assert (∀ c y, c ≠ c_backslash → low_half r (c :: y) = None) as Hno.
  { intros c y Hc. destruct y as [|? [|? [|? [|? [|? y]]]]]; try done. cbn [low_half]. apply Ascii.eqb_neq in Hc. by rw Hc. }
  assert (∀ e y, code_of e ≠ 117 → low_half r (c_backslash :: e :: y) = None) as Hesc.
  { intros e y He. destruct y as [|? [|? [|? [|? y]]]]; try done. cbn [low_half]. by replace (code_of e =? 117) with false by lia. }
  intros [|e t [x He] Ht|e h1 h2 h3 h4 x t He Hu Hx Ht|c t Hq Hb Hc Ht].
  - done.
  - rw html_escape_escape; [|by eexists]. rw !Hesc //; by eapply unescape_copied.
  - rw (html_escape_hex _ _ _ _ _ x) //. cbn [low_half]. rw Ascii.eqb_refl Hu Hx. cbn [andb Z.eqb mbind option_bind].
    destruct (surrogate_pair r x); [|done]. split; [done|]. split; [simpl; lia|done].
  - rw (Hno c); [|done].
    destruct (html_escape_byte c t) as [(_ & H128 & ->)|[(x & u & Heq & Hx & Hu & ->)| ->]]; [by constructor|done|..|by apply Hno].
    + unfold hex_escape. cbn [app low_half]. case_match; [|done].
      destruct (hex4 _ _ _ _) as [y|] eqn:Hy; [|done]. cbn [mbind option_bind].
      assert (surrogate_pair r y = None) as ->; [|done]. unfold surrogate_pair.
      assert (y < 256) as Hlt.
      { revert Hy. generalize (hex_digit (code_of c / 16)) (hex_digit (code_of c mod 16)). clear. intros a b. unfold hex4.
        replace (hex_value (byte_of 48)) with (Some 0) by (by vm_compute).
        destruct (hex_value a) as [x|] eqn:E1; [|done]. destruct (hex_value b) as [z|] eqn:E2; [|done].
        apply hex_value_range in E1, E2. intros [= <-]. lia. }
      by replace (56320 <=? y) with false by lia; rw andb_false_r.
    + destruct Hx as [-> | ->]; cbn [line_sep_escape app low_half]; (case_match; [|done]);
        (replace (hex4 _ _ _ _ ≫= surrogate_pair r) with (@None Z); [done|]);
        [change (None = surrogate_pair r 8232)|change (None = surrogate_pair r 8233)]; unfold surrogate_pair;
        cbn [Z.leb Z.compare Pos.compare Pos.compare_cont]; by rw andb_false_r.
Qed.

Lemma literal_conts l t : Forall (λ c, cont c = true) l → literal (l ++ t) → literal t.
Proof.
  induction 1 as [|c l Hc _ IH]; [done|]. cbn [app]. intros H. apply IH. apply literal_tail in H; [done|].
  apply in_range_true in Hc. lia.
Qed.

(** The copy of a literal means the same. *)
Lemma unquote_html b : literal b → unquote 0 (html_escape 0 b) = unquote 0 b.
Proof.
  induction b as [b IH] using (well_founded_induction (well_founded_ltof _ (@length _))). intros Hl.
  assert (∀ t, (length t < length b)%nat → literal t → unquote 0 (html_escape 0 t) = unquote 0 t) as IH' by (intros t Ht; by apply IH).
  clear IH. destruct Hl as [|e t He Ht|e h1 h2 h3 h4 x t He Hu Hx Ht|c t Hq Hb Hc Ht].
  - done.
  - rw html_escape_escape //. cbn [unquote]. rw Ascii.eqb_refl. destruct He as [y ->]. f_equal. apply IH'; [simpl; lia|done].
  - rw (html_escape_hex _ _ _ _ _ x) // !(unquote_hex _ _ _ _ _ x) //.
    pose proof (low_half_html x t Ht) as Hlow. rw (IH' t); [|simpl; lia|done]. destruct (is_surrogate x); [|done].
    destruct (low_half x t) as [[p u]|]; [|by rw Hlow]. destruct Hlow as (Hu' & Hlen & ->).
    rw (IH' u); [done|simpl; lia|done].
  - destruct (html_escape_byte c t) as [(He & H128 & ->)|[(x & u & Heq & Hx & Hu & ->)| ->]]; [by constructor|done|..].
    + rw -He escape_byte_unquote //. rw (IH' t); [|simpl; lia|done]. cbn [unquote].
      apply Ascii.eqb_neq in Hb. rw Hb. unfold rune_len. by replace (code_of c <? 128) with true by lia.
    + rw Heq line_sep_unquote //. simplify_eq. rw (IH' u); [|simpl; lia|done].
      destruct Hx as [-> | ->]; reflexivity.
    + cbn [unquote]. apply Ascii.eqb_neq in Hb. rw Hb rune_len_html. destruct (rune_len (c :: t)) as [n|] eqn:Hn.
      * destruct (rune_len_cont c t n Hn) as [Hcont _]. destruct (rune_len_bound _ _ Hn) as [Hlen _]. simpl in Hlen. f_equal.
        rw (html_escape_conts (n - 1) t Hcont).
        rw -{1}(length_take_le t (n - 1)); [|lia]. rw unquote_pass. rw (IH' (drop (n - 1) t)).
        -- rw -{3}(take_drop (n - 1) t). rw -{3}(length_take_le t (n - 1)); [|lia]. by rw unquote_pass.
        -- rw length_drop. simpl. lia.
        -- apply (literal_conts (take (n - 1) t)); [done|]. by rw take_drop.
      * f_equal. apply IH'; [simpl; lia|done].
Qed.

(** ** Numbers *)

Lemma span_digits_split s : (span_digits s).1 ++ (span_digits s).2 = s.
Proof. induction s as [|c s IH]; [done|]. cbn [span_digits]. destruct (is_digit c); [|done]. destruct (span_digits s). simpl in *. by f_equal. Qed.

(** The scanned number and the rest make up the text. *)
Lemma scan_number_split s l r : scan_number s = Some (l, r) → s = l ++ r.
Proof.
  assert (∀ s l r, scan_int s = Some (l, r) → s = l ++ r) as Hint.
  { intros [|c t] l' r'; [done|]. unfold scan_int. case_match; [by intros [= <- <-]|]. case_match; [|done].
    intros Hd%(inj Some). pose proof (span_digits_split (c :: t)) as Hs. by rw Hd in Hs. }
  assert (∀ s l r, scan_frac s = Some (l, r) → s = l ++ r) as Hfrac.
  { intros [|c t] l' r'; cbn [scan_frac]; [by intros [= <- <-]|]. case_match; [|by intros [= <- <-]].
    pose proof (span_digits_split t) as Hs. destruct (span_digits t) as [[|d ds] t2]; [done|]. intros [= <- <-]. by rw -Hs. }
  assert (∀ s l r, scan_exp s = Some (l, r) → s = l ++ r) as Hexp.
  { intros t l' r'. unfold scan_exp. destruct t as [|c t]; [by intros [= <- <-]|]. case_match; [|by intros [= <- <-]].
    destruct (match t with g :: t => _ | [] => _ end) as [sign s2] eqn:Eg. pose proof (span_digits_split s2) as Hs.
    destruct (span_digits s2) as [[|d ds] t2] eqn:Es; [done|]. intros [= <- <-]. simpl in Hs.
    assert (t = sign ++ s2) as -> by (repeat case_match; by simplify_eq/=). rw -Hs. by rw /= -app_assoc. }
  assert (∀ s l r, scan_unsigned s = Some (l, r) → s = l ++ r) as Hu.
  { intros t l' r'. unfold scan_unsigned. repeat case_match; intros; simplify_eq/=.
    repeat match goal with H : _ = Some (_, _) |- _ => first [apply Hint in H|apply Hfrac in H|apply Hexp in H] end.
    subst. by rw -!app_assoc. }
  destruct s as [|c s]; [done|]. cbn [scan_number]. case_match; [|by apply Hu].
  destruct (scan_unsigned s) as [[l' r']|] eqn:E; [|done]. intros [= <- <-]. apply Hu in E as ->. done.
Qed.

(** ** Trees *)

(** A tree whose literals are literals and that nests at most [d] deep, whatever
    texts its members carry. *)
Fixpoint tree_ok (v : json) (d : nat) : bool :=
  match v with
  | JNull | JBool _ => true
  | JNumber l => bool_decide (scan_number l = Some (l, []))
  | JString b => literal_ok b
  | JArray l => match d with O => false | S d' => forallb (λ x, tree_ok x d') l end
  | JObject ms => match d with O => false | S d' => forallb (λ m, literal_ok m.1 && tree_ok m.2.2 d') ms end
  end.

Section trees.
Context (d : nat).
Hypothesis parsed : ∀ s v r, parse_value d s = Some (v, r) → tree_ok v d = true.

Lemma elems_tree f s l r : parse_elems (parse_value d) f s = Some (l, r) → forallb (λ x, tree_ok x d) l = true.
Proof using parsed.
  revert s l r. induction f as [|f IH]; intros s l r; [done|]. cbn [parse_elems].
  destruct (parse_value d (skip_ws s)) as [[v r1]|] eqn:Hv; [|done]. apply parsed in Hv.
  destruct (skip_ws r1) as [|c t]; [done|]. destruct (code_of c =? 44).
  - destruct (parse_elems _ f t) as [[vs t2]|] eqn:He; [|done]. intros [= <- _]. cbn [forallb]. by rw Hv (IH _ _ _ He).
  - destruct (code_of c =? 93); [|done]. intros [= <- _]. cbn [forallb]. by rw Hv.
Qed.

Lemma members_tree f s ms r :
  parse_members (parse_value d) f s = Some (ms, r) → forallb (λ m, literal_ok m.1 && tree_ok m.2.2 d) ms = true.
Proof using parsed.
  revert s ms r. induction f as [|f IH]; intros s ms r; [done|]. cbn [parse_members].
  destruct (parse_member _ s) as [[m r1]|] eqn:Hm; [|done].
  assert (literal_ok m.1 && tree_ok m.2.2 d = true) as Hok.
  { unfold parse_member in Hm. destruct (skip_ws s) as [|qc s1]; [done|].
    destruct (negb (Ascii.eqb qc c_quote)); [done|]. destruct (scan_string s1) as [[k t]|] eqn:Hk; [|done].
    destruct (skip_ws t) as [|c r2]; [done|]. destruct (negb (code_of c =? 58)); [done|].
    destruct (parse_value d (skip_ws r2)) as [[v r3]|] eqn:Hv; [|done]. injection Hm as <- <-. cbn [fst snd].
    rw (parsed _ _ _ Hv). rw literal_literal_ok //. by eapply scan_literal. }
  destruct (skip_ws r1) as [|c t]; [done|]. destruct (code_of c =? 44).
  - destruct (parse_members _ f t) as [[vs t2]|] eqn:He; [|done]. intros [= <- _]. cbn [forallb]. by rw Hok (IH _ _ _ He).
  - destruct (code_of c =? 125); [|done]. intros [= <- _]. cbn [forallb]. by rw Hok.
Qed.
End trees.

Lemma parse_value_cons d c s : parse_value d (c :: s) =
  if Ascii.eqb c c_quote then match scan_string s with Some (b, r) => Some (JString b, r) | None => None end
  else if code_of c =? 91 then
    match d with
    | O => None
    | S d0 => match parse_array (parse_value d0) (length (c :: s)) s with Some (l, r) => Some (JArray l, r) | None => None end
    end
  else if code_of c =? 123 then
    match d with
    | O => None
    | S d0 => match parse_object (parse_value d0) (length (c :: s)) s with Some (l, r) => Some (JObject l, r) | None => None end
    end
  else parse_literal (c :: s).
Proof. by destruct d. Qed.

(** What the parser accepts is a tree. *)
Lemma parse_tree d s v r : parse_value d s = Some (v, r) → tree_ok v d = true.
Proof.
  revert s v r. induction d as [d IH] using (well_founded_induction lt_wf). intros s v r.
  destruct s as [|c s]; [by rw parse_value_empty|]. rw parse_value_cons.
  destruct (Ascii.eqb c c_quote).
  { destruct (scan_string s) as [[b t]|] eqn:Hs; [|done]. intros [= <- _].
    assert (literal_ok b = true) as Hb by (eapply literal_literal_ok, scan_literal; done). by destruct d. }
  destruct (code_of c =? 91).
  { destruct d as [|d]; [done|]. destruct (parse_array _ _ s) as [[l t]|] eqn:Ha; [|done]. intros [= <- _]. cbn [tree_ok].
    unfold parse_array in Ha. destruct (skip_ws s) as [|c' s']; [done|].
    destruct (code_of c' =? 93); [by simplify_eq|]. eapply elems_tree; [|exact Ha]. intros ???. apply IH. lia. }
  destruct (code_of c =? 123).
  { destruct d as [|d]; [done|]. destruct (parse_object _ _ s) as [[l t]|] eqn:Ha; [|done]. intros [= <- _]. cbn [tree_ok].
    unfold parse_object in Ha. destruct (skip_ws s) as [|c' s']; [done|].
    destruct (code_of c' =? 125); [by simplify_eq|]. eapply members_tree; [|exact Ha]. intros ???. apply IH. lia. }
  unfold parse_literal. repeat case_match; intros [= <- _]; try (by destruct d).
  rename select (scan_number _ = _) into Hn. apply scan_number_local in Hn as (w & Hw & L).
  specialize (L [] (alike_nil _)). rw app_nil_r in L.
  assert (w = l) as -> by (apply scan_number_split in L; by rw app_nil_r in L).
  by destruct d; apply bool_decide_eq_true.
Qed.

(** The copy of a tree can be written. *)
Lemma compact_ok v d : tree_ok v d = true → json_ok (compact v) d = true.
Proof.
  revert d. induction v as [| | |b|l IH|ms IH] using json_nested_ind; intros d Hv; try done.
  - cbn [compact tree_ok json_ok] in *. apply literal_literal_ok, html_escape_literal. by destruct d; apply literal_ok_literal.
  - destruct d as [|d]; [done|]. cbn [compact tree_ok json_ok] in *. revert Hv. induction IH as [|x l Hx _ IHl]; [done|].
    cbn [forallb fmap list_fmap]. intros [H1 H2]%andb_true_iff. by rw (Hx d H1) (IHl H2).
  - destruct d as [|d]; [done|]. cbn [compact tree_ok json_ok] in *. revert Hv. induction IH as [|m ms Hm _ IHms]; [done|].
    cbn [forallb fmap list_fmap fst snd]. intros [[H1 H2]%andb_true_iff H3]%andb_true_iff. rw (Hm d H2) (IHms H3).
    rw literal_literal_ok; [|by apply html_escape_literal, literal_ok_literal]. by rw bool_decide_true.
Qed.

(** The copy of a tree means the same. *)
Lemma compact_meaning v d : tree_ok v d = true → meaning (compact v) = meaning v.
Proof.
  revert d. induction v as [| | |b|l IH|ms IH] using json_nested_ind; intros d Hv; try done.
  - cbn [compact meaning]. f_equal. apply unquote_html. by destruct d; apply literal_ok_literal.
  - destruct d as [|d]; [done|]. cbn [compact meaning tree_ok] in *. f_equal. revert Hv. induction IH as [|x l Hx _ IHl]; [done|].
    cbn [forallb fmap list_fmap]. intros [H1 H2]%andb_true_iff. by rw (Hx d H1) (IHl H2).
  - destruct d as [|d]; [done|]. cbn [compact meaning tree_ok] in *. f_equal. revert Hv. induction IH as [|m ms Hm _ IHms]; [done|].
    cbn [forallb fmap list_fmap fst snd]. intros [[H1 H2]%andb_true_iff H3]%andb_true_iff. rw (Hm d H2) (IHms H3).
    rw unquote_html //. by apply literal_ok_literal.
Qed.

(** Every Go string is written as a literal. *)
Lemma quote_literal s : literal (quote_body 0 0 s).
Proof.
  induction s as [s IH] using (well_founded_induction (well_founded_ltof _ (@length _))).
  destruct s as [|c s]; [constructor|]. cbn [quote_body].
  assert (∀ k, literal (quote_body 0 0 (drop k s))) as Hrest.
  { intros k. apply IH. unfold ltof. rw length_drop. simpl. lia. }
  pose proof (Hrest 0%nat) as H0. rw drop_0 in H0. destruct (Z.ltb_spec (code_of c) 128) as [Hc|Hc].
  - apply literal_app; [|done]. apply literal_ok_literal, bool_decide_eq_true. by rw (escape_byte_scan c [c_quote] Hc) /= app_nil_r.
  - destruct (is_line_sep (c :: s)) as [x|] eqn:El.
    + apply line_sep_inv in El as (t & [= -> ->] & Hx). apply line_sep_literal; [done|]. cbn [quote_body]. apply (Hrest 2%nat).
    + destruct (rune_len (c :: s)) as [n|] eqn:Hn.
      * rw quote_body_pass. destruct (rune_len_cont c s n Hn) as [Hcont _]. apply literal_high; [done|].
        generalize (Hrest (n - 1)%nat). induction Hcont as [|d l Hd _ IHl]; intros Hl; [done|]. cbn [app].
        apply literal_high; [apply in_range_true in Hd; lia|auto].
      * eapply literal_hex; [by vm_compute..|done].
Qed.

Lemma jstr_literal s d : json_ok (jstr s) d = true.
Proof. destruct d; apply literal_literal_ok, quote_literal. Qed.

Lemma jmember_wf name v d : json_ok v d = true → member_ok d (jmember name v) = true.
Proof.
  intros Hv. unfold member_ok, jmember. cbn [fst snd]. rw Hv bool_decide_true // literal_literal_ok //. apply quote_literal.
Qed.

(** A value with a line end after it. *)
Lemma parse_line v : json_ok v maxNestingDepth = true → parse (print v ++ [byte_of 10]) = Some v.
Proof.
  intros Hok. unfold parse. rw (skip_ws_print v maxNestingDepth) // (parse_value_print v maxNestingDepth) //.
Qed.
