(* ===== verification/GoTime.v ===== *)
(** * package time: calendar dates and RFC 3339 texts

    An instant is its nanoseconds since the Unix epoch. [civil] and [days_of] turn
    a day into a date of the proleptic Gregorian calendar and back; [format_rfc3339]
    is the text [time.Time.MarshalJSON] writes for an instant in UTC, and
    [parse_rfc3339] the strict grammar [UnmarshalJSON] tries first. A text outside
    that grammar is handed to [time.Parse], which stays a parameter. *)

From S2P Require Import Prelude GoRuntime Json.
Local Open Scope Z_scope.

(** ** Dates *)

Definition date : Type := Z * Z * Z.

Definition era_days : Z := 146097.
Definition epoch_shift : Z := 719468.

Definition is_leap (y : Z) : bool := (y mod 4 =? 0) && (negb (y mod 100 =? 0) || (y mod 400 =? 0)).

Definition daysIn (m y : Z) : Z :=
  if m =? 2 then (if is_leap y then 29 else 28)
  else if (m =? 4) || (m =? 6) || (m =? 9) || (m =? 11) then 30 else 31.

(** The day of a date, counted from 1970-01-01; years begin in March here, so that
    the leap day is the last one. *)
Definition days_of (dt : date) : Z :=
  let '(y, m, d) := dt in
  let y' := if m <=? 2 then y - 1 else y in
  let yoe := y' mod 400 in
  let doy := (153 * (if 2 <? m then m - 3 else m + 9) + 2) / 5 + d - 1 in
  y' / 400 * era_days + (yoe * 365 + yoe / 4 - yoe / 100 + doy) - epoch_shift.

(** The date of the day [doe] of an era of 400 years, with the year within it. *)
Definition civil_in_era (doe : Z) : date :=
  let yoe := (doe - doe / 1460 + doe / 36524 - doe / 146096) / 365 in
  let doy := doe - (365 * yoe + yoe / 4 - yoe / 100) in
  let mp := (5 * doy + 2) / 153 in
  let m := if mp <? 10 then mp + 3 else mp - 9 in
  (if m <=? 2 then yoe + 1 else yoe, m, doy - (153 * mp + 2) / 5 + 1).

Definition civil (z : Z) : date :=
  let z' := z + epoch_shift in
  let '(y, m, d) := civil_in_era (z' mod era_days) in
  (y + z' / era_days * 400, m, d).

(** ** Writing *)

(** [n] with [w] digits. *)
Fixpoint pad (w : nat) (n : Z) : bytes :=
  match w with
  | O => []
  | S w' => pad w' (n / 10) ++ [byte_of (48 + n mod 10)]
  end.

Definition c_zero : Ascii.ascii := Ascii.ascii_of_nat 48.

Fixpoint drop_zeros (s : bytes) : bytes :=
  match s with
  | c :: s' => if decide (c = c_zero) then drop_zeros s' else s
  | [] => []
  end.

(** The fraction of a second without trailing zeros, none when it is zero. *)
Definition fraction (ns : Z) : bytes :=
  if ns =? 0 then [] else byte_of 46 :: reverse (drop_zeros (reverse (pad 9 ns))).

Definition nanos_per_day : Z := 86400 * Second.

(** [appendStrictRFC3339] of an instant in UTC; none when the year does not have
    four digits. *)
Definition format_rfc3339 (t : Z) : option bytes :=
  let '(y, m, d) := civil (t / nanos_per_day) in
  let sod := t mod nanos_per_day / Second in
  if (y <? 0) || (9999 <? y) then None
  else Some (pad 4 y ++ [byte_of 45] ++ pad 2 m ++ [byte_of 45] ++ pad 2 d ++ [byte_of 84] ++
             pad 2 (sod / 3600) ++ [byte_of 58] ++ pad 2 (sod / 60 mod 60) ++ [byte_of 58] ++ pad 2 (sod mod 60) ++
             fraction (t mod Second) ++ [byte_of 90]).

(** ** Reading *)

(** [parseUint(s, min, max)]. *)
Definition num (lo hi : Z) (s : bytes) : option Z :=
  match digits_value 0 s with
  | Some n => if (lo <=? n) && (n <=? hi) then Some n else None
  | None => None
  end.

(** [parseNanoseconds] of the digits after the point: nine count. *)
Definition nanoseconds (ds : bytes) : Z :=
  let ds := take 9 ds in
  default 0 (digits_value 0 ds) * 10 ^ (9 - Z.of_nat (length ds)).

(** The fraction, when the text has one, and the rest. *)
Definition parse_fraction (s : bytes) : Z * bytes :=
  match s with
  | p :: s' =>
      if code_of p =? 46 then
        match span_digits s' with
        | ([], _) => (0, s)
        | (ds, r) => (nanoseconds ds, r)
        end
      else (0, s)
  | [] => (0, s)
  end.

(** The zone: [Z], or an offset in seconds east of UTC. *)
Definition parse_zone (s : bytes) : option Z :=
  match s with
  | [z] => if code_of z =? 90 then Some 0 else None
  | [sg; h1; h2; c; m1; m2] =>
      match num 0 23 [h1; h2], num 0 59 [m1; m2] with
      | Some h, Some m =>
          if ((code_of sg =? 45) || (code_of sg =? 43)) && (code_of c =? 58)
          then Some ((h * 60 + m) * 60 * (if code_of sg =? 45 then -1 else 1)) else None
      | _, _ => None
      end
  | _ => None
  end.

(** [parseRFC3339]. *)
Definition parse_rfc3339 (s : bytes) : option Z :=
  match s with
  | y1 :: y2 :: y3 :: y4 :: p1 :: m1 :: m2 :: p2 :: d1 :: d2 :: p3 ::
    h1 :: h2 :: p4 :: i1 :: i2 :: p5 :: s1 :: s2 :: rest =>
      match num 0 9999 [y1; y2; y3; y4], num 1 12 [m1; m2] with
      | Some y, Some m =>
          match num 1 (daysIn m y) [d1; d2], num 0 23 [h1; h2], num 0 59 [i1; i2], num 0 59 [s1; s2] with
          | Some d, Some h, Some i, Some sec =>
              if (code_of p1 =? 45) && (code_of p2 =? 45) && (code_of p3 =? 84) && (code_of p4 =? 58) && (code_of p5 =? 58)
              then let '(ns, r) := parse_fraction rest in
                   match parse_zone r with
                   | Some off =>
                       Some ((days_of (y, m, d) * 86400 + h * 3600 + i * 60 + sec - off) * Second + ns)
                   | None => None
                   end
              else None
          | _, _, _, _ => None
          end
      | _, _ => None
      end
  | _ => None
  end.

(** [time.Time{}], the first instant of the year 1. *)
Definition zero_time : Z := - 62135596800 * Second.

(** ** [time.Time] in a JSON text *)

(** [MarshalJSON]. *)
Definition jtime (t : Z) : option json :=
  match format_rfc3339 t with Some s => Some (JString s) | None => None end.

(** The text between the quotes of a literal. *)
Definition unquoted (raw : bytes) : option bytes :=
  match raw with
  | q :: s => if decide (q = c_quote ∧ last s = Some c_quote) then Some (removelast s) else None
  | [] => None
  end.

(** [UnmarshalJSON] reads the text of the value as it stands, escapes included;
    [time_Parse] is [time.Parse(time.RFC3339, ...)]. *)
Definition dec_time {JE : JsonEnv} : decoder Z := λ old raw _,
  if decide (raw = t_null) then Some old
  else match unquoted raw with
       | None => None
       | Some s => match parse_rfc3339 s with Some t => Some t | None => time_Parse s end
       end.

(** ** Lemmas: dates *)

(** A date the calendar has. *)
Definition date_ok (dt : date) : bool :=
  let '(y, m, d) := dt in (1 <=? m) && (m <=? 12) && (1 <=? d) && (d <=? daysIn m y).

(** Every day of an era has its own date. *)
Definition era_check (doe : Z) : bool :=
  date_ok (civil_in_era doe) && (days_of (civil_in_era doe) + epoch_shift =? doe).

Fixpoint check_below (n : positive) (lo : Z) (f : Z → bool) : bool :=
  match n with
  | xH => f lo
  | xO p => check_below p lo f && check_below p (lo + Z.pos p) f
  | xI p => check_below p lo f && check_below p (lo + Z.pos p) f && f (lo + Z.pos p + Z.pos p)
  end.

Lemma check_below_spec n lo f z : check_below n lo f = true → lo ≤ z < lo + Z.pos n → f z = true.
Proof.
  revert lo. induction n as [p IH|p IH|]; intros lo H Hz; cbn [check_below] in H; reflect_bools.
  - destruct (decide (z < lo + Z.pos p)); [apply (IH lo); auto; lia|].
    destruct (decide (z < lo + Z.pos p + Z.pos p)); [apply (IH (lo + Z.pos p)); auto; lia|].
    by replace z with (lo + Z.pos p + Z.pos p) by lia.
  - destruct (decide (z < lo + Z.pos p)); [apply (IH lo); auto; lia|]. apply (IH (lo + Z.pos p)); auto; lia.
  - by replace z with lo by lia.
Qed.

Lemma era_checked : check_below 146097 0 era_check = true.
Proof. vm_cast_no_check (eq_refl true). Qed.

Lemma is_leap_era y k : is_leap (y + k * 400) = is_leap y.
Proof.
  unfold is_leap. replace (y + k * 400) with (y + k * 100 * 4) at 1 by lia. rw Z_mod_plus_full.
  replace (y + k * 400) with (y + k * 4 * 100) at 1 by lia. rw Z_mod_plus_full. by rw Z_mod_plus_full.
Qed.

Lemma days_of_era y m d k : days_of (y + k * 400, m, d) = days_of (y, m, d) + k * era_days.
Proof.
  unfold days_of. destruct (m <=? 2).
  - replace (y + k * 400 - 1) with (y - 1 + k * 400) by lia. rw Z_mod_plus_full Z_div_plus_full //. lia.
  - rw Z_mod_plus_full Z_div_plus_full //. lia.
Qed.

(** [civil] finds a date of the calendar, and it is the day's. *)
Lemma civil_spec z : date_ok (civil z) = true ∧ days_of (civil z) = z.
Proof.
  unfold civil. assert (0 ≤ (z + epoch_shift) mod era_days < 0 + Z.pos 146097) as Hr.
  { pose proof (Z.mod_pos_bound (z + epoch_shift) era_days ltac:(done)). unfold era_days in *. lia. }
  pose proof (check_below_spec _ _ _ _ era_checked Hr) as Hc. unfold era_check in Hc.
  destruct (civil_in_era _) as [[y m] d]. reflect_bools. rename select (_ + epoch_shift = _) into Hd. split.
  - rename select (date_ok _ = true) into Hok. unfold date_ok, daysIn in *. by rw is_leap_era.
  - rw days_of_era. pose proof (Z.div_mod (z + epoch_shift) era_days ltac:(done)). lia.
Qed.

(** ** Lemmas: digits *)

Lemma digits_value_pad w n acc :
  0 ≤ n < 10 ^ Z.of_nat w → digits_value acc (pad w n) = Some (acc * 10 ^ Z.of_nat w + n).
Proof.
  revert n acc. induction w as [|w IH]; intros n acc Hn; [simpl in *; f_equal; lia|].
  rw Nat2Z.inj_succ Z.pow_succ_r in Hn |- *; [|lia..]. cbn [pad].
  rw digits_value_app IH; [|split; [apply Z.div_pos|apply Z.div_lt_upper_bound]; lia].
  simpl. rw is_digit_byte digit_code. f_equal. pose proof (Z.div_mod n 10). lia.
Qed.

Lemma pad_digits w n : Forall (λ c, is_digit c = true) (pad w n).
Proof.
  revert n. induction w as [|w IH]; intros n; [constructor|]. cbn [pad].
  apply Forall_app. split; [done|]. constructor; [apply is_digit_byte|constructor].
Qed.

Lemma length_pad w n : length (pad w n) = w.
Proof. revert n. induction w as [|w IH]; intros n; [done|]. cbn [pad]. rw length_app IH /=. lia. Qed.

(** A padded number is read back within its bounds. *)
Lemma num_pad w lo hi n : 0 ≤ lo ≤ n → n ≤ hi → n < 10 ^ Z.of_nat w → num lo hi (pad w n) = Some n.
Proof.
  intros. unfold num. rw digits_value_pad; [|lia]. replace (0 * 10 ^ Z.of_nat w + n) with n by lia.
  by replace ((lo <=? n) && (n <=? hi)) with true by lia.
Qed.

Lemma digits_value_zeros k acc : digits_value acc (replicate k c_zero) = Some (acc * 10 ^ Z.of_nat k).
Proof.
  revert acc. induction k as [|k IH]; intros acc; [simpl; f_equal; lia|]. cbn [replicate digits_value].
  replace (is_digit c_zero) with true by done. rw IH. change (code_of c_zero) with 48.
  rw Nat2Z.inj_succ Z.pow_succ_r; [|lia]. f_equal. lia.
Qed.

Lemma drop_zeros_spec s : ∃ k, s = replicate k c_zero ++ drop_zeros s.
Proof.
  induction s as [|c s [k IH]]; [by exists 0%nat|]. cbn [drop_zeros]. case_decide as E; [|by exists 0%nat].
  exists (S k). simpl. by rw E -IH.
Qed.

(** The digits that are kept, and the zeros that are not. *)
Lemma fraction_digits ns :
  0 < ns < Second → ∃ ds k, fraction ns = byte_of 46 :: ds ∧ pad 9 ns = ds ++ replicate k c_zero ∧ ds ≠ [] ∧
    Forall (λ c, is_digit c = true) ds.
Proof.
  intros Hns. unfold fraction. replace (ns =? 0) with false by lia.
  destruct (drop_zeros_spec (reverse (pad 9 ns))) as [k Hk]. set (ds := reverse (drop_zeros _)).
  assert (pad 9 ns = ds ++ replicate k c_zero) as Hp.
  { rw -(reverse_involutive (pad 9 ns)) Hk reverse_app. by rw reverse_replicate. }
  exists ds, k. split; [done|]. split; [done|]. split.
  - intros E. rw E in Hp. cbn [app] in Hp. pose proof (digits_value_pad 9 ns 0) as Hv. rw Hp digits_value_zeros in Hv.
    ospecialize (Hv _); [unfold Second, Millisecond in *; simpl; lia|]. injection Hv. lia.
  - pose proof (pad_digits 9 ns) as Hf. rw Hp in Hf. by apply Forall_app in Hf as [? _].
Qed.

Lemma span_digits_app ds r :
  Forall (λ c, is_digit c = true) ds → match r with c :: _ => is_digit c = false | [] => True end →
  span_digits (ds ++ r) = (ds, r).
Proof.
  intros Hd Hr. induction Hd as [|c ds Hc _ IH]; simpl; [|by rw Hc IH].
  destruct r as [|c r]; [done|]. simpl. by rw Hr.
Qed.

Lemma parse_fraction_print ns :
  0 ≤ ns < Second → parse_fraction (fraction ns ++ [byte_of 90]) = (ns, [byte_of 90]).
Proof.
  intros Hns. destruct (decide (ns = 0)) as [->|Hne]; [done|].
  destruct (fraction_digits ns) as (ds & k & -> & Hp & Hne' & Hd); [lia|].
  unfold parse_fraction. cbn [app]. replace (code_of (byte_of 46) =? 46) with true by done.
  rw span_digits_app //. destruct ds as [|c ds]; [done|]. f_equal. unfold nanoseconds.
  pose proof (length_pad 9 ns) as Hl. rw Hp length_app length_replicate in Hl. rw take_ge; [|lia].
  pose proof (digits_value_pad 9 ns 0) as Hv. rw Hp digits_value_app in Hv.
  ospecialize (Hv _); [unfold Second, Millisecond in *; simpl; lia|].
  apply bind_Some in Hv as (a & Ha & Hv). rw Ha. rw digits_value_zeros in Hv.
  assert (a * 10 ^ Z.of_nat k = 0 * 10 ^ Z.of_nat 9 + ns) as He by congruence.
  cbn [default from_option id]. replace (9 - Z.of_nat (length (c :: ds))) with (Z.of_nat k); lia.
Qed.

(** ** Lemmas: texts *)

(** The text of an instant, one field after the other. *)
Lemma parse_fields y m d h i sec ns :
  0 ≤ y ≤ 9999 → date_ok (y, m, d) = true → 0 ≤ h < 24 → 0 ≤ i < 60 → 0 ≤ sec < 60 → 0 ≤ ns < Second →
  parse_rfc3339 (pad 4 y ++ [byte_of 45] ++ pad 2 m ++ [byte_of 45] ++ pad 2 d ++ [byte_of 84] ++
    pad 2 h ++ [byte_of 58] ++ pad 2 i ++ [byte_of 58] ++ pad 2 sec ++ fraction ns ++ [byte_of 90]) =
  Some ((days_of (y, m, d) * 86400 + h * 3600 + i * 60 + sec) * Second + ns).
Proof.
  intros Hy Hdt Hh Hi Hs Hns. unfold date_ok in Hdt. reflect_bools.
  assert (daysIn m y ≤ 31) by (unfold daysIn; repeat case_match; lia).
  pose proof (num_pad 4 0 9999 y ltac:(lia) ltac:(lia) ltac:(simpl; lia)) as Ny.
  pose proof (num_pad 2 1 12 m ltac:(lia) ltac:(lia) ltac:(simpl; lia)) as Nm.
  pose proof (num_pad 2 1 (daysIn m y) d ltac:(lia) ltac:(lia) ltac:(simpl; lia)) as Nd.
  pose proof (num_pad 2 0 23 h ltac:(lia) ltac:(lia) ltac:(simpl; lia)) as Nh.
  pose proof (num_pad 2 0 59 i ltac:(lia) ltac:(lia) ltac:(simpl; lia)) as Ni.
  pose proof (num_pad 2 0 59 sec ltac:(lia) ltac:(lia) ltac:(simpl; lia)) as Ns.
  cbn [pad app] in *. unfold parse_rfc3339. rw Ny Nm Nd Nh Ni Ns.
  replace (code_of (byte_of 45) =? 45) with true by done. replace (code_of (byte_of 84) =? 84) with true by done.
  replace (code_of (byte_of 58) =? 58) with true by done. cbn [andb].
  rw parse_fraction_print //. f_equal. lia.
Qed.

(** An instant that can be written is read back. *)
Lemma parse_format t s : format_rfc3339 t = Some s → parse_rfc3339 s = Some t.
Proof.
  unfold format_rfc3339. pose proof (civil_spec (t / nanos_per_day)) as [Hok Hday].
  destruct (civil (t / nanos_per_day)) as [[y m] d]. case_match eqn:Hy; [done|]. reflect_bools.
  set (sod := t mod nanos_per_day / Second). intros [= <-].
  assert (0 ≤ sod < 86400 ∧ t = (t / nanos_per_day * 86400 + sod) * Second + t mod Second) as [Hsod Ht].
  { unfold sod, nanos_per_day, Second, Millisecond. clear. Z.to_euclidean_division_equations. lia. }
  rw parse_fields //.
  - rw Hday. f_equal. rw [RHS]Ht.
    assert (sod / 3600 * 3600 + sod / 60 mod 60 * 60 + sod mod 60 = sod) as Hs; [|lia].
    clear -Hsod. Z.to_euclidean_division_equations. lia.
  - clear -Hsod. Z.to_euclidean_division_equations. lia.
  - clear -Hsod. Z.to_euclidean_division_equations. lia.
  - clear -Hsod. Z.to_euclidean_division_equations. lia.
  - apply Z.mod_pos_bound. done.
Qed.

(** A byte that stands for itself in a literal. *)
Definition plain (c : Ascii.ascii) : bool :=
  negb (Ascii.eqb c c_quote) && negb (Ascii.eqb c c_backslash) && negb (code_of c <? 32).

Lemma plain_literal s : Forall (λ c, plain c = true) s → literal_ok s = true.
Proof.
  intros H. apply bool_decide_eq_true. induction H as [|c s Hc _ IH]; [done|].
  unfold plain in Hc. rw !andb_true_iff !negb_true_iff in Hc. destruct Hc as [[E1 E2] E3].
  cbn [app scan_string]. by rw E1 E2 E3 IH.
Qed.

Lemma plain_digits s : Forall (λ c, is_digit c = true) s → Forall (λ c, plain c = true) s.
Proof.
  intros Hs. eapply Forall_impl; [exact Hs|]. intros c. simpl. clear Hs. destruct c as [[] [] [] [] [] [] [] []]; intros H; vm_compute in H |- *; done.
Qed.

Lemma format_plain t s : format_rfc3339 t = Some s → Forall (λ c, plain c = true) s.
Proof.
  unfold format_rfc3339. destruct (civil (t / nanos_per_day)) as [[y m] d]. case_match; [done|].
  assert (0 ≤ t mod Second < Second) as Hns by (by apply Z.mod_pos_bound).
  set (ns := t mod Second) in *. intros <-%(inj Some).
  assert (Forall (λ c, plain c = true) (fraction ns)) as Hf.
  { destruct (decide (ns = 0)) as [->|Hne]; [done|].
    destruct (fraction_digits ns) as (ds & k & -> & _ & _ & Hd); [lia|]. constructor; [done|by apply plain_digits]. }
  rw !Forall_app. split_and!; try exact Hf;
    first [by apply Forall_singleton | apply Forall_nil_2 | apply plain_digits, Forall_singleton, is_digit_byte].
Qed.

Lemma unquoted_print s : unquoted (print (JString s)) = Some s.
Proof.
  cbn [print unquoted]. rw decide_True; [by rw removelast_last|]. split; [done|by rw last_snoc].
Qed.

(** The JSON text of an instant is well formed and read back, whatever [time.Parse]
    does with other texts. *)
Lemma jtime_roundtrip {JE : JsonEnv} t v old d :
  jtime t = Some v → json_ok v d = true ∧ dec_time old (print v) v = Some t.
Proof.
  unfold jtime. case_match eqn:E; [|done]. intros [= <-]. split; [by eapply plain_literal, format_plain|].
  unfold dec_time. case_decide as En; [discriminate En|]. by rw unquoted_print (parse_format t).
Qed.

Example format_leap_day :
  String.string_of_list_ascii <$> format_rfc3339 (1709210096 * Second + 500 * Millisecond) =
    Some "2024-02-29T12:34:56.5Z".
Proof. by vm_compute. Qed.
