(* ===== verification/Proto.v ===== *)
(** * gen/ironwork/v1: the protobuf messages the services exchange

    One record per message of the generated package that the code reads or
    builds, with the fields of the Go struct. A pointer field is an [option]
    ([None] is nil); a generated getter on a possibly nil message is [pb_get].
    [bytes] is a byte string, a timestamp its instant in nanoseconds, a [double]
    the exact rational it approximates. *)

From Stdlib Require Import QArith.
From S2P Require Import Prelude GoRuntime.
Local Open Scope Z_scope.

(** [func (x *M) GetF() T { if x != nil { return x.F }; return zero }]. *)
Definition pb_get {M T : Type} (zero : T) (f : M → T) (x : option M) : T :=
  match x with Some m => f m | None => zero end.

(** ** job.pb.go *)

Inductive JobStatus : Type :=
| JOB_STATUS_UNSPECIFIED
| JOB_STATUS_PENDING
| JOB_STATUS_SCHEDULED
| JOB_STATUS_RUNNING
| JOB_STATUS_SUCCEEDED
| JOB_STATUS_FAILED
| JOB_STATUS_OTHER (n : Z).   (* an open enum: any other wire value *)

#[export] Instance JobStatus_eq_dec : EqDecision JobStatus.
Proof. solve_decision. Defined.

Record ProtoJob : Type := mkProtoJob {
  pj_Id : string;
  pj_Name : string;
  pj_Payload : string;
  pj_Status : JobStatus;
  pj_AssignedWorkerId : string;
  pj_Attempts : Z;
  pj_Error : string;
  pj_CreatedAt : option Z;
  pj_UpdatedAt : option Z;
  pj_StartedAt : option Z;
  pj_FinishedAt : option Z;
}.

Record SubmitJobRequest : Type := mkSubmitJobRequest {
  sjr_Name : string;
  sjr_Payload : string;
}.

Record ListJobsRequest : Type := mkListJobsRequest {
  ljr_StatusFilter : JobStatus;
  ljr_PageSize : Z;
  ljr_PageToken : string;
}.

Record GetOutboxStatsResponse : Type := mkGetOutboxStatsResponse {
  gos_Pending : Z;
  gos_Dispatched : Z;
  gos_Failed : Z;
  gos_OldestPendingSeconds : Q;
}.

(** ** worker.pb.go *)

Record ExecuteJobRequest : Type := mkExecuteJobRequest {
  ejr_JobId : string;
  ejr_Name : string;
  ejr_Payload : string;
}.

Record ExecuteJobResponse : Type := mkExecuteJobResponse {
  ejr_WorkerInstance : string;
}.

Record RegisterWorkerRequest : Type := mkRegisterWorkerRequest {
  rwr_WorkerId : string;
  rwr_Address : string;
  rwr_Capacity : Z;
}.

Record RegisterWorkerResponse : Type := mkRegisterWorkerResponse {
  rwr_HeartbeatIntervalSeconds : Z;
}.

Record HeartbeatRequest : Type := mkHeartbeatRequest {
  hbr_WorkerId : string;
  hbr_Capacity : Z;
  hbr_Inflight : Z;
  hbr_SentAt : option Z;
}.

(** ** state.pb.go *)

Record ReportJobEventRequest : Type := mkReportJobEventRequest {
  rje_JobId : string;
  rje_Worker : string;
  rje_Outcome : string;
}.

Record GCounterState : Type := mkGCounterState {
  gcs_Shards : gmap string Z;
}.

Record ProtoLWWEntry : Type := mkProtoLWWEntry {
  ple_Status : string;
  ple_Worker : string;
  ple_TsUnixMs : Z;
  ple_Replica : string;
}.

Record CRDTState : Type := mkCRDTState {
  cs_ByStatus : gmap string GCounterState;
  cs_ByWorker : gmap string GCounterState;
  cs_Recent : gmap string ProtoLWWEntry;
}.

#[export] Instance GCounterState_eq_dec : EqDecision GCounterState.
Proof. solve_decision. Defined.
#[export] Instance ProtoLWWEntry_eq_dec : EqDecision ProtoLWWEntry.
Proof. solve_decision. Defined.
#[export] Instance CRDTState_eq_dec : EqDecision CRDTState.
Proof. solve_decision. Defined.

Record GetCRDTStateResponse : Type := mkGetCRDTStateResponse {
  gcr_State : option CRDTState;
  gcr_GossipEnabled : bool;
  gcr_Replica : string;
}.

Record PlacementRecord : Type := mkPlacementRecord {
  plr_JobId : string;
  plr_Worker : string;
  plr_At : option Z;
}.

Record RaftStatus : Type := mkRaftStatus {
  rs_State : string;
  rs_LeaderId : string;
  rs_Term : Z;
  rs_LastLogIndex : Z;
  rs_AppliedIndex : Z;
  rs_Peers : list string;
  rs_RecentPlacements : list PlacementRecord;
}.

Record WorkerStatus : Type := mkWorkerStatus {
  ws_Instance : string;
  ws_Alive : bool;
  ws_SecondsSinceHeartbeat : Q;
  ws_Capacity : Z;
  ws_Inflight : Z;
}.

Record NodeInfo : Type := mkNodeInfo {
  ni_Id : string;
  ni_Component : string;
  ni_Address : string;
}.

Record JobCounts : Type := mkJobCounts {
  jc_Pending : Z;
  jc_Scheduled : Z;
  jc_Running : Z;
  jc_Succeeded : Z;
  jc_Failed : Z;
}.

Record ClusterState : Type := mkClusterState {
  cls_ReportingNode : string;
  cls_Nodes : list NodeInfo;
  cls_JobCounts : option JobCounts;
  cls_AsOf : option Z;
  cls_Raft : option RaftStatus;
  cls_Workers : list WorkerStatus;
}.

(** The generated getters the code calls: nil-safe field reads. *)
Definition CRDTState_GetByStatus : option CRDTState → gmap string GCounterState := pb_get ∅ cs_ByStatus.
Definition CRDTState_GetByWorker : option CRDTState → gmap string GCounterState := pb_get ∅ cs_ByWorker.
Definition CRDTState_GetRecent : option CRDTState → gmap string ProtoLWWEntry := pb_get ∅ cs_Recent.
Definition ClusterState_GetRaft : option ClusterState → option RaftStatus := pb_get None cls_Raft.
Definition ClusterState_GetWorkers : option ClusterState → list WorkerStatus := pb_get [] cls_Workers.
Definition RaftStatus_GetState : option RaftStatus → string := pb_get EmptyString rs_State.
Definition RaftStatus_GetLeaderId : option RaftStatus → string := pb_get EmptyString rs_LeaderId.
Definition RaftStatus_GetTerm : option RaftStatus → Z := pb_get 0 rs_Term.
Definition RaftStatus_GetLastLogIndex : option RaftStatus → Z := pb_get 0 rs_LastLogIndex.
Definition RaftStatus_GetAppliedIndex : option RaftStatus → Z := pb_get 0 rs_AppliedIndex.
Definition RaftStatus_GetRecentPlacements : option RaftStatus → list PlacementRecord :=
  pb_get [] rs_RecentPlacements.

(** ** health.pb.go *)

Inductive ServingStatus : Type :=
| SERVING_STATUS_UNSPECIFIED
| SERVING_STATUS_SERVING
| SERVING_STATUS_NOT_SERVING
| SERVING_STATUS_OTHER (n : Z).   (* an open enum: any other wire value *)

#[export] Instance ServingStatus_eq_dec : EqDecision ServingStatus.
Proof. solve_decision. Defined.

Record CheckResponse : Type := mkCheckResponse {
  chk_Component : string;
  chk_Instance : string;
  chk_Status : ServingStatus;
}.

Record ComponentHealth : Type := mkComponentHealth {
  ch_Name : string;
  ch_Status : ServingStatus;
  ch_Message : string;
}.

Record ClusterCheckResponse : Type := mkClusterCheckResponse {
  ccr_Status : ServingStatus;
  ccr_Components : list ComponentHealth;
  ccr_CheckedAt : option Z;
}.
