(* ===== verification/Crdt.v ===== *)
(** * internal/crdt: the grow-only counter and the last-writer-wins map

    [GCounter] models crdt.go's [GCounter] (a [map[string]uint64]) and [LWWMap]
    its bounded last-writer-wins map. Loops over maps take a [Ranger], so each
    theorem covers every iteration order Go may choose. *)

From S2P Require Import Prelude GoRuntime.
Local Open Scope Z_scope.

(** ** What a replicated state promises its users: an idempotent, commutative,
    associative merge on well-formed states *)

Class JoinLaws {A : Type} (wf : A → Prop) (join : A → A → A) : Prop := {
  join_wf : ∀ a b, wf a → wf b → wf (join a b);
  join_comm : ∀ a b, wf a → wf b → join a b = join b a;
  join_assoc : ∀ a b c, wf a → wf b → wf c → join (join a b) c = join a (join b c);
  join_idem : ∀ a, wf a → join a a = a;
}.

(** ** type GCounter map[string]uint64 *)

Module GCounter.

Abbreviation t := (gmap string Z).

(** [c[replica]]: a missing shard reads as zero. *)
Definition shard (c : t) (r : string) : Z := default 0 (c !! r).

Definition NewGCounter : t := ∅.

Definition Inc (replica : string) (c : t) : t := <[replica := u64 (shard c replica + 1)]> c.

Definition Value (rg : Ranger Z) (c : t) : Z :=
  foldl (λ sum '(_, v), u64 (sum + v)) 0 (rg 0%nat c).

Definition merge_step (c : t) (kv : string * Z) : t :=
  let '(replica, v) := kv in
  if shard c replica <? v then <[replica := v]> c else c.

Definition Merge (rg : Ranger Z) (c other : t) : t :=
  foldl merge_step c (rg 0%nat other).

Definition Clone (rg : Ranger Z) (c : t) : t :=
  foldl (λ out '(r, v), <[r := v]> out) ∅ (rg 0%nat c).

(** Every shard holds a positive 64-bit value. [Inc] and [Merge] only ever
    write such values (until a shard reaches 2^64 increments). *)
Definition wf (c : t) : Prop := map_Forall (λ _ v, 0 < v < 2 ^ 64) c.

(** The total the counter stands for, before [uint64] truncation. *)
Definition total (c : t) : Z := map_fold (λ _ v s, v + s) 0 c.

(** Two counters that read the same on every shard. *)
Definition same (c1 c2 : t) : Prop := ∀ r, shard c1 r = shard c2 r.

End GCounter.

(** ** type LWWMap struct *)

Module LWWMap.

Record LWWEntry : Type := mkLWWEntry {
  Status : string;
  Worker : string;
  TSUnixMS : Z;
  Replica : string;
}.

#[global] Instance LWWEntry_eq_dec : EqDecision LWWEntry.
Proof. solve_decision. Defined.

(** [wins(a, b)]: a should replace b. *)
Definition wins (a b : LWWEntry) : bool :=
  if negb (TSUnixMS a =? TSUnixMS b) then TSUnixMS b <? TSUnixMS a
  else str_ltb (Replica b) (Replica a).

Record t : Type := mkLWWMap {
  entries : gmap string LWWEntry;
  limit : Z;
}.

Definition NewLWWMap (limit : Z) : t := mkLWWMap ∅ limit.

(** One round of the inner loop of [prune]: the oldest entry seen so far, [None]
    standing for [first]. *)
Definition oldest_step (acc : option (string * LWWEntry)) (kv : string * LWWEntry) :
    option (string * LWWEntry) :=
  match acc with
  | None => Some kv
  | Some (_, oldest) => if wins oldest kv.2 then Some kv else acc
  end.

Definition oldest (l : list (string * LWWEntry)) : option (string * LWWEntry) :=
  foldl oldest_step None l.

(** [oldestKey] after the inner loop; the empty string over an empty map. *)
Definition oldest_key (l : list (string * LWWEntry)) : string :=
  match oldest l with Some (k, _) => k | None => EmptyString end.

(** [for len(m.entries) > m.limit { ... }], its [n]-th round ranging over the
    map as [rg n]. Each round deletes an entry, so [size m] rounds are enough
    for a non-negative limit ([prune_terminates]). *)
Fixpoint prune_loop (fuel n : nat) (rg : Ranger LWWEntry) (limit : Z)
    (m : gmap string LWWEntry) : gmap string LWWEntry :=
  match fuel with
  | O => m
  | S fuel' =>
      if limit <? Z.of_nat (size m)
      then prune_loop fuel' (S n) rg limit (delete (oldest_key (rg n m)) m)
      else m
  end.

Definition prune (n : nat) (rg : Ranger LWWEntry) (m : t) : t :=
  mkLWWMap (prune_loop (size (entries m)) n rg (limit m) (entries m)) (limit m).

(** [if cur, ok := m.entries[key]; ok && !wins(e, cur)]. *)
Definition keeps (m : gmap string LWWEntry) (key : string) (e : LWWEntry) : bool :=
  match m !! key with Some cur => negb (wins e cur) | None => false end.

Definition Set_ (rg : Ranger LWWEntry) (key : string) (e : LWWEntry) (m : t) : t :=
  if keeps (entries m) key e then m
  else prune 0 rg (mkLWWMap (<[key := e]> (entries m)) (limit m)).

Definition merge_step (m : gmap string LWWEntry) (kv : string * LWWEntry) :
    gmap string LWWEntry :=
  let '(key, e) := kv in if keeps m key e then m else <[key := e]> m.

(** The loop of [Merge] over [other]; [prune] then ranges with the following
    indices. *)
Definition Merge (rg : Ranger LWWEntry) (m : t) (other : gmap string LWWEntry) : t :=
  prune 1 rg (mkLWWMap (foldl merge_step (entries m) (rg 0%nat other)) (limit m)).

Definition Entries (rg : Ranger LWWEntry) (m : t) : gmap string LWWEntry :=
  foldl (λ out '(k, v), <[k := v]> out) ∅ (rg 0%nat (entries m)).

(** *** Specification vocabulary *)

(** The later of two entries for one key, the current one on a tie. *)
Definition latest (cur new : option LWWEntry) : option LWWEntry :=
  match cur, new with
  | Some c, Some e => Some (if wins e c then e else c)
  | None, x => x
  | x, None => x
  end.

Definition join (m1 m2 : gmap string LWWEntry) : gmap string LWWEntry :=
  merge latest m1 m2.

(** One job is never stamped twice with the same time by the same replica but
    different contents. *)
Definition consistent (m1 m2 : gmap string LWWEntry) : Prop :=
  ∀ k e1 e2, m1 !! k = Some e1 → m2 !! k = Some e2 →
    TSUnixMS e1 = TSUnixMS e2 → Replica e1 = Replica e2 → e1 = e2.

(** Different jobs carry different stamps. *)
Definition stamps_distinct (m : gmap string LWWEntry) : Prop :=
  ∀ k1 k2 e1 e2, m !! k1 = Some e1 → m !! k2 = Some e2 → k1 ≠ k2 →
    wins e1 e2 = true ∨ wins e2 e1 = true.

(** [w] is what a window of [n] entries should hold of [m]: as many entries as
    fit, and none left out is newer than one kept. *)
Definition newest (n : nat) (m w : gmap string LWWEntry) : Prop :=
  w ⊆ m ∧ size w = Nat.min (size m) n ∧
  ∀ k e k' e', w !! k = Some e → m !! k' = Some e' → w !! k' = None → wins e' e = false.

End LWWMap.

(** ** GCounter: lemmas *)

Module GCounterFacts.
Import GCounter.

Lemma shard_nonneg c r : map_Forall (λ _ v, 0 ≤ v) c → 0 ≤ shard c r.
Proof.
  intros Hc. unfold shard. destruct (c !! r) as [v|] eqn:E; simpl; [|lia].
  by apply (Hc r).
Qed.

Lemma wf_nonneg c : wf c → map_Forall (λ _ v, 0 ≤ v) c.
Proof. intros Hc r v Hv. specialize (Hc r v Hv). simpl in Hc. lia. Qed.

Lemma lookup_shard c r : wf c → c !! r = if shard c r =? 0 then None else Some (shard c r).
Proof.
  intros Hc. unfold shard. destruct (c !! r) as [v|] eqn:E; simpl; [|done].
  specialize (Hc r v E). simpl in Hc. by replace (v =? 0) with false by lia.
Qed.

(** On well-formed counters, equal readings mean equal maps. *)
Lemma same_eq c1 c2 : wf c1 → wf c2 → same c1 c2 → c1 = c2.
Proof. intros H1 H2 Hs. apply map_eq. intros r. by rw !lookup_shard // Hs. Qed.

#[global] Instance same_equiv : Equivalence same.
Proof.
  split; unfold same.
  - by intros c r.
  - intros c1 c2 H r. by rw H.
  - intros c1 c2 c3 H1 H2 r. by rw H1.
Qed.

Lemma merge_step_keyed m k v k' :
  merge_step m (k, v) !! k' =
    if decide (k = k') then (if default 0 (m !! k) <? v then Some v else m !! k) else m !! k'.
Proof.
  unfold merge_step, shard. case_decide as E; subst; case_match; try done.
  - by rw lookup_insert_eq.
  - by rw lookup_insert_ne.
Qed.

Lemma lookup_Merge rg c o r :
  Merge rg c o !! r =
    match o !! r with
    | Some v => if default 0 (c !! r) <? v then Some v else c !! r
    | None => c !! r
    end.
Proof.
  unfold Merge. rw (foldl_range_keyed _ (λ x v, if default 0 x <? v then Some v else x)); [done|].
  intros. apply merge_step_keyed.
Qed.

(** Merge is the pointwise maximum, on any counters. *)
Lemma shard_Merge rg c o r :
  map_Forall (λ _ v, 0 ≤ v) c → shard (Merge rg c o) r = Z.max (shard c r) (shard o r).
Proof.
  intros Hc. pose proof (shard_nonneg c r Hc) as Hr. unfold shard in *.
  rw lookup_Merge. destruct (o !! r) as [v|]; simpl; [|lia].
  destruct (default 0 (c !! r) <? v) eqn:E; simpl; lia.
Qed.

(** The result of Merge does not depend on the iteration order. *)
Lemma Merge_order rg rg' c o : Merge rg c o = Merge rg' c o.
Proof. apply map_eq. intros r. by rw !lookup_Merge. Qed.

Lemma Merge_wf rg c o : wf c → wf o → wf (Merge rg c o).
Proof.
  intros Hc Ho r v. rw lookup_Merge.
  destruct (o !! r) as [w|] eqn:E; [|by apply Hc].
  case_match; [|by apply Hc]. intros [= <-]. by apply (Ho r).
Qed.

Lemma shard_Inc c r r' :
  shard (Inc r c) r' = if decide (r = r') then u64 (shard c r + 1) else shard c r'.
Proof. unfold shard, Inc. rw lookup_insert. by case_decide. Qed.

Lemma Inc_wf c r : wf c → shard c r + 1 < 2 ^ 64 → wf (Inc r c).
Proof.
  intros Hc Hr. unfold Inc. apply map_Forall_insert_2; [|done].
  pose proof (shard_nonneg c r (wf_nonneg _ Hc)).
  rw wrap_u_small; lia.
Qed.

Lemma Clone_id rg c : Clone rg c = c.
Proof. apply range_copy. Qed.

#[global] Instance Merge_laws rg : JoinLaws wf (Merge rg).
Proof.
  split.
  - intros. by apply Merge_wf.
  - intros a b Ha Hb. apply same_eq; [by apply Merge_wf..|].
    intros r. rw !shard_Merge; [lia|by apply wf_nonneg..].
  - intros a b c Ha Hb Hc. apply same_eq; [by repeat apply Merge_wf..|].
    intros r. rw !shard_Merge; auto using wf_nonneg, Merge_wf. lia.
  - intros a Ha. apply same_eq; [by apply Merge_wf|done|].
    intros r. rw shard_Merge; [lia|by apply wf_nonneg].
Qed.

(** Merge is well defined on readings: counters that read the same merge to
    counters that read the same, explicit zero shards or not. *)
Lemma Merge_same rg c1 c2 o1 o2 :
  map_Forall (λ _ v, 0 ≤ v) c1 → map_Forall (λ _ v, 0 ≤ v) c2 →
  same c1 c2 → same o1 o2 → same (Merge rg c1 o1) (Merge rg c2 o2).
Proof. intros H1 H2 Hc Ho r. by rw !shard_Merge // Hc Ho. Qed.

(** The value: order independence and the closed form. *)

Lemma value_loop_sum (l : list (string * Z)) s :
  foldl (λ sum '(_, v), u64 (sum + v)) (u64 s) l = u64 (s + foldr (λ kv t, kv.2 + t) 0 l).
Proof.
  revert s. induction l as [|[k v] l IH]; intros s; simpl; [f_equal; lia|].
  unfold wrap_u at 2 3. rw Zplus_mod_idemp_l. fold (u64 (s + v)). rw IH.
  f_equal. lia.
Qed.

Lemma foldr_sum_perm (l l' : list (string * Z)) :
  l ≡ₚ l' → foldr (λ kv t, kv.2 + t) 0 l = foldr (λ kv t, kv.2 + t) 0 l'.
Proof. induction 1; simpl; lia. Qed.

Lemma total_sum c : total c = foldr (λ kv t, kv.2 + t) 0 (map_to_list c).
Proof.
  unfold total. rw map_fold_foldr. induction (map_to_list c) as [|[k v] l IH]; simpl; [done|].
  by rw IH.
Qed.

Lemma Value_total rg c : Value rg c = u64 (total c).
Proof.
  unfold Value. replace 0 with (u64 0) at 1 by done. rw value_loop_sum Z.add_0_l.
  by rw total_sum (foldr_sum_perm _ _ (range_perm rg 0%nat c)).
Qed.

Lemma total_insert c r v : c !! r = None → total (<[r := v]> c) = v + total c.
Proof.
  intros H. unfold total. apply (map_fold_insert_L (λ (_ : string) v s, v + s)); [|done].
  intros. lia.
Qed.

Lemma total_shard c r : total c = shard c r + total (delete r c).
Proof.
  unfold shard. destruct (c !! r) as [v|] eqn:E; simpl.
  - rw -{1}(insert_id c r v E) -insert_delete_eq total_insert; [done|apply lookup_delete_eq].
  - by rw delete_id.
Qed.

Lemma total_Inc c r : shard c r + 1 < 2 ^ 64 → 0 ≤ shard c r → total (Inc r c) = total c + 1.
Proof.
  intros H H0. rw (total_shard (Inc r c) r) (total_shard c r) shard_Inc.
  rw decide_True; [|done]. rw wrap_u_small; [|lia].
  unfold Inc. rw delete_insert_eq. lia.
Qed.

End GCounterFacts.

(** ** Convergence of any state with join laws *)

Section converge.
Context {A : Type} (wf : A → Prop) (join : A → A → A) `{!JoinLaws wf join}.

Lemma fold_join_wf a l : wf a → Forall wf l → wf (foldl join a l).
Proof using Type*.
  revert a. induction l as [|x l IH]; intros a Ha Hl; simpl; [done|].
  inversion_clear Hl. apply IH; [|done]. by apply join_wf.
Qed.

Lemma fold_join_swap a b l :
  wf a → wf b → Forall wf l → foldl join (join a b) l = join b (foldl join a l).
Proof using Type*.
  revert a. induction l as [|x l IH]; intros a Ha Hb Hl; simpl.
  { by apply join_comm. }
  inversion_clear Hl as [|? ? Hx Hl'].
  rw (join_assoc a b x) // (join_comm b x) // -(join_assoc a x b) //.
  apply IH; [by apply join_wf|done..].
Qed.

Lemma fold_join_absorb a l :
  wf a → Forall wf l → join a (foldl join a l) = foldl join a l.
Proof using Type*.
  intros Ha Hl. rw -fold_join_swap //. by rw (join_idem a).
Qed.

Lemma fold_join_elem a l x :
  wf a → Forall wf l → x ∈ l → join x (foldl join a l) = foldl join a l.
Proof using Type*.
  revert a. induction l as [|y l IH]; intros a Ha Hl Hx; [by apply elem_of_nil in Hx|].
  inversion_clear Hl as [|? ? Hy Hl']. simpl.
  apply elem_of_cons in Hx as [->|Hx].
  - rw -fold_join_swap //; [|by apply join_wf].
    rw (join_assoc a y y) //. by rw (join_idem y).
  - apply IH; [by apply join_wf|done..].
Qed.

Lemma fold_join_incl a l l' :
  wf a → Forall wf l → l' ⊆ l →
  join (foldl join a l) (foldl join a l') = foldl join a l.
Proof using Type*.
  intros Ha Hl Hincl.
  assert (Forall wf l') as Hl'.
  { apply Forall_forall. intros x Hx. rw Forall_forall in Hl. by apply Hl, Hincl. }
  pose proof (fold_join_wf a l Ha Hl) as Hp.
  rw -fold_join_swap //.
  clear Hl'. revert Hincl. induction l' as [|x l' IH]; intros Hincl; simpl.
  { by rw fold_join_absorb. }
  assert (wf x) as Hx.
  { rw Forall_forall in Hl. apply Hl, Hincl. set_solver. }
  rw (join_assoc a _ x) // (join_comm _ x) //.
  rw (fold_join_elem a l x) //; [|set_solver].
  apply IH. set_solver.
Qed.

(** Merging the same states gives the same result, however often and in
    whichever order each of them is merged. *)
Lemma fold_join_set a l l' :
  wf a → Forall wf l → (∀ x, x ∈ l ↔ x ∈ l') → foldl join a l = foldl join a l'.
Proof using Type*.
  intros Ha Hl Heq.
  assert (Forall wf l') as Hl'.
  { apply Forall_forall. intros x Hx. rw Forall_forall in Hl. by apply Hl, Heq. }
  rw -(fold_join_incl a l l') //; [|intros x; apply Heq].
  rw join_comm; [|by apply fold_join_wf..].
  rw fold_join_incl //. intros x. apply Heq.
Qed.
End converge.

(** ** LWWMap: lemmas *)

Module LWWMapFacts.
Import LWWMap.

#[global] Instance wins_ok : LessOk wins.
Proof.
  pose proof (less_flip_ok str_ltb).
  pose proof (less_on_ok Replica (λ x y, str_ltb y x)).
  by apply (less_lex_ok TSUnixMS (λ a b, str_ltb (Replica b) (Replica a))).
Qed.

(** Entries neither of which wins carry the same stamp. *)
Lemma wins_tie a b :
  wins a b = false → wins b a = false → TSUnixMS a = TSUnixMS b ∧ Replica a = Replica b.
Proof.
  unfold wins. destruct (Z.eqb_spec (TSUnixMS a) (TSUnixMS b)) as [E|E]; simpl.
  - rw E Z.eqb_refl /=. intros H1 H2. split; [done|]. by apply str_ltb_false_antisym.
  - replace (TSUnixMS b =? TSUnixMS a) with false by lia. simpl. lia.
Qed.

Lemma t_ext m1 m2 : entries m1 = entries m2 → limit m1 = limit m2 → m1 = m2.
Proof. destruct m1, m2. simpl. congruence. Qed.

Lemma Entries_id rg m : Entries rg m = entries m.
Proof. apply range_copy. Qed.

Lemma lww_step_keyed m k e k' :
  merge_step m (k, e) !! k' = if decide (k = k') then latest (m !! k) (Some e) else m !! k'.
Proof.
  unfold merge_step, keeps, latest. case_decide as E.
  - subst. destruct (m !! k') as [c|] eqn:Em; [|by rw lookup_insert_eq].
    destruct (wins e c); simpl; [by rw lookup_insert_eq|done].
  - case_match; [done|]. by rw lookup_insert_ne.
Qed.

(** The loop of [Merge] computes the entrywise latest, in any order. *)
Lemma merge_loop_join (rg : Ranger LWWEntry) n m o : foldl merge_step m (rg n o) = join m o.
Proof.
  apply map_eq. intros k.
  rw (foldl_range_keyed _ (λ x e, latest x (Some e))); [|intros; apply lww_step_keyed].
  unfold join. rw lookup_merge. unfold diag_None, latest.
  by destruct (m !! k), (o !! k).
Qed.

Lemma lookup_join m1 m2 k : join m1 m2 !! k = latest (m1 !! k) (m2 !! k).
Proof. unfold join. rw lookup_merge. by destruct (m1 !! k), (m2 !! k). Qed.

Lemma entries_Merge rg m o :
  entries (Merge rg m o) =
    prune_loop (size (join (entries m) o)) 1 rg (limit m) (join (entries m) o).
Proof. unfold Merge, prune. simpl. by rw merge_loop_join. Qed.

(** *** Decidability of the stamp conditions *)

Definition same_stamp_ok (e1 e2 : LWWEntry) : Prop :=
  TSUnixMS e1 = TSUnixMS e2 → Replica e1 = Replica e2 → e1 = e2.

#[global] Instance same_stamp_opt_dec e (x : option LWWEntry) :
  Decision (from_option (same_stamp_ok e) True x).
Proof. destruct x; simpl; [unfold same_stamp_ok|]; apply _. Defined.

#[global] Instance consistent_dec m1 m2 : Decision (consistent m1 m2).
Proof.
  refine (cast_if (decide (Forall (λ kv : string * LWWEntry,
    from_option (same_stamp_ok kv.2) True (m2 !! kv.1)) (map_to_list m1)))).
  - abstract (intros k e1 e2 H1 H2; rw Forall_forall in f;
      specialize (f (k, e1) ltac:(by apply elem_of_map_to_list)); simpl in f; by rw H2 in f).
  - abstract (intros Hc; apply n, Forall_forall; intros [k e1] H1%elem_of_map_to_list; simpl;
      destruct (m2 !! k) as [e2|] eqn:H2; simpl; [intros Ht Hr; by apply (Hc k)|done]).
Defined.

#[global] Instance stamps_distinct_dec m : Decision (stamps_distinct m).
Proof.
  refine (cast_if (decide (Forall (λ kv1 : string * LWWEntry, Forall (λ kv2 : string * LWWEntry,
    kv1.1 ≠ kv2.1 → wins kv1.2 kv2.2 = true ∨ wins kv2.2 kv1.2 = true)
    (map_to_list m)) (map_to_list m)))).
  - abstract (intros k1 k2 e1 e2 H1 H2; rw Forall_forall in f;
      specialize (f (k1, e1) ltac:(by apply elem_of_map_to_list));
      rw Forall_forall in f; by apply (f (k2, e2)), elem_of_map_to_list).
  - abstract (intros Hd; apply n, Forall_forall; intros [k1 e1] H1%elem_of_map_to_list;
      apply Forall_forall; intros [k2 e2] H2%elem_of_map_to_list; by apply Hd).
Defined.

(** *** Laws of the unpruned merge *)

Lemma latest_idem x : latest x x = x.
Proof. unfold latest. destruct x as [e|]; [|done]. by case_match. Qed.

Lemma join_idem_lww m : join m m = m.
Proof. apply map_eq. intros k. rw lookup_join. apply latest_idem. Qed.

Lemma join_comm_lww m1 m2 : consistent m1 m2 → join m1 m2 = join m2 m1.
Proof.
  intros Hc. apply map_eq. intros k. rw !lookup_join. unfold latest.
  destruct (m1 !! k) as [a|] eqn:E1, (m2 !! k) as [b|] eqn:E2; try done. f_equal.
  destruct (wins b a) eqn:W1, (wins a b) eqn:W2; try done.
  - pose proof (less_asym _ _ W1). congruence.
  - destruct (wins_tie a b W2 W1) as [Ht Hr]. by rw (Hc k a b E1 E2 Ht Hr).
Qed.

Lemma join_assoc_lww m1 m2 m3 : join (join m1 m2) m3 = join m1 (join m2 m3).
Proof.
  apply map_eq. intros k. rw !lookup_join. unfold latest.
  destruct (m1 !! k) as [a|], (m2 !! k) as [b|], (m3 !! k) as [c|]; try done;
    try (by case_match). f_equal.
  destruct (wins b a) eqn:W1, (wins c b) eqn:W2; try done.
  - by rw (less_trans _ c b a W2 W1).
  - by rw W1.
  - pose proof (less_negtrans a b c W1 W2) as ->. by rw W1.
Qed.

(** *** The oldest entry *)

Lemma oldest_fold_spec l acc k e :
  foldl oldest_step acc l = Some (k, e) →
  ((k, e) ∈ l ∨ acc = Some (k, e)) ∧
  (∀ k' e', (k', e') ∈ l ∨ acc = Some (k', e') → wins e e' = false).
Proof.
  revert acc. induction l as [|[k1 e1] l IH]; intros acc; simpl.
  { intros ->. split; [by right|]. intros k' e' [H|[= <- <-]].
    - by apply elem_of_nil in H.
    - apply less_irrefl, _. }
  intros H. apply IH in H as [Hin Hmin]. clear IH.
  assert (wins e e1 = false ∧ ∀ k' e', acc = Some (k', e') → wins e e' = false) as [H1 H2].
  { destruct acc as [[k0 e0]|]; simpl in *.
    - destruct (wins e0 e1) eqn:W.
      + pose proof (Hmin k1 e1 (or_intror eq_refl)) as He1. split; [done|].
        intros k' e' [= <- <-]. eapply less_negtrans; [|exact He1]. by apply less_asym.
      + pose proof (Hmin k0 e0 (or_intror eq_refl)) as He0. split.
        * by eapply less_negtrans.
        * by intros k' e' [= <- <-].
    - split; [|done]. by apply (Hmin k1 e1); right. }
  split.
  - destruct Hin as [Hin|Hacc]; [left; set_solver|].
    destruct acc as [[k0 e0]|]; simpl in Hacc.
    + destruct (wins e0 e1); simplify_eq; [left; set_solver|by right].
    + simplify_eq. left. set_solver.
  - intros k' e' [Hin'|Hacc].
    + apply elem_of_cons in Hin' as [[= -> ->]|Hin']; [done|]. apply (Hmin k'). by left.
    + by eapply H2.
Qed.

Lemma oldest_is_Some l : l ≠ [] → ∃ k e, oldest l = Some (k, e).
Proof.
  assert (∀ l acc, is_Some acc → is_Some (foldl oldest_step acc l)) as Hs.
  { clear l. induction l as [|kv l IH]; intros acc Ha; simpl; [done|]. apply IH.
    destruct acc as [[? ?]|]; simpl; [by case_match|by apply is_Some_None in Ha]. }
  destruct l as [|kv l]; [done|]. intros _. unfold oldest. simpl.
  destruct (Hs l (Some kv) (mk_is_Some _ _ eq_refl)) as [[k e] H]. eauto.
Qed.

(** Over a non-empty map, in any order, the scan finds an entry no other entry
    is older than. *)
Lemma oldest_key_spec (rg : Ranger LWWEntry) n (m : gmap string LWWEntry) :
  m ≠ ∅ → ∃ e, m !! oldest_key (rg n m) = Some e ∧
    ∀ k' e', m !! k' = Some e' → wins e e' = false.
Proof.
  intros Hne. destruct (oldest_is_Some (rg n m)) as (k & e & Ho).
  { intros Hnil. apply Hne, map_size_empty_inv. by rw -(length_range rg n m) Hnil. }
  unfold oldest_key. rw Ho. unfold oldest in Ho.
  apply oldest_fold_spec in Ho as [[Hin|?] Hmin]; [|done]. exists e. split.
  - by apply (elem_of_range rg n).
  - intros k' e' Hk'. apply (Hmin k'). left. by apply elem_of_range.
Qed.

(** *** Pruning *)

Lemma newest_refl n m : (size m ≤ n)%nat → newest n m m.
Proof.
  intros Hs. split; [done|]. split; [lia|]. intros k e k' e' _ H1 H2. congruence.
Qed.

(** Whatever the order of the scans, pruning keeps the newest entries. *)
Lemma prune_loop_newest fuel n rg lim m :
  0 ≤ lim → (size m ≤ fuel)%nat →
  newest (Z.to_nat lim) m (prune_loop fuel n rg lim m).
Proof.
  intros Hlim. revert n m. induction fuel as [|fuel IH]; intros n m Hf; simpl.
  { apply newest_refl. lia. }
  destruct (lim <? Z.of_nat (size m)) eqn:E; [|apply newest_refl; lia].
  destruct (oldest_key_spec rg n m) as (e0 & Hk & Hmin).
  { intros Hm. apply map_size_empty_iff in Hm. lia. }
  set (k0 := oldest_key (rg n m)) in *.
  assert (size (delete k0 m) = Nat.pred (size m)) as Hsz by (apply map_size_delete_Some; eauto).
  destruct (IH (S n) (delete k0 m)) as (Hsub & Hsize & Hdom); [lia|].
  split; [|split].
  - etrans; [exact Hsub|apply delete_subseteq].
  - lia.
  - intros k e k' e' Hw Hm Hnone. destruct (decide (k' = k0)) as [->|Hne].
    + rw Hk in Hm. injection Hm as <-. apply (Hmin k).
      eapply lookup_weaken; [|apply delete_subseteq]. by eapply lookup_weaken.
    + eapply Hdom; [exact Hw| |exact Hnone]. by rw lookup_delete_ne.
Qed.

Lemma entries_prune_newest n rg m :
  0 ≤ limit m → newest (Z.to_nat (limit m)) (entries m) (entries (prune n rg m)).
Proof. intros. by apply prune_loop_newest. Qed.

(** A window that strictly dominates what it leaves out is the only one. *)
Lemma newest_unique n m w1 w2 :
  newest n m w1 → newest n m w2 →
  (∀ k e k' e', w1 !! k = Some e → m !! k' = Some e' → w1 !! k' = None → wins e e' = true) →
  w2 = w1.
Proof.
  intros (Hs1 & Hz1 & Hd1) (Hs2 & Hz2 & Hd2) Hstrict.
  destruct (set_choose_or_empty (dom w2 ∖ dom w1 : gset string)) as [[k' Hk']|Hempty].
  - exfalso. destruct (set_choose_or_empty (dom w1 ∖ dom w2 : gset string)) as [[k Hk]|Hempty].
    + apply elem_of_difference in Hk as [[e He]%elem_of_dom Hn%not_elem_of_dom].
      apply elem_of_difference in Hk' as [[e' He']%elem_of_dom Hn'%not_elem_of_dom].
      pose proof (lookup_weaken _ _ _ _ He Hs1) as Hm.
      pose proof (lookup_weaken _ _ _ _ He' Hs2) as Hm'.
      pose proof (Hstrict k e k' e' He Hm' Hn'). pose proof (Hd2 k' e' k e He' Hm Hn). congruence.
    + assert ((dom w1 : gset string) ⊂ dom w2) as Hlt.
      { split; set_solver. }
      apply subset_size in Hlt. rw !size_dom in Hlt. lia.
  - apply map_subseteq_size_eq; [|lia]. apply map_subseteq_spec. intros k e He.
    assert (k ∈ dom w1) as [e1 He1]%elem_of_dom.
    { assert (k ∈ dom w2) by (apply elem_of_dom; eauto). set_solver. }
    pose proof (lookup_weaken _ _ _ _ He Hs2). pose proof (lookup_weaken _ _ _ _ He1 Hs1).
    congruence.
Qed.

Lemma newest_strict n m w :
  newest n m w → stamps_distinct m →
  ∀ k e k' e', w !! k = Some e → m !! k' = Some e' → w !! k' = None → wins e e' = true.
Proof.
  intros (Hs & _ & Hd) Hdist k e k' e' Hk Hk' Hn.
  pose proof (Hd k e k' e' Hk Hk' Hn) as Hf.
  destruct (Hdist k k' e e') as [?|?]; try done; [by eapply lookup_weaken| |congruence].
  intros ->. congruence.
Qed.

(** With distinct stamps the iteration order cannot be observed. *)
Lemma prune_order n n' rg rg' m :
  0 ≤ limit m → stamps_distinct (entries m) → prune n rg m = prune n' rg' m.
Proof.
  intros Hl Hd. pose proof (entries_prune_newest n rg m Hl) as H1.
  pose proof (entries_prune_newest n' rg' m Hl) as H2.
  unfold prune in *. simpl in *. f_equal. symmetry.
  eapply newest_unique; [exact H1|exact H2|]. by apply newest_strict with (n := Z.to_nat (limit m)).
Qed.

Lemma latest_wins x e e' : latest x (Some e) = Some e' → wins e e' = false.
Proof.
  unfold latest. destruct x as [c|]; [|intros [= <-]; apply less_irrefl, _].
  destruct (wins e c) eqn:W; intros [= <-]; [apply less_irrefl, _|done].
Qed.

Lemma latest_cur e x e' : latest (Some e) x = Some e' → e' = e ∨ wins e' e = true.
Proof.
  unfold latest. destruct x as [c|]; [|by intros [= <-]; left].
  destruct (wins c e) eqn:W; intros [= <-]; [by right|by left].
Qed.

(** Merging a window of [join a b] back into [a] only adds, next to the window,
    entries the window already left out, or older versions of them. *)
Lemma join_window a b w k :
  w ⊆ join b a → consistent a b →
  join a w !! k = match w !! k with Some e => Some e | None => a !! k end.
Proof.
  intros Hw Hc. rw lookup_join. destruct (w !! k) as [e|] eqn:E; [|by destruct (a !! k)].
  pose proof (lookup_weaken _ _ _ _ E Hw) as Hj. rw lookup_join in Hj.
  destruct (a !! k) as [ea|] eqn:Ea; simpl; [|done]. f_equal.
  destruct (wins e ea) eqn:W; [done|].
  pose proof (latest_wins _ _ _ Hj) as W'. destruct (wins_tie e ea W W') as [Ht Hr].
  unfold latest in Hj. destruct (b !! k) as [eb|] eqn:Eb; [|congruence].
  destruct (wins ea eb); [congruence|]. injection Hj as ->. by apply (Hc k).
Qed.

(** One push-pull exchange between two bounded maps makes them equal. *)
Lemma exchange_entries rg rg' a b lim :
  0 ≤ lim → consistent a b → stamps_distinct (join b a) →
  let b' := Merge rg (mkLWWMap b lim) a in
  let a' := Merge rg' (mkLWWMap a lim) (entries b') in
  entries a' = entries b'.
Proof.
  intros Hl Hc Hd b' a'.
  assert (newest (Z.to_nat lim) (join b a) (entries b')) as Hw.
  { unfold b'. rw entries_Merge. by apply prune_loop_newest. }
  unfold a'. rw entries_Merge. clear a'. clearbody b'. cbn [entries limit].
  pose proof (newest_strict _ _ _ Hw Hd) as Hstrict.
  revert Hw Hstrict. generalize (entries b') as w. intros w Hw Hstrict.
  pose proof Hw as (Hsub & Hsize & _).
  assert (w ⊆ join a w) as Hsub'.
  { apply map_subseteq_spec. intros k e He. by rw (join_window a b) // He. }
  assert (∀ k e k' e', w !! k = Some e → join a w !! k' = Some e' → w !! k' = None →
    wins e e' = true) as Hstrict'.
  { intros k e k' e' Hk Hk' Hn. rw (join_window a b) // Hn in Hk'.
    assert (∃ e1, join b a !! k' = Some e1) as [e1 He1].
    { rw lookup_join Hk'. destruct (b !! k'); simpl; eauto. }
    pose proof (Hstrict k e k' e1 Hk He1 Hn) as Hw1.
    rw lookup_join Hk' in He1. pose proof (latest_wins _ _ _ He1) as Hw2.
    destruct (wins e e') eqn:W; [done|].
    pose proof (less_negtrans e1 e' e Hw2 W). congruence. }
  eapply (newest_unique (Z.to_nat lim) (join a w)); [|by apply prune_loop_newest|done].
  split; [done|]. split.
  - destruct (decide (size (join b a) ≤ Z.to_nat lim)%nat) as [Hle|Hgt].
    + assert (w = join b a) as ->.
      { apply map_subseteq_size_eq; [done|lia]. }
      assert (join a (join b a) = join b a) as ->; [|lia].
      apply map_eq. intros k. rw (join_window a b) //.
      destruct (join b a !! k) eqn:E; [done|]. rw lookup_join in E.
      destruct (a !! k), (b !! k); done.
    + pose proof (map_subseteq_size _ _ Hsub'). lia.
  - intros k e k' e' Hk Hk' Hn. apply less_asym. by eapply Hstrict'.
Qed.

End LWWMapFacts.

(** ** Properties *)

(** C26: on well-formed counters, GCounter.Merge is commutative, associative and
    idempotent, takes the maximum of every shard, and gives the same map
    whatever order Go iterates in. *)
Theorem gcounter_merge_laws (rg rg' : Ranger Z) (a b c : GCounter.t) :
  GCounter.wf a → GCounter.wf b → GCounter.wf c →
  GCounter.Merge rg a b = GCounter.Merge rg' b a ∧
  GCounter.Merge rg (GCounter.Merge rg a b) c = GCounter.Merge rg' a (GCounter.Merge rg' b c) ∧
  GCounter.Merge rg a a = a ∧
  ∀ r, GCounter.shard (GCounter.Merge rg a b) r = Z.max (GCounter.shard a r) (GCounter.shard b r).
Proof.
  intros Ha Hb Hc. split; [|split; [|split]].
  - rw (GCounterFacts.Merge_order rg' rg). by apply join_comm.
  - rw !(GCounterFacts.Merge_order rg' rg). by apply join_assoc.
  - by apply join_idem.
  - intros r. apply GCounterFacts.shard_Merge. by apply GCounterFacts.wf_nonneg.
Qed.

Definition gc_ab : GCounter.t := {["a" := 1; "b" := 9]}.
Definition gc_bc : GCounter.t := {["b" := 4; "c" := 2]}.
Definition gc_ac : GCounter.t := {["a" := 7; "c" := 1]}.

Lemma gc_examples_wf : GCounter.wf gc_ab ∧ GCounter.wf gc_bc ∧ GCounter.wf gc_ac.
Proof.
  split; [|split]; apply (bool_decide_unpack _); by vm_compute.
Qed.

Lemma gcounter_merge_laws_witness :
  GCounter.Merge (ranger_asc Z) (GCounter.Merge (ranger_asc Z) gc_ab gc_bc) gc_ac =
    GCounter.Merge (ranger_desc Z) gc_ab (GCounter.Merge (ranger_desc Z) gc_bc gc_ac).
Proof.
  destruct gc_examples_wf as (Ha & Hb & Hc).
  exact (proj1 (proj2 (gcounter_merge_laws (ranger_asc Z) (ranger_desc Z) gc_ab gc_bc gc_ac Ha Hb Hc))).
Defined.

(** A replica's counter depends only on which counters it has merged: two
    gossip schedules that deliver the same states, in different orders and with
    different repetitions, end in the same counter. *)
Theorem gcounter_gossip_schedule (rg : Ranger Z) (c : GCounter.t) (l l' : list GCounter.t) :
  GCounter.wf c → Forall GCounter.wf l → (∀ x, x ∈ l ↔ x ∈ l') →
  foldl (GCounter.Merge rg) c l = foldl (GCounter.Merge rg) c l'.
Proof. apply fold_join_set. apply _. Qed.

Lemma gcounter_gossip_schedule_witness :
  foldl (GCounter.Merge (ranger_asc Z)) ∅ [gc_ab; gc_bc; gc_ab; gc_ac] =
    foldl (GCounter.Merge (ranger_asc Z)) ∅ [gc_ac; gc_bc; gc_ab].
Proof.
  destruct gc_examples_wf as (Ha & Hb & Hc). apply gcounter_gossip_schedule.
  - apply map_Forall_empty.
  - do 4 (apply Forall_cons_2; [done|]). apply Forall_nil_2.
  - set_solver.
Defined.

(** Inc adds one to the counter's value, in uint64 arithmetic, and the value
    is the sum of the shards whatever order Go sums them in. *)
Theorem gcounter_inc_value (rg rg' : Ranger Z) (r : string) (c : GCounter.t) :
  GCounter.Value rg (GCounter.Inc r c) = u64 (GCounter.Value rg' c + 1) ∧
  GCounter.Value rg c = u64 (GCounter.total c).
Proof.
  rw !GCounterFacts.Value_total. split; [|done].
  rw (GCounterFacts.total_shard (GCounter.Inc r c) r) (GCounterFacts.total_shard c r).
  rw GCounterFacts.shard_Inc decide_True //. unfold GCounter.Inc. rw delete_insert_eq.
  unfold wrap_u. rw Zplus_mod_idemp_l Zplus_mod_idemp_l. f_equal. lia.
Qed.

(** C27: after any Merge into a bounded map, whatever orders Go iterates in, the
    map holds exactly the newest entries of the merged map, at most [limit] of
    them: no entry left out wins against an entry kept. *)
Theorem lww_merge_keeps_newest (rg : Ranger LWWMap.LWWEntry) (m : LWWMap.t)
    (other : gmap string LWWMap.LWWEntry) :
  0 ≤ LWWMap.limit m →
  LWWMap.newest (Z.to_nat (LWWMap.limit m)) (LWWMap.join (LWWMap.entries m) other)
    (LWWMap.entries (LWWMap.Merge rg m other)) ∧
  Z.of_nat (size (LWWMap.entries (LWWMap.Merge rg m other))) ≤ LWWMap.limit m.
Proof.
  intros Hl. rw LWWMapFacts.entries_Merge.
  pose proof (LWWMapFacts.prune_loop_newest (size (LWWMap.join (LWWMap.entries m) other)) 1 rg
    (LWWMap.limit m) (LWWMap.join (LWWMap.entries m) other) Hl (le_n _)) as Hn.
  split; [done|]. destruct Hn as (_ & Hs & _). lia.
Qed.

Definition lww_e (ts : Z) (r : string) : LWWMap.LWWEntry := LWWMap.mkLWWEntry "succeeded" "w" ts r.
Definition lww_m : LWWMap.t :=
  LWWMap.mkLWWMap {["j1" := lww_e 100 "sm-1"; "j2" := lww_e 200 "sm-1"]} 2.
Definition lww_o : gmap string LWWMap.LWWEntry := {["j1" := lww_e 300 "sm-2"; "j3" := lww_e 150 "sm-2"]}.

Lemma lww_merge_keeps_newest_witness :
  LWWMap.entries (LWWMap.Merge (ranger_asc _) lww_m lww_o) =
    {["j1" := lww_e 300 "sm-2"; "j2" := lww_e 200 "sm-1"]} ∧
  Z.of_nat (size (LWWMap.entries (LWWMap.Merge (ranger_asc _) lww_m lww_o))) ≤ 2.
Proof.
  split; [vm_compute; reflexivity|].
  exact (proj2 (lww_merge_keeps_newest (ranger_asc _) lww_m lww_o ltac:(simpl; lia))).
Defined.

(** One push-pull exchange makes two bounded last-writer-wins maps equal,
    for all iteration orders, when different jobs carry different stamps and one
    job never carries two contents under one stamp. *)
Theorem lww_exchange_converges (rg rg' : Ranger LWWMap.LWWEntry)
    (a b : gmap string LWWMap.LWWEntry) (lim : Z) :
  0 ≤ lim → LWWMap.consistent a b → LWWMap.stamps_distinct (LWWMap.join b a) →
  let b' := LWWMap.Merge rg (LWWMap.mkLWWMap b lim) a in
  let a' := LWWMap.Merge rg' (LWWMap.mkLWWMap a lim) (LWWMap.entries b') in
  a' = b'.
Proof.
  intros Hl Hc Hd b' a'. apply LWWMapFacts.t_ext; [|done].
  by apply LWWMapFacts.exchange_entries.
Qed.

Definition lww_a : gmap string LWWMap.LWWEntry := {["j1" := lww_e 100 "sm-1"; "j2" := lww_e 200 "sm-1"]}.

Lemma lww_exchange_converges_witness :
  let b' := LWWMap.Merge (ranger_asc _) (LWWMap.mkLWWMap lww_o 2) lww_a in
  let a' := LWWMap.Merge (ranger_desc _) (LWWMap.mkLWWMap lww_a 2) (LWWMap.entries b') in
  a' = b'.
Proof.
  apply lww_exchange_converges; [lia|apply (bool_decide_unpack _); by vm_compute..].
Defined.
