(* ===== verification/StateSvc.v ===== *)
(** * internal/statesvc: the statemanager's CRDT-backed StateService

    [Server] is one replica; its handlers are functions on that state. Handlers
    hold the server's mutex, so a handler call is one atomic step; the gossip
    loop releases it between taking a snapshot, the RPC and the merge of the
    answer, which the cluster relation [cl_step] models as separate steps. *)

From S2P Require Import Prelude GoRuntime Crdt Proto.
Local Open Scope Z_scope.

Definition recentLimit : Z := 50.
Definition OutcomeSucceeded : string := "succeeded".
Definition OutcomeFailed : string := "failed".

Record Server : Type := mkServer {
  replica : string;
  gossipOn : bool;
  byStatus : gmap string GCounter.t;
  byWorker : gmap string GCounter.t;
  recent : LWWMap.t;
}.

(** The iteration orders a handler call meets. *)
Record Ranges : Type := mkRanges {
  r_shards : Ranger Z;
  r_counters : Ranger GCounter.t;
  r_states : Ranger GCounterState;
  r_entries : Ranger LWWMap.LWWEntry;
  r_protos : Ranger ProtoLWWEntry;
}.

Definition ranges_asc : Ranges :=
  mkRanges (ranger_asc _) (ranger_asc _) (ranger_asc _) (ranger_asc _) (ranger_asc _).

Definition New (replica : string) : Server :=
  mkServer replica true ∅ ∅ (LWWMap.NewLWWMap recentLimit).

(** [s.counterLocked(m, key)]: the counter and the map, which now holds it. *)
Definition counterLocked (m : gmap string GCounter.t) (key : string) :
    GCounter.t * gmap string GCounter.t :=
  match m !! key with
  | Some c => (c, m)
  | None => let c := GCounter.NewGCounter in (c, <[key := c]> m)
  end.

(** [s.counterLocked(m, key).op()]: the method updates, in place, the counter
    the map holds under [key]. *)
Definition with_counter (op : GCounter.t → GCounter.t) (m : gmap string GCounter.t)
    (key : string) : gmap string GCounter.t :=
  let '(c, m') := counterLocked m key in <[key := op c]> m'.

Definition ReportJobEvent (rs : Ranges) (nowMS : Z) (req : ReportJobEventRequest) (s : Server) :
    result err unit * Server :=
  if String.eqb (rje_JobId req) EmptyString || String.eqb (rje_Worker req) EmptyString then
    (Err (EStatus InvalidArgument "job_id and worker are required"), s)
  else if negb (String.eqb (rje_Outcome req) OutcomeSucceeded)
          && negb (String.eqb (rje_Outcome req) OutcomeFailed) then
    (Err (EStatus InvalidArgument
            ("outcome must be " +:+ go_quote OutcomeSucceeded +:+ " or " +:+ go_quote OutcomeFailed)), s)
  else
    (Ok tt,
     mkServer (replica s) (gossipOn s)
       (with_counter (GCounter.Inc (replica s)) (byStatus s) (rje_Outcome req))
       (with_counter (GCounter.Inc (replica s)) (byWorker s) (rje_Worker req))
       (LWWMap.Set_ (r_entries rs) (rje_JobId req)
          (LWWMap.mkLWWEntry (rje_Outcome req) (rje_Worker req) nowMS (replica s))
          (recent s))).

Definition mergeCounters (rs : Ranges) (dst : gmap string GCounter.t)
    (src : gmap string GCounterState) : gmap string GCounter.t :=
  foldl (λ dst '(key, remote),
    with_counter (λ c, GCounter.Merge (r_shards rs) c (gcs_Shards remote)) dst key)
    dst (r_states rs 0%nat src).

Definition entry_of_proto (e : ProtoLWWEntry) : LWWMap.LWWEntry :=
  LWWMap.mkLWWEntry (ple_Status e) (ple_Worker e) (ple_TsUnixMs e) (ple_Replica e).

Definition entry_to_proto (e : LWWMap.LWWEntry) : ProtoLWWEntry :=
  mkProtoLWWEntry (LWWMap.Status e) (LWWMap.Worker e) (LWWMap.TSUnixMS e) (LWWMap.Replica e).

Definition mergeLocked (rs : Ranges) (state : option CRDTState) (s : Server) : Server :=
  match state with
  | None => s
  | Some st =>
      let entries := foldl (λ out '(id, e), <[id := entry_of_proto e]> out) ∅
                       (r_protos rs 0%nat (cs_Recent st)) in
      mkServer (replica s) (gossipOn s)
        (mergeCounters rs (byStatus s) (cs_ByStatus st))
        (mergeCounters rs (byWorker s) (cs_ByWorker st))
        (LWWMap.Merge (r_entries rs) (recent s) entries)
  end.

Definition countersToProto (rs : Ranges) (m : gmap string GCounter.t) : gmap string GCounterState :=
  foldl (λ out '(key, c), <[key := mkGCounterState (GCounter.Clone (r_shards rs) c)]> out) ∅
    (r_counters rs 0%nat m).

Definition snapshotLocked (rs : Ranges) (s : Server) : CRDTState :=
  mkCRDTState (countersToProto rs (byStatus s)) (countersToProto rs (byWorker s))
    (foldl (λ out '(id, e), <[id := entry_to_proto e]> out) ∅
       (r_entries rs 0%nat (LWWMap.Entries (r_entries rs) (recent s)))).

Definition SyncState (rs : Ranges) (req : option CRDTState) (s : Server) :
    result err CRDTState * Server :=
  if negb (gossipOn s) then
    (Err (EStatus Unavailable "gossip disabled (simulated partition)"), s)
  else
    let s' := mergeLocked rs req s in (Ok (snapshotLocked rs s'), s').

Definition GetCRDTState (rs : Ranges) (s : Server) : GetCRDTStateResponse :=
  mkGetCRDTStateResponse (Some (snapshotLocked rs s)) (gossipOn s) (replica s).

Definition SetGossip (enabled : bool) (s : Server) : bool * Server :=
  (enabled, mkServer (replica s) enabled (byStatus s) (byWorker s) (recent s)).

Definition GetClusterState (now : Z) (s : Server) : ClusterState :=
  mkClusterState (replica s) [] None (Some now) None [].

(** The peers [RunGossip] dials, in dialling order: every configured name but
    the replica's own, sorted. *)
Definition gossip_peers {A} (rg : Ranger A) (peers : gmap string A) (s : Server) : list string :=
  sort_strings (filter (λ name, name ≠ replica s) (rg 0%nat peers).*1).

(** One tick of [RunGossip] at a replica: push-pull with each peer in turn
    through [sync], the peer's answer to a SyncState call. *)
Definition gossip_with {W} (rs : Ranges) (sync : string → CRDTState → stM W (result err CRDTState))
    (p : string) : stM (Server * W) unit :=
  λ '(s, w),
    let own := snapshotLocked rs s in
    match sync p own w with
    | (Err _, w') => (tt, (s, w'))
    | (Ok st, w') => (tt, (mergeLocked rs (Some st) s, w'))
    end.

Definition gossip_tick {W} (rs : Ranges) (sync : string → CRDTState → stM W (result err CRDTState))
    (clients : list string) : stM (Server * W) unit :=
  λ '(s, w), if negb (gossipOn s) then (tt, (s, w)) else st_iter (gossip_with rs sync) clients (s, w).

(** ** Well-formed replicas *)

(** Every shard of every counter is a positive 64-bit number; the recent window
    is within its limit. *)
Definition counters_wf (m : gmap string GCounter.t) : Prop := map_Forall (λ _ c, GCounter.wf c) m.

Definition server_wf (s : Server) : Prop :=
  counters_wf (byStatus s) ∧ counters_wf (byWorker s) ∧
  LWWMap.limit (recent s) = recentLimit ∧
  Z.of_nat (size (LWWMap.entries (recent s))) ≤ recentLimit.

Definition state_wf (st : CRDTState) : Prop :=
  map_Forall (λ _ c, GCounter.wf (gcs_Shards c)) (cs_ByStatus st) ∧
  map_Forall (λ _ c, GCounter.wf (gcs_Shards c)) (cs_ByWorker st).

(** What a replica reads for counter [key], shard [r]. *)
Definition reading (m : gmap string GCounter.t) (key r : string) : Z :=
  GCounter.shard (default ∅ (m !! key)) r.

(** The pointwise maximum of two maps of counters. *)
Definition counters_join (rs : Ranges) (m1 m2 : gmap string GCounter.t) : gmap string GCounter.t :=
  mergeCounters rs m1 (mkGCounterState <$> m2).

(** ** The replicas and their exchanges *)

(** Messages in flight. They stay in the network once sent: a message may be
    delivered late, in any order, more than once, or never. *)
Inductive message : Type :=
| SyncReq (from to : string) (st : CRDTState)
| SyncResp (to : string) (st : CRDTState).

Record cluster : Type := mkCluster {
  nodes : gmap string Server;
  net : list message;
}.

Inductive event : Type :=
| EvReport (r : string) (req : ReportJobEventRequest)
| EvGossip (r : string)
| EvPartition (r : string).

Inductive cl_step : cluster → event → cluster → Prop :=
| step_report rs nowMS r req s s' ns ms :
    ns !! r = Some s →
    ReportJobEvent rs nowMS req s = (Ok tt, s') →
    cl_step (mkCluster ns ms) (EvReport r req) (mkCluster (<[r := s']> ns) ms)
| step_set_gossip enabled r s ns ms :
    ns !! r = Some s →
    cl_step (mkCluster ns ms) (EvPartition r) (mkCluster (<[r := (SetGossip enabled s).2]> ns) ms)
| step_send rs r p s ns ms :
    ns !! r = Some s → gossipOn s = true → p ≠ r →
    cl_step (mkCluster ns ms) (EvGossip r)
      (mkCluster ns (SyncReq r p (snapshotLocked rs s) :: ms))
| step_sync rs r p st sp sp' answer ns ms :
    SyncReq r p st ∈ ms → ns !! p = Some sp →
    SyncState rs (Some st) sp = (Ok answer, sp') →
    cl_step (mkCluster ns ms) (EvGossip p)
      (mkCluster (<[p := sp']> ns) (SyncResp r answer :: ms))
| step_answer rs r st s ns ms :
    SyncResp r st ∈ ms → ns !! r = Some s →
    cl_step (mkCluster ns ms) (EvGossip r)
      (mkCluster (<[r := mergeLocked rs (Some st) s]> ns) ms).

(** Runs, with the events so far, newest first. *)
Inductive cl_run (init : cluster) : list event → cluster → Prop :=
| run_nil : cl_run init [] init
| run_step evs ev c c' : cl_run init evs c → cl_step c ev c' → cl_run init (ev :: evs) c'.

Definition init_cluster (names : gset string) : cluster :=
  mkCluster (set_to_map (λ r, (r, New r)) names) [].

(** Reports replica [r] accepted whose counter key under [key_of] is [key]. *)
Fixpoint accepted (key_of : ReportJobEventRequest → string) (r key : string) (evs : list event) : Z :=
  match evs with
  | [] => 0
  | EvReport r' req :: evs' =>
      (if decide (r' = r ∧ key_of req = key) then 1 else 0) + accepted key_of r key evs'
  | _ :: evs' => accepted key_of r key evs'
  end.

(** ** Closed forms: the loops over maps, order-free *)

Lemma lookup_with_counter op m key k :
  with_counter op m key !! k = if decide (key = k) then Some (op (default ∅ (m !! key))) else m !! k.
Proof.
  unfold with_counter, counterLocked. destruct (m !! key) as [c|] eqn:E; simpl;
    rw !lookup_insert; by case_decide.
Qed.

Lemma lookup_mergeCounters rs dst src k :
  mergeCounters rs dst src !! k =
    match src !! k with
    | Some remote => Some (GCounter.Merge (r_shards rs) (default ∅ (dst !! k)) (gcs_Shards remote))
    | None => dst !! k
    end.
Proof.
  unfold mergeCounters.
  rw (foldl_range_keyed _ (λ x remote,
    Some (GCounter.Merge (r_shards rs) (default ∅ x) (gcs_Shards remote)))); [done|].
  intros m k1 v k2. apply lookup_with_counter.
Qed.

Lemma mergeCounters_order rs rs' dst src : mergeCounters rs dst src = mergeCounters rs' dst src.
Proof.
  apply map_eq. intros k. rw !lookup_mergeCounters. destruct (src !! k); [|done].
  f_equal. apply GCounterFacts.Merge_order.
Qed.

(** A loop that stores [f v] under the key of each entry is [f <$> m]. *)
Lemma range_fmap {A B} (f : A → B) (rg : Ranger A) n (m : gmap string A) :
  foldl (λ out '(k, v), <[k := f v]> out) ∅ (rg n m) = f <$> m.
Proof.
  apply map_eq. intros k.
  rw (foldl_range_keyed _ (λ _ v, Some (f v))).
  - rw lookup_empty lookup_fmap. by destruct (m !! k).
  - intros m' k1 v k2. rw lookup_insert. by case_decide.
Qed.

Lemma countersToProto_fmap rs m : countersToProto rs m = mkGCounterState <$> m.
Proof.
  unfold countersToProto.
  rw (range_fmap (λ c, mkGCounterState (GCounter.Clone (r_shards rs) c))).
  apply map_fmap_ext. intros k c _. by rw GCounterFacts.Clone_id.
Qed.

Lemma snapshot_eq rs s :
  snapshotLocked rs s =
    mkCRDTState (mkGCounterState <$> byStatus s) (mkGCounterState <$> byWorker s)
      (entry_to_proto <$> LWWMap.entries (recent s)).
Proof.
  unfold snapshotLocked. by rw !countersToProto_fmap range_fmap LWWMapFacts.Entries_id.
Qed.

Lemma mergeLocked_eq rs st s :
  mergeLocked rs (Some st) s =
    mkServer (replica s) (gossipOn s)
      (mergeCounters rs (byStatus s) (cs_ByStatus st))
      (mergeCounters rs (byWorker s) (cs_ByWorker st))
      (LWWMap.Merge (r_entries rs) (recent s) (entry_of_proto <$> cs_Recent st)).
Proof. unfold mergeLocked. by rw range_fmap. Qed.

Lemma entry_of_to_proto e : entry_of_proto (entry_to_proto e) = e.
Proof. by destruct e. Qed.

Lemma entries_of_to_proto (m : gmap string LWWMap.LWWEntry) :
  entry_of_proto <$> (entry_to_proto <$> m) = m.
Proof. rw -map_fmap_compose -{2}(map_fmap_id m). apply map_fmap_ext. intros. apply entry_of_to_proto. Qed.

Lemma shards_of_to_proto (m : gmap string GCounter.t) k :
  gcs_Shards <$> (mkGCounterState <$> m) !! k = m !! k.
Proof. rw lookup_fmap. by destruct (m !! k). Qed.

(** ** Maps of counters form a join semilattice *)

Lemma lookup_counters_join rs m1 m2 k :
  counters_join rs m1 m2 !! k =
    match m2 !! k with
    | Some c => Some (GCounter.Merge (r_shards rs) (default ∅ (m1 !! k)) c)
    | None => m1 !! k
    end.
Proof.
  unfold counters_join. rw lookup_mergeCounters lookup_fmap. by destruct (m2 !! k).
Qed.

Lemma empty_wf : GCounter.wf ∅.
Proof. apply map_Forall_empty. Qed.

Lemma default_wf m k : counters_wf m → GCounter.wf (default ∅ (m !! k)).
Proof. intros Hm. destruct (m !! k) as [c|] eqn:E; [by apply (Hm k)|apply empty_wf]. Qed.

Lemma merge_empty_l rg c : GCounter.wf c → GCounter.Merge rg ∅ c = c.
Proof.
  intros Hc. apply GCounterFacts.same_eq; [by apply GCounterFacts.Merge_wf, Hc; apply empty_wf|done|].
  intros r. rw GCounterFacts.shard_Merge; [|apply map_Forall_empty].
  pose proof (GCounterFacts.shard_nonneg c r (GCounterFacts.wf_nonneg c Hc)).
  unfold GCounter.shard at 1. rw lookup_empty /=. lia.
Qed.

#[export] Instance counters_join_laws rs : JoinLaws counters_wf (counters_join rs).
Proof.
  split.
  - intros a b Ha Hb k c. rw lookup_counters_join. destruct (b !! k) as [cb|] eqn:E; [|by apply Ha].
    intros [= <-]. apply GCounterFacts.Merge_wf; [by apply default_wf|by apply (Hb k)].
  - intros a b Ha Hb. apply map_eq. intros k. rw !lookup_counters_join.
    destruct (a !! k) as [ca|] eqn:Ea, (b !! k) as [cb|] eqn:Eb; simpl; try done.
    + f_equal. apply join_comm; [by apply (Ha k)|by apply (Hb k)].
    + rw merge_empty_l //. by apply (Ha k).
    + rw merge_empty_l //. by apply (Hb k).
  - intros a b c Ha Hb Hc. apply map_eq. intros k. rw !lookup_counters_join.
    pose proof (default_wf a k Ha). pose proof (default_wf b k Hb).
    destruct (c !! k) as [cc|] eqn:Ec; [|done].
    assert (GCounter.wf cc) by by apply (Hc k).
    destruct (b !! k) as [cb|] eqn:Eb; simpl in *.
    + f_equal. by apply join_assoc.
    + by rw merge_empty_l.
  - intros a Ha. apply map_eq. intros k. rw lookup_counters_join.
    destruct (a !! k) as [ca|] eqn:Ea; [|done]. simpl. f_equal.
    apply join_idem. by apply (Ha k).
Qed.

Lemma reading_mergeCounters rs dst src k r :
  counters_wf dst →
  reading (mergeCounters rs dst src) k r =
    Z.max (reading dst k r) (GCounter.shard (default ∅ (gcs_Shards <$> src !! k)) r).
Proof.
  intros Hd. unfold reading. rw lookup_mergeCounters.
  pose proof (default_wf dst k Hd) as Hw. pose proof (GCounterFacts.wf_nonneg _ Hw) as Hn.
  destruct (src !! k) as [remote|]; simpl.
  - by rw GCounterFacts.shard_Merge.
  - pose proof (GCounterFacts.shard_nonneg _ r Hn). unfold GCounter.shard at 3.
    rw lookup_empty /=. lia.
Qed.

Lemma mergeCounters_wf rs dst src :
  counters_wf dst → map_Forall (λ _ c, GCounter.wf (gcs_Shards c)) src →
  counters_wf (mergeCounters rs dst src).
Proof.
  intros Hd Hs k c. rw lookup_mergeCounters. destruct (src !! k) as [remote|] eqn:E; [|by apply Hd].
  intros [= <-]. apply GCounterFacts.Merge_wf; [by apply default_wf|by apply (Hs k)].
Qed.

Lemma reading_with_counter_Inc m key r k r' :
  reading (with_counter (GCounter.Inc r) m key) k r' =
    if decide (key = k ∧ r = r') then u64 (reading m key r + 1) else reading m k r'.
Proof.
  unfold reading. rw lookup_with_counter. destruct (decide (key = k)) as [->|Hk]; simpl.
  - rw GCounterFacts.shard_Inc. destruct (decide (r = r')) as [->|Hr].
    + by rw decide_True.
    + rw decide_False //. naive_solver.
  - rw decide_False //. naive_solver.
Qed.

Lemma with_counter_Inc_wf m key r :
  counters_wf m → reading m key r + 1 < 2 ^ 64 → counters_wf (with_counter (GCounter.Inc r) m key).
Proof.
  intros Hm Hlt k c. rw lookup_with_counter. case_decide as E; [|by apply Hm].
  intros [= <-]. apply GCounterFacts.Inc_wf; [by apply default_wf|done].
Qed.

Lemma fmap_wf m : counters_wf m → map_Forall (λ _ c, GCounter.wf (gcs_Shards c)) (mkGCounterState <$> m).
Proof.
  intros Hm k c. rw lookup_fmap. intros (c' & Hc' & ->)%fmap_Some_1. simpl. by apply (Hm k).
Qed.

(** ** One push-pull exchange *)

Lemma exchange_counters rs rs' a b :
  counters_wf a → counters_wf b →
  counters_join rs' a (counters_join rs b a) = counters_join rs b a.
Proof.
  intros Ha Hb. pose proof (counters_join_laws rs) as L.
  unfold counters_join at 1. rw (mergeCounters_order rs' rs). fold (counters_join rs a (counters_join rs b a)).
  rw (join_comm (join := counters_join rs) b a) // -(join_assoc (join := counters_join rs) a a b) //.
  by rw (join_idem (join := counters_join rs) a).
Qed.

(** ** Views: the two maps of counters a replica keeps, treated alike *)

Record view : Type := mkView {
  v_sel : Server → gmap string GCounter.t;
  v_psel : CRDTState → gmap string GCounterState;
  v_key : ReportJobEventRequest → string;
  v_new : ∀ r, v_sel (New r) = ∅;
  v_report : ∀ rs now req s s', ReportJobEvent rs now req s = (Ok tt, s') →
    v_sel s' = with_counter (GCounter.Inc (replica s)) (v_sel s) (v_key req);
  v_gossip : ∀ b s, v_sel (SetGossip b s).2 = v_sel s;
  v_snapshot : ∀ rs s, v_psel (snapshotLocked rs s) = mkGCounterState <$> v_sel s;
  v_merge : ∀ rs st s, v_sel (mergeLocked rs (Some st) s) = mergeCounters rs (v_sel s) (v_psel st);
}.

Lemma report_ok_inv rs now req s s' :
  ReportJobEvent rs now req s = (Ok tt, s') →
  replica s' = replica s ∧ gossipOn s' = gossipOn s ∧
  byStatus s' = with_counter (GCounter.Inc (replica s)) (byStatus s) (rje_Outcome req) ∧
  byWorker s' = with_counter (GCounter.Inc (replica s)) (byWorker s) (rje_Worker req).
Proof. unfold ReportJobEvent. intros H. split_match; done. Qed.

Definition status_view : view.
Proof.
  refine (mkView byStatus cs_ByStatus rje_Outcome _ _ _ _ _); try done.
  - intros. by apply report_ok_inv in H as (_ & _ & ? & _).
  - intros. by rw snapshot_eq.
Defined.

Definition worker_view : view.
Proof.
  refine (mkView byWorker cs_ByWorker rje_Worker _ _ _ _ _); try done.
  - intros. by apply report_ok_inv in H as (_ & _ & _ & ?).
  - intros. by rw snapshot_eq.
Defined.

Lemma accepted_nonneg key r k evs : 0 ≤ accepted key r k evs.
Proof. induction evs as [|[] evs IH]; simpl; try case_decide; lia. Qed.

Lemma accepted_length key r k evs : accepted key r k evs ≤ Z.of_nat (length evs).
Proof. induction evs as [|[] evs IH]; simpl; try case_decide; lia. Qed.

Lemma accepted_mono key r k ev evs : accepted key r k evs ≤ accepted key r k (ev :: evs).
Proof. destruct ev; simpl; try case_decide; lia. Qed.

Section invariant.
Context (V : view).

(** No state, at a replica or in flight, counts more reports for a shard than
    its owner accepted; the owner counts exactly those. *)
Definition bounded (evs : list event) (m : gmap string GCounter.t) : Prop :=
  counters_wf m ∧ ∀ k r, reading m k r ≤ accepted (v_key V) r k evs.

Definition node_ok (evs : list event) (p : string) (s : Server) : Prop :=
  replica s = p ∧ bounded evs (v_sel V s) ∧
  ∀ k, reading (v_sel V s) k p = accepted (v_key V) p k evs.

Definition msg_ok (evs : list event) (m : message) : Prop :=
  match m with
  | SyncReq _ _ st | SyncResp _ st => bounded evs (gcs_Shards <$> v_psel V st)
  end.

Definition cl_inv (evs : list event) (c : cluster) : Prop :=
  map_Forall (node_ok evs) (nodes c) ∧ Forall (msg_ok evs) (net c).

Lemma bounded_mono ev evs m : bounded evs m → bounded (ev :: evs) m.
Proof.
  intros [Hw Hb]. split; [done|]. intros k r. etrans; [apply Hb|apply accepted_mono].
Qed.

Lemma msg_ok_mono ev evs m : msg_ok evs m → msg_ok (ev :: evs) m.
Proof. destruct m; apply bounded_mono. Qed.

Lemma node_ok_mono ev evs p s :
  (∀ k, accepted (v_key V) p k (ev :: evs) = accepted (v_key V) p k evs) →
  node_ok evs p s → node_ok (ev :: evs) p s.
Proof.
  intros Hacc (Hr & Hb & He). split; [done|]. split; [by apply bounded_mono|].
  intros k. by rw Hacc.
Qed.

Lemma bounded_merge rs evs dst src :
  bounded evs dst → bounded evs (gcs_Shards <$> src) → bounded evs (mergeCounters rs dst src).
Proof.
  intros [Hd Hbd] [Hs Hbs]. split.
  - apply mergeCounters_wf; [done|]. intros k c Hc. apply (Hs k). by rw lookup_fmap Hc.
  - intros k r. rw reading_mergeCounters //. specialize (Hbs k r). unfold reading in Hbs.
    rw lookup_fmap in Hbs. specialize (Hbd k r). lia.
Qed.

Lemma bounded_snapshot rs evs s :
  bounded evs (v_sel V s) → bounded evs (gcs_Shards <$> v_psel V (snapshotLocked rs s)).
Proof.
  intros Hb. rw v_snapshot -map_fmap_compose.
  by rw (map_fmap_ext (gcs_Shards ∘ mkGCounterState) id) // map_fmap_id.
Qed.

(** A replica that merges a state nobody over-counts stays exact on its own
    shard. *)
Lemma node_ok_merge rs evs p s st :
  node_ok evs p s → bounded evs (gcs_Shards <$> v_psel V st) →
  node_ok evs p (mergeLocked rs (Some st) s).
Proof.
  intros (Hr & Hb & He) Hst. split; [by rw mergeLocked_eq|]. rw v_merge.
  split; [by apply bounded_merge|]. intros k.
  pose proof (bounded_merge rs evs _ _ Hb Hst) as [_ Hub]. specialize (Hub k p).
  rw reading_mergeCounters in Hub |- *; [|apply Hb..]. rw He in Hub |- *. lia.
Qed.

Lemma node_ok_report rs now evs p req s s' :
  node_ok evs p s → ReportJobEvent rs now req s = (Ok tt, s') →
  Z.of_nat (length (EvReport p req :: evs)) < 2 ^ 64 →
  node_ok (EvReport p req :: evs) p s'.
Proof.
  intros (Hr & [Hw Hb] & He) Hrep Hlen. simpl in Hlen.
  pose proof (report_ok_inv _ _ _ _ _ Hrep) as (Hr' & _).
  pose proof (v_report V _ _ _ _ _ Hrep) as Hsel. rw Hr in Hsel.
  set (q := v_key V req) in *.
  pose proof (accepted_length (v_key V) p q evs) as Hle.
  pose proof (accepted_nonneg (v_key V) p q evs) as Hge.
  assert (∀ k r, reading (v_sel V s') k r ≤ accepted (v_key V) r k (EvReport p req :: evs) ∧
    (r = p → reading (v_sel V s') k r = accepted (v_key V) r k (EvReport p req :: evs))) as Hall.
  { intros k r. rw Hsel reading_with_counter_Inc /=. fold q. specialize (Hb k r).
    destruct (decide (q = k ∧ p = r)) as [[-> ->]|Hne].
    - rw decide_True // wrap_u_small; rw He; lia.
    - rw decide_False; [|naive_solver]. split; [lia|]. intros ->. rw He. lia. }
  split; [congruence|]. split.
  - split.
    + rw Hsel. apply with_counter_Inc_wf; [done|]. rw He. lia.
    + intros k r. apply Hall.
  - intros k. by apply Hall.
Qed.

Lemma cl_inv_step c ev c' evs :
  cl_inv evs c → cl_step c ev c' → Z.of_nat (length (ev :: evs)) < 2 ^ 64 →
  cl_inv (ev :: evs) c'.
Proof.
  intros [Hn Hm] Hstep Hlen. pose proof (Forall_impl _ _ _ Hm (msg_ok_mono ev evs)) as Hm'.
  assert (∀ p s, (∀ k, accepted (v_key V) p k (ev :: evs) = accepted (v_key V) p k evs) →
    nodes c !! p = Some s → node_ok (ev :: evs) p s) as Hold.
  { intros p s Hacc Hp. apply node_ok_mono; [done|by apply Hn]. }
  inversion Hstep as [rs now r req s s' ns ms Hs Hrep|b r s ns ms Hs|rs r p s ns ms Hs Hon Hne
    |rs r p st sp sp' ans ns ms Hin Hp Hsync|rs r st s ns ms Hin Hs]; subst; simpl in *.
  - split; [|done]. intros p sp. simpl. rw lookup_insert. case_decide as E; simplify_eq/=.
    + intros [= <-]. eapply node_ok_report; [by apply Hn|done|done].
    + intros Hp. apply Hold; [|done]. intros k. rw decide_False; [lia|naive_solver].
  - split; [|done]. intros p sp. simpl. rw lookup_insert. case_decide as E; [|by apply Hold].
    subst. intros [= <-]. destruct (Hn p s Hs) as (Hr & Hb & He).
    pose proof (v_gossip V b s) as Hg. simpl in Hg.
    split; [done|]. rw Hg. split; [by apply bounded_mono|done].
  - split; [intros p' sp Hp'; by apply Hold|]. constructor; [|done]. simpl.
    apply bounded_snapshot, bounded_mono. by apply (Hn r).
  - unfold SyncState in Hsync. destruct (gossipOn sp); simplify_eq/=.
    assert (node_ok evs p (mergeLocked rs (Some st) sp)) as Hok.
    { apply node_ok_merge; [by apply Hn|]. by apply (proj1 (Forall_forall _ _) Hm _ Hin). }
    split; simpl.
    + intros p' sp'. rw lookup_insert. case_decide as E; [|by apply Hold].
      subst. intros [= <-]. by apply node_ok_mono.
    + constructor; [|done]. apply bounded_snapshot, bounded_mono. by apply Hok.
  - split; [|done]. intros p' sp'. simpl. rw lookup_insert. case_decide as E; [|by apply Hold].
    subst. intros [= <-]. apply node_ok_mono; [done|].
    apply node_ok_merge; [by apply Hn|]. by apply (proj1 (Forall_forall _ _) Hm _ Hin).
Qed.

Lemma lookup_init_cluster names r s :
  nodes (init_cluster names) !! r = Some s ↔ r ∈ names ∧ s = New r.
Proof.
  simpl. rw lookup_set_to_map; [|done]. naive_solver.
Qed.

Lemma cl_inv_init names : cl_inv [] (init_cluster names).
Proof.
  split; [|constructor]. intros r s [Hr ->]%lookup_init_cluster.
  assert (∀ k r', reading (v_sel V (New r)) k r' = 0) as H0.
  { intros k r'. rw v_new. done. }
  split; [done|]. split; [split|].
  - rw v_new. apply map_Forall_empty.
  - intros k r'. by rw H0.
  - intros k. by rw H0.
Qed.

Lemma cl_inv_run names evs c :
  cl_run (init_cluster names) evs c → Z.of_nat (length evs) < 2 ^ 64 → cl_inv evs c.
Proof.
  induction 1 as [|evs ev c c' Hrun IH Hstep]; intros Hlen; [apply cl_inv_init|].
  eapply cl_inv_step; [apply IH; simpl in Hlen; lia|done|done].
Qed.

End invariant.

Lemma SyncState_ok rs req s st s' :
  SyncState rs req s = (Ok st, s') → s' = mergeLocked rs req s ∧ st = snapshotLocked rs s'.
Proof. unfold SyncState. destruct (gossipOn s); [|done]. by intros [= <- <-]. Qed.

Lemma exchange_merge rs rs' a b :
  counters_wf a → counters_wf b →
  mergeCounters rs' a (mkGCounterState <$> mergeCounters rs b (mkGCounterState <$> a)) =
    mergeCounters rs b (mkGCounterState <$> a).
Proof. apply exchange_counters. Qed.

(** ** Totals *)

(** Reports accepted anywhere whose counter key is [key]. *)
Fixpoint total_accepted (key_of : ReportJobEventRequest → string) (key : string) (evs : list event) : Z :=
  match evs with
  | [] => 0
  | EvReport _ req :: evs' =>
      (if decide (key_of req = key) then 1 else 0) + total_accepted key_of key evs'
  | _ :: evs' => total_accepted key_of key evs'
  end.

Definition sum_over (f : string → Z) (l : list string) : Z := foldr (λ r s, f r + s) 0 l.

Lemma sum_over_ext f g l : (∀ r, r ∈ l → f r = g r) → sum_over f l = sum_over g l.
Proof.
  induction l as [|r l IH]; intros H; simpl; [done|].
  rw (H r); [|set_solver]. rw IH //. intros. apply H. set_solver.
Qed.

(** The total of a counter is the sum of its shards over any list of names that
    covers them. *)
Lemma total_sum_over c l :
  NoDup l → GCounter.wf c → (∀ r, r ∉ l → GCounter.shard c r = 0) →
  GCounter.total c = sum_over (GCounter.shard c) l.
Proof.
  revert c. induction l as [|r l IH]; intros c Hnd Hwf Hout; simpl.
  { assert (c = ∅) as ->; [|done]. apply map_eq. intros r.
    rw GCounterFacts.lookup_shard // Hout //. set_solver. }
  inversion_clear Hnd as [|? ? Hr Hnd']. rw (GCounterFacts.total_shard c r). f_equal.
  rw IH //.
  - apply sum_over_ext. intros r' Hr'. unfold GCounter.shard.
    rw lookup_delete_ne //. intros ->. done.
  - by apply map_Forall_delete.
  - intros r' Hr'. unfold GCounter.shard. destruct (decide (r' = r)) as [->|Hne].
    + by rw lookup_delete_eq.
    + rw lookup_delete_ne //. apply Hout. set_solver.
Qed.

Lemma nodes_dom_step c ev c' : cl_step c ev c' → dom (nodes c') = dom (nodes c).
Proof.
  destruct 1; simpl; try done; rw dom_insert_lookup_L; try done; by eapply mk_is_Some.
Qed.

Lemma nodes_dom_run names evs c : cl_run (init_cluster names) evs c → dom (nodes c) = names.
Proof.
  induction 1 as [|evs ev c c' Hrun IH Hstep].
  - apply set_eq. intros r. rw elem_of_dom. split.
    + intros [s Hs]. by apply lookup_init_cluster in Hs as [??].
    + intros Hr. exists (New r). by apply lookup_init_cluster.
  - by rw (nodes_dom_step _ _ _ Hstep).
Qed.

Lemma report_in_dom c r req c' : cl_step c (EvReport r req) c' → r ∈ dom (nodes c).
Proof. inversion 1; simpl. apply elem_of_dom. eauto. Qed.

Lemma sum_over_plus f g l : sum_over (λ r, f r + g r) l = sum_over f l + sum_over g l.
Proof. induction l as [|r l IH]; simpl; lia. Qed.

Lemma sum_over_zero f l : (∀ r, r ∈ l → f r = 0) → sum_over f l = 0.
Proof.
  intros H. rw (sum_over_ext f (λ _, 0)) //. induction l as [|r l IH]; simpl; [done|].
  apply IH. intros. apply H. set_solver.
Qed.

Lemma sum_over_single r0 (P : Prop) `{!Decision P} l :
  NoDup l → r0 ∈ l →
  sum_over (λ r, if decide (r0 = r ∧ P) then 1 else 0) l = if decide P then 1 else 0.
Proof.
  induction l as [|r l IH]; intros Hnd Hin; [by apply elem_of_nil in Hin|].
  inversion_clear Hnd as [|? ? Hr Hnd']. simpl. destruct (decide (r0 = r)) as [->|Hne].
  - rw sum_over_zero.
    + destruct (decide P); [rw decide_True //|rw decide_False //; naive_solver].
    + intros r' Hr'. rw decide_False //. intros [-> _]. done.
  - rw decide_False; [|naive_solver]. rw IH //. set_solver.
Qed.

Definition event_within (names : list string) (ev : event) : Prop :=
  match ev with EvReport r _ => r ∈ names | _ => True end.

Lemma total_accepted_sum key k evs l :
  NoDup l → Forall (event_within l) evs →
  total_accepted key k evs = sum_over (λ r, accepted key r k evs) l.
Proof.
  intros Hnd. induction 1 as [|ev evs Hev Hevs IH]; simpl.
  { by rw sum_over_zero. }
  destruct ev as [r0 req| |]; simpl in *; [|done..].
  rw sum_over_plus sum_over_single // IH //.
Qed.

Lemma run_events_within names evs c :
  cl_run (init_cluster names) evs c → Forall (event_within (elements names)) evs.
Proof.
  induction 1 as [|evs ev c c' Hrun IH Hstep]; constructor; [|done].
  destruct ev as [r req| |]; simpl; [|done..].
  apply elem_of_elements. rw -(nodes_dom_run _ _ _ Hrun). by eapply report_in_dom.
Qed.

(** A replica's total never passes the number of reports accepted anywhere, and is
    that number once all replicas agree. *)
Section totals.
Context (V : view) (names : gset string) (evs : list event) (c : cluster).
Hypothesis run : cl_run (init_cluster names) evs c.
Hypothesis short : Z.of_nat (length evs) < 2 ^ 64.

Lemma accepted_outside key r k : r ∉ names → accepted key r k evs = 0.
Proof using run.
  intros Hr. pose proof (run_events_within _ _ _ run) as Hev. clear -Hev Hr.
  induction Hev as [|ev evs Hev Hevs IH]; simpl; [done|]. destruct ev; simpl in *; [|done..].
  rw decide_False; [lia|]. intros [-> _]. apply elem_of_elements in Hev. done.
Qed.

Lemma replica_total p s k :
  nodes c !! p = Some s →
  GCounter.total (default ∅ (v_sel V s !! k)) = sum_over (reading (v_sel V s) k) (elements names) ∧
  ∀ r, 0 ≤ reading (v_sel V s) k r ≤ accepted (v_key V) r k evs.
Proof using run short.
  intros Hs. destruct (cl_inv_run V _ _ _ run short) as [Hinv _].
  destruct (Hinv p s Hs) as (_ & [Hwf Hb] & _).
  assert (∀ r, 0 ≤ reading (v_sel V s) k r) as Hpos
    by (intros r; apply GCounterFacts.shard_nonneg, GCounterFacts.wf_nonneg, default_wf, Hwf).
  split; [|intros r; split; [apply Hpos|apply Hb]].
  apply total_sum_over; [apply NoDup_elements|by apply default_wf|]. intros r Hr. rw elem_of_elements in Hr.
  specialize (Hb k r). specialize (Hpos r). rw (accepted_outside _ r k Hr) in Hb. unfold reading in *. lia.
Qed.

Lemma replica_total_le p s k :
  nodes c !! p = Some s → GCounter.total (default ∅ (v_sel V s !! k)) ≤ total_accepted (v_key V) k evs.
Proof using run short.
  intros Hs. destruct (replica_total p s k Hs) as [-> Hb].
  rw (total_accepted_sum _ _ _ (elements names)); [|apply NoDup_elements|by eapply run_events_within].
  clear Hs. induction (elements names) as [|r l IH]; simpl; [done|]. specialize (Hb r). lia.
Qed.

Lemma converged_total m k :
  names ≠ ∅ → (∀ p s, nodes c !! p = Some s → v_sel V s = m) →
  GCounter.total (default ∅ (m !! k)) = total_accepted (v_key V) k evs.
Proof using run short.
  intros Hne Hconv. pose proof (nodes_dom_run _ _ _ run) as Hdom. destruct (set_choose_L names Hne) as [p Hp].
  rw -Hdom in Hp. apply elem_of_dom in Hp as [s Hs]. destruct (replica_total p s k Hs) as [Ht _]. rw (Hconv p s Hs) in Ht.
  rw Ht (total_accepted_sum _ _ _ (elements names)); [|apply NoDup_elements|by eapply run_events_within].
  apply sum_over_ext. intros r Hr%elem_of_elements. rw -Hdom in Hr. apply elem_of_dom in Hr as [sr Hsr].
  destruct (cl_inv_run V _ _ _ run short) as [Hinv _]. destruct (Hinv r sr Hsr) as (_ & _ & He). rw (Hconv r sr Hsr) in He. apply He.
Qed.
End totals.

(** ** Properties *)


Definition report (job worker outcome : string) : ReportJobEventRequest :=
  mkReportJobEventRequest job worker outcome.

Definition demo_a : Server :=
  (ReportJobEvent ranges_asc 100 (report "j1" "worker-1" "succeeded") (New "sm-1")).2.
Definition demo_b : Server :=
  (ReportJobEvent ranges_asc 100 (report "j2" "worker-2" "failed") (New "sm-2")).2.

Lemma server_wf_demo : server_wf demo_a ∧ server_wf demo_b.
Proof.
  split; (split; [|split; [|split]]); try (apply (bool_decide_unpack _); by vm_compute); done.
Qed.



Definition demo_cluster : cluster :=
  mkCluster (<["sm-1" := demo_a]> (nodes (init_cluster {["sm-1"]}))) [].

Lemma demo_run :
  cl_run (init_cluster {["sm-1"]}) [EvReport "sm-1" (report "j1" "worker-1" "succeeded")] demo_cluster.
Proof.
  eapply run_step; [apply run_nil|].
  apply (step_report ranges_asc 100 "sm-1" _ (New "sm-1")); by vm_compute.
Qed.

Lemma demo_cluster_nodes : nodes demo_cluster = {["sm-1" := demo_a]}.
Proof. by vm_compute. Qed.


(** Once the replicas agree, the dashboard's total for an outcome is the
    number of reports with that outcome accepted anywhere since the start: no
    increment is lost and none is counted twice. *)
Theorem converged_total_exact (names : gset string) (evs : list event) (c : cluster)
    (m : gmap string GCounter.t) (rg : Ranger Z) (outcome : string) :
  cl_run (init_cluster names) evs c → Z.of_nat (length evs) < 2 ^ 64 → names ≠ ∅ →
  (∀ p s, nodes c !! p = Some s → byStatus s = m) →
  GCounter.Value rg (default ∅ (m !! outcome)) = u64 (total_accepted rje_Outcome outcome evs).
Proof.
  intros Hrun Hlen Hne Hconv. rw GCounterFacts.Value_total. f_equal. by apply (converged_total status_view names evs c Hrun Hlen m outcome).
Qed.

Lemma converged_total_exact_witness :
  GCounter.Value (ranger_asc Z) (default ∅ (byStatus demo_a !! "succeeded")) = 1.
Proof.
  apply (converged_total_exact {["sm-1"]} _ demo_cluster (byStatus demo_a) (ranger_asc Z)
    "succeeded" demo_run); [by vm_compute..|].
  intros p s. rw demo_cluster_nodes. by intros [_ <-]%lookup_singleton_Some.
Defined.

(** C39: a replica that restarted empty and accepts a report before its first
    exchange loses it: after merging a peer that still knows its old shard, its
    own shard reads what the peer had, as if the report had never come. *)
Theorem restart_loses_report (rs rs' rs'' : Ranges) (nowMS : Z) (r : string)
    (req : ReportJobEventRequest) (peer s1 : Server) :
  1 ≤ reading (byStatus peer) (rje_Outcome req) r →
  ReportJobEvent rs nowMS req (New r) = (Ok tt, s1) →
  reading (byStatus s1) (rje_Outcome req) r = 1 ∧
  reading (byStatus (mergeLocked rs' (Some (snapshotLocked rs'' peer)) s1)) (rje_Outcome req) r =
    reading (byStatus peer) (rje_Outcome req) r.
Proof.
  intros Hold Hrep. apply report_ok_inv in Hrep as (_ & _ & Hs & _). simpl in Hs.
  assert (reading (byStatus s1) (rje_Outcome req) r = 1) as H1.
  { by rw Hs reading_with_counter_Inc decide_True. }
  split; [done|]. rw mergeLocked_eq snapshot_eq /=. rw reading_mergeCounters.
  - rw H1 shards_of_to_proto. unfold reading in Hold |- *. lia.
  - rw Hs. by apply with_counter_Inc_wf; [apply map_Forall_empty|].
Qed.

Definition demo_a2 : Server :=
  (ReportJobEvent ranges_asc 200 (report "j3" "worker-1" "succeeded") demo_a).2.

Lemma restart_loses_report_witness :
  reading (byStatus demo_a) "succeeded" "sm-1" = 1 ∧
  reading (byStatus (mergeLocked ranges_asc (Some (snapshotLocked ranges_asc demo_a2)) demo_a))
    "succeeded" "sm-1" = reading (byStatus demo_a2) "succeeded" "sm-1".
Proof.
  apply (restart_loses_report ranges_asc ranges_asc ranges_asc 100 "sm-1"
    (report "j1" "worker-1" "succeeded") demo_a2 demo_a); by vm_compute.
Defined.
