(* ===== verification/Registry.v ===== *)
(** * internal/registry: worker liveness and load from heartbeats

    The mutex makes every method one atomic step; [now] is the value of the
    registry's clock during the call, in nanoseconds. *)

From S2P Require Import Prelude GoRuntime.
Local Open Scope Z_scope.

Record WorkerState : Type := mkWorkerState {
  Instance_ : string;
  Capacity : Z;
  Inflight : Z;
  LastSeen : Z;
  Alive : bool;
}.

#[export] Instance WorkerState_eq_dec : EqDecision WorkerState.
Proof. solve_decision. Defined.

Record Registry : Type := mkRegistry {
  workers : gmap string WorkerState;
  staleTTL : Z;
  deadTTL : Z;
}.

#[export] Instance Registry_eq_dec : EqDecision Registry.
Proof. solve_decision. Defined.

Definition New (staleTTL deadTTL : Z) : Registry := mkRegistry ∅ staleTTL deadTTL.

Definition Record_ (now : Z) (instance : string) (capacity inflight : Z) (r : Registry) : Registry :=
  mkRegistry (<[instance := mkWorkerState instance capacity inflight now false]> (workers r))
    (staleTTL r) (deadTTL r).

(** [w.Alive = now.Sub(w.LastSeen) <= r.deadTTL]. *)
Definition eval_alive (now : Z) (r : Registry) (w : WorkerState) : WorkerState :=
  mkWorkerState (Instance_ w) (Capacity w) (Inflight w) (LastSeen w)
    (time_sub now (LastSeen w) <=? deadTTL r).

Definition by_instance (a b : WorkerState) : bool := str_ltb (Instance_ a) (Instance_ b).

Definition Snapshot (rg : Ranger WorkerState) (now : Z) (r : Registry) : list WorkerState :=
  go_sort by_instance ((λ kw, eval_alive now r kw.2) <$> rg 0%nat (workers r)).

(** [type cand struct { name string; free int }]. *)
Record cand : Type := mkCand { name : string; free : Z }.

Definition is_candidate (now : Z) (r : Registry) (w : WorkerState) : bool :=
  (time_sub now (LastSeen w) <=? staleTTL r) && (Inflight w <? Capacity w).

Definition cand_less (a b : cand) : bool :=
  if negb (free a =? free b) then free b <? free a else str_ltb (name a) (name b).

Definition Available (rg : Ranger WorkerState) (now : Z) (r : Registry) : list string :=
  let cands := (λ kw : string * WorkerState, mkCand (Instance_ kw.2) (Capacity kw.2 - Inflight kw.2)) <$>
                 filter (λ kw, is_candidate now r kw.2 = true) (rg 0%nat (workers r)) in
  name <$> go_sort cand_less cands.

Definition is_dead (now : Z) (r : Registry) (w : WorkerState) : bool :=
  deadTTL r <? time_sub now (LastSeen w).

Definition Dead (rg : Ranger WorkerState) (now : Z) (r : Registry) : list string :=
  sort_strings ((λ kw : string * WorkerState, Instance_ kw.2) <$>
    filter (λ kw, is_dead now r kw.2 = true) (rg 0%nat (workers r))).

Definition Forget (instance : string) (r : Registry) : Registry :=
  mkRegistry (delete instance (workers r)) (staleTTL r) (deadTTL r).

(** A worker is stored under its own name. *)
Definition reg_ok (r : Registry) : Prop := map_Forall (λ k w, Instance_ w = k) (workers r).

(** ** Lemmas *)

Lemma New_ok stale dead : reg_ok (New stale dead).
Proof. apply map_Forall_empty. Qed.

Lemma Record_ok now i c f r : reg_ok r → reg_ok (Record_ now i c f r).
Proof. intros Hr. by apply map_Forall_insert_2. Qed.

Lemma Forget_ok i r : reg_ok r → reg_ok (Forget i r).
Proof. intros Hr. by apply map_Forall_delete. Qed.

#[export] Hint Resolve New_ok Record_ok Forget_ok : ironwork.

#[export] Instance cand_less_ok : LessOk cand_less.
Proof.
  pose proof (less_on_ok name str_ltb).
  by apply (less_lex_ok free (λ a b, str_ltb (name a) (name b))).
Qed.

#[export] Instance by_instance_ok : LessOk by_instance.
Proof. apply (less_on_ok Instance_ str_ltb). Qed.

Lemma cand_less_antisym a b : cand_less a b = false → cand_less b a = false → a = b.
Proof.
  unfold cand_less. destruct (Z.eqb_spec (free a) (free b)) as [E|E]; simpl.
  - rw E Z.eqb_refl /=. intros H1 H2. destruct a, b. simpl in *. subst.
    f_equal. by apply str_ltb_false_antisym.
  - replace (free b =? free a) with false by lia. simpl. lia.
Qed.

(** The workers a filtered scan of the table yields, by name. *)
Lemma elem_of_scan (P : WorkerState → bool) rg r n :
  reg_ok r →
  n ∈ ((λ kw : string * WorkerState, Instance_ kw.2) <$>
        filter (λ kw, P kw.2 = true) (range_of rg 0%nat (workers r))) ↔
  ∃ w, workers r !! n = Some w ∧ P w = true.
Proof.
  intros Hr. rw list_elem_of_fmap. split.
  - intros ([k w] & -> & [HP Hin]%list_elem_of_filter). simpl in *.
    apply elem_of_range in Hin. pose proof (Hr _ _ Hin) as Hk. simpl in Hk. subst. eauto.
  - intros (w & Hw & HP). exists (n, w). split; [symmetry; by apply (Hr n)|].
    apply list_elem_of_filter. split; [done|]. by apply elem_of_range.
Qed.

Lemma NoDup_scan (P : WorkerState → bool) rg r :
  reg_ok r →
  NoDup ((λ kw : string * WorkerState, Instance_ kw.2) <$>
          filter (λ kw, P kw.2 = true) (range_of rg 0%nat (workers r))).
Proof.
  intros Hr.
  assert (((λ kw : string * WorkerState, Instance_ kw.2) <$>
          filter (λ kw, P kw.2 = true) (range_of rg 0%nat (workers r))) =
    (filter (λ kw, P kw.2 = true) (range_of rg 0%nat (workers r))).*1) as ->.
  { apply list_fmap_ext. intros i [k w] Hi. simpl.
    apply list_elem_of_lookup_2, list_elem_of_filter in Hi as [_ Hi%elem_of_range].
    by apply (Hr k). }
  eapply sublist_NoDup; [|apply fmap_sublist, sublist_filter]. apply range_NoDup.
Qed.

Lemma Available_names rg now r :
  Available rg now r ≡ₚ
    ((λ kw : string * WorkerState, Instance_ kw.2) <$>
       filter (λ kw, is_candidate now r kw.2 = true) (rg 0%nat (workers r))).
Proof. unfold Available. rw go_sort_perm -list_fmap_compose. done. Qed.

Lemma elem_of_Available rg now r n :
  reg_ok r → n ∈ Available rg now r ↔ ∃ w, workers r !! n = Some w ∧ is_candidate now r w = true.
Proof. intros. rw Available_names. by apply elem_of_scan. Qed.

Lemma elem_of_Dead rg now r n :
  reg_ok r → n ∈ Dead rg now r ↔ ∃ w, workers r !! n = Some w ∧ is_dead now r w = true.
Proof. intros. unfold Dead. rw sort_strings_perm. by apply elem_of_scan. Qed.

Lemma Available_order rg rg' now r : Available rg now r = Available rg' now r.
Proof.
  unfold Available. f_equal. apply go_sort_unique; [apply _| |].
  - intros x y _ _. apply cand_less_antisym.
  - by rw (range_perm rg) (range_perm rg').
Qed.

Lemma Dead_order rg rg' now r : Dead rg now r = Dead rg' now r.
Proof. apply sort_strings_unique. by rw (range_perm rg) (range_perm rg'). Qed.

(** Head room of a worker in the table. *)
Definition headroom (r : Registry) (n : string) : Z :=
  match workers r !! n with Some w => Capacity w - Inflight w | None => 0 end.

(** Placement order: more headroom first, then the smaller name. *)
Definition preferred (r : Registry) (a b : string) : Prop :=
  headroom r b < headroom r a ∨ (headroom r a = headroom r b ∧ str_ltb b a = false).

Lemma Available_sorted rg now r :
  reg_ok r → StronglySorted (preferred r) (Available rg now r).
Proof.
  intros Hr. unfold Available. set (cands := _ <$> filter _ _).
  apply (StronglySorted_fmap name (λ a b, not_after cand_less a b ∧
    free a = headroom r (name a) ∧ free b = headroom r (name b))).
  - intros a b (Hab & Ha & Hb). unfold preferred, not_after, cand_less in *. rw -Ha -Hb.
    destruct (Z.eqb_spec (free b) (free a)) as [E|E]; simpl in *; [right|left]; [done|lia].
  - assert (∀ a, a ∈ go_sort cand_less cands → free a = headroom r (name a)) as Hf.
    { intros a. rw elem_of_go_sort list_elem_of_fmap.
      intros ([k w] & -> & [_ Hin%elem_of_range]%list_elem_of_filter). simpl.
      pose proof (Hr _ _ Hin) as Hk. simpl in Hk. unfold headroom. by rw Hk Hin. }
    pose proof (go_sort_sorted cand_less cands) as Hs. revert Hf Hs.
    generalize (go_sort cand_less cands) as l.
    induction l as [|a l IH]; intros Hf Hs; [constructor|].
    inversion_clear Hs as [|? ? Hs' Hall]. constructor.
    + apply IH; [|done]. intros. apply Hf. set_solver.
    + rw Forall_forall in Hall. apply Forall_forall. intros b Hb. split; [by apply Hall|].
      split; apply Hf; set_solver.
Qed.

Lemma Snapshot_elem rg now r w :
  w ∈ Snapshot rg now r ↔ ∃ k w0, workers r !! k = Some w0 ∧ w = eval_alive now r w0.
Proof.
  unfold Snapshot. rw elem_of_go_sort list_elem_of_fmap. split.
  - intros ([k w0] & -> & Hin%elem_of_range). eauto.
  - intros (k & w0 & Hin & ->). exists (k, w0). split; [done|]. by apply elem_of_range.
Qed.

(** ** Properties *)

(** C29: placement candidates are exactly the workers with a fresh heartbeat and
    free capacity, each once, ordered by most headroom and then by name, whatever
    order Go iterates over the table in. *)
Theorem available_exact (rg rg' : Ranger WorkerState) (now : Z) (r : Registry) :
  reg_ok r →
  Available rg now r = Available rg' now r ∧
  NoDup (Available rg now r) ∧
  StronglySorted (preferred r) (Available rg now r) ∧
  ∀ n, n ∈ Available rg now r ↔
    ∃ w, workers r !! n = Some w ∧ time_sub now (LastSeen w) ≤ staleTTL r ∧ Inflight w < Capacity w.
Proof.
  intros Hr. split; [apply Available_order|]. split.
  { rw Available_names. by apply NoDup_scan. }
  split; [by apply Available_sorted|]. intros n. rw elem_of_Available //.
  apply exist_proper. intros w. unfold is_candidate. rw andb_true_iff Z.leb_le Z.ltb_lt. done.
Qed.

Definition demo_reg : Registry :=
  Record_ 1000 "worker-2" 4 1 (Record_ 1000 "worker-1" 2 2 (Record_ 1000 "worker-3" 5 2
    (New (5 * Second) (8 * Second)))).

Lemma demo_reg_ok : reg_ok demo_reg.
Proof. unfold demo_reg. auto 10 with ironwork. Qed.

Lemma available_exact_witness :
  Available (ranger_asc _) 2000 demo_reg = ["worker-2"; "worker-3"] ∧
  Available (ranger_asc _) 2000 demo_reg = Available (ranger_desc _) 2000 demo_reg.
Proof.
  split; [by vm_compute|].
  exact (proj1 (available_exact (ranger_asc _) (ranger_desc _) 2000 demo_reg demo_reg_ok)).
Defined.

(** With the dead threshold no smaller than the stale one, a worker whose
    jobs may be reclaimed is never offered new ones, and the Alive flag reported
    by Snapshot is exactly "not reported by Dead". *)
Theorem dead_never_available (rg rg' rg'' : Ranger WorkerState) (now : Z) (r : Registry) :
  reg_ok r → staleTTL r ≤ deadTTL r →
  (∀ n, n ∈ Dead rg now r → n ∉ Available rg' now r) ∧
  (∀ w, w ∈ Snapshot rg'' now r → (Alive w = false ↔ Instance_ w ∈ Dead rg now r)).
Proof.
  intros Hr Hle. split.
  - intros n. rw elem_of_Dead // elem_of_Available //. intros (w & Hw & Hd) (w' & Hw' & Ha).
    unfold is_dead, is_candidate in *. simplify_eq. reflect_bools. lia.
  - intros w. rw Snapshot_elem elem_of_Dead //. intros (k & w0 & Hk & ->). simpl.
    pose proof (Hr _ _ Hk) as Hi. simpl in Hi. rw Hi. unfold is_dead. rw Z.leb_gt. split.
    + intros Hd. exists w0. split; [done|]. by apply Z.ltb_lt.
    + intros (w & Hw & Hd%Z.ltb_lt). by simplify_eq.
Qed.

Lemma dead_never_available_witness :
  Dead (ranger_asc _) (10 * Second) demo_reg = ["worker-1"; "worker-2"; "worker-3"] ∧
  ("worker-2" ∉ Available (ranger_asc _) (10 * Second) demo_reg).
Proof.
  split; [by vm_compute|].
  apply (dead_never_available (ranger_asc _) (ranger_asc _) (ranger_asc _) (10 * Second)
    demo_reg demo_reg_ok).
  - apply Z.leb_le. reflexivity.
  - apply elem_of_Dead; [apply demo_reg_ok|]. exists (mkWorkerState "worker-2" 4 1 1000 false).
    split; vm_compute; reflexivity.
Defined.

(** A heartbeat replaces the worker's entry and nobody else's; from it until
    the stale threshold the worker is a candidate iff it has a free slot, and
    until the dead threshold it is not reclaimed. Forget drops just that entry. *)
Theorem heartbeat_refreshes (rg : Ranger WorkerState) (t now : Z) (i : string) (cap infl : Z)
    (r : Registry) :
  reg_ok r → min_i64 ≤ now - t ≤ max_i64 →
  let r' := Record_ t i cap infl r in
  reg_ok r' ∧
  (now - t ≤ staleTTL r → (i ∈ Available rg now r' ↔ infl < cap)) ∧
  (now - t ≤ deadTTL r → i ∉ Dead rg now r') ∧
  (∀ n, n ≠ i → (n ∈ Available rg now r' ↔ n ∈ Available rg now r)) ∧
  i ∉ Available rg now (Forget i r').
Proof.
  intros Hr Hrange r'. assert (reg_ok r') as Hr' by (by apply Record_ok).
  assert (workers r' !! i = Some (mkWorkerState i cap infl t false)) as Hi.
  { simpl. by rw lookup_insert_eq. }
  split; [done|]. split; [|split; [|split]].
  - intros Hfresh. rw elem_of_Available //. unfold is_candidate. split.
    + intros (w & Hw & Ha). simplify_eq/=. reflect_bools. lia.
    + intros Hlt. eexists. split; [exact Hi|]. simpl. rw time_sub_exact //.
      apply andb_true_iff. lia.
  - intros Hfresh. rw elem_of_Dead //. unfold is_dead. intros (w & Hw & Hd). simplify_eq/=.
    rw time_sub_exact // in Hd. lia.
  - intros n Hn. rw !elem_of_Available //. simpl. by rw lookup_insert_ne.
  - rw elem_of_Available; [|by apply Forget_ok]. intros (w & Hw & _). simpl in Hw.
    by rw lookup_delete_eq in Hw.
Qed.

Lemma heartbeat_refreshes_witness :
  reg_ok demo_reg ∧ ("worker-1" ∉ Dead (ranger_asc _) 2000 (Record_ 1500 "worker-1" 2 1 demo_reg)).
Proof.
  split; [apply demo_reg_ok|].
  apply (heartbeat_refreshes (ranger_asc _) 1500 2000 "worker-1" 2 1 demo_reg demo_reg_ok).
  - split; apply Z.leb_le; reflexivity.
  - apply Z.leb_le. reflexivity.
Defined.
