(* ===== verification/Store.v ===== *)
(** * internal/store and migrations: the jobs repository over Postgres

    [DB] holds the two tables the migrations create; each SQL statement of
    store.go and outbox.go is a function on it, and each method of [Store] runs
    its statements against a [world] through an environment that supplies
    Postgres' clock, [gen_random_uuid] and failures. A statement may fail before
    it took effect or after it (a lost answer); a transaction that does not
    commit leaves the tables as they were. *)

From S2P Require Import Prelude GoRuntime Json.
Local Open Scope Z_scope.

(** ** Constants *)

Definition StatusPending : string := "pending".
Definition StatusScheduled : string := "scheduled".
Definition StatusRunning : string := "running".
Definition StatusSucceeded : string := "succeeded".
Definition StatusFailed : string := "failed".

Definition OutboxPending : string := "pending".
Definition OutboxDispatched : string := "dispatched".
Definition OutboxFailed : string := "failed".

(** ** Data *)

Record Job : Type := mkJob {
  ID : string;
  Name : string;
  Payload : string;
  Status : string;
  AssignedWorker : string;
  Attempts : Z;
  Error_ : string;
  CreatedAt : Z;
  UpdatedAt : Z;
  StartedAt : option Z;
  FinishedAt : option Z;
}.

(** A row of the table [jobs], keyed by its id; nullable columns are options. *)
Record job_row : Type := mkJobRow {
  j_name : string;
  j_payload : string;
  j_status : string;
  j_worker : option string;
  j_attempts : Z;
  j_error : option string;
  j_created : Z;
  j_updated : Z;
  j_started : option Z;
  j_finished : option Z;
}.

(** A row of the table [outbox], keyed by its id. *)
Record outbox_row : Type := mkOutboxRow {
  o_job : string;
  o_status : string;
  o_attempts : Z;
  o_error : option string;
  o_created : Z;
  o_dispatched : option Z;
}.

#[export] Instance job_row_eq_dec : EqDecision job_row.
Proof. solve_decision. Defined.
#[export] Instance outbox_row_eq_dec : EqDecision outbox_row.
Proof. solve_decision. Defined.

Record DB : Type := mkDB {
  jobs : gmap string job_row;
  outbox : gmap string outbox_row;
}.

Record OutboxEntry : Type := mkOutboxEntry {
  e_ID : string;
  e_Attempts : Z;
  e_Job : Job;
}.

Record OutboxStats : Type := mkOutboxStats {
  st_Pending : Z;
  st_Dispatched : Z;
  st_Failed : Z;
  st_OldestPending : Z;
}.

(** ** The environment: Postgres' clock, random ids and failures *)

(** Postgres' cast [$1::uuid]: the canonical text of the id, [None] when the
    text is no UUID. *)
Class PgUuid : Type := {
  pg_uuid : string → option string;
  pg_uuid_canonical : ∀ s u, pg_uuid s = Some u → pg_uuid u = Some u;
}.

Inductive fault : Type :=
| NoFault
| FailBefore (e : err)
| FailAfter (e : err).

(** The [n]-th statement runs at [env_now n], fails as [env_fault n] says, and
    would draw [env_uuid n]. *)
Record env : Type := mkEnv {
  env_now : nat → Z;
  env_fault : nat → fault;
  env_uuid : nat → string;
}.

Record world : Type := mkWorld { db : DB; tick : nat }.

(** ** Statements *)

Section statements.
Context {UU : PgUuid}.

Definition bad_uuid (id : string) : err :=
  EText ("ERROR: invalid input syntax for type uuid: " +:+ go_quote id).

(** [COALESCE(c, '')] and [NULLIF(s, '')]. *)
Definition coalesce (c : option string) : string := default EmptyString c.
Definition nullif_empty (s : string) : option string := if String.eqb s EmptyString then None else Some s.

(** [scanJob]: the columns [jobColumns] of a row. *)
Definition scanJob (id : string) (r : job_row) : Job :=
  mkJob id (j_name r) (j_payload r) (j_status r) (coalesce (j_worker r)) (j_attempts r)
    (coalesce (j_error r)) (j_created r) (j_updated r) (j_started r) (j_finished r).

(** [UPDATE jobs SET ... WHERE id = $1::uuid]: the number of rows and the
    tables. *)
Definition update_job (id : string) (f : job_row → result err job_row) (d : DB) :
    result err (nat * DB) :=
  match pg_uuid id with
  | None => Err (bad_uuid id)
  | Some u =>
      match jobs d !! u with
      | None => Ok (0%nat, d)
      | Some r =>
          match f r with
          | Err e => Err e
          | Ok r' => Ok (1%nat, mkDB (<[u := r']> (jobs d)) (outbox d))
          end
      end
  end.

Definition update_outbox (id : string) (f : outbox_row → result err outbox_row) (d : DB) :
    result err (nat * DB) :=
  match pg_uuid id with
  | None => Err (bad_uuid id)
  | Some u =>
      match outbox d !! u with
      | None => Ok (0%nat, d)
      | Some o =>
          match f o with
          | Err e => Err e
          | Ok o' => Ok (1%nat, mkDB (jobs d) (<[u := o']> (outbox d)))
          end
      end
  end.

(** [integer] column arithmetic raises an error out of range. *)
Definition incr_int4 (n : Z) : result err Z :=
  if n + 1 <? 2 ^ 31 then Ok (n + 1) else Err (EText "ERROR: integer out of range").

Definition set_scheduled (now : Z) (worker : string) (r : job_row) : job_row :=
  mkJobRow (j_name r) (j_payload r) StatusScheduled (Some worker) (j_attempts r) (j_error r)
    (j_created r) now (j_started r) (j_finished r).

Definition set_running (now attempts : Z) (r : job_row) : job_row :=
  mkJobRow (j_name r) (j_payload r) StatusRunning (j_worker r) attempts (j_error r)
    (j_created r) now (Some now) (j_finished r).

Definition set_finished (now : Z) (status errMsg : string) (r : job_row) : job_row :=
  mkJobRow (j_name r) (j_payload r) status (j_worker r) (j_attempts r) (nullif_empty errMsg)
    (j_created r) now (j_started r) (Some now).

Definition set_reclaimed (now : Z) (r : job_row) : job_row :=
  mkJobRow (j_name r) (j_payload r) StatusPending None (j_attempts r) (j_error r)
    (j_created r) now (j_started r) (j_finished r).

Definition sql_mark_scheduled (id worker : string) (now : Z) (d : DB) : result err (nat * DB) :=
  update_job id (λ r, Ok (set_scheduled now worker r)) d.

Definition sql_mark_running (id : string) (now : Z) (d : DB) : result err (nat * DB) :=
  update_job id (λ r,
    match incr_int4 (j_attempts r) with
    | Err e => Err e
    | Ok n => Ok (set_running now n r)
    end) d.

Definition sql_mark_finished (id status errMsg : string) (now : Z) (d : DB) : result err (nat * DB) :=
  update_job id (λ r, Ok (set_finished now status errMsg r)) d.

Definition sql_outbox_dispatched (id : string) (now : Z) (d : DB) : result err (nat * DB) :=
  update_outbox id (λ o, Ok (mkOutboxRow (o_job o) OutboxDispatched (o_attempts o) (o_error o)
    (o_created o) (Some now))) d.

Definition sql_outbox_failure (id errMsg : string) (now : Z) (d : DB) : result err (nat * DB) :=
  update_outbox id (λ o,
    match incr_int4 (o_attempts o) with
    | Err e => Err e
    | Ok n => Ok (mkOutboxRow (o_job o) (o_status o) n (Some errMsg) (o_created o) (o_dispatched o))
    end) d.

Definition sql_outbox_failed (id errMsg : string) (now : Z) (d : DB) : result err (nat * DB) :=
  update_outbox id (λ o, Ok (mkOutboxRow (o_job o) OutboxFailed (o_attempts o) (Some errMsg)
    (o_created o) (o_dispatched o))) d.

(** [INSERT INTO jobs (name, payload) VALUES ($1, $2)] with the column defaults;
    [id] is the drawn [gen_random_uuid()]. A clash of random ids is reported as a
    key violation. *)
Definition new_job_row (name payload : string) (now : Z) : job_row :=
  mkJobRow name payload StatusPending None 0 None now now None None.

(** What a text column of a UTF-8 database takes: well-formed UTF-8 without the
    byte zero. The name of a job is the only text in these statements that a
    client chooses. *)
Definition pg_text_ok (s : string) : bool :=
  utf8_ok 0 (String.list_ascii_of_string s) &&
  forallb (λ c, negb (code_of c =? 0)) (String.list_ascii_of_string s).

Definition bad_text : err := EText "ERROR: invalid byte sequence for encoding (SQLSTATE 22021)".

Definition sql_insert_job (id name payload : string) (now : Z) (d : DB) : result err (Job * DB) :=
  if negb (pg_text_ok name) then Err bad_text else
  match jobs d !! id with
  | Some _ => Err (EText "ERROR: duplicate key value violates unique constraint")
  | None => let r := new_job_row name payload now in
            Ok (scanJob id r, mkDB (<[id := r]> (jobs d)) (outbox d))
  end.

(** [INSERT INTO outbox (job_id) VALUES ($1::uuid)]. *)
Definition new_outbox_row (jobID : string) (now : Z) : outbox_row :=
  mkOutboxRow jobID OutboxPending 0 None now None.

Definition sql_insert_outbox (oid jobID : string) (now : Z) (d : DB) : result err (unit * DB) :=
  match pg_uuid jobID with
  | None => Err (bad_uuid jobID)
  | Some u =>
      match outbox d !! oid with
      | Some _ => Err (EText "ERROR: duplicate key value violates unique constraint")
      | None => Ok (tt, mkDB (jobs d) (<[oid := new_outbox_row u now]> (outbox d)))
      end
  end.

(** [WHERE assigned_worker_id = $1 AND status IN ('scheduled', 'running')]. *)
Definition reclaimable (worker : string) (r : job_row) : bool :=
  match j_worker r with
  | Some w => String.eqb w worker &&
              (String.eqb (j_status r) StatusScheduled || String.eqb (j_status r) StatusRunning)
  | None => false
  end.

(** [UPDATE jobs SET status = 'pending', assigned_worker_id = NULL ... RETURNING]:
    the rows, in an order Postgres leaves open, as updated. *)
Definition sql_reclaim (rg : Ranger job_row) (worker : string) (now : Z) (d : DB) :
    result err (list Job * DB) :=
  Ok ((λ kr : string * job_row, scanJob kr.1 (set_reclaimed now kr.2)) <$>
        filter (λ kr, reclaimable worker kr.2 = true) (rg 0%nat (jobs d)),
      mkDB ((λ r, if reclaimable worker r then set_reclaimed now r else r) <$> jobs d) (outbox d)).

(** [SELECT ... FROM jobs WHERE ($1 = '' OR status = $1) ORDER BY created_at DESC
    LIMIT $2]. *)
Definition sql_list_jobs (rg : Ranger job_row) (status : string) (limit : Z) (d : DB) : list Job :=
  take (Z.to_nat limit)
    (go_sort (λ a b, CreatedAt b <? CreatedAt a)
       ((λ kr : string * job_row, scanJob kr.1 kr.2) <$>
          filter (λ kr, String.eqb status EmptyString || String.eqb (j_status kr.2) status = true)
            (rg 0%nat (jobs d)))).

(** [outbox o JOIN jobs j ON j.id = o.job_id]: the row with its creation time. *)
Definition join_entry (d : DB) (ko : string * outbox_row) : option (Z * OutboxEntry) :=
  match jobs d !! o_job ko.2 with
  | Some r => Some (o_created ko.2, mkOutboxEntry ko.1 (o_attempts ko.2) (scanJob (o_job ko.2) r))
  | None => None
  end.

(** [... WHERE o.status = 'pending' ORDER BY o.created_at ASC LIMIT $2]. *)
Definition sql_claim_outbox (rg : Ranger outbox_row) (limit : Z) (d : DB) : list OutboxEntry :=
  snd <$> take (Z.to_nat limit)
    (go_sort (λ a b : Z * OutboxEntry, a.1 <? b.1)
       (omap (join_entry d)
          (filter (λ ko, String.eqb (o_status ko.2) OutboxPending = true) (rg 0%nat (outbox d))))).

Definition count_status (st : string) (m : gmap string outbox_row) : Z :=
  Z.of_nat (size (filter (λ ko : string * outbox_row, o_status ko.2 = st) m)).

(** [min(created_at) FILTER (WHERE status = 'pending')]. *)
Definition min_created (m : gmap string outbox_row) : option Z :=
  map_fold (λ _ o acc,
    if String.eqb (o_status o) OutboxPending then
      Some (match acc with Some t => Z.min t (o_created o) | None => o_created o end)
    else acc) None m.

Definition sql_outbox_stats (now : Z) (d : DB) : OutboxStats :=
  mkOutboxStats (count_status OutboxPending (outbox d)) (count_status OutboxDispatched (outbox d))
    (count_status OutboxFailed (outbox d))
    (match min_created (outbox d) with Some t => now - t | None => 0 end).

End statements.

(** ** Methods of [Store] *)

Section methods.
Context {UU : PgUuid} (E : env).

(** [s.exec(ctx, sql, args...)] of an [UPDATE]: [ErrNotFound] when it touched no
    row. *)
Definition exec (stmt : Z → DB → result err (nat * DB)) : stM world (result err unit) :=
  λ w,
    let n := tick w in
    match env_fault E n with
    | FailBefore e => (Err (EWrap "store: " e), mkWorld (db w) (S n))
    | f =>
        match stmt (env_now E n) (db w) with
        | Err e => (Err (EWrap "store: " e), mkWorld (db w) (S n))
        | Ok (rows, d') =>
            (match f with
             | FailAfter e => Err (EWrap "store: " e)
             | _ => if Nat.eqb rows 0 then Err ErrNotFound else Ok tt
             end, mkWorld d' (S n))
        end
    end.

(** A read outside a transaction. *)
Definition query {A} (wrap : err → err) (q : Z → DB → result err A) : stM world (result err A) :=
  λ w,
    let n := tick w in
    (match env_fault E n with
     | FailBefore e | FailAfter e => Err (wrap e)
     | NoFault => match q (env_now E n) (db w) with Ok a => Ok a | Err e => Err (wrap e) end
     end, mkWorld (db w) (S n)).

(** A statement inside a transaction that began at [now]; any failure of it,
    early or late, fails the transaction. *)
Definition tx_stmt {A} (wrap : err → err) (now : Z) (stmt : nat → Z → DB → result err (A * DB)) :
    stM world (result err A) :=
  λ w,
    let n := tick w in
    match env_fault E n with
    | FailBefore e | FailAfter e => (Err (wrap e), mkWorld (db w) (S n))
    | NoFault =>
        match stmt n now (db w) with
        | Err e => (Err (wrap e), mkWorld (db w) (S n))
        | Ok (a, d') => (Ok a, mkWorld d' (S n))
        end
    end.

(** [if err != nil { return nil, err }] between two steps. *)
Definition res_bind {A B} (m : stM world (result err A)) (k : A → stM world (result err B)) :
    stM world (result err B) :=
  st_bind m (λ r, match r with Ok a => k a | Err e => st_ret (Err e) end).

(** [tx, err := pool.Begin(ctx); defer tx.Rollback(ctx); ...; tx.Commit(ctx)]. *)
Definition in_tx {A} (body : Z → stM world (result err A)) : stM world (result err A) :=
  λ w,
    let n := tick w in
    match env_fault E n with
    | FailBefore e | FailAfter e => (Err (EWrap "store: begin: " e), mkWorld (db w) (S n))
    | NoFault =>
        match body (env_now E n) (mkWorld (db w) (S n)) with
        | (Err e, w') => (Err e, mkWorld (db w) (tick w'))
        | (Ok a, w') =>
            match env_fault E (tick w') with
            | NoFault => (Ok a, mkWorld (db w') (S (tick w')))
            | FailBefore e => (Err (EWrap "store: commit: " e), mkWorld (db w) (S (tick w')))
            | FailAfter e => (Err (EWrap "store: commit: " e), mkWorld (db w') (S (tick w')))
            end
        end
    end.

Definition scan_err (e : err) : err := EWrap "store: scan job: " e.

Definition CreateJob (name payload : string) : stM world (result err Job) :=
  λ w,
    let n := tick w in
    match env_fault E n with
    | FailBefore e => (Err (scan_err e), mkWorld (db w) (S n))
    | f =>
        match sql_insert_job (env_uuid E n) name payload (env_now E n) (db w) with
        | Err e => (Err (scan_err e), mkWorld (db w) (S n))
        | Ok (j, d') =>
            (match f with FailAfter e => Err (scan_err e) | _ => Ok j end, mkWorld d' (S n))
        end
    end.

Definition GetJob (id : string) : stM world (result err Job) :=
  λ w,
    let n := tick w in
    (match env_fault E n with
     | FailBefore e | FailAfter e => Err (scan_err e)
     | NoFault =>
         match pg_uuid id with
         | None => Err (scan_err (bad_uuid id))
         | Some u => match jobs (db w) !! u with Some r => Ok (scanJob u r) | None => Err ErrNotFound end
         end
     end, mkWorld (db w) (S n)).

Definition ListJobs (rg : Ranger job_row) (status : string) (limit : Z) :
    stM world (result err (list Job)) :=
  query (EWrap "store: list jobs: ") (λ _ d, Ok (sql_list_jobs rg status limit d)).

Definition MarkScheduled (id workerInstance : string) : stM world (result err unit) :=
  exec (sql_mark_scheduled id workerInstance).

Definition MarkRunning (id : string) : stM world (result err unit) := exec (sql_mark_running id).

Definition MarkFinished (id : string) (succeeded : bool) (errMsg : string) : stM world (result err unit) :=
  let status := if negb succeeded then StatusFailed else StatusSucceeded in
  exec (sql_mark_finished id status errMsg).

Definition enqueueOutbox (now : Z) (jobID : string) : stM world (result err unit) :=
  tx_stmt (EWrap "store: enqueue outbox: ") now (λ n now d, sql_insert_outbox (env_uuid E n) jobID now d).

Definition CreateJobWithOutbox (name payload : string) : stM world (result err Job) :=
  in_tx (λ now,
    res_bind (tx_stmt scan_err now (λ n now d, sql_insert_job (env_uuid E n) name payload now d)) (λ job,
    res_bind (enqueueOutbox now (ID job)) (λ _,
    st_ret (Ok job)))).

(** [for _, j := range jobs { if err := enqueueOutbox(...); err != nil { return } }]. *)
Fixpoint enqueue_all (now : Z) (js : list Job) : stM world (result err unit) :=
  match js with
  | [] => st_ret (Ok tt)
  | j :: js' => res_bind (enqueueOutbox now (ID j)) (λ _, enqueue_all now js')
  end.

Definition ReclaimJobs (rg : Ranger job_row) (workerInstance : string) : stM world (result err (list Job)) :=
  in_tx (λ now,
    res_bind (tx_stmt (EWrap "store: reclaim jobs: ") now (λ _ now d, sql_reclaim rg workerInstance now d)) (λ js,
    res_bind (enqueue_all now js) (λ _,
    st_ret (Ok js)))).

Definition ClaimOutbox (rg : Ranger outbox_row) (limit : Z) : stM world (result err (list OutboxEntry)) :=
  query (EWrap "store: claim outbox: ") (λ _ d, Ok (sql_claim_outbox rg limit d)).

Definition MarkOutboxDispatched (id : string) : stM world (result err unit) :=
  exec (sql_outbox_dispatched id).

Definition RecordOutboxFailure (id errMsg : string) : stM world (result err unit) :=
  exec (sql_outbox_failure id errMsg).

Definition MarkOutboxFailed (id errMsg : string) : stM world (result err unit) :=
  exec (sql_outbox_failed id errMsg).

Definition OutboxStats_ : stM world (result err OutboxStats) :=
  query (EWrap "store: outbox stats: ") (λ now d, Ok (sql_outbox_stats now d)).

End methods.

(** ** Well-formed tables *)

Definition valid_status (s : string) : bool :=
  String.eqb s StatusPending || String.eqb s StatusScheduled || String.eqb s StatusRunning ||
  String.eqb s StatusSucceeded || String.eqb s StatusFailed.

Definition valid_outbox_status (s : string) : bool :=
  String.eqb s OutboxPending || String.eqb s OutboxDispatched || String.eqb s OutboxFailed.

(** The CHECK constraints of the migrations, attempts within the column's type,
    and every command's job in the table. *)
Definition job_row_ok (r : job_row) : Prop :=
  valid_status (j_status r) = true ∧ 0 ≤ j_attempts r < 2 ^ 31.

Definition outbox_row_ok (d : DB) (o : outbox_row) : Prop :=
  valid_outbox_status (o_status o) = true ∧ 0 ≤ o_attempts o < 2 ^ 31 ∧ is_Some (jobs d !! o_job o).

Definition db_ok (d : DB) : Prop :=
  map_Forall (λ _ r, job_row_ok r) (jobs d) ∧ map_Forall (λ _ o, outbox_row_ok d o) (outbox d).

(** The ids of the tables are canonical UUIDs. *)
Definition ids_ok {UU : PgUuid} (d : DB) : Prop :=
  (∀ u, is_Some (jobs d !! u) → pg_uuid u = Some u) ∧
  (∀ u, is_Some (outbox d !! u) → pg_uuid u = Some u).

(** The ids the environment draws are canonical UUIDs, distinct, and not in the
    tables. *)
Definition uuids_fresh {UU : PgUuid} (E : env) (w : world) : Prop :=
  (∀ n, pg_uuid (env_uuid E n) = Some (env_uuid E n)) ∧
  (∀ n m, env_uuid E n = env_uuid E m → n = m) ∧
  (∀ n, (tick w ≤ n)%nat → jobs (db w) !! env_uuid E n = None ∧ outbox (db w) !! env_uuid E n = None).

(** ** Lemmas: what a call can do to the tables *)

Section lemmas.
Context {UU : PgUuid} (E : env).

Lemma exec_db stmt w :
  db (exec E stmt w).2 = db w ∨
  ∃ rows d', stmt (env_now E (tick w)) (db w) = Ok (rows, d') ∧ db (exec E stmt w).2 = d'.
Proof.
  unfold exec. destruct (env_fault E (tick w)); simpl; [|by left|];
    destruct (stmt _ _) as [[rows d']|ex] eqn:Hs; simpl; eauto 10.
Qed.

Lemma exec_tick stmt w : tick (exec E stmt w).2 = S (tick w).
Proof.
  unfold exec. destruct (env_fault E (tick w)); simpl; try done;
    destruct (stmt _ _) as [[rows d']|ex]; done.
Qed.

(** A call that reports success did run its statement, on at least one row. *)
Lemma exec_ok stmt w w' :
  exec E stmt w = (Ok tt, w') →
  ∃ rows d', stmt (env_now E (tick w)) (db w) = Ok (rows, d') ∧ rows ≠ 0%nat ∧ db w' = d'.
Proof.
  unfold exec. intros H. destruct (env_fault E (tick w)); try done;
    destruct (stmt _ _) as [[rows d']|ex] eqn:Hs; try done.
  destruct (Nat.eqb rows 0) eqn:Hr; simplify_eq/=. exists rows, d'.
  split; [done|]. split; [by apply Nat.eqb_neq|done].
Qed.

Lemma exec_inv (P : DB → Prop) stmt w :
  (∀ now d rows d', P d → stmt now d = Ok (rows, d') → P d') →
  P (db w) → P (db (exec E stmt w).2).
Proof.
  intros Hst Hw. destruct (exec_db stmt w) as [->|(rows & d' & Hs & ->)]; [done|]. by eapply Hst.
Qed.

Lemma tx_stmt_inv {A} (P : DB → Prop) wrap now (stmt : nat → Z → DB → result err (A * DB)) w :
  (∀ n d a d', P d → stmt n now d = Ok (a, d') → P d') →
  P (db w) → P (db (tx_stmt E wrap now stmt w).2).
Proof.
  intros Hst Hw. unfold tx_stmt. destruct (env_fault E (tick w)); simpl; try done.
  destruct (stmt _ _ _) as [[a d']|ex] eqn:Hs; simpl; [by eapply Hst|done].
Qed.

Lemma in_tx_inv {A} (P : DB → Prop) (body : Z → stM world (result err A)) w :
  (∀ now w, P (db w) → P (db (body now w).2)) → P (db w) → P (db (in_tx E body w).2).
Proof.
  intros Hb Hw. unfold in_tx. destruct (env_fault E (tick w)); simpl; try done.
  pose proof (Hb (env_now E (tick w)) (mkWorld (db w) (S (tick w))) Hw) as H.
  destruct (body _ _) as [[a|e] w']; simpl in *; [|done].
  by destruct (env_fault E (tick w')).
Qed.

Lemma res_bind_inv {A B} (P : DB → Prop) (m : stM world (result err A)) (k : A → stM world (result err B)) w :
  (P (db w) → P (db (m w).2)) → (∀ a w, P (db w) → P (db (k a w).2)) →
  P (db w) → P (db (res_bind m k w).2).
Proof.
  intros Hm Hk Hw. specialize (Hm Hw). unfold res_bind, st_bind.
  destruct (m w) as [[a|e] w']; simpl in *; [by apply Hk|done].
Qed.

(** *** Frame and shape of the single-row updates *)

Lemma update_job_ok id f d rows d' :
  update_job id f d = Ok (rows, d') →
  (rows = 0%nat ∧ d' = d) ∨
  ∃ u r r', pg_uuid id = Some u ∧ jobs d !! u = Some r ∧ f r = Ok r' ∧ rows = 1%nat ∧
    d' = mkDB (<[u := r']> (jobs d)) (outbox d).
Proof.
  unfold update_job. intros H. destruct (pg_uuid id) as [u|] eqn:Hu; [|done].
  destruct (jobs d !! u) as [r|] eqn:Hr; [|simplify_eq; by left].
  destruct (f r) as [r'|e] eqn:Hf; [|done]. simplify_eq. right. eauto 10.
Qed.

Lemma update_outbox_ok id f d rows d' :
  update_outbox id f d = Ok (rows, d') →
  (rows = 0%nat ∧ d' = d) ∨
  ∃ u o o', pg_uuid id = Some u ∧ outbox d !! u = Some o ∧ f o = Ok o' ∧ rows = 1%nat ∧
    d' = mkDB (jobs d) (<[u := o']> (outbox d)).
Proof.
  unfold update_outbox. intros H. destruct (pg_uuid id) as [u|] eqn:Hu; [|done].
  destruct (outbox d !! u) as [o|] eqn:Ho; [|simplify_eq; by left].
  destruct (f o) as [o'|e] eqn:Hf; [|done]. simplify_eq. right. eauto 10.
Qed.

(** *** Preservation of well-formed tables *)

Lemma db_ok_set_job d u r r' :
  db_ok d → jobs d !! u = Some r → job_row_ok r' → db_ok (mkDB (<[u := r']> (jobs d)) (outbox d)).
Proof.
  intros [Hj Ho] Hr Hr'. split; simpl.
  - by apply map_Forall_insert_2.
  - intros oid o Hoid. destruct (Ho oid o Hoid) as (H1 & H2 & H3). split; [done|]. split; [done|].
    simpl. rw lookup_insert. by case_decide.
Qed.

Lemma db_ok_set_outbox d u o' :
  db_ok d → outbox_row_ok d o' → db_ok (mkDB (jobs d) (<[u := o']> (outbox d))).
Proof.
  intros [Hj Ho] Ho'. split; simpl; [done|]. by apply map_Forall_insert_2.
Qed.

Lemma incr_int4_ok n m : incr_int4 n = Ok m → m = n + 1 ∧ n + 1 < 2 ^ 31.
Proof. unfold incr_int4. intros H. case_match; simplify_eq; reflect_bools; lia. Qed.

Lemma update_job_inv id f d rows d' :
  (∀ r r', job_row_ok r → f r = Ok r' → job_row_ok r') →
  db_ok d → update_job id f d = Ok (rows, d') → db_ok d'.
Proof.
  intros Hf Hd [[_ ->]|(u & r & r' & _ & Hr & Hfr & _ & ->)]%update_job_ok; [done|].
  eapply db_ok_set_job; [done|exact Hr|]. apply (Hf r); [by apply Hd in Hr|done].
Qed.

Lemma update_outbox_inv id f d rows d' :
  (∀ o o', outbox_row_ok d o → f o = Ok o' → outbox_row_ok d o') →
  db_ok d → update_outbox id f d = Ok (rows, d') → db_ok d'.
Proof.
  intros Hf Hd [[_ ->]|(u & o & o' & _ & Ho & Hfo & _ & ->)]%update_outbox_ok; [done|].
  apply db_ok_set_outbox; [done|]. apply (Hf o); [by apply Hd in Ho|done].
Qed.

Lemma insert_job_inv id name payload now d j d' :
  db_ok d → sql_insert_job id name payload now d = Ok (j, d') →
  db_ok d' ∧ jobs d !! id = None ∧ j = scanJob id (new_job_row name payload now) ∧
  d' = mkDB (<[id := new_job_row name payload now]> (jobs d)) (outbox d).
Proof.
  unfold sql_insert_job. intros [Hj Ho] H. destruct (pg_text_ok name); [|done]. simpl in H.
  destruct (jobs d !! id) eqn:Hid; simplify_eq.
  split; [|done]. split; simpl.
  - apply map_Forall_insert_2; [|done]. split; [done|simpl; lia].
  - intros oid o Hoid. destruct (Ho oid o Hoid) as (H1 & H2 & H3). split; [done|]. split; [done|].
    simpl. rw lookup_insert. by case_decide.
Qed.

Lemma insert_outbox_shape oid jid now d d' :
  sql_insert_outbox oid jid now d = Ok (tt, d') →
  ∃ u, pg_uuid jid = Some u ∧ outbox d !! oid = None ∧
    d' = mkDB (jobs d) (<[oid := new_outbox_row u now]> (outbox d)).
Proof.
  unfold sql_insert_outbox. intros H. destruct (pg_uuid jid) as [u|]; [|done].
  destruct (outbox d !! oid) eqn:Ho; simplify_eq. eauto.
Qed.

Lemma reclaim_inv rg worker now d js d' :
  db_ok d → sql_reclaim rg worker now d = Ok (js, d') → db_ok d'.
Proof.
  unfold sql_reclaim. intros [Hj Ho] [= <- <-]. split; simpl.
  - intros id r. rw lookup_fmap. intros (r0 & Hr0 & ->)%fmap_Some_1.
    destruct (Hj id r0 Hr0) as [H1 H2]. case_match; split; done.
  - intros oid o Hoid. destruct (Ho oid o Hoid) as (H1 & H2 & [r Hr]). split; [done|]. split; [done|].
    simpl. rw lookup_fmap Hr. by eexists.
Qed.

(** *** The enqueue loop *)

(** What [enqueue_all] does when it succeeds: one new pending command for each
    job, nothing else. *)
Definition enqueued (now : Z) (ids : list string) (d d' : DB) : Prop :=
  jobs d' = jobs d ∧ outbox d ⊆ outbox d' ∧
  (∀ id, id ∈ ids → ∃ oid, outbox d !! oid = None ∧ outbox d' !! oid = Some (new_outbox_row id now)) ∧
  (∀ oid o, outbox d' !! oid = Some o →
     outbox d !! oid = Some o ∨ (outbox d !! oid = None ∧ ∃ id, id ∈ ids ∧ o = new_outbox_row id now)).

Lemma enqueueOutbox_ok now jid w w' :
  pg_uuid jid = Some jid → enqueueOutbox E now jid w = (Ok tt, w') → enqueued now [jid] (db w) (db w').
Proof.
  intros Hu. unfold enqueueOutbox, tx_stmt. intros H.
  destruct (env_fault E (tick w)); try done.
  destruct (sql_insert_outbox _ _ _ _) as [[[] d']|e] eqn:Hi; simplify_eq/=.
  apply insert_outbox_shape in Hi as (u & Hu' & Ho & ->). simplify_eq.
  split; [done|]. split; [by apply insert_subseteq|]. split.
  - intros id ->%list_elem_of_singleton. eexists. split; [exact Ho|]. simpl. by rw lookup_insert_eq.
  - intros oid o. simpl. rw lookup_insert. case_decide as Ed; [|by left].
    subst. intros [= <-]. right. split; [done|]. eexists. split; [|done]. set_solver.
Qed.

Lemma enqueued_trans now ids1 ids2 d1 d2 d3 :
  enqueued now ids1 d1 d2 → enqueued now ids2 d2 d3 → enqueued now (ids1 ++ ids2) d1 d3.
Proof.
  intros (Hj1 & Hs1 & Hin1 & Hout1) (Hj2 & Hs2 & Hin2 & Hout2).
  split; [congruence|]. split; [by etrans|]. split.
  - intros id [Hid|Hid]%elem_of_app.
    + destruct (Hin1 id Hid) as (oid & Hn & Ho). exists oid. split; [done|].
      by eapply lookup_weaken.
    + destruct (Hin2 id Hid) as (oid & Hn & Ho). exists oid. split; [|done].
      by eapply lookup_weaken_None.
  - intros oid o Ho. destruct (Hout2 oid o Ho) as [Ho2|[Hn2 (id & Hid & ->)]].
    + destruct (Hout1 oid o Ho2) as [?|[Hn (id & Hid & ->)]]; [by left|].
      right. split; [done|]. exists id. set_solver.
    + right. split; [by eapply lookup_weaken_None|]. exists id. set_solver.
Qed.

Lemma enqueue_all_ok now js w w' :
  Forall (λ j, pg_uuid (ID j) = Some (ID j)) js →
  enqueue_all E now js w = (Ok tt, w') → enqueued now (ID <$> js) (db w) (db w').
Proof.
  revert w. induction js as [|j js IH]; intros w Hjs H; simpl in H.
  { unfold st_ret in H. simplify_eq. split; [done|]. split; [done|]. split; [set_solver|]. by left. }
  inversion_clear Hjs as [|? ? Hj Hjs']. unfold res_bind, st_bind in H.
  destruct (enqueueOutbox E now (ID j) w) as [[[]|e] w1] eqn:He; [|done].
  eapply (enqueued_trans now [ID j]); [by eapply enqueueOutbox_ok|]. by apply IH.
Qed.
End lemmas.

(** ** The state-changing calls, as data *)

Inductive store_op : Type :=
| OpCreateJob (name payload : string)
| OpCreateJobWithOutbox (name payload : string)
| OpMarkScheduled (id worker : string)
| OpMarkRunning (id : string)
| OpMarkFinished (id : string) (succeeded : bool) (errMsg : string)
| OpReclaimJobs (rg : Ranger job_row) (worker : string)
| OpMarkOutboxDispatched (id : string)
| OpRecordOutboxFailure (id errMsg : string)
| OpMarkOutboxFailed (id errMsg : string).

Definition run_op {UU : PgUuid} (E : env) (op : store_op) (w : world) : world :=
  match op with
  | OpCreateJob n p => (CreateJob E n p w).2
  | OpCreateJobWithOutbox n p => (CreateJobWithOutbox E n p w).2
  | OpMarkScheduled id wk => (MarkScheduled E id wk w).2
  | OpMarkRunning id => (MarkRunning E id w).2
  | OpMarkFinished id s m => (MarkFinished E id s m w).2
  | OpReclaimJobs rg wk => (ReclaimJobs E rg wk w).2
  | OpMarkOutboxDispatched id => (MarkOutboxDispatched E id w).2
  | OpRecordOutboxFailure id m => (RecordOutboxFailure E id m w).2
  | OpMarkOutboxFailed id m => (MarkOutboxFailed E id m w).2
  end.

Section more_lemmas.
Context {UU : PgUuid} (E : env).

Lemma enqueue_one_inv now jid w :
  db_ok (db w) → (∀ u, pg_uuid jid = Some u → is_Some (jobs (db w) !! u)) →
  db_ok (db (enqueueOutbox E now jid w).2) ∧
  jobs (db (enqueueOutbox E now jid w).2) = jobs (db w).
Proof.
  intros Hd Hj. unfold enqueueOutbox, tx_stmt. destruct (env_fault E (tick w)); simpl; try done.
  destruct (sql_insert_outbox _ _ _ _) as [[[] d']|ex] eqn:Hi; simpl; [|done].
  apply insert_outbox_shape in Hi as (u & Hu & Ho & ->). split; [|done].
  apply db_ok_set_outbox; [done|]. split; [done|]. split; [simpl; lia|]. simpl. by apply Hj.
Qed.

Lemma enqueue_all_inv now js w :
  db_ok (db w) → (∀ j u, j ∈ js → pg_uuid (ID j) = Some u → is_Some (jobs (db w) !! u)) →
  db_ok (db (enqueue_all E now js w).2).
Proof.
  revert w. induction js as [|j js IH]; intros w Hd Hj; simpl; [done|].
  destruct (enqueue_one_inv now (ID j) w Hd) as [Hd' Hsame].
  { intros u. apply Hj. set_solver. }
  unfold res_bind, st_bind. destruct (enqueueOutbox E now (ID j) w) as [[[]|ex] w'];
    simpl in *; [|done].
  apply IH; [done|]. rw Hsame. intros j' u Hin. apply Hj. set_solver.
Qed.

Lemma create_with_outbox_inv name payload w :
  (∀ n, pg_uuid (env_uuid E n) = Some (env_uuid E n)) →
  db_ok (db w) → db_ok (db (CreateJobWithOutbox E name payload w).2).
Proof.
  intros Hu Hw. unfold CreateJobWithOutbox. apply in_tx_inv; [|done]. clear w Hw.
  intros now w Hw. unfold res_bind, st_bind, tx_stmt.
  destruct (env_fault E (tick w)); simpl; try done.
  destruct (sql_insert_job _ _ _ _ _) as [[j d']|ex] eqn:Hi; simpl; [|done].
  destruct (insert_job_inv _ _ _ _ _ _ _ Hw Hi) as (Hd & Hn & -> & ->).
  destruct (enqueue_one_inv now (env_uuid E (tick w))
    (mkWorld (mkDB (<[env_uuid E (tick w) := new_job_row name payload now]> (jobs (db w)))
      (outbox (db w))) (S (tick w)))) as [Hd' _]; [done| |].
  { intros u. rw Hu. intros [= <-]. simpl. rw lookup_insert_eq. by eexists. }
  by destruct (enqueueOutbox E now _ _) as [[[]|ex] w'].
Qed.

Lemma reclaim_jobs_inv rg worker w :
  ids_ok (db w) → db_ok (db w) → db_ok (db (ReclaimJobs E rg worker w).2).
Proof.
  intros [Hids _] Hw. unfold ReclaimJobs, in_tx. destruct (env_fault E (tick w)); simpl; try done.
  unfold res_bind at 1, st_bind at 1, tx_stmt. simpl.
  destruct (env_fault E (S (tick w))); simpl; try done.
  set (now := env_now E (tick w)). set (js := _ <$> _). set (d1 := mkDB _ _).
  assert (db_ok d1) as Hd1 by (by eapply (reclaim_inv rg worker now (db w) js d1)).
  pose proof (enqueue_all_inv now js (mkWorld d1 (S (S (tick w)))) Hd1) as He. simpl in He.
  unfold res_bind, st_bind.
  destruct (enqueue_all E now js _) as [[[]|ex] w'] eqn:Hq; simpl in *; [|done].
  assert (db_ok (db w')) as Hw'.
  { apply He. intros j u [[id r] [-> [Hr Hin%elem_of_range]%list_elem_of_filter]]%list_elem_of_fmap Hu.
    simpl in *. rw Hids in Hu; [|by eexists]. simplify_eq. rw lookup_fmap Hin. by eexists. }
  by destruct (env_fault E (tick w')).
Qed.

(** The calls that draw ids. *)
Definition draws_ids (op : store_op) : bool :=
  match op with OpCreateJob _ _ | OpCreateJobWithOutbox _ _ | OpReclaimJobs _ _ => true | _ => false end.

Lemma run_op_db_ok op w :
  (draws_ids op = true → ∀ n, pg_uuid (env_uuid E n) = Some (env_uuid E n)) →
  ids_ok (db w) → db_ok (db w) → db_ok (db (run_op E op w)).
Proof.
  intros Hu Hids Hw. destruct op; cbn [run_op];
    unfold MarkScheduled, MarkRunning, MarkFinished, MarkOutboxDispatched,
      RecordOutboxFailure, MarkOutboxFailed.
  - unfold CreateJob. destruct (env_fault E (tick w)); simpl; try done;
      destruct (sql_insert_job _ _ _ _ _) as [[j d']|ex] eqn:Hi; simpl; try done;
      by apply insert_job_inv in Hi as [??].
  - apply create_with_outbox_inv; [by apply Hu|done].
  - apply exec_inv; [|done]. intros now d rows d' Hd. apply update_job_inv; [|done].
    intros r r' Hr [= <-]. by destruct Hr.
  - apply exec_inv; [|done]. intros now d rows d' Hd. apply update_job_inv; [|done].
    intros r r' [H1 H2]. destruct (incr_int4 (j_attempts r)) as [n|ex] eqn:Hi; intros [= <-].
    apply incr_int4_ok in Hi as [-> ?]. split; [done|simpl; lia].
  - apply exec_inv; [|done]. intros now d rows d' Hd. apply update_job_inv; [|done].
    intros r r' [H1 H2] [= <-]. split; [|done]. by destruct succeeded.
  - by apply reclaim_jobs_inv.
  - apply exec_inv; [|done]. intros now d rows d' Hd. apply update_outbox_inv; [|done].
    intros o o' (H1 & H2 & H3) [= <-]. done.
  - apply exec_inv; [|done]. intros now d rows d' Hd. apply update_outbox_inv; [|done].
    intros o o' (H1 & H2 & H3). destruct (incr_int4 (o_attempts o)) as [n|ex] eqn:Hi; intros [= <-].
    apply incr_int4_ok in Hi as [-> ?]. split; [done|]. split; [simpl; lia|done].
  - apply exec_inv; [|done]. intros now d rows d' Hd. apply update_outbox_inv; [|done].
    intros o o' (H1 & H2 & H3) [= <-]. done.
Qed.
End more_lemmas.

(** ** Lemmas: the two transactions *)

Lemma create_with_outbox_spec {UU : PgUuid} (E : env) (name payload : string) (w w' : world)
    (r : result err Job) :
  uuids_fresh E w → CreateJobWithOutbox E name payload w = (r, w') →
  let id := env_uuid E (S (tick w)) in
  let oid := env_uuid E (S (S (tick w))) in
  let now := env_now E (tick w) in
  let added := mkDB (<[id := new_job_row name payload now]> (jobs (db w)))
                    (<[oid := new_outbox_row id now]> (outbox (db w))) in
  ((db w' = db w ∧ is_ok r = false) ∨
   (db w' = added ∧ (r = Ok (scanJob id (new_job_row name payload now)) ∨ is_ok r = false))) ∧
  (pg_text_ok name = false → db w' = db w ∧ is_ok r = false) ∧
  (pg_text_ok name = true → (∀ n, env_fault E n = NoFault) →
     db w' = added ∧ r = Ok (scanJob id (new_job_row name payload now))).
Proof.
  intros (Hu & Hinj & Hfresh) Hrun id oid now added. revert Hrun.
  destruct (Hfresh (S (tick w)) ltac:(lia)) as [Hj _].
  destruct (Hfresh (S (S (tick w))) ltac:(lia)) as [_ Ho].
  assert (∀ k ex, env_fault E k = ex → ex ≠ NoFault → ¬ ∀ n, env_fault E n = NoFault) as Hno
    by (intros k ex <- Hk Hn; by rw Hn in Hk).
  unfold CreateJobWithOutbox, in_tx, res_bind, st_bind, enqueueOutbox, tx_stmt. simpl.
  destruct (env_fault E (tick w)) eqn:F0; try (intros [= <- <-]; split; [by left; split|];
    split; [done|]; intros _ Hn; by destruct (Hno _ _ F0)).
  destruct (env_fault E (S (tick w))) eqn:F1; try (intros [= <- <-]; split; [by left; split|];
    split; [done|]; intros _ Hn; by destruct (Hno _ _ F1)).
  unfold sql_insert_job. rw Hj. destruct (pg_text_ok name); simpl;
    [|intros [= <- <-]; split; [by left; split|]; by split].
  destruct (env_fault E (S (S (tick w)))) eqn:F2; try (intros [= <- <-]; split; [by left; split|];
    split; [done|]; intros _ Hn; by destruct (Hno _ _ F2)).
  unfold sql_insert_outbox. rw Hu /= Ho. simpl.
  destruct (env_fault E (S (S (S (tick w))))) eqn:F3; intros [= <- <-].
  - split; [right; split; [done|by left]|]. by split.
  - split; [left; by split|]. split; [done|]. intros _ Hn. by destruct (Hno _ _ F3).
  - split; [right; split; [done|by right]|]. split; [done|]. intros _ Hn. by destruct (Hno _ _ F3).
Qed.

(** The ids drawn later stay fresh; and without a lost answer, the caller knows
    whether the transaction took effect. *)
Lemma create_with_outbox_next {UU : PgUuid} (E : env) (name payload : string) (w w' : world) (r : result err Job) :
  uuids_fresh E w → CreateJobWithOutbox E name payload w = (r, w') →
  uuids_fresh E w' ∧ ((∀ n e, env_fault E n ≠ FailAfter e) → is_ok r = false → db w' = db w).
Proof.
  intros (Hu & Hinj & Hfresh) Hrun. revert Hrun.
  destruct (Hfresh (S (tick w)) ltac:(lia)) as [Hj _].
  destruct (Hfresh (S (S (tick w))) ltac:(lia)) as [_ Ho].
  assert (∀ t, (tick w ≤ t)%nat → uuids_fresh E (mkWorld (db w) t)) as Hsame.
  { intros t Ht. split; [done|]. split; [done|]. intros n Hn. apply Hfresh. simpl in Hn. lia. }
  assert (uuids_fresh E (mkWorld (mkDB (<[env_uuid E (S (tick w)) := new_job_row name payload (env_now E (tick w))]> (jobs (db w)))
    (<[env_uuid E (S (S (tick w))) := new_outbox_row (env_uuid E (S (tick w))) (env_now E (tick w))]> (outbox (db w))))
    (S (S (S (S (tick w))))))) as Hadd.
  { split; [done|]. split; [done|]. intros n Hn. simpl in Hn. destruct (Hfresh n ltac:(lia)) as [H1 H2]. simpl.
    rw !lookup_insert_ne; [done|intros ?%Hinj; lia..]. }
  destruct w as [d t]. simpl in *.
  unfold CreateJobWithOutbox, in_tx, res_bind, st_bind, enqueueOutbox, tx_stmt. simpl.
  destruct (env_fault E t) eqn:F0; try (intros [= <- <-]; split; [apply Hsame; simpl; lia|done]).
  destruct (env_fault E (S t)) eqn:F1; try (intros [= <- <-]; split; [apply Hsame; simpl; lia|done]).
  unfold sql_insert_job. rw Hj. destruct (pg_text_ok name); simpl;
    [|intros [= <- <-]; split; [apply Hsame; simpl; lia|done]].
  destruct (env_fault E (S (S t))) eqn:F2; try (intros [= <- <-]; split; [apply Hsame; simpl; lia|done]).
  unfold sql_insert_outbox. rw Hu /= Ho. simpl.
  destruct (env_fault E (S (S (S t)))) eqn:F3; intros [= <- <-].
  - by split.
  - split; [apply Hsame; simpl; lia|done].
  - split; [exact Hadd|]. intros Hn. by destruct (Hn _ _ F3).
Qed.

Lemma reclaim_spec {UU : PgUuid} (E : env) (rg : Ranger job_row) (worker : string)
    (w w' : world) (r : result err (list Job)) :
  (∀ u, is_Some (jobs (db w) !! u) → pg_uuid u = Some u) → ReclaimJobs E rg worker w = (r, w') →
  let now := env_now E (tick w) in
  (db w' = db w ∧ is_ok r = false) ∨
  (jobs (db w') = (λ x, if reclaimable worker x then set_reclaimed now x else x) <$> jobs (db w) ∧
   outbox (db w) ⊆ outbox (db w') ∧
   (∀ id x, jobs (db w) !! id = Some x → reclaimable worker x = true →
      ∃ oid, outbox (db w) !! oid = None ∧ outbox (db w') !! oid = Some (new_outbox_row id now)) ∧
   (∀ oid o, outbox (db w') !! oid = Some o → outbox (db w) !! oid = None →
      ∃ id x, jobs (db w) !! id = Some x ∧ reclaimable worker x = true ∧ o = new_outbox_row id now) ∧
   (∀ js j, r = Ok js → j ∈ js ↔
      ∃ id x, jobs (db w) !! id = Some x ∧ reclaimable worker x = true ∧
              j = scanJob id (set_reclaimed now x))).
Proof.
  intros Hids Hrun now. revert Hrun. unfold ReclaimJobs, in_tx.
  destruct (env_fault E (tick w)); try (intros [= <- <-]; by left).
  unfold res_bind at 1, st_bind at 1, tx_stmt. simpl.
  destruct (env_fault E (S (tick w))); try (intros [= <- <-]; by left). simpl. fold now.
  set (js := _ <$> _). set (d1 := mkDB _ _).
  assert (∀ j, j ∈ js ↔ ∃ id x, jobs (db w) !! id = Some x ∧ reclaimable worker x = true ∧
    j = scanJob id (set_reclaimed now x)) as Hjs.
  { intros j. unfold js. rw list_elem_of_fmap. split.
    - intros ([id x] & -> & [Hx Hin%elem_of_range]%list_elem_of_filter). eauto.
    - intros (id & x & Hid & Hx & ->). exists (id, x). split; [done|].
      apply list_elem_of_filter. split; [done|]. by apply elem_of_range. }
  unfold res_bind, st_bind.
  destruct (enqueue_all E now js (mkWorld d1 (S (S (tick w))))) as [[[]|ex] w1] eqn:Hq;
    [|intros [= <- <-]; by left].
  apply enqueue_all_ok in Hq.
  2:{ apply Forall_forall. intros j (id & x & Hid & _ & ->)%Hjs. simpl. apply Hids. by eexists. }
  destruct Hq as (Hj & Hsub & Hin & Hout). simpl in *.
  assert (jobs (db w1) = (λ x, if reclaimable worker x then set_reclaimed now x else x) <$> jobs (db w) ∧
   outbox (db w) ⊆ outbox (db w1) ∧
   (∀ id x, jobs (db w) !! id = Some x → reclaimable worker x = true →
      ∃ oid, outbox (db w) !! oid = None ∧ outbox (db w1) !! oid = Some (new_outbox_row id now)) ∧
   (∀ oid o, outbox (db w1) !! oid = Some o → outbox (db w) !! oid = None →
      ∃ id x, jobs (db w) !! id = Some x ∧ reclaimable worker x = true ∧ o = new_outbox_row id now))
    as Hall.
  { split; [done|]. split; [done|]. split.
    - intros id x Hid Hx. apply Hin. apply list_elem_of_fmap.
      exists (scanJob id (set_reclaimed now x)). split; [done|]. apply Hjs. eauto.
    - intros oid o Ho Hn. destruct (Hout oid o Ho) as [?|[_ (id & Hid & ->)]]; [congruence|].
      apply list_elem_of_fmap in Hid as (j & -> & (id & x & Hid & Hx & ->)%Hjs). eauto. }
  destruct Hall as (H1 & H2 & H3 & H4).
  destruct (env_fault E (tick w1)); intros [= <- <-]; [right|by left|right].
  - split; [done|]. split; [done|]. split; [done|]. split; [done|]. intros ? j [= <-]. apply Hjs.
  - by repeat (split; [done|]).
Qed.

(** ** Properties *)

(** Every state-changing call of the store, whatever fails during it, keeps
    the tables well formed: statuses within the CHECK constraints, attempt
    counts within their column type, and no command without its job. *)
Theorem store_preserves_db_ok {UU : PgUuid} (E : env) (op : store_op) (w : world) :
  (∀ n, pg_uuid (env_uuid E n) = Some (env_uuid E n)) →
  ids_ok (db w) → db_ok (db w) → db_ok (db (run_op E op w)).
Proof. intros Hu. by apply run_op_db_ok. Qed.

(** A UUID cast that accepts every text as canonical. *)
Definition any_uuid : PgUuid :=
  {| pg_uuid := Some; pg_uuid_canonical := λ s u _, eq_refl |}.

Definition demo_env : env :=
  mkEnv (λ n, 1000 + Z.of_nat n) (λ _, NoFault) (λ n, "id-" +:+ pretty n).

Definition empty_world : world := mkWorld (mkDB ∅ ∅) 0.

Lemma store_preserves_db_ok_witness :
  db_ok (db (run_op (UU := any_uuid) demo_env (OpCreateJobWithOutbox "demo" EmptyString) empty_world)).
Proof.
  apply (store_preserves_db_ok (UU := any_uuid)); [done|by split|].
  split; apply map_Forall_empty.
Defined.

(** The transactional-outbox write. Whatever fails, CreateJobWithOutbox
    either leaves the tables untouched and reports an error, or adds the pending
    job together with one pending command for it and nothing else; it reports
    success only in the second case. A name the column cannot hold is refused; any
    other is stored when nothing fails. *)
Theorem create_with_outbox_atomic {UU : PgUuid} (E : env) (name payload : string) (w w' : world)
    (r : result err Job) :
  uuids_fresh E w → CreateJobWithOutbox E name payload w = (r, w') →
  let id := env_uuid E (S (tick w)) in
  let oid := env_uuid E (S (S (tick w))) in
  let now := env_now E (tick w) in
  let added := mkDB (<[id := new_job_row name payload now]> (jobs (db w)))
                    (<[oid := new_outbox_row id now]> (outbox (db w))) in
  ((db w' = db w ∧ is_ok r = false) ∨
   (db w' = added ∧ (r = Ok (scanJob id (new_job_row name payload now)) ∨ is_ok r = false))) ∧
  (pg_text_ok name = false → db w' = db w ∧ is_ok r = false) ∧
  (pg_text_ok name = true → (∀ n, env_fault E n = NoFault) →
     db w' = added ∧ r = Ok (scanJob id (new_job_row name payload now))).
Proof. apply create_with_outbox_spec. Qed.

Lemma demo_env_fresh : uuids_fresh (UU := any_uuid) demo_env empty_world.
Proof.
  split; [done|]. split; [|done]. intros n m H. simpl in H.
  apply (inj (String.append "id-")) in H. by apply (inj pretty) in H.
Qed.

Lemma create_with_outbox_atomic_witness :
  db (CreateJobWithOutbox (UU := any_uuid) demo_env "demo" EmptyString empty_world).2 =
    mkDB {["id-1" := new_job_row "demo" EmptyString 1000]} {["id-2" := new_outbox_row "id-1" 1000]}.
Proof.
  destruct (CreateJobWithOutbox (UU := any_uuid) demo_env "demo" EmptyString empty_world) as [r w'] eqn:Hrun.
  simpl. apply (create_with_outbox_atomic (UU := any_uuid) demo_env "demo" EmptyString empty_world w' r
    demo_env_fresh Hrun); done.
Defined.

(** C4: reclaiming a dead worker's jobs is one atomic step. Whatever fails, either
    nothing changes and an error is reported, or every scheduled or running job
    of that worker, and no other job, becomes pending and unassigned and gets a
    fresh pending command; existing commands are untouched. On success the
    returned jobs are exactly those. *)
Theorem reclaim_atomic {UU : PgUuid} (E : env) (rg : Ranger job_row) (worker : string)
    (w w' : world) (r : result err (list Job)) :
  ids_ok (db w) → ReclaimJobs E rg worker w = (r, w') →
  let now := env_now E (tick w) in
  (db w' = db w ∧ is_ok r = false) ∨
  (jobs (db w') = (λ x, if reclaimable worker x then set_reclaimed now x else x) <$> jobs (db w) ∧
   outbox (db w) ⊆ outbox (db w') ∧
   (∀ id x, jobs (db w) !! id = Some x → reclaimable worker x = true →
      ∃ oid, outbox (db w) !! oid = None ∧ outbox (db w') !! oid = Some (new_outbox_row id now)) ∧
   (∀ oid o, outbox (db w') !! oid = Some o → outbox (db w) !! oid = None →
      ∃ id x, jobs (db w) !! id = Some x ∧ reclaimable worker x = true ∧ o = new_outbox_row id now) ∧
   (∀ js j, r = Ok js → j ∈ js ↔
      ∃ id x, jobs (db w) !! id = Some x ∧ reclaimable worker x = true ∧
              j = scanJob id (set_reclaimed now x))).
Proof. intros [Hids _]. by apply reclaim_spec. Qed.

Definition reclaim_world : world :=
  mkWorld (mkDB {["j1" := set_scheduled 5 "worker-1" (new_job_row "a" EmptyString 1);
                  "j2" := set_scheduled 5 "worker-2" (new_job_row "b" EmptyString 2)]} ∅) 0.

Lemma reclaim_atomic_witness :
  jobs (db (ReclaimJobs (UU := any_uuid) demo_env (ranger_asc _) "worker-1" reclaim_world).2) =
    {["j1" := set_reclaimed 1000 (set_scheduled 5 "worker-1" (new_job_row "a" EmptyString 1));
      "j2" := set_scheduled 5 "worker-2" (new_job_row "b" EmptyString 2)]}.
Proof.
  destruct (ReclaimJobs (UU := any_uuid) demo_env (ranger_asc _) "worker-1" reclaim_world)
    as [r w'] eqn:Hrun.
  destruct (reclaim_atomic (UU := any_uuid) demo_env (ranger_asc _) "worker-1" reclaim_world w' r
    ltac:(by split) Hrun) as [[_ Hr]|(Hj & _)].
  - exfalso. vm_compute in Hrun. injection Hrun as <- <-. done.
  - simpl. rw Hj. by vm_compute.
Defined.
