(* ===== verification/Dispatch.v ===== *)
(** * internal/dispatch: placing a job on the first worker that accepts it

    [New] builds the list of workers in name order, [eligible] orders the offers
    (the candidate provider's order, or round-robin without one) and [Dispatch]
    makes them one after the other. The gRPC client of a worker is a parameter:
    a call on the world the workers live in that answers or fails. *)

From S2P Require Import Prelude GoRuntime Proto Store.
Local Open Scope Z_scope.

(** [Dispatcher], less its connections: the workers in attempt order, the
    names that have one, the round-robin cursor (a [uint64]). *)
Record Dispatcher : Type := mkDispatcher {
  workers : list string;
  byName : gset string;
  next : Z;
}.

(** One pass of the loop of [New]: the client of [name], or the error that
    [grpc.NewClient] makes of its address. *)
Definition new_step (addrs : gmap string string) (dial : string → option err)
    (acc : result err Dispatcher) (name : string) : result err Dispatcher :=
  match acc with
  | Err e => Err e
  | Ok d =>
      match dial (default EmptyString (addrs !! name)) with
      | Some e => Err (EWrap ("dispatch: client for " +:+ name +:+ ": ") e)
      | None => Ok (mkDispatcher (workers d ++ [name]) ({[name]} ∪ byName d) (next d))
      end
  end.

Definition New (rg : Ranger string) (addrs : gmap string string) (dial : string → option err) :
    result err Dispatcher :=
  if Nat.eqb (size addrs) 0 then Err (EText "dispatch: no workers configured (IRONWORK_WORKERS)")
  else foldl (new_step addrs dial) (Ok (mkDispatcher [] ∅ 0)) (sort_strings (rg 0%nat addrs).*1).

Section dispatch.
Context {W : Type}.

(** The candidate provider, nil or a function of the moment it is asked, and the
    workers' [ExecuteJob] over gRPC, bounded by [perAttemptTimeout]. *)
Context (candidates : option (W → list string)).
Context (ExecuteJob : string → ExecuteJobRequest → stM W (result err ExecuteJobResponse)).

(** [d.workers[(start+uint64(i))%uint64(len(d.workers))]]; the index is in range. *)
Definition worker_at (ws : list string) (start : Z) (i : nat) : string :=
  default EmptyString (ws !! Z.to_nat (u64 (start + Z.of_nat i) `mod` Z.of_nat (length ws))).

Definition eligible (d : Dispatcher) (w : W) : list string * Dispatcher :=
  match candidates with
  | None =>
      let start := next d in
      (worker_at (workers d) start <$> seq 0 (length (workers d)),
       mkDispatcher (workers d) (byName d) (u64 (next d + 1)))
  | Some provider => (filter (λ name, name ∈ byName d) (provider w), d)
  end.

(** The loop of [Dispatch]; [lastErr] is nil at first. *)
Fixpoint offer (job : Job) (lastErr : option err) (ws : list string) : stM W (result err string) :=
  match ws with
  | [] =>
      let head := "dispatch: no worker accepted job " +:+ ID job +:+ ": " in
      st_ret (Err (match lastErr with Some e => EWrap head e | None => EText (head +:+ "%!w(<nil>)") end))
  | name :: ws' =>
      st_bind (ExecuteJob name (mkExecuteJobRequest (ID job) (Name job) (Payload job))) (λ r,
      match r with
      | Ok resp => st_ret (Ok (ejr_WorkerInstance resp))
      | Err e => offer job (Some e) ws'
      end)
  end.

Definition Dispatch (d : Dispatcher) (job : Job) : stM W (result err string * Dispatcher) :=
  λ w,
    let '(ws, d') := eligible d w in
    if Nat.eqb (length ws) 0
    then ((Err (EText ("dispatch: no available workers for job " +:+ ID job)), d'), w)
    else let '(r, w') := offer job None ws w in ((r, d'), w').

(** ** Specification *)

(** The workers [ws], offered the job in turn, all turn it down: the world goes
    from [w] to [w'] and [last] is the last refusal. *)
Inductive refused (job : Job) : list string → W → option err → W → option err → Prop :=
| refused_nil w e : refused job [] w e w e
| refused_cons name ws w w1 w' e0 e1 e' :
    ExecuteJob name (mkExecuteJobRequest (ID job) (Name job) (Payload job)) w = (Err e1, w1) →
    refused job ws w1 (Some e1) w' e' → refused job (name :: ws) w e0 w' e'.

(** [offer] placed the job on the first worker of the list that took it. *)
Definition placed (job : Job) (ws : list string) (w : W) (inst : string) (w' : W) : Prop :=
  ∃ pre name post w1 e resp,
    ws = pre ++ name :: post ∧ refused job pre w None w1 e ∧
    ExecuteJob name (mkExecuteJobRequest (ID job) (Name job) (Payload job)) w1 = (Ok resp, w') ∧
    inst = ejr_WorkerInstance resp.

(** ** Lemmas *)

Lemma offer_cases job e0 ws w r w' :
  offer job e0 ws w = (r, w') →
  (∃ pre name post w1 e resp,
     ws = pre ++ name :: post ∧ refused job pre w e0 w1 e ∧
     ExecuteJob name (mkExecuteJobRequest (ID job) (Name job) (Payload job)) w1 = (Ok resp, w') ∧
     r = Ok (ejr_WorkerInstance resp)) ∨
  (∃ e, refused job ws w e0 w' e ∧ offer job e [] w' = (r, w')).
Proof.
  revert e0 w. induction ws as [|name ws IH]; intros e0 w H; simpl in H.
  { unfold st_ret in H. simplify_eq. right. exists e0. split; [constructor|done]. }
  unfold st_bind in H. destruct (ExecuteJob name _ w) as [[resp|e1] w1] eqn:Hx.
  - unfold st_ret in H. simplify_eq. left.
    exists [], name, ws, w, e0, resp. split; [done|]. split; [constructor|done].
  - destruct (IH _ _ H) as [(pre & n' & post & w2 & e & resp & -> & Hr & Hx' & ->)|(e & Hr & He)].
    + left. exists (name :: pre), n', post, w2, e, resp. split; [done|].
      split; [by econstructor|done].
    + right. exists e. split; [by econstructor|done].
Qed.

Lemma refused_last job ws w e0 w' e :
  refused job ws w e0 w' e → ws ≠ [] → is_Some e.
Proof.
  induction 1 as [|name ws w w1 w' e0 e1 e' Hx Hr IH]; [done|]. intros _.
  destruct ws; [|by apply IH]. inversion Hr. by eexists.
Qed.

Lemma worker_at_small ws start i :
  0 ≤ start → start + Z.of_nat i < 2 ^ 64 →
  worker_at ws start i = default EmptyString (ws !! Z.to_nat ((start + Z.of_nat i) `mod` Z.of_nat (length ws))).
Proof. intros H1 H2. unfold worker_at. rw wrap_u_small; [done|lia]. Qed.

Lemma rr_index (n : nat) (start i : Z) :
  0 < Z.of_nat n → 0 ≤ start → 0 ≤ i < Z.of_nat n →
  (start + i) `mod` Z.of_nat n =
    let s := start `mod` Z.of_nat n in
    if decide (s + i < Z.of_nat n) then s + i else s + i - Z.of_nat n.
Proof.
  intros Hn Hs Hi. simpl. set (N := Z.of_nat n) in *.
  pose proof (Z.div_mod start N ltac:(lia)) as Hd.
  pose proof (Z.mod_pos_bound start N ltac:(lia)) as Hb.
  case_decide.
  - symmetry. apply (Z.mod_unique_pos _ _ (start `div` N)); lia.
  - symmetry. apply (Z.mod_unique_pos _ _ (start `div` N + 1)); lia.
Qed.

(** Without a wrap of the cursor the offers are the workers, rotated. *)
Lemma eligible_rotation (ws : list string) (start : Z) :
  0 ≤ start → start + Z.of_nat (length ws) ≤ 2 ^ 64 →
  worker_at ws start <$> seq 0 (length ws) =
    let s := Z.to_nat (start `mod` Z.of_nat (length ws)) in drop s ws ++ take s ws.
Proof.
  intros Hs Hw. cbv zeta. set (n := length ws) in *. set (s := Z.to_nat _).
  destruct (decide (n = 0%nat)) as [E|E].
  { destruct ws; [|done]. by destruct s. }
  pose proof (Z.mod_pos_bound start (Z.of_nat n) ltac:(lia)) as Hb.
  assert (s < n)%nat as Hsn by lia.
  apply list_eq. intros i. rw list_lookup_fmap.
  destruct (decide (i < n)%nat) as [Hi|Hi].
  - rw lookup_seq_lt; [|done]. simpl. rw worker_at_small; [|lia|lia]. fold n.
    rw (rr_index n start (Z.of_nat i)); [|lia|done|lia]. simpl.
    case_decide as D.
    + rw lookup_app_l; [|rw length_drop; fold n; lia]. rw lookup_drop.
      replace (Z.to_nat _) with (s + i)%nat by lia.
      destruct (lookup_lt_is_Some_2 ws (s + i)%nat ltac:(fold n; lia)) as [x ->]. done.
    + rw lookup_app_r; [|rw length_drop; fold n; lia]. rw length_drop. fold n.
      rw lookup_take_lt; [|lia].
      replace (Z.to_nat _) with (i - (n - s))%nat by lia.
      destruct (lookup_lt_is_Some_2 ws (i - (n - s))%nat ltac:(fold n; lia)) as [x ->]. done.
  - rw lookup_seq_ge; [|lia]. simpl. symmetry. apply lookup_ge_None_2.
    rw length_app length_drop length_take. fold n. lia.
Qed.
End dispatch.

Lemma new_fold_ok (addrs : gmap string string) dial ns d0 :
  (∀ name, name ∈ ns → dial (default EmptyString (addrs !! name)) = None) →
  foldl (new_step addrs dial) (Ok d0) ns =
    Ok (mkDispatcher (workers d0 ++ ns) (list_to_set ns ∪ byName d0) (next d0)).
Proof.
  revert d0. induction ns as [|name ns IH]; intros d0 H; simpl.
  { destruct d0; simpl. do 2 f_equal; [by rw app_nil_r|set_solver]. }
  rw H; [|set_solver]. rw IH; [|set_solver]. simpl. do 2 f_equal; [by rw -app_assoc|set_solver].
Qed.

Lemma new_fold_err (addrs : gmap string string) dial ns d0 :
  (∀ x, x ∈ ns → is_Some (addrs !! x)) →
  ¬ Forall (λ name, dial (default EmptyString (addrs !! name)) = None) ns →
  ∃ ex, foldl (new_step addrs dial) (Ok d0) ns = Err ex ∧
    ∃ name a ex, addrs !! name = Some a ∧ dial a = Some ex.
Proof.
  revert d0. induction ns as [|x xs IH]; intros d0 Hin Hx; [by destruct Hx|]. simpl.
  destruct (dial (default EmptyString (addrs !! x))) as [ex|] eqn:Hd.
  - assert (∀ e, foldl (new_step addrs dial) (Err e) xs = Err e) as ->.
    { clear. induction xs; [done|]. intros. simpl. apply IHxs. }
    eexists. split; [done|]. destruct (Hin x ltac:(set_solver)) as [a Ha].
    rw Ha in Hd. eauto.
  - apply IH; [set_solver|]. intros Hf. apply Hx. by constructor.
Qed.

(** ** Properties *)

(** Dispatch hands the job to the first worker, in attempt order, that
    accepts it: it returns that worker's instance, every worker before it was
    offered the job and refused, and no worker after it hears of the job. It
    fails exactly when no worker is eligible (nobody is called) or when every
    eligible worker refused, and then reports the last refusal. *)
Theorem dispatch_first_accepting {W : Type} (candidates : option (W → list string))
    (ExecuteJob : string → ExecuteJobRequest → stM W (result err ExecuteJobResponse))
    (d d' : Dispatcher) (job : Job) (w w' : W) (r : result err string) :
  Dispatch candidates ExecuteJob d job w = ((r, d'), w') →
  let ws := (eligible candidates d w).1 in
  match r with
  | Ok inst => placed ExecuteJob job ws w inst w'
  | Err e =>
      (ws = [] ∧ w' = w) ∨
      (ws ≠ [] ∧ ∃ last, refused ExecuteJob job ws w None w' (Some last) ∧
        e = EWrap ("dispatch: no worker accepted job " +:+ ID job +:+ ": ") last)
  end.
Proof.
  unfold Dispatch. intros H. destruct (eligible candidates d w) as [ws d1]. simpl.
  destruct (Nat.eqb_spec (length ws) 0) as [E|E]; simplify_eq.
  { left. split; [by apply nil_length_inv|done]. }
  destruct (offer ExecuteJob job None ws w) as [r1 w1] eqn:Ho. simplify_eq.
  assert (ws ≠ []) as Hne by (by intros ->).
  apply offer_cases in Ho as [(pre & name & post & w2 & e & resp & -> & Hr & Hx & ->)|(e & Hr & He)].
  - exists pre, name, post, w2, e, resp. done.
  - destruct (refused_last _ _ _ _ _ _ _ Hr Hne) as [last ->]. simpl in He. unfold st_ret in He.
    simplify_eq. right. split; [done|]. eauto.
Qed.

Definition demo_dispatcher : Dispatcher := mkDispatcher ["w1"; "w2"; "w3"] {["w1"; "w2"; "w3"]} 0.

(** A cluster where only [w2] has room; the world logs the offers. *)
Definition demo_execute (name : string) (req : ExecuteJobRequest) :
    stM (list string) (result err ExecuteJobResponse) :=
  λ log, (if String.eqb name "w2" then Ok (mkExecuteJobResponse name)
          else Err (EStatus ResourceExhausted "at capacity"), log ++ [name]).

Definition demo_job : Job := scanJob "j1" (new_job_row "demo" EmptyString 0).

Lemma dispatch_first_accepting_witness :
  placed demo_execute demo_job ["w1"; "w2"; "w3"] [] "w2" ["w1"; "w2"].
Proof.
  exact (dispatch_first_accepting None demo_execute demo_dispatcher (mkDispatcher ["w1"; "w2"; "w3"] {["w1"; "w2"; "w3"]} 1)
    demo_job [] ["w1"; "w2"] (Ok "w2") ltac:(by vm_compute)).
Defined.

(** Without a candidate provider the offers rotate: as long as the 64-bit
    cursor does not pass its end, a dispatch offers the job to every configured
    worker exactly once, starting one worker further each time, so that any
    [length workers] consecutive dispatches start with every worker once. *)
Theorem round_robin_fair {W : Type} (d : Dispatcher) (w : W) :
  workers d ≠ [] → 0 ≤ next d → next d + 2 * Z.of_nat (length (workers d)) ≤ 2 ^ 64 →
  let n := length (workers d) in
  let start (k : nat) := mkDispatcher (workers d) (byName d) (next d + Z.of_nat k) in
  (∀ k : nat, (k < n)%nat →
     (eligible (W := W) None (start k) w).1 ≡ₚ workers d ∧
     (eligible (W := W) None (start k) w).2 = start (S k)) ∧
  ((λ k, head (eligible (W := W) None (start k) w).1) <$> seq 0 n) ≡ₚ Some <$> workers d.
Proof.
  intros Hne Hn Hw n start.
  assert (0 < n)%nat as Hpos by (unfold n; destruct (workers d); [done|simpl; lia]).
  assert (∀ k : nat, (k < n)%nat → (eligible (W := W) None (start k) w).1 =
    let s := Z.to_nat ((next d + Z.of_nat k) `mod` Z.of_nat n) in
    drop s (workers d) ++ take s (workers d)) as Hrot.
  { intros k Hk. simpl. apply eligible_rotation; fold n; lia. }
  split.
  - intros k Hk. split.
    + rw Hrot; [|done]. simpl. rw Permutation_app_comm. by rw take_drop.
    + simpl. unfold start. f_equal. rw wrap_u_small; lia.
  - transitivity ((λ k, Some (worker_at (workers d) (next d) k)) <$> seq 0 n).
    + apply reflexive_eq, list_eq. intros k. rw !list_lookup_fmap.
      destruct (decide (k < n)%nat) as [Hk|Hk]; [|rw lookup_seq_ge; [done|lia]].
      rw lookup_seq_lt; [|done]. cbn [fmap option_fmap option_map]. f_equal. cbn [eligible start fst workers next].
      fold n. destruct n as [|n'] eqn:En; [lia|]. cbn [seq fmap list_fmap head]. f_equal. unfold worker_at.
      fold n. rw !wrap_u_small; [|lia|lia]. do 4 f_equal. lia.
    + replace ((λ k, Some (worker_at (workers d) (next d) k)) <$> seq 0 n)
        with (Some <$> (worker_at (workers d) (next d) <$> seq 0 n)) by (by rw -list_fmap_compose).
      rw eligible_rotation; [|done|fold n; lia]. simpl. rw Permutation_app_comm. by rw take_drop.
Qed.

Lemma round_robin_fair_witness :
  (λ k, head (eligible (W := unit) None
     (mkDispatcher ["w1"; "w2"; "w3"] {["w1"; "w2"; "w3"]} (0 + Z.of_nat k)) tt).1) <$> seq 0 3
  ≡ₚ [Some "w1"; Some "w2"; Some "w3"].
Proof.
  exact (proj2 (round_robin_fair (W := unit) demo_dispatcher tt
    ltac:(done) ltac:(simpl; lia) ltac:(simpl; lia))).
Defined.

(** The dispatcher built from a worker map lists every configured worker once,
    in name order, whatever order the map was read in; without workers, or with
    an address gRPC rejects, it is not built. *)
Theorem new_dispatcher_complete (rg : Ranger string) (addrs : gmap string string)
    (dial : string → option err) :
  match New rg addrs dial with
  | Ok d =>
      addrs ≠ ∅ ∧ workers d = sort_strings (map_to_list addrs).*1 ∧
      StronglySorted (not_after str_ltb) (workers d) ∧ NoDup (workers d) ∧
      byName d = dom addrs ∧ next d = 0
  | Err e => addrs = ∅ ∨ ∃ name a ex, addrs !! name = Some a ∧ dial a = Some ex
  end.
Proof.
  unfold New. destruct (Nat.eqb_spec (size addrs) 0) as [E|E].
  { left. by apply map_size_empty_inv. }
  assert (sort_strings (rg 0%nat addrs).*1 = sort_strings (map_to_list addrs).*1) as Hsort.
  { apply sort_strings_unique. by rw (range_perm rg 0 addrs). }
  rw Hsort. set (ns := sort_strings _).
  assert (∀ name, name ∈ ns ↔ is_Some (addrs !! name)) as Hns.
  { intros name. unfold ns, sort_strings. rw elem_of_go_sort list_elem_of_fmap. split.
    - intros ([k v] & -> & H%elem_of_map_to_list). by exists v.
    - intros [v H]. exists (name, v). split; [done|]. by apply elem_of_map_to_list. }
  destruct (decide (Forall (λ name, dial (default EmptyString (addrs !! name)) = None) ns)) as [Hall|Hbad].
  - rw new_fold_ok; [|by apply Forall_forall]. simpl.
    split; [intros ->; by rw map_size_empty in E|]. split; [done|].
    split; [apply (go_sort_sorted str_ltb)|]. split.
    + unfold ns. rw sort_strings_perm. apply NoDup_fst_map_to_list.
    + split; [|done]. apply set_eq. intros x. rw elem_of_union elem_of_list_to_set Hns elem_of_dom. set_solver.
  - destruct (new_fold_err addrs dial ns (mkDispatcher [] ∅ 0)) as (ex & -> & H); [set_solver|done|]. by right.
Qed.
