(* ===== verification/WorkerSvc.v ===== *)
(** * internal/workersvc: accepting and executing jobs under a concurrency cap

    The worker's server is used by many goroutines at once: [thread] is the
    program counter of one of them, [thread_step] the next atomic action it
    takes on the shared counters and the store, and [wstep] the interleaving of
    any number of them with the rest of the system. [ExecuteJob] and [run] are
    the same code as one uninterrupted call. *)

From S2P Require Import Prelude GoRuntime Json Proto Store.
Local Open Scope Z_scope.

Definition maxSleep : Z := 60 * Second.
Definition defaultSleep : Z := 1 * Second.

(** ** The store the worker needs *)

(** What a worker can observe of a job: status, assigned worker, attempts. *)
Definition job_view : Type := string * string * Z.

(** [JobStore], the slice of [store.Store] the worker uses, and what it relies
    on: a call that returns nil found the job and recorded its transition. *)
Class JobStore (W : Type) : Type := {
  js_MarkScheduled : string → string → stM W (result err unit);
  js_MarkRunning : string → stM W (result err unit);
  js_MarkFinished : string → bool → string → stM W (result err unit);
  js_view : W → string → option job_view;
  js_scheduled : ∀ id inst w w', js_MarkScheduled id inst w = (Ok tt, w') →
    ∃ st wk n, js_view w id = Some (st, wk, n) ∧ js_view w' id = Some (StatusScheduled, inst, n);
  js_running : ∀ id w w', js_MarkRunning id w = (Ok tt, w') →
    ∃ st wk n, js_view w id = Some (st, wk, n) ∧ js_view w' id = Some (StatusRunning, wk, n + 1);
  js_finished : ∀ id ok msg w w', js_MarkFinished id ok msg w = (Ok tt, w') →
    ∃ st wk n, js_view w id = Some (st, wk, n) ∧
      js_view w' id = Some (if ok then StatusSucceeded else StatusFailed, wk, n);
}.

#[export] Hint Mode JobStore ! : typeclass_instances.

(** ** Data *)

Record payload : Type := mkPayload { DurationMS : Z; Fail : bool }.

Definition zero_payload : payload := mkPayload 0 false.

Definition f_duration_ms : bytes * decoder payload :=
  field "duration_ms" DurationMS (λ x p, mkPayload x (Fail p)) dec_int.
Definition f_fail : bytes * decoder payload := field "fail" Fail (λ x p, mkPayload (DurationMS p) x) dec_bool.
Definition payload_fields : fields payload := [f_duration_ms; f_fail].

(** [Server]: the instance, the cap and the [atomic.Int32] count (both int32),
    and the WaitGroup's counter. *)
Record Server : Type := mkServer {
  instance : string;
  capacity : Z;
  inflightN : Z;
  inflight : Z;
}.

Definition New (inst : string) (cap : Z) : Server :=
  let cap := if cap <? 1 then 1 else cap in
  mkServer inst (i32 cap) 0 0.

Definition Inflight (s : Server) : Z := inflightN s.
Definition Capacity (s : Server) : Z := capacity s.

Definition add_inflightN (delta : Z) (s : Server) : Server :=
  mkServer (instance s) (capacity s) (i32 (inflightN s + delta)) (inflight s).
Definition add_inflight (delta : Z) (s : Server) : Server :=
  mkServer (instance s) (capacity s) (inflightN s) (inflight s + delta).

Section worker.
Context {W : Type} {JS : JobStore W}.

(** The reporter, possibly nil. *)
Context (reporter : option (string → string → bool → stM W unit)).
Context {JE : JsonEnv}.

(** ** Executing a job *)

(** The duration [execute] sleeps for a payload: [time.Duration(DurationMS) *
    time.Millisecond] is a product of int64. *)
Definition sleep_of (p : payload) : Z :=
  let sleep := if 0 <? DurationMS p then i64 (DurationMS p * Millisecond) else defaultSleep in
  if maxSleep <? sleep then maxSleep else sleep.

(** [execute]: the sleep it took, none when the payload is rejected, and its
    error. *)
Definition execute (rawPayload : string) : option Z * option err :=
  match (if Nat.eqb (String.length rawPayload) 0 then Ok zero_payload else Unmarshal (decode_struct payload_fields) zero_payload rawPayload) with
  | Err e => (None, Some (EWrap "invalid payload: " e))
  | Ok p =>
      if DurationMS p <? 0 then (None, Some (EText "invalid payload: duration_ms must be >= 0"))
      else (Some (sleep_of p), if Fail p then Some (EText "job requested failure") else None)
  end.

Definition finish_args (execErr : option err) : bool * string :=
  match execErr with
  | Some e => (false, err_string e)
  | None => (true, EmptyString)
  end.

Definition report (inst jobID : string) (succeeded : bool) : stM W unit :=
  match reporter with
  | Some f => f jobID inst succeeded
  | None => st_ret tt
  end.

(** [run], less the two deferred counter updates. *)
Definition run (inst jobID rawPayload : string) : stM W unit :=
  st_bind (js_MarkRunning jobID) (λ r,
  match r with
  | Err _ => st_ret tt
  | Ok _ =>
      let '(succeeded, errMsg) := finish_args (execute rawPayload).2 in
      st_bind (js_MarkFinished jobID succeeded errMsg) (λ r2,
      match r2 with
      | Err _ => st_ret tt
      | Ok _ => report inst jobID succeeded
      end)
  end).

(** ** Accepting a job, uninterrupted *)

Definition at_capacity (s : Server) (cur : Z) : err :=
  EStatus ResourceExhausted ("worker " +:+ instance s +:+ " at capacity (" +:+ fmt_d cur +:+ "/" +:+
    fmt_d (capacity s) +:+ ")").

Definition accept_error (jobID : string) (e : err) : err :=
  if is_not_found e then EStatus NotFound ("job " +:+ jobID +:+ " not found")
  else EStatus Internal ("record acceptance: " +:+ err_string e).

Definition missing_job_id : err := EStatus InvalidArgument "job_id is required".

(** The call as one goroutine runs it alone; the last component is the [run]
    goroutine it starts, if any. *)
Definition ExecuteJob (s : Server) (req : ExecuteJobRequest) :
    stM W (result err ExecuteJobResponse * Server * option (string * string)) :=
  if String.eqb (ejr_JobId req) EmptyString then st_ret (Err missing_job_id, s, None)
  else if capacity s <=? inflightN s then st_ret (Err (at_capacity s (inflightN s)), s, None)
  else
    let s1 := add_inflightN 1 s in
    st_bind (js_MarkScheduled (ejr_JobId req) (instance s)) (λ r,
    match r with
    | Err e => st_ret (Err (accept_error (ejr_JobId req) e), add_inflightN (-1) s1, None)
    | Ok _ => st_ret (Ok (mkExecuteJobResponse (instance s)), add_inflight 1 s1,
                      Some (ejr_JobId req, ejr_Payload req))
    end).

(** ** Goroutines *)

Inductive thread : Type :=
| XEnter (req : ExecuteJobRequest)            (* at the top of ExecuteJob *)
| XLoad (req : ExecuteJobRequest)             (* about to load inflightN *)
| XCas (req : ExecuteJobRequest) (cur : Z)    (* about to compare-and-swap *)
| XMark (req : ExecuteJobRequest)             (* slot reserved; MarkScheduled *)
| XGiveBack (req : ExecuteJobRequest) (e : err)  (* rejected; inflightN.Add(-1) *)
| XWait (req : ExecuteJobRequest)             (* inflight.Add(1) *)
| XGo (req : ExecuteJobRequest)               (* go s.run(...) *)
| XReply (r : result err ExecuteJobResponse)
| RStart (jobID raw : string)                 (* MarkRunning *)
| RExec (jobID raw : string)                  (* execute *)
| RFinish (jobID : string) (succeeded : bool) (errMsg : string)
| RReport (jobID : string) (succeeded : bool)
| RRelease                                    (* deferred inflightN.Add(-1) *)
| RDone                                       (* deferred inflight.Done() *)
| REnd.

(** The next atomic action of a goroutine: the server, its new point and the
    goroutine it starts. [XReply] and [REnd] are final. *)
Definition thread_step (s : Server) (t : thread) : stM W (option (Server * thread * option thread)) :=
  match t with
  | XEnter req =>
      st_ret (Some (s, if String.eqb (ejr_JobId req) EmptyString then XReply (Err missing_job_id)
                       else XLoad req, None))
  | XLoad req =>
      let cur := inflightN s in
      st_ret (Some (s, if capacity s <=? cur then XReply (Err (at_capacity s cur)) else XCas req cur, None))
  | XCas req cur =>
      if inflightN s =? cur
      then st_ret (Some (mkServer (instance s) (capacity s) (i32 (cur + 1)) (inflight s), XMark req, None))
      else st_ret (Some (s, XLoad req, None))
  | XMark req =>
      st_bind (js_MarkScheduled (ejr_JobId req) (instance s)) (λ r,
      st_ret (Some (s, match r with Ok _ => XWait req | Err e => XGiveBack req e end, None)))
  | XGiveBack req e =>
      st_ret (Some (add_inflightN (-1) s, XReply (Err (accept_error (ejr_JobId req) e)), None))
  | XWait req => st_ret (Some (add_inflight 1 s, XGo req, None))
  | XGo req =>
      st_ret (Some (s, XReply (Ok (mkExecuteJobResponse (instance s))),
                    Some (RStart (ejr_JobId req) (ejr_Payload req))))
  | RStart jobID raw =>
      st_bind (js_MarkRunning jobID) (λ r,
      st_ret (Some (s, match r with Ok _ => RExec jobID raw | Err _ => RRelease end, None)))
  | RExec jobID raw =>
      let '(succeeded, errMsg) := finish_args (execute raw).2 in
      st_ret (Some (s, RFinish jobID succeeded errMsg, None))
  | RFinish jobID succeeded errMsg =>
      st_bind (js_MarkFinished jobID succeeded errMsg) (λ r,
      st_ret (Some (s, match r with Ok _ => RReport jobID succeeded | Err _ => RRelease end, None)))
  | RReport jobID succeeded =>
      st_bind (report (instance s) jobID succeeded) (λ _, st_ret (Some (s, RRelease, None)))
  | RRelease => st_ret (Some (add_inflightN (-1) s, RDone, None))
  | RDone => st_ret (Some (add_inflight (-1) s, REnd, None))
  | XReply _ | REnd => st_ret None
  end.

(** ** Any interleaving *)

Record wstate : Type := mkWState { srv : Server; wld : W; threads : list thread }.

Inductive wstep : wstate → wstate → Prop :=
| W_thread i t w' s' t' spawned st :
    threads st !! i = Some t →
    thread_step (srv st) t (wld st) = (Some (s', t', spawned), w') →
    wstep st (mkWState s' w' (<[i := t']> (threads st) ++ option_list spawned))
| W_call req st :   (* an ExecuteJob request arrives *)
    wstep st (mkWState (srv st) (wld st) (threads st ++ [XEnter req]))
| W_world w' st :   (* the rest of the system moves *)
    wstep st (mkWState (srv st) w' (threads st)).

Definition winit (inst : string) (cap : Z) (w : W) : wstate := mkWState (New inst cap) w [].

Definition wreach (inst : string) (cap : Z) (w : W) : wstate → Prop := rtc wstep (winit inst cap w).

(** A goroutine that owns a slot; one the WaitGroup waits for; one executing a
    job. *)
Definition holds_slot (t : thread) : bool :=
  match t with
  | XMark _ | XGiveBack _ _ | XWait _ | XGo _ | RStart _ _ | RExec _ _ | RFinish _ _ _ | RReport _ _
  | RRelease => true
  | _ => false
  end.

Definition waited_for (t : thread) : bool :=
  match t with
  | XGo _ | RStart _ _ | RExec _ _ | RFinish _ _ _ | RReport _ _ | RRelease | RDone => true
  | _ => false
  end.

Definition executing (t : thread) : bool :=
  match t with
  | RStart _ _ | RExec _ _ | RFinish _ _ _ | RReport _ _ => true
  | _ => false
  end.

Definition count (f : thread → bool) (ts : list thread) : Z :=
  foldr (λ t n, (if f t then 1 else 0) + n) 0 ts.

(** [Drain]'s goroutine closes [done] when the WaitGroup reaches zero. *)
Definition drained (s : Server) : bool := inflight s =? 0.

End worker.

(** ** Lemmas: counting goroutines *)

Section count_lemmas.
Context (f : thread → bool).

Lemma count_app ts ts' : count f (ts ++ ts') = count f ts + count f ts'.
Proof. induction ts as [|t ts IH]; simpl; [done|]. rw IH. lia. Qed.

Lemma count_insert ts i t t' :
  ts !! i = Some t →
  count f (<[i := t']> ts) = count f ts - (if f t then 1 else 0) + (if f t' then 1 else 0).
Proof.
  revert i. induction ts as [|t0 ts IH]; intros [|i] H; simplify_eq/=; [lia|]. rw IH; [lia|done].
Qed.

Lemma count_nonneg ts : 0 ≤ count f ts.
Proof. induction ts as [|t ts IH]; simpl; [lia|]. case_match; lia. Qed.

Lemma count_zero ts : count f ts = 0 → Forall (λ t, f t = false) ts.
Proof.
  induction ts as [|t ts IH]; simpl; [constructor|]. pose proof (count_nonneg ts).
  destruct (f t) eqn:E; intros; [lia|]. constructor; [done|]. apply IH. lia.
Qed.
End count_lemmas.

Lemma count_le (f g : thread → bool) ts :
  (∀ t, f t = true → g t = true) → count f ts ≤ count g ts.
Proof.
  intros H. induction ts as [|t ts IH]; simpl; [done|].
  specialize (H t). destruct (f t), (g t); try lia; by specialize (H eq_refl).
Qed.

Section worker_lemmas.
Context {W : Type} {JS : JobStore W}.
Context (reporter : option (string → string → bool → stM W unit)).
Context {JE : JsonEnv}.

Abbreviation tstep := (thread_step reporter).
Abbreviation step := (wstep reporter).

(** The counters are the numbers of goroutines they stand for. *)
Definition counters_ok (cap : Z) (st : wstate (W := W)) : Prop :=
  capacity (srv st) = cap ∧
  inflightN (srv st) = count holds_slot (threads st) ∧
  inflight (srv st) = count waited_for (threads st) ∧
  0 ≤ inflightN (srv st) ≤ cap ∧
  Forall (λ t, match t with XCas _ cur => cur < cap | _ => True end) (threads st).

(** What one action does to the counters, relative to the goroutine's own
    claims on them. *)
Definition bit (b : bool) : Z := if b then 1 else 0.

Lemma i32_small x : 0 ≤ x < 2 ^ 31 → i32 x = x.
Proof. intros. apply wrap_s_small; lia. Qed.

Lemma thread_step_counters cap s t w s' t' sp w' :
  cap < 2 ^ 31 → capacity s = cap → 0 ≤ inflightN s ≤ cap →
  bit (holds_slot t) ≤ inflightN s →
  match t with XCas _ cur => cur < cap | _ => True end →
  tstep s t w = (Some (s', t', sp), w') →
  capacity s' = cap ∧
  inflightN s' = inflightN s - bit (holds_slot t) + bit (holds_slot t') +
    count holds_slot (option_list sp) ∧
  inflight s' = inflight s - bit (waited_for t) + bit (waited_for t') +
    count waited_for (option_list sp) ∧
  0 ≤ inflightN s' ≤ cap ∧
  Forall (λ t, match t with XCas _ cur => cur < cap | _ => True end) (t' :: option_list sp).
Proof.
  intros Hcap Hc Hn Hh Hcas H.
  destruct t; simpl in H; unfold st_ret, st_bind in H;
    repeat case_match; simplify_eq; unfold add_inflightN, add_inflight; cbn in *;
    reflect_bools; rw ?i32_small; repeat split; try lia; repeat constructor; try lia.
Qed.

Lemma counters_ok_step cap st st' :
  cap < 2 ^ 31 → step st st' → counters_ok cap st → counters_ok cap st'.
Proof.
  intros Hcap Hstep (Hc & Hn & Hi & Hr & Hcas).
  destruct Hstep as [i t w' s' t' sp st Ht Hst|req st|w' st]; simpl in *.
  - pose proof (proj1 (Forall_lookup _ _) Hcas i t Ht) as Hcas_t.
    assert (bit (holds_slot t) ≤ inflightN (srv st)) as Hh.
    { rw Hn. rw -(take_drop_middle _ _ _ Ht) count_app. simpl.
      pose proof (count_nonneg holds_slot (take i (threads st))).
      pose proof (count_nonneg holds_slot (drop (S i) (threads st))). unfold bit. lia. }
    destruct (thread_step_counters cap _ _ _ _ _ _ _ Hcap Hc Hr Hh Hcas_t Hst)
      as (Hc' & Hn' & Hi' & Hr' & Hcas').
    split; [done|]. split; [|split; [|split; [done|]]].
    + simpl. rw count_app (count_insert holds_slot _ _ _ t' Ht) Hn' Hn. unfold bit. lia.
    + simpl. rw count_app (count_insert waited_for _ _ _ t' Ht) Hi' Hi. unfold bit. lia.
    + simpl. inversion_clear Hcas'. apply Forall_app. split; [|done]. by apply Forall_insert.
  - split; [done|]. split; [|split; [|split; [done|]]]; simpl.
    + rw count_app /=. lia.
    + rw count_app /=. lia.
    + apply Forall_app. split; [done|]. by repeat constructor.
  - done.
Qed.

Lemma counters_ok_reach inst cap w st :
  1 ≤ cap < 2 ^ 31 → wreach reporter inst cap w st → counters_ok cap st.
Proof.
  intros Hcap Hr.
  assert (counters_ok cap (winit inst cap w)) as H0.
  { unfold counters_ok, winit, New. replace (cap <? 1) with false by lia. simpl.
    rw i32_small; [|lia]. repeat split; try lia. constructor. }
  unfold wreach in Hr. revert H0. generalize dependent (winit inst cap w).
  induction 1 as [|x y z Hxy Hyz IH]; [done|]. intros Hx. apply IH.
  eapply counters_ok_step; [lia|done|done].
Qed.
End worker_lemmas.

(** ** The Postgres store as the worker's store *)

Definition store_view {UU : PgUuid} (w : world) (id : string) : option job_view :=
  match pg_uuid id with
  | Some u => (λ r, (j_status r, coalesce (j_worker r), j_attempts r)) <$> jobs (db w) !! u
  | None => None
  end.

Lemma exec_update_job_view {UU : PgUuid} (E : env) id f w w' :
  exec E (λ now, update_job id (f now)) w = (Ok tt, w') →
  ∃ u r r', pg_uuid id = Some u ∧ jobs (db w) !! u = Some r ∧ f (env_now E (tick w)) r = Ok r' ∧
    jobs (db w') !! u = Some r'.
Proof.
  intros (rows & d' & Hs & Hrows & Hd)%exec_ok.
  apply update_job_ok in Hs as [[-> _]|(u & r & r' & Hu & Hr & Hf & _ & ->)]; [done|].
  exists u, r, r'. rw Hd /=. by rw lookup_insert_eq.
Qed.

#[export] Instance pg_job_store {UU : PgUuid} (E : env) : JobStore world.
Proof.
  refine {| js_MarkScheduled := MarkScheduled E; js_MarkRunning := MarkRunning E;
            js_MarkFinished := MarkFinished E; js_view := store_view |}.
  - intros id inst w w' (u & r & r' & Hu & Hr & [= <-] & Hr')%exec_update_job_view.
    unfold store_view. rw Hu Hr Hr' /=. eauto 10.
  - intros id w w' (u & r & r' & Hu & Hr & Hf & Hr')%exec_update_job_view.
    destruct (incr_int4 (j_attempts r)) as [n|e] eqn:Hi; [|done]. injection Hf as <-.
    apply incr_int4_ok in Hi as [-> _]. unfold store_view. rw Hu Hr Hr' /=. eauto 10.
  - intros id ok msg w w' (u & r & r' & Hu & Hr & [= <-] & Hr')%exec_update_job_view.
    unfold store_view. rw Hu Hr Hr' /=. destruct ok; eauto 10.
Defined.

(** ** Lemmas: uninterrupted calls *)

Section seq_lemmas.
Context {W : Type} {JS : JobStore W}.
Context (reporter : option (string → string → bool → stM W unit)).
Context {JE : JsonEnv}.

Abbreviation step := (wstep reporter).

(** One action of the last goroutine. *)
Lemma last_step s t w s' t' sp w' ts :
  thread_step reporter s t w = (Some (s', t', sp), w') →
  step (mkWState s w (ts ++ [t])) (mkWState s' w' (ts ++ [t'] ++ option_list sp)).
Proof.
  intros H. pose proof (W_thread reporter (length ts) t w' s' t' sp (mkWState s w (ts ++ [t]))) as St.
  simpl in St. rw lookup_app_r in St; [|done]. rw Nat.sub_diag in St.
  rw insert_app_r_alt in St; [|done]. rw Nat.sub_diag in St. simpl in St.
  rw app_assoc. by apply St.
Qed.

(** A [run] goroutine left alone does what [run] does, then gives back its slot
    and leaves the WaitGroup. *)
Lemma run_steps s id raw w ts :
  rtc step (mkWState s w (ts ++ [RStart id raw]))
    (mkWState (add_inflight (-1) (add_inflightN (-1) s)) (run reporter (instance s) id raw w).2
       (ts ++ [REnd])).
Proof.
  assert (∀ w, rtc step (mkWState s w (ts ++ [RRelease]))
    (mkWState (add_inflight (-1) (add_inflightN (-1) s)) w (ts ++ [REnd]))) as Hrel.
  { intros w0. eapply rtc_l; [by eapply last_step|]. simpl. eapply rtc_l; [by eapply last_step|]. done. }
  unfold run, st_bind. destruct (js_MarkRunning id w) as [[[]|e] w1] eqn:H1.
  - eapply rtc_l; [eapply last_step; simpl; unfold st_bind; by rw H1|]. simpl.
    destruct (finish_args (execute raw).2) as [ok msg] eqn:Hf.
    eapply rtc_l; [eapply last_step; simpl; by rw Hf|]. simpl.
    destruct (js_MarkFinished id ok msg w1) as [[[]|e] w2] eqn:H2.
    + eapply rtc_l; [eapply last_step; simpl; unfold st_bind; by rw H2|]. simpl.
      destruct (report reporter (instance s) id ok w2) as [[] w3] eqn:H3.
      eapply rtc_l; [eapply last_step; simpl; unfold st_bind; by rw H3|]. simpl. apply Hrel.
    + eapply rtc_l; [eapply last_step; simpl; unfold st_bind; by rw H2|]. simpl. apply Hrel.
  - eapply rtc_l; [eapply last_step; simpl; unfold st_bind; by rw H1|]. simpl. apply Hrel.
Qed.
End seq_lemmas.

(** Reserving a slot and giving it back leaves the counters as they were. *)
Lemma slot_roundtrip s :
  0 ≤ inflightN s < 2 ^ 31 - 1 →
  add_inflight (-1) (add_inflightN (-1) (add_inflight 1 (add_inflightN 1 s))) = s.
Proof.
  intros Hn. destruct s as [i c n k]. unfold add_inflight, add_inflightN. simpl in *.
  rw (i32_small (n + 1)); [|lia]. rw i32_small; [|lia]. f_equal; lia.
Qed.

(** ** Properties *)


Definition demo_req : ExecuteJobRequest := mkExecuteJobRequest "j1" "demo" EmptyString.

#[local] Instance demo_store : JobStore world := pg_job_store (UU := any_uuid) demo_env.


(** An acceptance that nothing interrupts behaves like the sequential code of
    ExecuteJob: the goroutine reaches its reply with the answer, the counters
    and the store that ExecuteJob computes, and starts the job exactly when it
    answers with success; the started job then runs as [run] and leaves the
    counters as they were before it was accepted. *)
Theorem accept_and_run {W : Type} {JS : JobStore W}
    (reporter : option (string → string → bool → stM W unit))
    {JE : JsonEnv} (s : Server) (req : ExecuteJobRequest) (w : W)
    (ts : list thread) :
  0 ≤ inflightN s < 2 ^ 31 - 1 →
  let '(r, s1, started, w1) := ExecuteJob s req w in
  rtc (wstep reporter) (mkWState s w (ts ++ [XEnter req]))
    (mkWState s1 w1 (ts ++ [XReply r] ++ option_list ((λ j, RStart j.1 j.2) <$> started))) ∧
  (is_ok r = true ↔ is_Some started) ∧
  (∀ id raw, started = Some (id, raw) →
     rtc (wstep reporter) (mkWState s1 w1 (ts ++ [XReply r; RStart id raw]))
       (mkWState s (run reporter (instance s) id raw w1).2 (ts ++ [XReply r; REnd]))).
Proof.
  intros Hn. unfold ExecuteJob.
  destruct (String.eqb (ejr_JobId req) EmptyString) eqn:Eid.
  { simpl. split; [|split; [split; [done|by intros []]|done]].
    eapply rtc_l; [eapply last_step; simpl; by rw Eid|]. done. }
  assert (step1 : ∀ ts, rtc (wstep reporter) (mkWState s w (ts ++ [XEnter req]))
    (mkWState s w (ts ++ [XLoad req]))).
  { intros ts'. eapply rtc_l; [eapply last_step; simpl; by rw Eid|]. done. }
  destruct (capacity s <=? inflightN s) eqn:Ec.
  { simpl. split; [|split; [split; [done|by intros []]|done]]. etrans; [apply step1|].
    eapply rtc_l; [eapply last_step; simpl; by rw Ec|]. done. }
  assert (step2 : ∀ ts, rtc (wstep reporter) (mkWState s w (ts ++ [XEnter req]))
    (mkWState (add_inflightN 1 s) w (ts ++ [XMark req]))).
  { intros ts'. etrans; [apply step1|]. eapply rtc_l; [eapply last_step; simpl; by rw Ec|]. simpl.
    eapply rtc_l; [eapply last_step; simpl; by rw Z.eqb_refl|]. done. }
  unfold st_bind. destruct (js_MarkScheduled (ejr_JobId req) (instance s) w) as [[[]|e] w1] eqn:Hm.
  - simpl. split; [|split; [split; [by eexists|done]|]].
    + etrans; [apply step2|].
      eapply rtc_l; [eapply last_step; simpl; unfold st_bind; by rw Hm|]. simpl.
      eapply rtc_l; [by eapply last_step|]. simpl. eapply rtc_l; [by eapply last_step|]. done.
    + intros id raw [= <- <-].
      pose proof (run_steps reporter (add_inflight 1 (add_inflightN 1 s)) (ejr_JobId req)
        (ejr_Payload req) w1 (ts ++ [XReply (Ok (mkExecuteJobResponse (instance s)))])) as Hrun.
      rw -!app_assoc in Hrun. by rw slot_roundtrip in Hrun.
  - simpl. split; [|split; [split; [done|by intros []]|done]]. etrans; [apply step2|].
    eapply rtc_l; [eapply last_step; simpl; unfold st_bind; by rw Hm|]. simpl.
    eapply rtc_l; [by eapply last_step|]. done.
Qed.

Lemma accept_and_run_witness :
  (ExecuteJob (JS := demo_store) (New "worker-1" 2) demo_req reclaim_world).1.1.1 =
    Ok (mkExecuteJobResponse "worker-1") ∧
  rtc (wstep (JS := demo_store) (JE := demo_json_env) None)
    (mkWState (New "worker-1" 2) reclaim_world ([] ++ [XEnter demo_req]))
    (mkWState (mkServer "worker-1" 2 1 1) (MarkScheduled (UU := any_uuid) demo_env "j1" "worker-1" reclaim_world).2
      [XReply (Ok (mkExecuteJobResponse "worker-1")); RStart "j1" EmptyString]).
Proof.
  split; [by vm_compute|].
  exact (proj1 (accept_and_run (JS := demo_store) (JE := demo_json_env) None (New "worker-1" 2) demo_req
    reclaim_world [] ltac:(split; [by vm_compute|by vm_compute]))).
Defined.

(** The payload text a client writes for a duration and a verdict. *)
Definition payload_text (ms : Z) (fail : bool) : string :=
  text_of (JObject [jmember "duration_ms" (jint ms); jmember "fail" (JBool fail)]).

Lemma execute_text {JE : JsonEnv} ms fail :
  0 ≤ ms ≤ max_i64 →
  execute (payload_text ms fail) =
    (Some (sleep_of (mkPayload ms fail)), if fail then Some (EText "job requested failure") else None).
Proof.
  intros Hms. unfold execute.
  assert (Nat.eqb (String.length (payload_text ms fail)) 0 = false) as -> by done.
  assert (Unmarshal (decode_struct payload_fields) zero_payload (payload_text ms fail) = Ok (mkPayload ms fail)) as ->.
  { apply Unmarshal_text.
    - destruct max_depth as [d ->]. apply jobject_ok. rw !Forall_cons.
      split_and!; [apply jmember_ok; [done|]..|apply Forall_nil_2]; [|done]. unfold jint.
      replace (ms <? 0) with false by lia. apply juint_ok. unfold max_i64 in Hms. lia.
    - cbn [decode_struct]. rw (decode_field _ _ _ _ _ f_duration_ms.2) //. cbn [f_duration_ms field snd].
      rw dec_int_jint; [|unfold min_i64; lia].
      by rw (decode_field _ _ _ _ _ f_fail.2) //. }
  cbn [DurationMS Fail]. by replace (ms <? 0) with false by lia.
Qed.

(** What an execution records. If the two store calls of [run] succeed, a job
    whose payload is the JSON text for a duration and a verdict, or whose payload
    is empty, ends in the terminal status it asks for; one whose payload is
    rejected ends as failed with the decoder's complaint. Its attempt count is one
    higher and its worker unchanged. *)
Theorem run_records_outcome {W : Type} {JS : JobStore W} {JE : JsonEnv}
    (inst id raw st wk : string) (n : Z) (w w1 : W) (answer : bool → string → W) :
  js_view w id = Some (st, wk, n) → js_MarkRunning id w = (Ok tt, w1) →
  (∀ ok msg, js_MarkFinished id ok msg w1 = (Ok tt, answer ok msg)) →
  let final raw := js_view (run None inst id raw w).2 id in
  (∀ ms fail, 0 ≤ ms ≤ max_i64 →
     final (payload_text ms fail) = Some (if fail then StatusFailed else StatusSucceeded, wk, n + 1)) ∧
  final EmptyString = Some (StatusSucceeded, wk, n + 1) ∧
  (raw ≠ EmptyString → parse (String.list_ascii_of_string raw) = None →
     final raw = Some (StatusFailed, wk, n + 1) ∧
     (run None inst id raw w).2 = answer false ("invalid payload: " +:+ err_string (json_error raw false))).
Proof.
  intros Hv H1 Hfin. cbv zeta.
  assert (∀ raw, let '(ok, msg) := finish_args (execute raw).2 in
    (run None inst id raw w).2 = answer ok msg ∧
    js_view (answer ok msg) id = Some (if ok then StatusSucceeded else StatusFailed, wk, n + 1)) as Hrun.
  { intros raw'. destruct (finish_args (execute raw').2) as [ok msg] eqn:Hf. pose proof (Hfin ok msg) as H2.
    unfold run, st_bind. rw H1 Hf H2. split; [done|].
    apply js_running in H1 as (st0 & wk0 & n0 & Hv0 & Hv1). simplify_eq.
    apply js_finished in H2 as (st1 & wk1 & n1 & Hv1' & Hv2). by simplify_eq. }
  split; [|split].
  - intros ms fail Hms. specialize (Hrun (payload_text ms fail)). rw execute_text // in Hrun.
    destruct fail; cbn [snd finish_args] in Hrun; destruct Hrun as [-> ?]; done.
  - by destruct (Hrun EmptyString) as [-> ?].
  - intros Hne Hp. specialize (Hrun raw). unfold execute, Unmarshal in Hrun. rw Hp in Hrun.
    destruct raw as [|c raw]; [done|]. cbn in Hrun. destruct Hrun as [-> ?]. done.
Qed.

Lemma run_records_outcome_witness :
  js_view (JobStore := demo_store)
    (run (JS := demo_store) (JE := demo_json_env) None "worker-1" "j1" (payload_text 5 true) reclaim_world).2 "j1"
  = Some (StatusFailed, "worker-1", 1).
Proof.
  destruct (run_records_outcome (JS := demo_store) (JE := demo_json_env) "worker-1" "j1" "x"
    StatusScheduled "worker-1" 0 reclaim_world (MarkRunning (UU := any_uuid) demo_env "j1" reclaim_world).2
    (λ ok msg, (MarkFinished (UU := any_uuid) demo_env "j1" ok msg
      (MarkRunning (UU := any_uuid) demo_env "j1" reclaim_world).2).2)) as [H _];
    [by vm_compute|by vm_compute|intros [] msg; by vm_compute|].
  apply (H 5 true). split; by vm_compute.
Defined.

(** The largest [duration_ms] whose product with a millisecond fits int64. *)
Definition max_duration_ms : Z := 9223372036854.

(** C33: the sleep of an execution. Up to 9,223,372,036,854 ms the sleep is the
    requested one, one second when none is requested, and never more than
    [maxSleep]; the next value up already overflows to a negative sleep, which
    returns at once; no request at all sleeps longer than the cap. *)
Theorem sleep_of_payload (p : payload) :
  0 ≤ DurationMS p →
  (DurationMS p ≤ max_duration_ms →
     sleep_of p = Z.min maxSleep (if DurationMS p =? 0 then defaultSleep else DurationMS p * Millisecond)) ∧
  (DurationMS p = max_duration_ms + 1 → sleep_of p < 0) ∧
  sleep_of p ≤ maxSleep.
Proof.
  intros Hp. unfold sleep_of. split; [|split].
  - intros Hle. unfold max_duration_ms in Hle. destruct (Z.ltb_spec 0 (DurationMS p)) as [H|H].
    + rw (wrap_s_small 64); [|lia|unfold Millisecond; lia].
      replace (DurationMS p =? 0) with false by lia.
      destruct (Z.ltb_spec maxSleep (DurationMS p * Millisecond)); lia.
    + by replace (DurationMS p =? 0) with true by lia.
  - intros ->. by vm_compute.
  - destruct (Z.ltb_spec maxSleep (if 0 <? DurationMS p then i64 (DurationMS p * Millisecond) else defaultSleep)); lia.
Qed.

Lemma sleep_of_payload_witness : sleep_of (mkPayload 9223372036855 false) < 0.
Proof.
  apply (sleep_of_payload (mkPayload 9223372036855 false)); [|done].
  apply Z.leb_le; reflexivity.
Defined.
