(* ===== verification/Relay.v ===== *)
(** * internal/outbox: the leader's dispatch relay

    [handle] decides what to do with one claimed command, [drain] processes one
    batch, [run_select] is one turn of the loop of [Run]. The store, the
    dispatcher, leadership and the placement log are the interfaces of the Go
    package; [pg_relay_store] is the store over Postgres. *)

From S2P Require Import Prelude GoRuntime Store.
Local Open Scope Z_scope.

Definition drainBatch : Z := 50.
Definition maxDispatchAttempts : Z := 30.
Definition maxExecutionAttempts : Z := 3.

(** ** The interfaces of the package *)

Record RelayStore (W : Type) : Type := mkRelayStore {
  rs_ClaimOutbox : Z → stM W (result err (list OutboxEntry));
  rs_MarkOutboxDispatched : string → stM W (result err unit);
  rs_RecordOutboxFailure : string → string → stM W (result err unit);
  rs_MarkOutboxFailed : string → string → stM W (result err unit);
  rs_MarkFinished : string → bool → string → stM W (result err unit);
}.
Arguments rs_ClaimOutbox {W} _ _.
Arguments rs_MarkOutboxDispatched {W} _ _.
Arguments rs_RecordOutboxFailure {W} _ _ _.
Arguments rs_MarkOutboxFailed {W} _ _ _.
Arguments rs_MarkFinished {W} _ _ _ _.

Definition pg_relay_store {UU : PgUuid} (E : env) (rg : Ranger outbox_row) : RelayStore world :=
  {| rs_ClaimOutbox := ClaimOutbox E rg;
     rs_MarkOutboxDispatched := MarkOutboxDispatched E;
     rs_RecordOutboxFailure := RecordOutboxFailure E;
     rs_MarkOutboxFailed := MarkOutboxFailed E;
     rs_MarkFinished := MarkFinished E |}.

Section relay.
Context {W : Type} (store : RelayStore W).
Context (Dispatch : Job → stM W (result err string)).
Context (IsLeader : W → bool).
Context (ApplyPlacement : string → string → stM W (result err unit)).

Local Open Scope go_scope.

(** [abandon]: both updates are tried, whatever the first returns. *)
Definition abandon (e : OutboxEntry) (reason : string) : stM W unit :=
  rs_MarkOutboxFailed store (e_ID e) reason ;;;
  rs_MarkFinished store (ID (e_Job e)) false reason ;;;
  st_ret tt.

Definition execution_reason (e : OutboxEntry) : string :=
  "gave up after " +:+ fmt_d (Attempts (e_Job e)) +:+ " execution attempts".
Definition dispatch_reason (e : OutboxEntry) : string :=
  "undispatchable after " +:+ fmt_d (e_Attempts e) +:+ " attempts".

Definition handle (e : OutboxEntry) : stM W unit :=
  if negb (String.eqb (Status (e_Job e)) StatusPending) then
    rs_MarkOutboxDispatched store (e_ID e) ;;; st_ret tt
  else if maxExecutionAttempts <=? Attempts (e_Job e) then abandon e (execution_reason e)
  else if maxDispatchAttempts <=? e_Attempts e then abandon e (dispatch_reason e)
  else
    let! r := Dispatch (e_Job e) in
    match r with
    | Err er => rs_RecordOutboxFailure store (e_ID e) (err_string er) ;;; st_ret tt
    | Ok worker =>
        rs_MarkOutboxDispatched store (e_ID e) ;;;
        ApplyPlacement (ID (e_Job e)) worker ;;;
        st_ret tt
    end.

Definition drain : stM W unit :=
  let! r := rs_ClaimOutbox store drainBatch in
  match r with
  | Err _ => st_ret tt
  | Ok entries => st_iter handle entries
  end.

(** ** The loop *)

(** The buffered channel of capacity one: a [Wake] that finds it full is
    dropped, the pending one covers it. *)
Definition Wake (wake : bool) : bool := true.

(** What the [select] of one turn received. *)
Inductive event : Type := CtxDone | Ticked | Woken.

(** One turn of [Run]: whether the loop goes on, and the channel afterwards.
    A [Woken] turn needs a token in the channel. *)
Definition run_select (ev : event) (wake : bool) : stM W (option (bool * bool)) :=
  match ev with
  | CtxDone => st_ret (Some (false, wake))
  | Woken =>
      if wake then λ w, (Some (true, false), if IsLeader w then (drain w).2 else w)
      else st_ret None
  | Ticked => λ w, (Some (true, wake), if IsLeader w then (drain w).2 else w)
  end.

(** [n] batches, one after the other. *)
Fixpoint drains (n : nat) : stM W unit :=
  match n with
  | O => st_ret tt
  | S n' => drain ;;; drains n'
  end.
End relay.

(** ** What is left to do *)

(** The offers a pending command still has, and one for its removal. *)
Definition cmd_debt (o : outbox_row) : Z :=
  if String.eqb (o_status o) OutboxPending
  then maxDispatchAttempts + 1 - Z.min maxDispatchAttempts (o_attempts o) else 0.

Definition debt (d : DB) : Z := map_fold (λ _ o n, cmd_debt o + n) 0 (outbox d).

Definition no_pending (d : DB) : Prop := map_Forall (λ _ o, o_status o ≠ OutboxPending) (outbox d).

(** The workers' side of a dispatch: it may change jobs, never the commands. *)
Definition leaves_outbox {A} (m : stM world A) : Prop :=
  ∀ w, outbox (db (m w).2) = outbox (db w) ∧ dom (jobs (db (m w).2)) = dom (jobs (db w)).

(** ** Lemmas: the batch that is claimed *)

Lemma sublist_join_ids d l : (λ p : Z * OutboxEntry, e_ID p.2) <$> omap (join_entry d) l `sublist_of` l.*1.
Proof.
  induction l as [|[k o] l IH]; simpl; [done|].
  destruct (join_entry d (k, o)) as [[t e]|] eqn:He; simpl.
  - assert (e_ID e = k) as ->; [|by constructor].
    unfold join_entry in He. by case_match; simplify_eq/=.
  - by constructor.
Qed.

Lemma claim_NoDup rg limit d : NoDup (e_ID <$> sql_claim_outbox rg limit d).
Proof.
  unfold sql_claim_outbox. rw -list_fmap_compose.
  eapply sublist_NoDup; [|apply fmap_sublist, sublist_take].
  rw go_sort_perm. eapply sublist_NoDup; [|apply sublist_join_ids].
  eapply sublist_NoDup; [|apply fmap_sublist, sublist_filter]. apply range_NoDup.
Qed.

(** A claimed entry is a pending command with its current attempts and its job
    as it stands. *)
Lemma claim_elem rg limit d e :
  e ∈ sql_claim_outbox rg limit d →
  ∃ o r, outbox d !! e_ID e = Some o ∧ o_status o = OutboxPending ∧ o_attempts o = e_Attempts e ∧
    jobs d !! o_job o = Some r ∧ e_Job e = scanJob (o_job o) r.
Proof.
  unfold sql_claim_outbox.
  intros ([t e'] & -> & Hin%elem_of_take_le)%list_elem_of_fmap. simpl.
  rw elem_of_go_sort in Hin. apply list_elem_of_omap in Hin as ([k o] & Hin & Hj).
  apply list_elem_of_filter in Hin as [Hp Hin%elem_of_range]. reflect_bools. simpl in *.
  unfold join_entry in Hj. simpl in Hj. destruct (jobs d !! o_job o) as [r|] eqn:Hr; simplify_eq/=.
  eauto 10.
Qed.

Lemma claim_nonempty rg limit d k o :
  0 < limit → outbox d !! k = Some o → o_status o = OutboxPending → is_Some (jobs d !! o_job o) →
  sql_claim_outbox rg limit d ≠ [].
Proof.
  intros Hl Ho Hp [r Hr]. unfold sql_claim_outbox.
  set (l := go_sort _ _).
  assert ((o_created o, mkOutboxEntry k (o_attempts o) (scanJob (o_job o) r)) ∈ l) as Hin.
  { unfold l. rw elem_of_go_sort. apply list_elem_of_omap. exists (k, o). split.
    - apply list_elem_of_filter. split; [|by apply elem_of_range]. simpl. by rw Hp.
    - unfold join_entry. simpl. by rw Hr. }
  destruct l as [|x l]; [set_solver|]. by replace (Z.to_nat limit) with (S (Z.to_nat (limit - 1))) by lia.
Qed.

(** ** Lemmas: the debt *)

Lemma debt_lookup j m k o :
  m !! k = Some o → debt (mkDB j m) = cmd_debt o + debt (mkDB j (delete k m)).
Proof.
  intros Ho. unfold debt. simpl. rw -{1}(insert_delete_id m k o Ho).
  rw map_fold_insert_L; [done|intros; lia|by apply lookup_delete_eq].
Qed.

Lemma debt_insert j j' m k o o' :
  m !! k = Some o → debt (mkDB j' (<[k := o']> m)) = debt (mkDB j m) - cmd_debt o + cmd_debt o'.
Proof.
  intros Ho. rw (debt_lookup j m k o Ho) (debt_lookup j' _ k o'); [|by apply lookup_insert_eq].
  rw delete_insert_eq. unfold debt. simpl. lia.
Qed.

Lemma cmd_debt_nonneg o : 0 ≤ cmd_debt o.
Proof. unfold cmd_debt, maxDispatchAttempts. case_match; lia. Qed.

Lemma debt_fold_nonneg (m : gmap string outbox_row) : 0 ≤ map_fold (λ _ o n, cmd_debt o + n) 0 m.
Proof.
  apply (map_fold_weak_ind (λ n _, 0 ≤ n)); [done|]. intros k o m' n _ Hn.
  pose proof (cmd_debt_nonneg o). lia.
Qed.

Lemma debt_pending d k o :
  outbox d !! k = Some o → o_status o = OutboxPending → 1 ≤ debt d.
Proof.
  destruct d as [j m]. simpl. intros Ho Hp. rw (debt_lookup j m k o Ho).
  pose proof (debt_fold_nonneg (delete k m)). unfold debt. simpl.
  unfold cmd_debt at 1, maxDispatchAttempts. rw Hp. simpl. lia.
Qed.

Lemma debt_bound d :
  (∀ k o, outbox d !! k = Some o → 0 ≤ o_attempts o) →
  debt d ≤ (maxDispatchAttempts + 1) * Z.of_nat (size (outbox d)).
Proof.
  unfold debt. generalize (outbox d). intros m.
  apply (map_fold_weak_ind (λ n m, (∀ k o, m !! k = Some o → 0 ≤ o_attempts o) →
    n ≤ (maxDispatchAttempts + 1) * Z.of_nat (size m))); [done|].
  intros k o m' n Hk Hn Hatt. rw map_size_insert_None; [|done].
  assert (cmd_debt o ≤ maxDispatchAttempts + 1).
  { pose proof (Hatt k o (lookup_insert_eq _ _ _)). unfold cmd_debt, maxDispatchAttempts. case_match; lia. }
  assert (n ≤ (maxDispatchAttempts + 1) * Z.of_nat (size m')); [|lia].
  apply Hn. intros k' o' Ho'. apply (Hatt k'). rw lookup_insert_ne; [done|congruence].
Qed.

(** ** Lemmas: handling a batch over Postgres, with nothing failing *)

Section settle.
Context {UU : PgUuid} (E : env) (rg : Ranger outbox_row).
Context (Dispatch : Job → stM world (result err string)).
Context (ApplyPlacement : string → string → stM world (result err unit)).
Hypothesis healthy : ∀ n, env_fault E n = NoFault.
Hypothesis dispatch_frame : ∀ j, leaves_outbox (Dispatch j).
Hypothesis placement_frame : ∀ id wk, leaves_outbox (ApplyPlacement id wk).

Abbreviation hnd := (handle (pg_relay_store E rg) Dispatch ApplyPlacement).
Abbreviation drn := (drain (pg_relay_store E rg) Dispatch ApplyPlacement).

(** The relay keeps the jobs' ids, so that every command keeps its job. *)
Definition cmds_ok (d : DB) : Prop :=
  map_Forall (λ k o, pg_uuid k = Some k ∧ 0 ≤ o_attempts o ∧ o_job o ∈ dom (jobs d)) (outbox d).

Lemma exec_healthy stmt w :
  db (exec E stmt w).2 =
    match stmt (env_now E (tick w)) (db w) with Ok (_, d') => d' | Err _ => db w end.
Proof using healthy. unfold exec. rw healthy. by destruct (stmt _ _) as [[rows d']|e]. Qed.

Lemma mark_finished_dom id ok msg w :
  outbox (db (MarkFinished E id ok msg w).2) = outbox (db w) ∧
  dom (jobs (db (MarkFinished E id ok msg w).2)) = dom (jobs (db w)).
Proof.
  unfold MarkFinished. apply (exec_inv E (λ d, outbox d = outbox (db w) ∧ dom (jobs d) = dom (jobs (db w))));
    [|done].
  intros now d rows d' [Ho Hd] [[_ ->]|(u & r & r' & _ & Hr & _ & _ & ->)]%update_job_ok; [done|].
  simpl. split; [done|]. rw dom_insert_lookup_L; [done|by eexists].
Qed.

(** What handling a claimed command does to the commands: its own row moves one
    step on, no other changes. *)
Definition moved_on (e : OutboxEntry) (o : outbox_row) (w w' : world) : Prop :=
  dom (jobs (db w')) = dom (jobs (db w)) ∧
  ∃ o', outbox (db w') = <[e_ID e := o']> (outbox (db w)) ∧ o_job o' = o_job o ∧
    0 ≤ o_attempts o' ∧ cmd_debt o' < cmd_debt o.

Lemma closed_no_debt o o' :
  o_status o = OutboxPending → o_status o' ≠ OutboxPending → cmd_debt o' < cmd_debt o.
Proof.
  intros Hp Hn. unfold cmd_debt, maxDispatchAttempts. rw Hp. simpl.
  destruct (String.eqb_spec (o_status o') OutboxPending); [done|lia].
Qed.

Lemma dispatched_moves e o w :
  pg_uuid (e_ID e) = Some (e_ID e) → outbox (db w) !! e_ID e = Some o → o_status o = OutboxPending →
  0 ≤ o_attempts o → moved_on e o w (MarkOutboxDispatched E (e_ID e) w).2.
Proof using healthy.
  intros Hk Ho Hp Ha. unfold MarkOutboxDispatched, exec. rw healthy.
  unfold sql_outbox_dispatched, update_outbox. rw Hk Ho. split; [done|]. eexists. split; [done|].
  split; [done|]. split; [done|]. by apply closed_no_debt.
Qed.

Lemma abandon_moves e o w reason :
  pg_uuid (e_ID e) = Some (e_ID e) → outbox (db w) !! e_ID e = Some o → o_status o = OutboxPending →
  0 ≤ o_attempts o → moved_on e o w (abandon (pg_relay_store E rg) e reason w).2.
Proof using healthy.
  intros Hk Ho Hp Ha. unfold abandon, st_bind. simpl.
  destruct (MarkOutboxFailed E (e_ID e) reason w) as [r w1] eqn:H1.
  assert (db w1 = mkDB (jobs (db w)) (<[e_ID e := mkOutboxRow (o_job o) OutboxFailed (o_attempts o)
    (Some reason) (o_created o) (o_dispatched o)]> (outbox (db w)))) as Hw1.
  { change w1 with (r, w1).2. rw -H1. unfold MarkOutboxFailed. rw exec_healthy.
    unfold sql_outbox_failed, update_outbox. by rw Hk Ho. }
  pose proof (mark_finished_dom (ID (e_Job e)) false reason w1) as [Hf1 Hf2].
  destruct (MarkFinished E (ID (e_Job e)) false reason w1) as [r2 w2]. simpl in *.
  split; simpl; [by rw Hf2 Hw1|]. eexists. rw Hf1 Hw1. split; [done|]. split; [done|]. split; [done|].
  by apply closed_no_debt.
Qed.

Lemma failure_moves e o w msg :
  pg_uuid (e_ID e) = Some (e_ID e) → outbox (db w) !! e_ID e = Some o → o_status o = OutboxPending →
  0 ≤ o_attempts o < maxDispatchAttempts → moved_on e o w (RecordOutboxFailure E (e_ID e) msg w).2.
Proof using healthy.
  intros Hk Ho Hp Ha. unfold maxDispatchAttempts in Ha. unfold RecordOutboxFailure, exec. rw healthy.
  unfold sql_outbox_failure, update_outbox, incr_int4. rw Hk Ho.
  replace (o_attempts o + 1 <? 2 ^ 31) with true by (symmetry; apply Z.ltb_lt; lia).
  split; [done|]. eexists. split; [done|].
  split; [done|]. simpl. split; [lia|]. unfold cmd_debt, maxDispatchAttempts. simpl. rw Hp. simpl. lia.
Qed.

Lemma handle_moves e o w :
  pg_uuid (e_ID e) = Some (e_ID e) → outbox (db w) !! e_ID e = Some o → o_status o = OutboxPending →
  o_attempts o = e_Attempts e → 0 ≤ o_attempts o → moved_on e o w (hnd e w).2.
Proof using healthy dispatch_frame placement_frame.
  intros Hk Ho Hp Hatt Ha. unfold handle.
  destruct (negb _).
  { unfold st_bind. simpl. pose proof (dispatched_moves e o w Hk Ho Hp Ha) as H.
    by destruct (MarkOutboxDispatched E (e_ID e) w). }
  destruct (maxExecutionAttempts <=? _); [by apply abandon_moves|].
  destruct (maxDispatchAttempts <=? _) eqn:Hmax; [by apply abandon_moves|]. reflect_bools.
  unfold st_bind at 1. pose proof (dispatch_frame (e_Job e) w) as [Hf1 Hf2].
  destruct (Dispatch (e_Job e) w) as [r w1]. simpl in *. rw -Hf1 in Ho.
  assert (∀ w2, moved_on e o w1 w2 → moved_on e o w w2) as Hcast.
  { intros w2 [Hd Hm]. split; [congruence|]. by rw -Hf1. }
  apply Hcast. destruct r as [worker|er]; unfold st_bind; simpl.
  - pose proof (dispatched_moves e o w1 Hk Ho Hp Ha) as [Hd (o' & Hm & H)].
    destruct (MarkOutboxDispatched E (e_ID e) w1) as [r w2]. simpl in *.
    pose proof (placement_frame (ID (e_Job e)) worker w2) as [Hp1 Hp2].
    destruct (ApplyPlacement (ID (e_Job e)) worker w2) as [r3 w3]. simpl in *.
    split; simpl; [congruence|]. exists o'. split; [congruence|done].
  - pose proof (failure_moves e o w1 (err_string er) Hk Ho Hp ltac:(lia)) as H.
    by destruct (RecordOutboxFailure E (e_ID e) (err_string er) w1).
Qed.

Lemma moved_on_cmds_ok e o w w' :
  pg_uuid (e_ID e) = Some (e_ID e) → outbox (db w) !! e_ID e = Some o →
  moved_on e o w w' → cmds_ok (db w) → cmds_ok (db w').
Proof.
  intros Hk Ho [Hd (o' & Hw' & Hj & Ha & _)] Hc. unfold cmds_ok. rw Hw' Hd.
  apply map_Forall_insert_2; [|done]. split; [done|]. split; [done|]. rw Hj. by apply Hc in Ho as (_ & _ & ?).
Qed.

(** A batch of distinct pending commands lowers the debt by at least one each. *)
Lemma handle_batch es w :
  NoDup (e_ID <$> es) → cmds_ok (db w) →
  (∀ e, e ∈ es → ∃ o, outbox (db w) !! e_ID e = Some o ∧ o_status o = OutboxPending ∧
     o_attempts o = e_Attempts e) →
  let w' := (st_iter hnd es w).2 in
  cmds_ok (db w') ∧ debt (db w') ≤ debt (db w) - Z.of_nat (length es) ∧
  dom (outbox (db w')) = dom (outbox (db w)).
Proof using healthy dispatch_frame placement_frame.
  revert w. induction es as [|e es IH]; intros w Hnd Hc Hes; simpl; [split; [done|split; [lia|done]]|].
  inversion_clear Hnd as [|? ? Hni Hnd'].
  destruct (Hes e ltac:(set_solver)) as (o & Ho & Hp & Hatt).
  destruct (Hc _ _ Ho) as (Hk & Ha & Hj).
  pose proof (handle_moves e o w Hk Ho Hp Hatt Ha) as Hm.
  pose proof (moved_on_cmds_ok e o w _ Hk Ho Hm Hc) as Hc1.
  unfold st_bind. destruct (hnd e w) as [[] w1]. simpl in *.
  destruct Hm as [Hd (o' & Hw1 & _ & _ & Hdebt)].
  destruct (IH w1) as (Hc2 & Hd2 & Hdom); [done|done| |].
  { intros e' He'. destruct (Hes e' ltac:(set_solver)) as (o2 & Ho2 & ?). exists o2. split; [|done].
    rw Hw1 lookup_insert_ne; [done|]. intros Heq. apply Hni. rw Heq. apply list_elem_of_fmap. eauto. }
  split; [done|]. split.
  - destruct (db w1) as [j1 m1], (db w) as [j m]. simpl in *. subst m1.
    rw (debt_insert j j1 m _ _ o' Ho) in Hd2. lia.
  - rw Hdom Hw1. rw dom_insert_lookup_L; [done|by eexists].
Qed.

Lemma drain_progress w :
  cmds_ok (db w) →
  let w' := (drn w).2 in
  cmds_ok (db w') ∧ dom (outbox (db w')) = dom (outbox (db w)) ∧
  debt (db w') ≤ debt (db w) ∧ (¬ no_pending (db w) → debt (db w') < debt (db w)).
Proof using healthy dispatch_frame placement_frame.
  intros Hc. unfold drain, st_bind. simpl. unfold ClaimOutbox, query. rw healthy.
  set (es := sql_claim_outbox rg drainBatch (db w)).
  destruct (handle_batch es (mkWorld (db w) (S (tick w)))) as (Hc' & Hd & Hdom);
    [apply claim_NoDup|done| |].
  { intros e (o & r & ? & ? & ? & _)%claim_elem. eauto. }
  simpl in *. split; [done|]. split; [done|]. split; [lia|]. intros Hn.
  assert (es ≠ []) as Hne.
  { assert (∃ k o, outbox (db w) !! k = Some o ∧ o_status o = OutboxPending) as (k & o & Ho & Hp).
    { unfold no_pending in Hn. apply map_not_Forall in Hn as (k & o & Ho & Hp); [|apply _].
      exists k, o. split; [done|]. by apply dec_stable. }
    apply (claim_nonempty rg drainBatch (db w) k o); [done|done|done|].
    apply elem_of_dom. by apply Hc in Ho as (_ & _ & ?). }
  destruct es; [done|]. simpl in *. lia.
Qed.

Lemma drains_settle n w :
  cmds_ok (db w) → debt (db w) ≤ Z.of_nat n →
  no_pending (db (drains (pg_relay_store E rg) Dispatch ApplyPlacement n w).2).
Proof using healthy dispatch_frame placement_frame.
  revert w. induction n as [|n IH]; intros w Hc Hd; cbn [drains].
  - intros k o Ho Hp. pose proof (debt_pending _ _ _ Ho Hp). simpl in *. lia.
  - pose proof (drain_progress w Hc) as (Hc' & _ & Hle & Hlt).
    unfold st_bind. destruct (drn w) as [[] w1]. simpl in *. apply IH; [done|].
    destruct (decide (no_pending (db w))) as [Hnp|Hnp]; [|specialize (Hlt Hnp); lia].
    assert (debt (db w) = 0); [|lia].
    unfold debt. apply (map_fold_weak_ind (λ n m, map_Forall (λ _ o, o_status o ≠ OutboxPending) m → n = 0));
      [done| |done].
    intros k o m n0 Hk Hn0 Hall. rw map_Forall_insert in Hall; [|done]. destruct Hall as [Ho Hall].
    rw Hn0; [|done]. unfold cmd_debt. by destruct (String.eqb_spec (o_status o) OutboxPending).
Qed.
End settle.

(** ** Lemmas: what a call can do to one command, whatever fails *)

Lemma exec_update_outbox {UU : PgUuid} (E : env) id f w k o :
  outbox (db w) !! k = Some o →
  let w' := (exec E (λ now, update_outbox id (f now)) w).2 in
  jobs (db w') = jobs (db w) ∧
  (outbox (db w') !! k = Some o ∨
   pg_uuid id = Some k ∧ ∃ now o', f now o = Ok o' ∧ outbox (db w') !! k = Some o').
Proof.
  intros Ho. simpl. destruct (exec_db E (λ now, update_outbox id (f now)) w) as [->|(rows & d' & Hs & ->)];
    [by split; [|left]|].
  apply update_outbox_ok in Hs as [[_ ->]|(u & o1 & o' & Hu & Ho1 & Hf & _ & ->)]; [by split; [|left]|].
  split; [done|]. simpl. destruct (decide (u = k)) as [->|Hne].
  - simplify_eq. right. split; [done|]. rw lookup_insert_eq. eauto.
  - left. by rw lookup_insert_ne.
Qed.

(** The ways a claimed command's row can look after it was handled. *)
Inductive verdict : Type := Untouched | Closed | Deferred | Abandoned.

Definition verdict_row (v : verdict) (o o' : outbox_row) : Prop :=
  match v with
  | Untouched => o' = o
  | Closed => o_status o' = OutboxDispatched ∧ o_attempts o' = o_attempts o
  | Deferred => o_status o' = o_status o ∧ o_attempts o' = o_attempts o + 1
  | Abandoned => o_status o' = OutboxFailed ∧ o_attempts o' = o_attempts o
  end ∧ o_job o' = o_job o.

(** When the code may reach each of them. *)
Definition verdict_cause (Dispatch : Job → stM world (result err string)) (e : OutboxEntry) (w : world)
    (v : verdict) : Prop :=
  match v with
  | Untouched => True
  | Closed => Status (e_Job e) ≠ StatusPending ∨ is_ok (Dispatch (e_Job e) w).1 = true
  | Deferred => Status (e_Job e) = StatusPending ∧ is_ok (Dispatch (e_Job e) w).1 = false
  | Abandoned => Status (e_Job e) = StatusPending ∧
      (maxExecutionAttempts ≤ Attempts (e_Job e) ∨ maxDispatchAttempts ≤ e_Attempts e)
  end.

Section verdicts.
Context {UU : PgUuid} (E : env) (rg : Ranger outbox_row).
Context (Dispatch : Job → stM world (result err string)).
Context (ApplyPlacement : string → string → stM world (result err unit)).

Lemma dispatched_verdict id w k o :
  outbox (db w) !! k = Some o →
  ∃ o' v, outbox (db (MarkOutboxDispatched E id w).2) !! k = Some o' ∧ verdict_row v o o' ∧
    (v = Untouched ∨ v = Closed ∧ pg_uuid id = Some k).
Proof.
  intros Ho. destruct (exec_update_outbox E id (λ now o, Ok (mkOutboxRow (o_job o) OutboxDispatched
    (o_attempts o) (o_error o) (o_created o) (Some now))) w k o Ho) as [_ [H|(Hu & now & o' & [= <-] & H)]].
  - exists o, Untouched. split; [exact H|]. split; [by split|by left].
  - eexists _, Closed. split; [exact H|]. split; [by split|by right].
Qed.

Lemma deferred_verdict id msg w k o :
  outbox (db w) !! k = Some o →
  ∃ o' v, outbox (db (RecordOutboxFailure E id msg w).2) !! k = Some o' ∧ verdict_row v o o' ∧
    (v = Untouched ∨ v = Deferred ∧ pg_uuid id = Some k).
Proof.
  intros Ho. destruct (exec_update_outbox E id (λ now o,
    match incr_int4 (o_attempts o) with
    | Err e => Err e
    | Ok n => Ok (mkOutboxRow (o_job o) (o_status o) n (Some msg) (o_created o) (o_dispatched o))
    end) w k o Ho) as [_ [H|(Hu & now & o' & Hf & H)]].
  - exists o, Untouched. split; [exact H|]. split; [by split|by left].
  - destruct (incr_int4 (o_attempts o)) as [n|] eqn:Hi; [|done]. apply incr_int4_ok in Hi as [-> _].
    injection Hf as <-. eexists _, Deferred. split; [exact H|]. split; [by split|by right].
Qed.

Lemma abandon_verdict e reason w k o :
  outbox (db w) !! k = Some o →
  ∃ o' v, outbox (db (abandon (pg_relay_store E rg) e reason w).2) !! k = Some o' ∧ verdict_row v o o' ∧
    (v = Untouched ∨ v = Abandoned ∧ pg_uuid (e_ID e) = Some k).
Proof.
  intros Ho. unfold abandon, st_bind. simpl.
  destruct (exec_update_outbox E (e_ID e) (λ now o, Ok (mkOutboxRow (o_job o) OutboxFailed (o_attempts o)
    (Some reason) (o_created o) (o_dispatched o))) w k o Ho) as [_ H].
  change (exec E _ w) with (MarkOutboxFailed E (e_ID e) reason w) in H.
  destruct (MarkOutboxFailed E (e_ID e) reason w) as [r w1]. simpl in H.
  pose proof (mark_finished_dom E (ID (e_Job e)) false reason w1) as [Hf _].
  destruct (MarkFinished E (ID (e_Job e)) false reason w1) as [r2 w2]. simpl in *. rw Hf.
  destruct H as [H|(Hu & now & o' & [= <-] & H)].
  - exists o, Untouched. split; [exact H|]. split; [by split|by left].
  - eexists _, Abandoned. split; [exact H|]. split; [by split|by right].
Qed.
End verdicts.

(** ** Properties *)

(** C12: the relay empties the outbox. With a healthy database, whatever the
    workers answer, every batch moves each claimed command one step towards its
    end, and after at most 31 batches per command none is left pending: each has
    been relayed or abandoned. *)
Theorem relay_settles {UU : PgUuid} (E : env) (rg : Ranger outbox_row)
    (Dispatch : Job → stM world (result err string))
    (ApplyPlacement : string → string → stM world (result err unit)) (w : world) (n : nat) :
  (∀ i, env_fault E i = NoFault) → (∀ j, leaves_outbox (Dispatch j)) →
  (∀ id wk, leaves_outbox (ApplyPlacement id wk)) → cmds_ok (db w) →
  (31 * size (outbox (db w)) ≤ n)%nat →
  no_pending (db (drains (pg_relay_store E rg) Dispatch ApplyPlacement n w).2).
Proof.
  intros Hh Hd Hp Hc Hn. apply drains_settle; [done..|].
  pose proof (debt_bound (db w)) as Hb. unfold maxDispatchAttempts in Hb.
  etrans; [apply Hb|lia]. intros k o Ho. by apply Hc in Ho as (_ & ? & _).
Qed.

(** One pending job with its command, and workers that are always full. *)
Definition stuck_world : world :=
  (CreateJobWithOutbox (UU := any_uuid) demo_env "demo" EmptyString empty_world).2.
Definition full_cluster (j : Job) : stM world (result err string) :=
  st_ret (Err (EStatus ResourceExhausted "at capacity")).
Definition no_log (id wk : string) : stM world (result err unit) := st_ret (Ok tt).

Lemma relay_settles_witness :
  no_pending (db (drains (pg_relay_store (UU := any_uuid) demo_env (ranger_asc _)) full_cluster no_log 31
    stuck_world).2).
Proof.
  apply (relay_settles (UU := any_uuid)); [done|done|done| |by vm_compute].
  apply (bool_decide_unpack _). by vm_compute.
Defined.

(** C20: whatever statements fail, handling a claimed command never touches
    another command, and changes its own only for the reasons the code gives: it
    is closed as dispatched only if its job was past pending when claimed or a
    worker has just accepted it, it stays pending with one more attempt only
    after a refused dispatch, and it is abandoned only when a budget is spent. *)
Theorem handle_verdict {UU : PgUuid} (E : env) (rg : Ranger outbox_row)
    (Dispatch : Job → stM world (result err string))
    (ApplyPlacement : string → string → stM world (result err unit))
    (e : OutboxEntry) (w : world) (k : string) (o : outbox_row) :
  (∀ j, leaves_outbox (Dispatch j)) → (∀ id wk, leaves_outbox (ApplyPlacement id wk)) →
  outbox (db w) !! k = Some o →
  ∃ o' v, outbox (db (handle (pg_relay_store E rg) Dispatch ApplyPlacement e w).2) !! k = Some o' ∧
    verdict_row v o o' ∧ verdict_cause Dispatch e w v ∧
    (v = Untouched ∨ pg_uuid (e_ID e) = Some k).
Proof.
  intros Hd Hpl Ho. unfold handle.
  destruct (String.eqb (Status (e_Job e)) StatusPending) eqn:Hst; reflect_bools; simpl.
  2:{ destruct (dispatched_verdict E (e_ID e) w k o Ho) as (o' & v & H & Hr & Hv).
      unfold st_bind. destruct (MarkOutboxDispatched E (e_ID e) w) as [r w1]. simpl in *.
      exists o', v. destruct Hv as [->|[-> ?]]; simpl; eauto 10. }
  destruct (maxExecutionAttempts <=? Attempts (e_Job e)) eqn:Hx; reflect_bools.
  { destruct (abandon_verdict E rg e (execution_reason e) w k o Ho) as (o' & v & H & Hr & Hv).
    exists o', v. destruct Hv as [->|[-> ?]]; simpl; eauto 10. }
  destruct (maxDispatchAttempts <=? e_Attempts e) eqn:Hy; reflect_bools.
  { destruct (abandon_verdict E rg e (dispatch_reason e) w k o Ho) as (o' & v & H & Hr & Hv).
    exists o', v. destruct Hv as [->|[-> ?]]; simpl; eauto 10. }
  unfold st_bind at 1, verdict_cause. pose proof (Hd (e_Job e) w) as [Hf _].
  destruct (Dispatch (e_Job e) w) as [r w1]. simpl in *. rw -Hf in Ho.
  destruct r as [worker|er]; unfold st_bind; simpl.
  - destruct (dispatched_verdict E (e_ID e) w1 k o Ho) as (o' & v & H & Hr & Hv).
    destruct (MarkOutboxDispatched E (e_ID e) w1) as [r w2]. simpl in *.
    pose proof (Hpl (ID (e_Job e)) worker w2) as [Hp1 _].
    destruct (ApplyPlacement (ID (e_Job e)) worker w2) as [r3 w3]. simpl in *. rw Hp1.
    exists o', v. destruct Hv as [->|[-> ?]]; simpl; eauto 10.
  - destruct (deferred_verdict E (e_ID e) (err_string er) w1 k o Ho) as (o' & v & H & Hr & Hv).
    destruct (RecordOutboxFailure E (e_ID e) (err_string er) w1) as [r w2]. simpl in *.
    exists o', v. destruct Hv as [->|[-> ?]]; simpl; eauto 10.
Qed.

Definition stuck_entry : OutboxEntry :=
  mkOutboxEntry "id-2" 0 (scanJob "id-1" (new_job_row "demo" EmptyString 1000)).

Lemma handle_verdict_witness :
  ∃ o' v, outbox (db (handle (pg_relay_store (UU := any_uuid) demo_env (ranger_asc _)) full_cluster no_log
      stuck_entry stuck_world).2) !! "id-2" = Some o' ∧
    verdict_row v (new_outbox_row "id-1" 1000) o' ∧ verdict_cause full_cluster stuck_entry stuck_world v ∧
    (v = Untouched ∨ pg_uuid (PgUuid := any_uuid) "id-2" = Some "id-2").
Proof.
  apply (handle_verdict (UU := any_uuid) demo_env (ranger_asc _) full_cluster no_log stuck_entry stuck_world
    "id-2" (new_outbox_row "id-1" 1000)); [done|done|by vm_compute].
Defined.

(** A pending command (with its job) left out of a claimed batch is no older than
    any claimed one, and the batch is full. *)
Lemma claim_window (rg : Ranger outbox_row) (limit : Z) (d : DB) (k : string) (o : outbox_row) :
  0 ≤ limit → outbox d !! k = Some o → o_status o = OutboxPending → is_Some (jobs d !! o_job o) →
  k ∉ e_ID <$> sql_claim_outbox rg limit d →
  Z.of_nat (length (sql_claim_outbox rg limit d)) = limit ∧
  ∀ e o2, e ∈ sql_claim_outbox rg limit d → outbox d !! e_ID e = Some o2 → o_created o2 ≤ o_created o.
Proof.
  intros Hl Ho Hp [r Hr] Hni. unfold sql_claim_outbox in *.
  set (l := go_sort (λ a b : Z * OutboxEntry, a.1 <? b.1) _) in *.
  set (x := (o_created o, mkOutboxEntry k (o_attempts o) (scanJob (o_job o) r))).
  assert (∀ t e, (t, e) ∈ l → ∃ o2, outbox d !! e_ID e = Some o2 ∧ o_created o2 = t) as Hl_elem.
  { intros t e. unfold l. rw elem_of_go_sort. intros ([k2 o2] & Hin & Hj)%list_elem_of_omap.
    apply list_elem_of_filter in Hin as [_ Hin%elem_of_range]. unfold join_entry in Hj. simpl in *.
    case_match; simplify_eq/=. eauto. }
  assert (x ∈ l) as Hx.
  { unfold l. rw elem_of_go_sort. apply list_elem_of_omap. exists (k, o). split.
    - apply list_elem_of_filter. split; [|by apply elem_of_range]. simpl. by rw Hp.
    - unfold join_entry. simpl. by rw Hr. }
  assert (x ∈ drop (Z.to_nat limit) l) as Hdrop.
  { rw -(take_drop (Z.to_nat limit) l) in Hx. apply elem_of_app in Hx as [Hx|Hx]; [|done].
    destruct Hni. apply list_elem_of_fmap. eexists (mkOutboxEntry _ _ _).
    split; [|apply list_elem_of_fmap; exists x; split; [done|exact Hx]]. done. }
  split.
  - rw length_fmap length_take.
    assert (Z.to_nat limit < length l)%nat; [|lia].
    destruct (decide (Z.to_nat limit < length l)%nat) as [?|Hge]; [done|].
    rw drop_ge in Hdrop; [|lia]. set_solver.
  - intros e o2 ([t e'] & -> & Hin)%list_elem_of_fmap Ho2. simpl in *.
    destruct (Hl_elem t e') as (o3 & Ho3 & <-); [by eapply elem_of_take_le|]. simplify_eq.
    assert (StronglySorted (not_after (λ a b : Z * OutboxEntry, a.1 <? b.1)) l) as Hs.
    { apply (go_sort_sorted (λ a b : Z * OutboxEntry, a.1 <? b.1)). }
    rw -(take_drop (Z.to_nat limit) l) in Hs.
    pose proof (StronglySorted_app_1_elem_of _ _ _ _ _ Hs Hin Hdrop) as Hna.
    unfold not_after in Hna. reflect_bools. done.
Qed.

(** A batch is the oldest pending commands first. Claiming changes nothing; a
    pending command (with its job) left out of the batch is no older than any
    that was claimed, and is left out only when the batch of fifty is full. *)
Theorem claim_oldest_first {UU : PgUuid} (E : env) (rg : Ranger outbox_row) (w w' : world)
    (batch : list OutboxEntry) (k : string) (o : outbox_row) :
  rs_ClaimOutbox (pg_relay_store E rg) drainBatch w = (Ok batch, w') →
  outbox (db w) !! k = Some o → o_status o = OutboxPending → is_Some (jobs (db w) !! o_job o) →
  k ∉ e_ID <$> batch →
  db w' = db w ∧ Z.of_nat (length batch) = drainBatch ∧
  ∀ e o2, e ∈ batch → outbox (db w) !! e_ID e = Some o2 → o_created o2 ≤ o_created o.
Proof.
  simpl. unfold ClaimOutbox, query. intros H Ho Hp Hj Hni.
  destruct (env_fault E (tick w)); simplify_eq. split; [done|]. by eapply claim_window.
Qed.

(** Fifty-one commands, one created at each of the times 0 to 50. *)
Definition long_queue : world :=
  mkWorld (mkDB {["j1" := new_job_row "a" EmptyString 1]}
    (list_to_map ((λ i, ("o" +:+ pretty i, new_outbox_row "j1" (Z.of_nat i))) <$> seq 0 51))) 0.

Lemma claim_oldest_first_witness :
  db (rs_ClaimOutbox (pg_relay_store (UU := any_uuid) demo_env (ranger_asc _)) drainBatch long_queue).2 =
    db long_queue ∧
  Z.of_nat (length (sql_claim_outbox (ranger_asc _) drainBatch (db long_queue))) = drainBatch.
Proof.
  destruct (claim_oldest_first (UU := any_uuid) demo_env (ranger_asc _) long_queue
    (mkWorld (db long_queue) 1) (sql_claim_outbox (ranger_asc _) drainBatch (db long_queue))
    "o50" (new_outbox_row "j1" 50)) as (H1 & H2 & _).
  - done.
  - by vm_compute.
  - done.
  - by exists (new_job_row "a" EmptyString 1).
  - apply (bool_decide_unpack _). by vm_compute.
  - by split.
Defined.

(** An environment whose statement [k] fails. *)
Definition failing_env (k : nat) : env :=
  mkEnv (env_now demo_env) (λ n, if Nat.eqb n k then FailBefore (EText "conn closed") else NoFault)
    (env_uuid demo_env).

