(* ===== verification/Reaper.v ===== *)
(** * internal/reaper: reclaiming the jobs of dead workers

    [sweep] runs over the workers the registry presumes dead; the store, the
    registry and the relay's wake channel are the state it shares with the rest
    of the scheduler. *)

From S2P Require Import Prelude GoRuntime Store Registry Relay.
Local Open Scope Z_scope.

(** The scheduler state a sweep reads and writes. *)
Record shared (W : Type) : Type := mkShared {
  s_store : W;
  s_reg : Registry;
  s_wake : bool;
}.
Arguments mkShared {W} _ _ _.
Arguments s_store {W} _.
Arguments s_reg {W} _.
Arguments s_wake {W} _.

Section reaper.
Context {W : Type}.
Context (reclaimJobs : string → stM W (result err (list Job))).

(** One pass of the loop; the carried boolean is [reenqueued]. *)
Definition sweep_worker (reenqueued : bool) (w : string) : stM (shared W) bool :=
  λ s,
    let '(r, st') := reclaimJobs w (s_store s) in
    match r with
    | Err _ => (reenqueued, mkShared st' (s_reg s) (s_wake s))
    | Ok js =>
        let s' := mkShared st' (Forget w (s_reg s)) (s_wake s) in
        if Nat.eqb (length js) 0 then (reenqueued, s') else (true, s')
    end.

Fixpoint sweep_loop (reenqueued : bool) (ws : list string) : stM (shared W) bool :=
  match ws with
  | [] => st_ret reenqueued
  | w :: ws' => st_bind (sweep_worker reenqueued w) (λ b, sweep_loop b ws')
  end.

Definition sweep (rg : Ranger WorkerState) (now : Z) : stM (shared W) unit :=
  λ s,
    let '(reenqueued, s') := sweep_loop false (Dead rg now (s_reg s)) s in
    (tt, if reenqueued then mkShared (s_store s') (s_reg s') (Wake (s_wake s')) else s').

(** One tick of [Run]. *)
Definition run_tick (isLeader : bool) (rg : Ranger WorkerState) (now : Z) : stM (shared W) unit :=
  if negb isLeader then st_ret tt else sweep rg now.
End reaper.

(** ** Lemmas *)

Section sweep_lemmas.
Context {UU : PgUuid} (E : env) (rgj : Ranger job_row).

Abbreviation loop := (sweep_loop (ReclaimJobs E rgj)).

Lemma reclaimed_not_reclaimable n now x : reclaimable n (set_reclaimed now x) = false.
Proof. done. Qed.

(** What reclaiming from the workers [ns] may do to the tables. *)
Definition reclaims (ns : list string) (d d' : DB) : Prop :=
  dom (jobs d') = dom (jobs d) ∧ outbox d ⊆ outbox d' ∧
  ∀ id x, jobs d !! id = Some x →
    jobs d' !! id = Some x ∨
    ∃ n now oid, n ∈ ns ∧ reclaimable n x = true ∧ jobs d' !! id = Some (set_reclaimed now x) ∧
      outbox d !! oid = None ∧ outbox d' !! oid = Some (new_outbox_row id now).

Lemma reclaims_refl ns d : reclaims ns d d.
Proof. split; [done|]. split; [done|]. by left. Qed.

Lemma reclaims_trans n ns d1 d2 d3 :
  reclaims [n] d1 d2 → reclaims ns d2 d3 → reclaims (n :: ns) d1 d3.
Proof.
  intros (Hd1 & Ho1 & H1) (Hd2 & Ho2 & H2). split; [congruence|]. split; [by etrans|].
  intros id x Hx. destruct (H1 id x Hx) as [Hx2|(m & now & oid & Hm & Hr & Hx2 & Hn & Ho)].
  - destruct (H2 id x Hx2) as [?|(m & now & oid & Hm & Hr & Hx3 & Hn & Ho)]; [by left|].
    right. exists m, now, oid. split; [set_solver|]. split; [done|]. split; [done|].
    split; [by eapply lookup_weaken_None|done].
  - right. exists m, now, oid. split; [set_solver|]. split; [done|]. split.
    + destruct (H2 id _ Hx2) as [?|(m2 & now2 & oid2 & _ & Hr2 & _)]; [done|].
      by rw reclaimed_not_reclaimable in Hr2.
    + split; [done|]. by eapply lookup_weaken.
Qed.

Lemma reclaims_none_left ns d d' n :
  reclaims ns d d' → (∀ id x, jobs d !! id = Some x → reclaimable n x = false) →
  ∀ id x, jobs d' !! id = Some x → reclaimable n x = false.
Proof.
  intros (Hdom & _ & H) Hn id x Hx.
  assert (is_Some (jobs d !! id)) as [x0 Hx0] by (apply elem_of_dom; rw -Hdom; by apply elem_of_dom; eexists).
  destruct (H id x0 Hx0) as [Hx'|(m & now & oid & _ & _ & Hx' & _)]; simplify_eq; [by eapply Hn|done].
Qed.

Lemma reclaim_jobs_reclaims n w r w' :
  (∀ u, is_Some (jobs (db w) !! u) → pg_uuid u = Some u) →
  ReclaimJobs E rgj n w = (r, w') →
  reclaims [n] (db w) (db w') ∧
  ∀ js, r = Ok js →
    (∀ id x, jobs (db w') !! id = Some x → reclaimable n x = false) ∧
    (js ≠ [] ↔ ∃ id x, jobs (db w) !! id = Some x ∧ reclaimable n x = true).
Proof.
  intros Hids [[Hd Hr]|(Hj & Hsub & Hnew & _ & Hjs)]%reclaim_spec; [..|done].
  { rw Hd. split; [apply reclaims_refl|]. by intros js ->. }
  split.
  - split; [by rw Hj dom_fmap_L|]. split; [done|]. intros id x Hx. rw Hj lookup_fmap Hx /=.
    destruct (reclaimable n x) eqn:Hr; [|by left]. right.
    destruct (Hnew id x Hx Hr) as (oid & Hn & Ho). eexists n, _, oid. split; [set_solver|]. eauto.
  - intros js Hr. split.
    + intros id x. rw Hj lookup_fmap. intros (x0 & _ & ->)%fmap_Some_1.
      by destruct (reclaimable n x0) eqn:Hx0.
    + split.
      * intros Hne. destruct js as [|j js]; [done|].
        destruct (proj1 (Hjs (j :: js) j Hr) ltac:(set_solver)) as (id & x & ? & ? & _). eauto.
      * intros (id & x & Hx & Hrx) ->.
        pose proof (proj2 (Hjs [] (scanJob id (set_reclaimed (env_now E (tick w)) x)) Hr)) as Hin.
        assert (scanJob id (set_reclaimed (env_now E (tick w)) x) ∈ @nil Job); [|set_solver].
        apply Hin. eauto.
Qed.

(** The state after the loop over [ns]: the registry loses only workers of
    [ns] that were reclaimed in full. *)
Definition sweep_spec (ns : list string) (b b' : bool) (s s' : shared world) : Prop :=
  reclaims ns (db (s_store s)) (db (s_store s')) ∧
  s_wake s' = s_wake s ∧ staleTTL (s_reg s') = staleTTL (s_reg s) ∧ deadTTL (s_reg s') = deadTTL (s_reg s) ∧
  (∀ m, workers (s_reg s') !! m = workers (s_reg s) !! m ∨
        m ∈ ns ∧ workers (s_reg s') !! m = None ∧
        (∀ id x, jobs (db (s_store s')) !! id = Some x → reclaimable m x = false)) ∧
  (b = true → b' = true) ∧
  (b' = true → b = true ∨ ∃ n id x, n ∈ ns ∧ jobs (db (s_store s)) !! id = Some x ∧ reclaimable n x = true).

Lemma sweep_loop_spec ns b s b' s' :
  (∀ u, is_Some (jobs (db (s_store s)) !! u) → pg_uuid u = Some u) →
  loop b ns s = (b', s') → sweep_spec ns b b' s s'.
Proof.
  revert b s. induction ns as [|n ns IH]; intros b s Hids H; simpl in H.
  { unfold st_ret in H. simplify_eq. split; [apply reclaims_refl|]. repeat (split; [done|]).
    split; [by left|]. split; [done|by left]. }
  unfold st_bind, sweep_worker in H.
  destruct (ReclaimJobs E rgj n (s_store s)) as [r w1] eqn:Hrun.
  destruct (reclaim_jobs_reclaims n _ _ _ Hids Hrun) as [Hrec Hok].
  assert (∀ b1 s1, s_store s1 = w1 → s_wake s1 = s_wake s → staleTTL (s_reg s1) = staleTTL (s_reg s) →
    deadTTL (s_reg s1) = deadTTL (s_reg s) →
    (∀ m, workers (s_reg s1) !! m = workers (s_reg s) !! m ∨
      m = n ∧ workers (s_reg s1) !! m = None ∧
      ∀ id x, jobs (db w1) !! id = Some x → reclaimable n x = false) →
    (b = true → b1 = true) →
    (b1 = true → b = true ∨ ∃ id x, jobs (db (s_store s)) !! id = Some x ∧ reclaimable n x = true) →
    loop b1 ns s1 = (b', s') → sweep_spec (n :: ns) b b' s s') as Hgo.
  { clear H. intros b1 s1 Hs1 Hw1 Hst Hdt Hreg Hb1 Hb2 Hl.
    destruct (IH b1 s1) as (Hr & Hwk & Hst' & Hdt' & Hreg' & Hb & Hb'); [|done|].
    { rw Hs1. intros u Hu. apply Hids. apply elem_of_dom. destruct Hrec as [<- _]. by apply elem_of_dom. }
    rw Hs1 in Hr. split; [by eapply reclaims_trans|]. split; [congruence|]. split; [congruence|].
    split; [congruence|]. split; [|split; [by eauto|]].
    - intros m. destruct (Hreg' m) as [Hm|(Hm & Hnone & Hno)]; [|right; split; [set_solver|done]].
      rw Hm. destruct (Hreg m) as [?|(-> & Hnone & Hno)]; [by left|]. right.
      split; [set_solver|]. split; [done|]. by eapply reclaims_none_left.
    - intros Hbt. destruct (Hb' Hbt) as [Hb1t|(m & id & x & Hm & Hx & Hrx)].
      + destruct (Hb2 Hb1t) as [?|(id & x & ? & ?)]; [by left|]. right. exists n, id, x. set_solver.
      + right. rw Hs1 in Hx. destruct Hrec as (Hdom & _ & Hrec).
        assert (is_Some (jobs (db (s_store s)) !! id)) as [x0 Hx0]
          by (apply elem_of_dom; rw -Hdom; by apply elem_of_dom; eexists).
        destruct (Hrec id x0 Hx0) as [Hx1|(m' & now & oid & Hm' & Hrx0 & Hx1 & _)]; simplify_eq.
        exists m, id, x. set_solver. }
  destruct r as [js|e].
  - destruct (Hok js eq_refl) as [Hno Hne].
    destruct (Nat.eqb_spec (length js) 0) as [Hz|Hz]; eapply Hgo in H; try done.
    + simpl. intros m. rw lookup_delete. case_decide; [subst; right; done|by left].
    + by left.
    + simpl. intros m. rw lookup_delete. case_decide; [subst; right; done|by left].
    + intros _. right. apply Hne. by intros ->.
  - eapply Hgo in H; try done; by left.
Qed.
End sweep_lemmas.

(** ** Lemmas: nothing fails *)

Section healthy_lemmas.
Context {UU : PgUuid} (E : env) (rgj : Ranger job_row).
Hypothesis healthy : ∀ n, env_fault E n = NoFault.

Lemma enqueue_healthy now jid w :
  pg_uuid jid = Some jid → uuids_fresh E w →
  ∃ w', enqueueOutbox E now jid w = (Ok tt, w') ∧ uuids_fresh E w' ∧ jobs (db w') = jobs (db w).
Proof using healthy.
  intros Hid (Hu & Hinj & Hf). unfold enqueueOutbox, tx_stmt. rw healthy. unfold sql_insert_outbox.
  rw Hid. destruct (Hf (tick w)) as [_ ->]; [done|]. eexists. split; [done|]. split; [|done].
  split; [done|]. split; [done|]. intros n Hn. simpl in Hn. destruct (Hf n ltac:(lia)) as [Hj Ho].
  split; [done|]. simpl. rw lookup_insert_ne; [done|]. intros Heq%Hinj. lia.
Qed.

Lemma enqueue_all_healthy now js w :
  Forall (λ j, pg_uuid (ID j) = Some (ID j)) js → uuids_fresh E w →
  ∃ w', enqueue_all E now js w = (Ok tt, w') ∧ uuids_fresh E w' ∧ jobs (db w') = jobs (db w).
Proof using healthy.
  revert w. induction js as [|j js IH]; intros w Hjs Hf; simpl; [by exists w|].
  inversion_clear Hjs as [|? ? Hj Hjs']. unfold res_bind, st_bind.
  destruct (enqueue_healthy now (ID j) w Hj Hf) as (w1 & -> & Hf1 & Hj1).
  destruct (IH w1 Hjs' Hf1) as (w2 & -> & Hf2 & Hj2). exists w2. split; [done|]. split; [done|congruence].
Qed.

Lemma reclaim_healthy n w :
  (∀ u, is_Some (jobs (db w) !! u) → pg_uuid u = Some u) → uuids_fresh E w →
  ∃ js w', ReclaimJobs E rgj n w = (Ok js, w') ∧ uuids_fresh E w'.
Proof using healthy.
  intros Hids (Hu & Hinj & Hf). unfold ReclaimJobs, in_tx. rw healthy.
  unfold res_bind at 1, st_bind at 1, tx_stmt. simpl. rw healthy. simpl.
  set (js := _ <$> _). set (d1 := mkDB _ _). unfold res_bind, st_bind.
  destruct (enqueue_all_healthy (env_now E (tick w)) js (mkWorld d1 (S (S (tick w))))) as (w1 & Heq & Hf1 & Hj1).
  - apply Forall_forall. intros j ([id x] & -> & [_ Hin%elem_of_range]%list_elem_of_filter)%list_elem_of_fmap.
    simpl. apply Hids. by eexists.
  - split; [done|]. split; [done|]. simpl. intros m Hm. destruct (Hf m ltac:(lia)) as [Hj Ho].
    split; [|done]. by rw lookup_fmap Hj.
  - rw Heq. cbn [st_ret]. rw healthy. eexists _, _. split; [done|]. destruct Hf1 as (_ & _ & Hf1).
    split; [done|]. split; [done|]. simpl. intros m Hm. apply Hf1. lia.
Qed.

Lemma sweep_loop_healthy ns b s :
  (∀ u, is_Some (jobs (db (s_store s)) !! u) → pg_uuid u = Some u) → uuids_fresh E (s_store s) →
  let '(_, s') := sweep_loop (ReclaimJobs E rgj) b ns s in
  (∀ m, m ∈ ns → workers (s_reg s') !! m = None) ∧
  (∀ m, workers (s_reg s) !! m = None → workers (s_reg s') !! m = None).
Proof using healthy.
  revert b s. induction ns as [|n ns IH]; intros b s Hids Hf; simpl; [set_solver|].
  unfold st_bind, sweep_worker.
  destruct (reclaim_healthy n (s_store s) Hids Hf) as (js & w1 & Hrun & Hf1). rw Hrun.
  destruct (reclaim_jobs_reclaims E rgj n _ _ _ Hids Hrun) as [(Hdom & _) _].
  assert (∀ u, is_Some (jobs (db w1) !! u) → pg_uuid u = Some u) as Hids1.
  { intros u Hu. apply Hids. apply elem_of_dom. rw -Hdom. by apply elem_of_dom. }
  destruct (Nat.eqb (length js) 0).
  - pose proof (IH b (mkShared w1 (Forget n (s_reg s)) (s_wake s)) Hids1 Hf1) as H.
    destruct (sweep_loop _ b ns _) as [b' s']. simpl in H. destruct H as [Hin Hno].
    split; [|intros m Hm; apply Hno; by apply lookup_delete_None; right].
    intros m [->|Hm]%elem_of_cons; [|by apply Hin]. apply Hno. by apply lookup_delete_eq.
  - pose proof (IH true (mkShared w1 (Forget n (s_reg s)) (s_wake s)) Hids1 Hf1) as H.
    destruct (sweep_loop _ true ns _) as [b' s']. simpl in H. destruct H as [Hin Hno].
    split; [|intros m Hm; apply Hno; by apply lookup_delete_None; right].
    intros m [->|Hm]%elem_of_cons; [|by apply Hin]. apply Hno. by apply lookup_delete_eq.
Qed.
End healthy_lemmas.

(** ** Properties *)

(** C21: crash recovery is exact. Whatever statements fail, a sweep forgets a
    worker only if the registry presumed it dead and none of its jobs is left
    scheduled or running; it returns to pending, each with a fresh command, only
    jobs of presumed-dead workers, and touches no other job, command or worker;
    it wakes the relay only if a dead worker had jobs. When nothing fails every
    presumed-dead worker is forgotten, so none of its jobs is left behind. *)
Theorem reaper_sweep_exact {UU : PgUuid} (E : env) (rgj : Ranger job_row) (rgw : Ranger WorkerState)
    (now : Z) (s : shared world) :
  ids_ok (db (s_store s)) → reg_ok (s_reg s) →
  let s' := (sweep (ReclaimJobs E rgj) rgw now s).2 in
  let dead := Dead rgw now (s_reg s) in
  (∀ m, m ∈ dead ↔ ∃ w, workers (s_reg s) !! m = Some w ∧ is_dead now (s_reg s) w = true) ∧
  reclaims dead (db (s_store s)) (db (s_store s')) ∧
  (∀ m, workers (s_reg s') !! m = workers (s_reg s) !! m ∨
        m ∈ dead ∧ workers (s_reg s') !! m = None ∧
        (∀ id x, jobs (db (s_store s')) !! id = Some x → reclaimable m x = false)) ∧
  (s_wake s' = true → s_wake s = true ∨
     ∃ n id x, n ∈ dead ∧ jobs (db (s_store s)) !! id = Some x ∧ reclaimable n x = true) ∧
  ((∀ n, env_fault E n = NoFault) → uuids_fresh E (s_store s) →
     ∀ m, m ∈ dead → workers (s_reg s') !! m = None).
Proof.
  intros [Hids _] Hreg. cbv zeta. split.
  { intros m. unfold Dead. rw sort_strings_perm. by apply elem_of_scan. }
  unfold sweep. destruct (sweep_loop _ false _ s) as [b s1] eqn:Hl.
  pose proof (sweep_loop_spec E rgj _ _ _ _ _ Hids Hl) as (Hr & Hw & _ & _ & Hm & _ & Hb). simpl.
  split; [by destruct b|]. split; [by destruct b|]. split.
  - intros Hwk. destruct b; simpl in Hwk; [|left; congruence].
    destruct (Hb eq_refl) as [?|?]; [done|by right].
  - intros Hh Hf m Hin. pose proof (sweep_loop_healthy E rgj Hh (Dead rgw now (s_reg s)) false s Hids Hf) as H.
    rw Hl in H. destruct H as [H _]. specialize (H m Hin). by destruct b.
Qed.

(** A worker last heard of at 0 with a death timeout of 10, seen at 100. *)
Definition crashed : shared world :=
  mkShared reclaim_world (Record_ 0 "worker-1" 4 1 (Registry.New 5 10)) false.

Lemma reaper_sweep_exact_witness :
  Dead (ranger_asc _) 100 (s_reg crashed) = ["worker-1"] ∧
  workers (s_reg (sweep (ReclaimJobs (UU := any_uuid) demo_env (ranger_asc _)) (ranger_asc _) 100 crashed).2)
    !! "worker-1" = None.
Proof.
  split; [by vm_compute|].
  apply (reaper_sweep_exact (UU := any_uuid) demo_env (ranger_asc _) (ranger_asc _) 100 crashed).
  - by split.
  - apply Record_ok, New_ok.
  - done.
  - split; [done|]. split.
    + intros n m H. simpl in H. apply (inj (String.append "id-")) in H. by apply (inj pretty) in H.
    + intros n _. by split.
  - apply (bool_decide_unpack _). by vm_compute.
Defined.
