(* ===== verification/System.v ===== *)
(** * The job pipeline as a whole: submissions, relays, workers and the reaper

    Any number of relays (a deposed leader may still be draining), worker
    goroutines and reapers act on the shared tables at the granularity of one
    statement or transaction. A handler or goroutine is its program counter and
    what it read earlier; every action that reaches the database runs the method
    of Store with an arbitrary environment, so any statement may fail before or
    after it took effect, and any process may stop at any point. *)

From S2P Require Import Prelude GoRuntime Proto Store Dispatch Relay.
Local Open Scope Z_scope.

(** ** State *)

(** A claimed command in the hands of [handle]. *)
Inductive handler : Type :=
| HClaimed (e : OutboxEntry)                       (* in the batch, not looked at yet *)
| HDispatch (e : OutboxEntry) (accepted : bool)    (* inside Dispatch; has a worker answered? *)
| HClose (e : OutboxEntry)                         (* about to MarkOutboxDispatched *)
| HRecord (e : OutboxEntry) (msg : string)         (* about to RecordOutboxFailure *)
| HAbandon (e : OutboxEntry) (reason : string)     (* about to MarkOutboxFailed *)
| HFail (e : OutboxEntry) (reason : string)        (* about to MarkFinished *)
| HDone.

(** A worker's goroutine for a job. *)
Inductive runner : Type :=
| RAccept (id worker : string)                     (* an offer whose answer nobody awaits *)
| RRun (id : string)                               (* about to MarkRunning *)
| RFinish (id : string) (succeeded : bool) (msg : string)
| RDone.

Record sys : Type := mkSys {
  tables : DB;
  handlers : list handler;
  runners : list runner;
}.

(** The branch [handle] takes on what it read when it claimed the command. *)
Definition decide_entry (e : OutboxEntry) : handler :=
  if negb (String.eqb (Status (e_Job e)) StatusPending) then HClose e
  else if maxExecutionAttempts <=? Attempts (e_Job e) then HAbandon e (execution_reason e)
  else if maxDispatchAttempts <=? e_Attempts e then HAbandon e (dispatch_reason e)
  else HDispatch e false.

(** ** Steps *)

Section system.
Context {UU : PgUuid}.

Definition env_ok (E : env) : Prop := ∀ n, pg_uuid (env_uuid E n) = Some (env_uuid E n).

(** The tables after a call made on [d] as the [n]-th statement of [E]. *)
Definition after {A} (m : stM world A) (d : DB) (n : nat) : DB := db (m (mkWorld d n)).2.

Inductive hstep : DB → handler → DB → handler → list runner → Prop :=
| h_decide d e : hstep d (HClaimed e) d (decide_entry e) []
| h_accept E n wk d e a w' :
    MarkScheduled E (ID (e_Job e)) wk (mkWorld d n) = (Ok tt, w') →
    hstep d (HDispatch e a) (db w') (HDispatch e true) [RRun (ID (e_Job e))]
| h_reject E n wk d e a er w' :
    MarkScheduled E (ID (e_Job e)) wk (mkWorld d n) = (Err er, w') →
    hstep d (HDispatch e a) (db w') (HDispatch e a) []
| h_late wk d e a : hstep d (HDispatch e a) d (HDispatch e a) [RAccept (ID (e_Job e)) wk]
| h_ack d e : hstep d (HDispatch e true) d (HClose e) []
| h_refuse msg d e a : hstep d (HDispatch e a) d (HRecord e msg) []
| h_close E n d e : hstep d (HClose e) (after (MarkOutboxDispatched E (e_ID e)) d n) HDone []
| h_record E n d e msg : hstep d (HRecord e msg) (after (RecordOutboxFailure E (e_ID e) msg) d n) HDone []
| h_abandon E n d e reason :
    hstep d (HAbandon e reason) (after (MarkOutboxFailed E (e_ID e) reason) d n) (HFail e reason) []
| h_fail E n d e reason :
    hstep d (HFail e reason) (after (MarkFinished E (ID (e_Job e)) false reason) d n) HDone []
| h_stop d h : hstep d h d HDone [].

Inductive rstep : DB → runner → DB → runner → Prop :=
| r_accept E n id wk d r w' :
    MarkScheduled E id wk (mkWorld d n) = (r, w') →
    rstep d (RAccept id wk) (db w') (if is_ok r then RRun id else RDone)
| r_run E n id ok msg d r w' :
    MarkRunning E id (mkWorld d n) = (r, w') →
    rstep d (RRun id) (db w') (if is_ok r then RFinish id ok msg else RDone)
| r_finish E n id ok msg d :
    rstep d (RFinish id ok msg) (after (MarkFinished E id ok msg) d n) RDone
| r_stop d r : rstep d r d RDone.

(** What a step is: the reaper reclaiming from a worker, or anything else. *)
Inductive label : Type := Reclaim (worker : string) | Other.

Inductive sys_step : label → sys → sys → Prop :=
| s_submit E n name payload st :
    env_ok E →
    sys_step Other st (mkSys (after (CreateJobWithOutbox E name payload) (tables st) n) (handlers st) (runners st))
| s_reclaim E n rg wk st :
    env_ok E →
    sys_step (Reclaim wk) st (mkSys (after (ReclaimJobs E rg wk) (tables st) n) (handlers st) (runners st))
| s_claim rg e st :
    e ∈ sql_claim_outbox rg drainBatch (tables st) →
    sys_step Other st (mkSys (tables st) (handlers st ++ [HClaimed e]) (runners st))
| s_handler i h d' h' rs st :
    handlers st !! i = Some h → hstep (tables st) h d' h' rs →
    sys_step Other st (mkSys d' (<[i := h']> (handlers st)) (runners st ++ rs))
| s_runner i r d' r' st :
    runners st !! i = Some r → rstep (tables st) r d' r' →
    sys_step Other st (mkSys d' (handlers st) (<[i := r']> (runners st))).

Definition sys_any (st st' : sys) : Prop := ∃ l, sys_step l st st'.

Definition sys_init : sys := mkSys (mkDB ∅ ∅) [] [].

Definition reachable : sys → Prop := rtc sys_any sys_init.

(** ** Invariants *)

Definition held (h : handler) : option OutboxEntry :=
  match h with
  | HClaimed e | HDispatch e _ | HClose e | HRecord e _ | HAbandon e _ | HFail e _ => Some e
  | HDone => None
  end.

(** A handler on its way to closing command [c] as dispatched. *)
Definition closes (c : string) (h : handler) : Prop :=
  match h with
  | HClaimed e => e_ID e = c ∧ Status (e_Job e) ≠ StatusPending
  | HDispatch e a => e_ID e = c ∧ a = true
  | HClose e => e_ID e = c
  | _ => False
  end.

(** Every handler holds a command of the table, for the job it names. *)
Definition held_ok (d : DB) (h : handler) : Prop :=
  ∀ e, held h = Some e → pg_uuid (e_ID e) = Some (e_ID e) ∧
    ∃ o, outbox d !! e_ID e = Some o ∧ o_job o = ID (e_Job e).

(** Command [c] still stands for job [j]: open or abandoned, and nobody is about
    to close it. *)
Definition stands_for (st : sys) (j c : string) : Prop :=
  ∃ o, outbox (tables st) !! c = Some o ∧ o_job o = j ∧
    (o_status o = OutboxPending ∨ o_status o = OutboxFailed) ∧
    Forall (λ h, ¬ closes c h) (handlers st).

Definition intent_kept (st : sys) : Prop :=
  ∀ j x, jobs (tables st) !! j = Some x → j_status x = StatusPending → ∃ c, stands_for st j c.

Definition sys_inv (st : sys) : Prop :=
  ids_ok (tables st) ∧ Forall (held_ok (tables st)) (handlers st) ∧ intent_kept st.

(** Commands are never removed, and never change their job. *)
Definition outbox_grows (d d' : DB) : Prop :=
  ∀ c o, outbox d !! c = Some o → ∃ o', outbox d' !! c = Some o' ∧ o_job o' = o_job o.

End system.

(** ** Lemmas: the effect of each call *)

Section effects.
Context {UU : PgUuid}.

(** A call of a worker or of [abandon] on a job: it makes no job pending. *)
Definition job_call (d d' : DB) : Prop :=
  outbox d' = outbox d ∧ dom (jobs d') = dom (jobs d) ∧
  ∀ j x, jobs d' !! j = Some x → j_status x = StatusPending → jobs d !! j = Some x.

Lemma job_call_refl d : job_call d d.
Proof. done. Qed.

Lemma update_job_call E id f d n :
  (∀ now r r', f now r = Ok r' → j_status r' ≠ StatusPending) →
  job_call d (after (exec E (λ now, update_job id (f now))) d n).
Proof.
  intros Hf. unfold after. apply (exec_inv E (job_call d)); [|done].
  intros now d1 rows d2 (Ho & Hd & Hj) [[_ ->]|(u & r & r' & _ & Hr & Hfr & _ & ->)]%update_job_ok; [done|].
  split; [done|]. split; simpl; [rw dom_insert_lookup_L; [done|by eexists]|].
  intros j x. rw lookup_insert. case_decide as Ej; [|by apply Hj].
  intros [= <-] Hp. by destruct (Hf _ _ _ Hfr).
Qed.

Lemma scheduled_call E id wk d n : job_call d (after (MarkScheduled E id wk) d n).
Proof. apply (update_job_call E id (λ now r, Ok (set_scheduled now wk r))). by intros ??? [= <-]. Qed.

Lemma running_call E id d n : job_call d (after (MarkRunning E id) d n).
Proof.
  apply (update_job_call E id (λ now r, match incr_int4 (j_attempts r) with
    | Err e => Err e | Ok n => Ok (set_running now n r) end)).
  intros now r r'. destruct (incr_int4 _); [|done]. by intros [= <-].
Qed.

Lemma finished_call E id ok msg d n : job_call d (after (MarkFinished E id ok msg) d n).
Proof.
  apply (update_job_call E id (λ now r, Ok (set_finished now
    (if negb ok then StatusFailed else StatusSucceeded) msg r))).
  intros now r r' [= <-]. by destruct ok.
Qed.

(** A successful MarkScheduled leaves the job scheduled. *)
Lemma scheduled_ok E id wk d n w' :
  MarkScheduled E id wk (mkWorld d n) = (Ok tt, w') →
  ∃ u x, pg_uuid id = Some u ∧ jobs (db w') !! u = Some x ∧ j_status x = StatusScheduled.
Proof.
  intros (rows & d' & Hs & Hrows & Hd)%exec_ok.
  apply update_job_ok in Hs as [[-> _]|(u & r & r' & Hu & Hr & [= <-] & _ & ->)]; [done|].
  exists u. eexists. split; [done|]. split; [rw Hd; simpl; by rw lookup_insert_eq|done].
Qed.

(** A call of the relay on command [k]: only that row changes, by [P]. *)
Definition cmd_call (k : string) (P : outbox_row → outbox_row → Prop) (d d' : DB) : Prop :=
  jobs d' = jobs d ∧ dom (outbox d') = dom (outbox d) ∧
  ∀ c o, outbox d !! c = Some o →
    outbox d' !! c = Some o ∨ (c = k ∧ ∃ o', outbox d' !! c = Some o' ∧ o_job o' = o_job o ∧ P o o').

Lemma update_outbox_call E k f P d n :
  pg_uuid k = Some k → (∀ now o o', f now o = Ok o' → o_job o' = o_job o ∧ P o o') →
  cmd_call k P d (after (exec E (λ now, update_outbox k (f now))) d n).
Proof.
  intros Hk Hf. unfold after.
  destruct (exec_db E (λ now, update_outbox k (f now)) (mkWorld d n)) as [->|(rows & d' & Hs & ->)]; simpl.
  { split; [done|]. split; [done|]. by left. }
  apply update_outbox_ok in Hs as [[_ ->]|(u & o & o' & Hu & Ho & Hfo & _ & ->)]; simpl in *.
  { split; [done|]. split; [done|]. by left. }
  simplify_eq. split; [done|]. split; [rw dom_insert_lookup_L; [done|by eexists]|].
  intros c oc Hc. rw lookup_insert. case_decide as Ec; [|by left]. subst. simplify_eq.
  right. split; [done|]. apply Hf in Hfo as [??]. eauto.
Qed.

Lemma close_call E k d n :
  pg_uuid k = Some k → cmd_call k (λ _ _, True) d (after (MarkOutboxDispatched E k) d n).
Proof.
  intros Hk. apply (update_outbox_call E k (λ now o, Ok (mkOutboxRow (o_job o) OutboxDispatched (o_attempts o)
    (o_error o) (o_created o) (Some now)))); [done|]. by intros ??? [= <-].
Qed.

Lemma record_call E k msg d n :
  pg_uuid k = Some k →
  cmd_call k (λ o o', o_status o' = o_status o) d (after (RecordOutboxFailure E k msg) d n).
Proof.
  intros Hk. apply (update_outbox_call E k (λ now o, match incr_int4 (o_attempts o) with
    | Err e => Err e
    | Ok n => Ok (mkOutboxRow (o_job o) (o_status o) n (Some msg) (o_created o) (o_dispatched o)) end)); [done|].
  intros now o o'. destruct (incr_int4 _); [|done]. by intros [= <-].
Qed.

Lemma abandon_call E k msg d n :
  pg_uuid k = Some k →
  cmd_call k (λ _ o', o_status o' = OutboxFailed) d (after (MarkOutboxFailed E k msg) d n).
Proof.
  intros Hk. apply (update_outbox_call E k (λ now o, Ok (mkOutboxRow (o_job o) OutboxFailed (o_attempts o)
    (Some msg) (o_created o) (o_dispatched o)))); [done|]. by intros ??? [= <-].
Qed.

(** A submission adds a pending job with its command, or nothing. *)
Lemma submit_effect E name payload d n :
  env_ok E →
  let d' := after (CreateJobWithOutbox E name payload) d n in
  d' = d ∨ ∃ id oid now, pg_uuid id = Some id ∧ pg_uuid oid = Some oid ∧
    jobs d !! id = None ∧ outbox d !! oid = None ∧
    d' = mkDB (<[id := new_job_row name payload now]> (jobs d))
              (<[oid := new_outbox_row id now]> (outbox d)).
Proof.
  intros HE. simpl. unfold after, CreateJobWithOutbox, in_tx, res_bind, st_bind, enqueueOutbox, tx_stmt. simpl.
  destruct (env_fault E n); simpl; try (by left).
  destruct (env_fault E (S n)); simpl; try (by left).
  destruct (sql_insert_job _ _ _ _ _) as [[j d1]|ex] eqn:Hi; simpl; [|by left].
  unfold sql_insert_job in Hi. destruct (pg_text_ok name); [simpl in Hi|done].
  destruct (jobs d !! env_uuid E (S n)) eqn:Hj; [done|].
  injection Hi as <- <-. destruct (env_fault E (S (S n))); simpl; try (by left).
  unfold sql_insert_outbox. rw HE. simpl.
  destruct (outbox d !! env_uuid E (S (S n))) eqn:Ho; simpl; [by left|].
  destruct (env_fault E (S (S (S n)))); simpl; [right|by left|right];
    exists (env_uuid E (S n)), (env_uuid E (S (S n))), (env_now E n); done.
Qed.

Lemma reclaim_ids_ok E rg wk w :
  env_ok E → ids_ok (db w) → ids_ok (db (ReclaimJobs E rg wk w).2).
Proof.
  intros HE Hd. unfold ReclaimJobs. apply (in_tx_inv E ids_ok); [|done]. clear w Hd.
  intros now w Hw. apply (res_bind_inv ids_ok); [intros Hw'; apply tx_stmt_inv; [|done]| |done].
  - intros n d js d' [Hj Ho] [= <- <-]. split; [|done]. simpl. intros u. rw lookup_fmap fmap_is_Some. apply Hj.
  - intros js w1 Hw1. apply (res_bind_inv ids_ok); [|done|done]. intros _. revert w1 Hw1.
    induction js as [|j js IH]; intros w1 Hw1; simpl; [done|].
    apply (res_bind_inv ids_ok); [|intros _; apply IH|done]. intros _. unfold enqueueOutbox. apply tx_stmt_inv; [|done].
    intros n d [] d' [Hj Ho] (u & Hu & Hn & ->)%insert_outbox_shape. split; [done|]. simpl.
    intros c. rw lookup_insert. case_decide; [by subst; rw HE|apply Ho].
Qed.
End effects.

(** ** Lemmas: the invariant *)

Section invariant.
Context {UU : PgUuid}.

(** What a step of a handler guarantees, in the terms of the invariant. *)
Record hstep_facts (d : DB) (h : handler) (d' : DB) (h' : handler) : Prop := {
  hf_jobs : dom (jobs d') = dom (jobs d);
  hf_cmds : dom (outbox d') = dom (outbox d);
  hf_pending : ∀ j x, jobs d' !! j = Some x → j_status x = StatusPending → jobs d !! j = Some x;
  hf_rows : ∀ c o, outbox d !! c = Some o → ∃ o', outbox d' !! c = Some o' ∧ o_job o' = o_job o ∧
    (¬ closes c h → o_status o = OutboxPending ∨ o_status o = OutboxFailed →
       o_status o' = OutboxPending ∨ o_status o' = OutboxFailed);
  hf_closes : ∀ c o x, outbox d !! c = Some o → jobs d' !! o_job o = Some x → j_status x = StatusPending →
    closes c h' → closes c h;
  hf_held : ∀ e, held h' = Some e → held h = Some e;
}.

Lemma job_call_facts d h d' h' :
  job_call d d' → (∀ c, closes c h' → closes c h) → (∀ e, held h' = Some e → held h = Some e) →
  hstep_facts d h d' h'.
Proof.
  intros (Ho & Hd & Hj) Hc Hh. split; [done|by rw Ho|done| | |done].
  - intros c o Hco. rw Ho. eauto.
  - intros c o x _ _ _. apply Hc.
Qed.

Lemma cmd_call_facts k P d h d' h' :
  cmd_call k P d d' →
  (∀ o o', P o o' → ¬ closes k h → o_status o = OutboxPending ∨ o_status o = OutboxFailed →
     o_status o' = OutboxPending ∨ o_status o' = OutboxFailed) →
  (∀ c, closes c h' → closes c h) → (∀ e, held h' = Some e → held h = Some e) →
  hstep_facts d h d' h'.
Proof.
  intros (Hj & Hd & Ho) HP Hc Hh. split; [by rw Hj|done|by rw Hj| | |done].
  - intros c o Hco. destruct (Ho c o Hco) as [?|(-> & o' & Ho' & Hjob & Hoo)]; eauto 10.
  - intros c o x _ _ _. apply Hc.
Qed.

Lemma hstep_ok d h d' h' rs :
  ids_ok d → held_ok d h → hstep d h d' h' rs → hstep_facts d h d' h'.
Proof.
  intros [Hids _] Hheld Hstep.
  destruct Hstep as [d e|E n wk d e a w' Hm|E n wk d e a er w' Hm|wk d e a|d e|msg d e a|E n d e|E n d e msg
    |E n d e reason|E n d e reason|d h].
  - apply job_call_facts; [done| |].
    + intros c. unfold decide_entry. destruct (String.eqb (Status (e_Job e)) StatusPending) eqn:Hs; simpl.
      * repeat case_match; simpl; try done. by intros [_ ?].
      * intros Hc. split; [done|]. by apply String.eqb_neq.
    + intros e'. unfold decide_entry. by repeat case_match.
  - pose proof (scheduled_call E (ID (e_Job e)) wk d n) as Hcall. unfold after in Hcall. rw Hm in Hcall.
    simpl in Hcall. destruct Hcall as (Ho & Hd & Hj).
    split; [done|by rw Ho|done|intros c o Hco; rw Ho; eauto| |done].
    intros c o x Hco Hx Hp [Hec _]. exfalso.
    destruct (Hheld e eq_refl) as (_ & o' & Ho' & Hjob). rw Hec in Ho'. simplify_eq.
    apply scheduled_ok in Hm as (u & x' & Hu & Hx' & Hs').
    rw -Hjob Hids in Hu; [|apply elem_of_dom; rw -Hd; by apply elem_of_dom; eexists]. simplify_eq.
    by rw Hp in Hs'.
  - pose proof (scheduled_call E (ID (e_Job e)) wk d n) as Hcall. unfold after in Hcall. rw Hm in Hcall.
    by apply job_call_facts.
  - by apply job_call_facts.
  - apply job_call_facts; [done| |done]. intros c Hc. by split.
  - apply job_call_facts; [done|done|done].
  - destruct (Hheld e eq_refl) as [Hk _].
    eapply cmd_call_facts; [by apply close_call| |done|done]. intros o o' _ Hn. by destruct Hn.
  - destruct (Hheld e eq_refl) as [Hk _].
    eapply cmd_call_facts; [by apply record_call| |done|done]. intros o o' -> _. done.
  - destruct (Hheld e eq_refl) as [Hk _].
    eapply cmd_call_facts; [by apply abandon_call| |done|done]. intros o o' Ho' _ _. by right.
  - apply job_call_facts; [apply finished_call|done|done].
  - by apply job_call_facts.
Qed.

Lemma ids_ok_dom d d' :
  dom (jobs d') = dom (jobs d) → dom (outbox d') = dom (outbox d) → ids_ok d → ids_ok d'.
Proof.
  intros Hj Ho [H1 H2]. split; intros u; rw -elem_of_dom ?Hj ?Ho elem_of_dom; [apply H1|apply H2].
Qed.

Lemma held_ok_grows d d' h : outbox_grows d d' → held_ok d h → held_ok d' h.
Proof.
  intros Hg Hh e He. destruct (Hh e He) as (Hk & o & Ho & Hj). split; [done|].
  destruct (Hg _ _ Ho) as (o' & Ho' & Hj'). exists o'. split; [done|congruence].
Qed.

Lemma inv_handler st i h d' h' rs :
  sys_inv st → handlers st !! i = Some h → hstep (tables st) h d' h' rs →
  sys_inv (mkSys d' (<[i := h']> (handlers st)) (runners st ++ rs)).
Proof.
  intros (Hids & Hheld & Hint) Hi Hstep.
  pose proof (proj1 (Forall_lookup _ _) Hheld i h Hi) as Hh.
  destruct (hstep_ok _ _ _ _ _ Hids Hh Hstep) as [F1 F2 F3 F4 F5 F6].
  assert (outbox_grows (tables st) d') as Hg.
  { intros c o Hc. destruct (F4 c o Hc) as (o' & ? & ? & _). eauto. }
  split; [by eapply ids_ok_dom|]. split; simpl.
  - apply Forall_insert.
    + eapply Forall_impl; [exact Hheld|]. intros h0. by apply held_ok_grows.
    + intros e He. apply (held_ok_grows _ _ h Hg Hh). by apply F6.
  - intros j x Hx Hp. destruct (Hint j x (F3 j x Hx Hp) Hp) as (c & o & Ho & Hj & Hs & Hno).
    destruct (F4 c o Ho) as (o' & Ho' & Hj' & Hs').
    pose proof (proj1 (Forall_lookup _ _) Hno i h Hi) as Hnc.
    exists c, o'. split; [done|]. split; [congruence|]. split; [by apply Hs'|]. simpl.
    apply Forall_insert; [done|]. intros Hc. apply Hnc. subst j. by eapply F5.
Qed.

Lemma rstep_job_call d r d' r' : rstep d r d' r' → job_call d d'.
Proof.
  destruct 1 as [E n id wk d r w' H|E n id ok msg d r w' H|E n id ok msg d|d r].
  - pose proof (scheduled_call E id wk d n) as Hc. unfold after in Hc. by rw H in Hc.
  - pose proof (running_call E id d n) as Hc. unfold after in Hc. by rw H in Hc.
  - apply finished_call.
  - done.
Qed.

Lemma inv_runner st d' rs :
  sys_inv st → job_call (tables st) d' → sys_inv (mkSys d' (handlers st) rs).
Proof.
  intros (Hids & Hheld & Hint) (Ho & Hd & Hj). split; [by eapply ids_ok_dom; [..|done]; [done|rw Ho]|].
  split; simpl.
  - eapply Forall_impl; [exact Hheld|]. intros h Hh e He. rw Ho. by apply Hh.
  - intros j x Hx Hp. destruct (Hint j x (Hj j x Hx Hp) Hp) as (c & o & H1 & H2 & H3 & H4).
    exists c, o. by rw Ho.
Qed.

(** A new command is held by nobody. *)
Lemma fresh_not_closed d hs c :
  Forall (held_ok d) hs → outbox d !! c = None → Forall (λ h, ¬ closes c h) hs.
Proof.
  intros Hh Hc. eapply Forall_impl; [exact Hh|]. intros h Hok Hcl.
  assert (∃ e, held h = Some e ∧ e_ID e = c) as (e & He & Hec).
  { destruct h; simpl in *; naive_solver. }
  destruct (Hok e He) as (_ & o & Ho & _). rw Hec in Ho. by simplify_eq.
Qed.

Lemma stands_for_grows st d' j c :
  stands_for st j c → outbox (tables st) ⊆ outbox d' → stands_for (mkSys d' (handlers st) (runners st)) j c.
Proof. intros (o & Ho & H) Hsub. exists o. split; [by eapply lookup_weaken|done]. Qed.

Lemma inv_submit E n name payload st :
  env_ok E → sys_inv st →
  sys_inv (mkSys (after (CreateJobWithOutbox E name payload) (tables st) n) (handlers st) (runners st)).
Proof.
  intros HE Hinv. destruct (submit_effect E name payload (tables st) n HE)
    as [->|(id & oid & now & Hu1 & Hu2 & Hj & Ho & ->)]; [by destruct st|].
  destruct Hinv as ([Hi1 Hi2] & Hheld & Hint).
  assert (outbox (tables st) ⊆ <[oid := new_outbox_row id now]> (outbox (tables st))) as Hsub
    by (by apply insert_subseteq).
  split; [|split]; simpl.
  - split; intros u; simpl; rw lookup_insert; case_decide; subst; auto.
  - eapply Forall_impl; [exact Hheld|]. intros h. apply held_ok_grows. intros c o Hc. exists o. split; [|done].
    by eapply lookup_weaken.
  - intros j x Hx Hp. rw lookup_insert in Hx. case_decide as Ej.
    + subst. exists oid, (new_outbox_row j now). simpl. rw lookup_insert_eq. split; [done|]. split; [done|].
      split; [by left|]. by eapply fresh_not_closed.
    + destruct (Hint j x Hx Hp) as [c Hc]. exists c. by apply stands_for_grows.
Qed.

Lemma inv_reclaim E n rg wk st :
  env_ok E → sys_inv st →
  sys_inv (mkSys (after (ReclaimJobs E rg wk) (tables st) n) (handlers st) (runners st)).
Proof.
  intros HE Hinv. pose proof Hinv as (Hids & Hheld & Hint). unfold after.
  pose proof (reclaim_ids_ok E rg wk (mkWorld (tables st) n) HE Hids) as Hids'.
  destruct (ReclaimJobs E rg wk (mkWorld (tables st) n)) as [r w'] eqn:Hrun. simpl in *.
  apply reclaim_spec in Hrun as [[-> _]|(Hj & Hsub & Hnew & _)]; [by destruct st| |by apply Hids].
  simpl in *. split; [done|]. split; simpl.
  - eapply Forall_impl; [exact Hheld|]. intros h. apply held_ok_grows. intros c o Hc. exists o. split; [|done].
    by eapply lookup_weaken.
  - intros j x Hx Hp. rw Hj in Hx. rw lookup_fmap in Hx. apply fmap_Some_1 in Hx as (x0 & Hx0 & ->).
    destruct (reclaimable wk x0) eqn:Hr.
    + destruct (Hnew j x0 Hx0 Hr) as (oid & Hn & Ho). exists oid. eexists. simpl. split; [done|].
      split; [done|]. split; [by left|]. by eapply fresh_not_closed.
    + destruct (Hint j x0 Hx0 Hp) as [c Hc]. exists c. by apply stands_for_grows.
Qed.

Lemma inv_claim rg e st :
  e ∈ sql_claim_outbox rg drainBatch (tables st) → sys_inv st →
  sys_inv (mkSys (tables st) (handlers st ++ [HClaimed e]) (runners st)).
Proof.
  intros (o & r & Ho & Hs & _ & Hr & Hjob)%claim_elem (Hids & Hheld & Hint).
  assert (ID (e_Job e) = o_job o) as HID by (by rw Hjob).
  split; [done|]. split; simpl.
  - apply Forall_app. split; [done|]. constructor; [|constructor]. intros e' [= <-].
    split; [apply Hids; by eexists|]. by exists o.
  - intros j x Hx Hp. destruct (Hint j x Hx Hp) as (c & oc & Hc & Hj & Hsc & Hno).
    exists c, oc. split; [done|]. split; [done|]. split; [done|]. simpl. apply Forall_app. split; [done|].
    constructor; [|constructor]. simpl. intros [Hec Hst]. apply Hst. rw Hjob. simpl. subst c.
    assert (o = oc) as <- by congruence. subst j. simpl in Hx. congruence.
Qed.

Lemma sys_inv_step l st st' : sys_step l st st' → sys_inv st → sys_inv st'.
Proof.
  destruct 1 as [E n name payload st HE|E n rg wk st HE|rg e st He|i h d' h' rs st Hi Hs|i r d' r' st Hi Hs];
    intros Hinv.
  - by apply inv_submit.
  - by apply inv_reclaim.
  - by apply (inv_claim rg).
  - by eapply inv_handler.
  - apply inv_runner; [done|]. by eapply rstep_job_call.
Qed.

(** Every step is calls of the store, so it keeps the tables well formed. *)
Lemma call_db_ok E op d n :
  (draws_ids op = true → env_ok E) → ids_ok d → db_ok d → db_ok (db (run_op E op (mkWorld d n))).
Proof. intros HE Hids Hd. by apply (run_op_db_ok E op (mkWorld d n)). Qed.

Lemma db_ok_step l st st' :
  sys_step l st st' → ids_ok (tables st) → db_ok (tables st) → db_ok (tables st').
Proof.
  intros Hs Hids Hok.
  assert (∀ E op n, draws_ids op = false → db_ok (db (run_op E op (mkWorld (tables st) n)))) as Hcall.
  { intros E op n Hop. apply call_db_ok; [|done..]. congruence. }
  destruct Hs as [E n name payload st HE|E n rg wk st HE|rg e st He|i h d' h' rs st Hi Hs|i r d' r' st Hi Hs]; cbn [tables].
  - by apply (call_db_ok E (OpCreateJobWithOutbox name payload)).
  - by apply (call_db_ok E (OpReclaimJobs rg wk)).
  - done.
  - destruct Hs as [d e|E n wk d e a w' H|E n wk d e a er w' H|wk d e a|d e|msg d e a|E n d e|E n d e msg|E n d e reason|
      E n d e reason|d h]; try done.
    + pose proof (Hcall E (OpMarkScheduled (ID (e_Job e)) wk) n eq_refl) as Hc. cbn [run_op] in Hc. by rw H in Hc.
    + pose proof (Hcall E (OpMarkScheduled (ID (e_Job e)) wk) n eq_refl) as Hc. cbn [run_op] in Hc. by rw H in Hc.
    + by apply (Hcall E (OpMarkOutboxDispatched (e_ID e))).
    + by apply (Hcall E (OpRecordOutboxFailure (e_ID e) msg)).
    + by apply (Hcall E (OpMarkOutboxFailed (e_ID e) reason)).
    + by apply (Hcall E (OpMarkFinished (ID (e_Job e)) false reason)).
  - destruct Hs as [E n id wk d r w' H|E n id ok msg d r w' H|E n id ok msg d|d r]; try done.
    + pose proof (Hcall E (OpMarkScheduled id wk) n eq_refl) as Hc. cbn [run_op] in Hc. by rw H in Hc.
    + pose proof (Hcall E (OpMarkRunning id) n eq_refl) as Hc. cbn [run_op] in Hc. by rw H in Hc.
    + by apply (Hcall E (OpMarkFinished id ok msg)).
Qed.

Lemma sys_inv_init : sys_inv sys_init.
Proof. split; [split; by intros u [? ?]|]. split; [constructor|]. done. Qed.

Lemma sys_inv_reachable st : reachable st → sys_inv st.
Proof.
  unfold reachable. intros Hr. pose proof sys_inv_init as H0. revert H0. generalize dependent sys_init.
  induction 1 as [|x y z [l Hxy] _ IH]; [done|]. intros Hx. apply IH. by eapply sys_inv_step.
Qed.

Lemma db_ok_reachable st : reachable st → db_ok (tables st).
Proof.
  unfold reachable. intros Hr.
  assert (sys_inv sys_init ∧ db_ok (tables sys_init)) as H0.
  { split; [apply sys_inv_init|]. split; apply map_Forall_empty. }
  revert H0. generalize dependent sys_init.
  induction 1 as [|x y z [l Hxy] _ IH]; [by intros [_ ?]|]. intros [Hinv Hok]. apply IH.
  split; [by eapply sys_inv_step|]. destruct Hinv as [Hids _]. by eapply db_ok_step.
Qed.
End invariant.

(** ** Lemmas: a job nobody is concerned with any more *)

Section stranded.
Context {UU : PgUuid}.

Definition runner_job (r : runner) : option string :=
  match r with
  | RAccept id _ | RRun id | RFinish id _ _ => Some id
  | RDone => None
  end.

(** No goroutine, no handler and no open command is about job [j], which is past
    pending. *)
Definition stranded (j : string) (x : job_row) (st : sys) : Prop :=
  jobs (tables st) !! j = Some x ∧ j_status x ≠ StatusPending ∧
  Forall (λ r, ∀ id, runner_job r = Some id → pg_uuid id ≠ Some j) (runners st) ∧
  Forall (λ h, ∀ e, held h = Some e → pg_uuid (ID (e_Job e)) ≠ Some j) (handlers st) ∧
  (∀ c o, outbox (tables st) !! c = Some o → o_status o = OutboxPending → o_job o ≠ j).

(** A call about another job leaves [j] alone. *)
Lemma update_job_other E id f d n j :
  pg_uuid id ≠ Some j →
  let d' := after (exec E (λ now, update_job id (f now))) d n in
  jobs d' !! j = jobs d !! j ∧ outbox d' = outbox d.
Proof.
  intros Hne. simpl. unfold after.
  apply (exec_inv E (λ d', jobs d' !! j = jobs d !! j ∧ outbox d' = outbox d)); [|done].
  intros now d1 rows d2 [Hj Ho] [[_ ->]|(u & r & r' & Hu & _ & _ & _ & ->)]%update_job_ok; [done|].
  simpl. rw lookup_insert_ne; [done|congruence].
Qed.

(** A call about a command reopens none. *)
Lemma cmd_call_no_open k P d d' j :
  cmd_call k P d d' → (∀ o o', P o o' → o_status o' = OutboxPending → o_status o = OutboxPending) →
  (∀ c o, outbox d !! c = Some o → o_status o = OutboxPending → o_job o ≠ j) →
  ∀ c o, outbox d' !! c = Some o → o_status o = OutboxPending → o_job o ≠ j.
Proof.
  intros (Hj & Hd & Ho) HP Hno c o Hc Hp.
  assert (is_Some (outbox d !! c)) as [o0 Ho0] by (apply elem_of_dom; rw -Hd; by apply elem_of_dom; eexists).
  destruct (Ho c o0 Ho0) as [Hc'|(-> & o' & Hc' & Hjob & Hoo)]; simplify_eq; [by eapply Hno|].
  rw Hjob. eapply Hno; [done|]. by eapply HP.
Qed.

Lemma close_reopens_none E k d n j :
  pg_uuid k = Some k →
  (∀ c o, outbox d !! c = Some o → o_status o = OutboxPending → o_job o ≠ j) →
  ∀ c o, outbox (after (MarkOutboxDispatched E k) d n) !! c = Some o → o_status o = OutboxPending → o_job o ≠ j.
Proof.
  intros Hk Hno. eapply (cmd_call_no_open k (λ _ o', o_status o' = OutboxDispatched)); [|by intros ? ? ->|done].
  apply (update_outbox_call E k (λ now o, Ok (mkOutboxRow (o_job o) OutboxDispatched (o_attempts o)
    (o_error o) (o_created o) (Some now)))); [done|]. by intros ??? [= <-].
Qed.

Lemma hstep_stranded d h d' h' rs j x :
  held_ok d h → hstep d h d' h' rs →
  (∀ e, held h = Some e → pg_uuid (ID (e_Job e)) ≠ Some j) →
  jobs d !! j = Some x →
  (∀ c o, outbox d !! c = Some o → o_status o = OutboxPending → o_job o ≠ j) →
  jobs d' !! j = Some x ∧
  (∀ c o, outbox d' !! c = Some o → o_status o = OutboxPending → o_job o ≠ j) ∧
  (∀ e, held h' = Some e → held h = Some e) ∧
  Forall (λ r, ∀ id, runner_job r = Some id → pg_uuid id ≠ Some j) rs.
Proof.
  intros Hok Hstep Hh Hx Hno.
  assert (∀ E n wk e w' r, held h = Some e → MarkScheduled E (ID (e_Job e)) wk (mkWorld d n) = (r, w') →
    jobs (db w') !! j = jobs d !! j ∧ outbox (db w') = outbox d) as Hmark.
  { intros E n wk e w' r He Hm.
    pose proof (update_job_other E (ID (e_Job e)) (λ now r, Ok (set_scheduled now wk r)) d n j (Hh e He)) as H.
    unfold after in H. change (exec E _) with (MarkScheduled E (ID (e_Job e)) wk) in H. by rw Hm in H. }
  destruct Hstep as [d e|E n wk d e a w' Hm|E n wk d e a er w' Hm|wk d e a|d e|msg d e a|E n d e|E n d e msg
    |E n d e reason|E n d e reason|d h]; simpl in *.
  - split; [done|]. split; [done|]. split; [|constructor]. intros e'. unfold decide_entry. by repeat case_match.
  - destruct (Hmark E n wk e w' _ eq_refl Hm) as [-> ->]. split; [done|]. split; [done|]. split; [done|].
    constructor; [|constructor]. intros id [= <-]. by apply Hh.
  - destruct (Hmark E n wk e w' _ eq_refl Hm) as [-> ->]. by repeat (split; [done|]).
  - split; [done|]. split; [done|]. split; [done|]. constructor; [|constructor]. intros id [= <-]. by apply Hh.
  - by repeat (split; [done|]).
  - by repeat (split; [done|]).
  - destruct (Hok e eq_refl) as [Hk _]. destruct (close_call E (e_ID e) d n Hk) as [-> _]. split; [done|].
    split; [by apply close_reopens_none|]. split; [done|constructor].
  - destruct (Hok e eq_refl) as [Hk _]. pose proof (record_call E (e_ID e) msg d n Hk) as Hc.
    split; [by rw (proj1 Hc)|]. split; [|split; [done|constructor]].
    eapply cmd_call_no_open; [exact Hc|by intros ? ? ->|done].
  - destruct (Hok e eq_refl) as [Hk _]. pose proof (abandon_call E (e_ID e) reason d n Hk) as Hc.
    split; [by rw (proj1 Hc)|]. split; [|split; [done|constructor]].
    eapply cmd_call_no_open; [exact Hc|by intros ? ? ->|done].
  - destruct (update_job_other E (ID (e_Job e)) (λ now r, Ok (set_finished now StatusFailed reason r)) d n j
      (Hh e eq_refl)) as [H1 H2].
    change (exec E _) with (MarkFinished E (ID (e_Job e)) false reason) in H1, H2. rw H1 H2.
    by repeat (split; [done|]).
  - by repeat (split; [done|]).
Qed.

Lemma rstep_stranded d r d' r' j :
  rstep d r d' r' → (∀ id, runner_job r = Some id → pg_uuid id ≠ Some j) →
  jobs d' !! j = jobs d !! j ∧ outbox d' = outbox d ∧ (∀ id, runner_job r' = Some id → runner_job r = Some id).
Proof.
  intros Hstep Hr.
  destruct Hstep as [E n id wk d r w' Hm|E n id ok msg d r w' Hm|E n id ok msg d|d r]; simpl in *.
  - destruct (update_job_other E id (λ now r, Ok (set_scheduled now wk r)) d n j (Hr id eq_refl)) as [H1 H2].
    unfold after in H1, H2. change (exec E _) with (MarkScheduled E id wk) in H1, H2. rw Hm in H1, H2.
    split; [done|]. split; [done|]. by destruct (is_ok r).
  - destruct (update_job_other E id (λ now r, match incr_int4 (j_attempts r) with
      | Err e => Err e | Ok n => Ok (set_running now n r) end) d n j (Hr id eq_refl)) as [H1 H2].
    unfold after in H1, H2. change (exec E _) with (MarkRunning E id) in H1, H2. rw Hm in H1, H2.
    split; [done|]. split; [done|]. by destruct (is_ok r).
  - destruct (update_job_other E id (λ now r, Ok (set_finished now
      (if negb ok then StatusFailed else StatusSucceeded) msg r)) d n j (Hr id eq_refl)) as [H1 H2].
    change (exec E _) with (MarkFinished E id ok msg) in H1, H2. by rw H1 H2.
  - done.
Qed.

(** Only the reaper, and only on the worker the job is assigned to, can move a
    stranded job. *)
Lemma stranded_step l st st' j x :
  sys_inv st → stranded j x st → sys_step l st st' →
  (∀ wk, l = Reclaim wk → reclaimable wk x = false) → stranded j x st'.
Proof.
  intros (Hids & Hheld & _) (Hx & Hp & Hr & Hh & Hno) Hstep Hl.
  destruct Hstep as [E n name payload st HE|E n rg wk st HE|rg e st He|i h d' h' rs st Hi Hs|i r d' r' st Hi Hs].
  - destruct (submit_effect E name payload (tables st) n HE)
      as [->|(id & oid & now & Hu1 & Hu2 & Hj & Ho & ->)]; [by destruct st|].
    split; simpl; [rw lookup_insert_ne; [done|congruence]|]. split; [done|]. split; [done|]. split; [done|].
    intros c o. rw lookup_insert. case_decide; [|apply Hno]. intros [= <-] _. simpl. congruence.
  - unfold after. destruct (ReclaimJobs E rg wk (mkWorld (tables st) n)) as [r w'] eqn:Hrun. simpl.
    apply reclaim_spec in Hrun as [[-> _]|(Hj & Hsub & _ & Hnew & _)]; [by destruct st| |by apply Hids].
    simpl in *. split; simpl; [by rw Hj lookup_fmap Hx /= Hl|]. split; [done|]. split; [done|]. split; [done|].
    intros c o Hc Hpo. destruct (outbox (tables st) !! c) as [o0|] eqn:Hc0.
    + assert (o0 = o) as ->; [|by eapply Hno]. apply (lookup_weaken _ _ _ _ Hc0) in Hsub. congruence.
    + destruct (Hnew c o Hc Hc0) as (id & y & Hy & Hry & ->). simpl. intros ->.
      specialize (Hl wk eq_refl). congruence.
  - apply claim_elem in He as (o & r & Ho & Hso & _ & Hrow & Hjob).
    split; [done|]. split; [done|]. split; [done|]. split; [|done]. simpl.
    apply Forall_app. split; [done|]. constructor; [|constructor]. intros e' [= <-]. rw Hjob. simpl.
    rw (proj1 Hids); [|by eexists]. intros [= E']. by apply (Hno _ _ Ho).
  - pose proof (proj1 (Forall_lookup _ _) Hh i h Hi) as Hhi.
    pose proof (proj1 (Forall_lookup _ _) Hheld i h Hi) as Hok.
    destruct (hstep_stranded _ _ _ _ _ j x Hok Hs Hhi Hx Hno) as (H1 & H2 & H3 & H4).
    split; [done|]. split; [done|]. split; [by apply Forall_app|]. split; [|done]. simpl.
    apply Forall_insert; [done|]. intros e He. by apply Hhi, H3.
  - pose proof (proj1 (Forall_lookup _ _) Hr i r Hi) as Hri.
    destruct (rstep_stranded _ _ _ _ j Hs Hri) as (H1 & H2 & H3).
    split; [by rw H1|]. split; [done|]. split; [|split; [done|by rw H2]]. simpl.
    apply Forall_insert; [done|]. intros id Hid. by apply Hri, H3.
Qed.
End stranded.

(** ** Lemmas: the relay's code runs inside the system *)

Section simulation.
Context {UU : PgUuid}.

(** Some steps of one handler, and the goroutines they start. *)
Inductive hsteps : DB → handler → DB → handler → list runner → Prop :=
| hsteps_refl d h : hsteps d h d h []
| hsteps_cons d h d1 h1 rs1 d2 h2 rs2 :
    hstep d h d1 h1 rs1 → hsteps d1 h1 d2 h2 rs2 → hsteps d h d2 h2 (rs1 ++ rs2).

Lemma other_any st st' : rtc (sys_step Other) st st' → rtc sys_any st st'.
Proof. apply rtc_subrel. by eexists. Qed.

Lemma hsteps_other d h d' h' rs i hs rns :
  hsteps d h d' h' rs → hs !! i = Some h →
  rtc (sys_step Other) (mkSys d hs rns) (mkSys d' (<[i := h']> hs) (rns ++ rs)).
Proof.
  intros H. revert hs rns. induction H as [d h|d h d1 h1 rs1 d2 h2 rs2 Hs _ IH]; intros hs rns Hi.
  { rw list_insert_id; [|done]. by rw app_nil_r. }
  eapply rtc_l; [by apply (s_handler i h d1 h1 rs1 (mkSys d hs rns))|]. simpl.
  pose proof (IH (<[i := h1]> hs) (rns ++ rs1)) as H'. rw list_insert_insert_eq in H'. rw app_assoc.
  apply H'. apply list_lookup_insert_eq. by eapply lookup_lt_Some.
Qed.

Lemma hsteps_sys d h d' h' rs i hs rns :
  hsteps d h d' h' rs → hs !! i = Some h →
  rtc sys_any (mkSys d hs rns) (mkSys d' (<[i := h']> hs) (rns ++ rs)).
Proof. intros H Hi. by apply other_any, (hsteps_other d h). Qed.

Lemma hsteps_one d h d' h' rs : hstep d h d' h' rs → hsteps d h d' h' rs.
Proof. intros H. rw -(app_nil_r rs). econstructor; [done|constructor]. Qed.

Lemma hsteps_trans d h d1 h1 rs1 d2 h2 rs2 :
  hsteps d h d1 h1 rs1 → hsteps d1 h1 d2 h2 rs2 → hsteps d h d2 h2 (rs1 ++ rs2).
Proof.
  intros H H2. induction H as [|d h d3 h3 rs3 d4 h4 rs4 Hs _ IH]; [done|].
  rw -app_assoc. econstructor; [done|by apply IH].
Qed.

End simulation.

(** A batch is claimed. *)
Lemma claims_sys {UU : PgUuid} rg es d hs rns :
  (∀ e, e ∈ es → e ∈ sql_claim_outbox rg drainBatch d) →
  rtc (sys_step Other) (mkSys d hs rns) (mkSys d (hs ++ (HClaimed <$> es)) rns).
Proof.
  revert hs. induction es as [|e es IH]; intros hs Hes; simpl; [by rw app_nil_r|].
  eapply rtc_l; [apply (s_claim rg e (mkSys d hs rns)); apply Hes; set_solver|]. simpl.
  pose proof (IH (hs ++ [HClaimed e]) ltac:(set_solver)) as H. by rw -app_assoc in H.
Qed.

(** *** Against an interface

    The relay's code is generic in the state its collaborators act on. [W] is any
    such state: [world_of] is its database and [running] its goroutines. *)

Section interface.
Context {UU : PgUuid} {W : Type} (world_of : W → world) (running : W → list runner).

(** A call that does to the database what [m0] does, and nothing to goroutines. *)
Definition acts_as {A} (m : stM W A) (m0 : stM world A) : Prop :=
  ∀ w, m0 (world_of w) = ((m w).1, world_of (m w).2) ∧ running (m w).2 = running w.

(** A relay store that is Postgres. *)
Record pg_backed (store : RelayStore W) (E : env) (rg : Ranger outbox_row) : Prop := {
  pb_claim n : acts_as (rs_ClaimOutbox store n) (ClaimOutbox E rg n);
  pb_dispatched id : acts_as (rs_MarkOutboxDispatched store id) (MarkOutboxDispatched E id);
  pb_record id msg : acts_as (rs_RecordOutboxFailure store id msg) (RecordOutboxFailure E id msg);
  pb_failed id msg : acts_as (rs_MarkOutboxFailed store id msg) (MarkOutboxFailed E id msg);
  pb_finished id ok msg : acts_as (rs_MarkFinished store id ok msg) (MarkFinished E id ok msg);
}.

(** A dispatcher that offers the job to workers: what it does to the tables are
    their acceptances, the goroutines it leaves are theirs, and it answers with
    success only after one of them. *)
Definition dispatch_sim (Dispatch : Job → stM W (result err string)) : Prop :=
  ∀ e w r w', Dispatch (e_Job e) w = (r, w') →
    ∃ a rs, hsteps (db (world_of w)) (HDispatch e false) (db (world_of w')) (HDispatch e a) rs ∧
      running w' ⊆+ running w ++ rs ∧ (is_ok r = true → a = true).

(** A worker's ExecuteJob over the network: refused without touching the tables;
    on its way although nobody waits for it any more; or MarkScheduled with the
    answer it leads to, if that is not lost. *)
Definition worker_calls (ExecuteJob : string → ExecuteJobRequest → stM W (result err ExecuteJobResponse)) : Prop :=
  ∀ name req w r w', ExecuteJob name req w = (r, w') →
    (is_ok r = false ∧ db (world_of w') = db (world_of w) ∧
       (running w' ⊆+ running w ∨ ∃ wk, running w' ⊆+ running w ++ [RAccept (ejr_JobId req) wk])) ∨
    ∃ E n wk r' w1, MarkScheduled E (ejr_JobId req) wk (mkWorld (db (world_of w)) n) = (r', w1) ∧
      db (world_of w') = db w1 ∧ (is_ok r = true → is_ok r' = true) ∧
      running w' ⊆+ running w ++ (if is_ok r' then [RRun (ejr_JobId req)] else []).

Context (store : RelayStore W) (E : env) (rg : Ranger outbox_row).
Context (Dispatch : Job → stM W (result err string)).
Context (ApplyPlacement : string → string → stM W (result err unit)).
Hypothesis backed : pg_backed store E rg.
Hypothesis dispatch_ok : dispatch_sim Dispatch.
Hypothesis placement_ok : ∀ id wk w,
  db (world_of (ApplyPlacement id wk w).2) = db (world_of w) ∧ running (ApplyPlacement id wk w).2 = running w.

(** Some steps of one handler, matched by a run of the code. *)
Definition simulates (h : handler) (w w' : W) : Prop :=
  ∃ rs, hsteps (db (world_of w)) h (db (world_of w')) HDone rs ∧ running w' ⊆+ running w ++ rs.

Lemma acts_as_step {A} (m : stM W A) m0 w :
  acts_as m m0 →
  db (world_of (m w).2) = after m0 (db (world_of w)) (tick (world_of w)) ∧ running (m w).2 = running w.
Proof.
  intros H. destruct (H w) as [H1 H2]. unfold after. split; [|done].
  destruct (world_of w) as [d n]. cbn [db tick]. by rw H1.
Qed.

Lemma one_call {A} (m : stM W A) m0 h w :
  acts_as m m0 → (∀ d n, hstep d h (after m0 d n) HDone []) → simulates h w (m w).2.
Proof.
  intros Hm Hs. destruct (acts_as_step m m0 w Hm) as [Hdb Hrun].
  exists []. rw Hdb Hrun app_nil_r. split; [by apply hsteps_one|done].
Qed.

Lemma abandon_simulates e reason w : simulates (HAbandon e reason) w (abandon store e reason w).2.
Proof using backed.
  unfold abandon, st_bind.
  destruct (acts_as_step _ _ w (pb_failed _ _ _ backed (e_ID e) reason)) as [H1 R1].
  destruct (rs_MarkOutboxFailed store (e_ID e) reason w) as [r1 w1]. cbn [snd] in *.
  destruct (acts_as_step _ _ w1 (pb_finished _ _ _ backed (ID (e_Job e)) false reason)) as [H2 R2].
  destruct (rs_MarkFinished store (ID (e_Job e)) false reason w1) as [r2 w2]. cbn [snd st_ret] in *.
  exists []. rw app_nil_r R2 R1. split; [|done]. rw H2 H1.
  eapply (hsteps_cons _ _ _ _ [] _ _ []); [apply h_abandon|]. apply hsteps_one, h_fail.
Qed.

Lemma handle_simulates e w : simulates (HClaimed e) w (handle store Dispatch ApplyPlacement e w).2.
Proof using backed dispatch_ok placement_ok.
  assert (∀ w', simulates (decide_entry e) w w' → simulates (HClaimed e) w w') as Hdec.
  { intros w' (rs & H & Hr). exists ([] ++ rs). split; [|done]. econstructor; [apply h_decide|done]. }
  unfold handle. apply Hdec. unfold decide_entry. destruct (negb _).
  { pose proof (one_call _ _ (HClose e) w (pb_dispatched _ _ _ backed (e_ID e)) (λ d n, h_close E n d e)) as H.
    unfold st_bind. by destruct (rs_MarkOutboxDispatched store (e_ID e) w). }
  destruct (maxExecutionAttempts <=? _); [apply abandon_simulates|].
  destruct (maxDispatchAttempts <=? _); [apply abandon_simulates|].
  unfold st_bind at 1. destruct (Dispatch (e_Job e) w) as [r w1] eqn:Hd.
  destruct (dispatch_ok e w r w1 Hd) as (a & rs & Hs & Hsub & Hok).
  assert (∀ w', simulates (HDispatch e a) w1 w' → simulates (HDispatch e false) w w') as Hafter.
  { intros w' (rs' & H' & Hsub'). exists (rs ++ rs'). split; [by eapply hsteps_trans|].
    rw app_assoc. etrans; [exact Hsub'|]. by apply submseteq_skips_r. }
  apply Hafter. clear Hafter Hs Hsub. destruct r as [worker|er]; unfold st_bind.
  - rw (Hok eq_refl).
    destruct (one_call _ _ (HClose e) w1 (pb_dispatched _ _ _ backed (e_ID e)) (λ d n, h_close E n d e)) as (rs1 & H1 & R1).
    destruct (rs_MarkOutboxDispatched store (e_ID e) w1) as [r1 w2].
    destruct (placement_ok (ID (e_Job e)) worker w2) as [Hp Rp].
    destruct (ApplyPlacement (ID (e_Job e)) worker w2) as [r2 w3]. cbn [snd st_ret] in *.
    exists ([] ++ rs1). rw Hp Rp. split; [|done]. econstructor; [apply h_ack|done].
  - destruct (one_call _ _ (HRecord e (err_string er)) w1 (pb_record _ _ _ backed (e_ID e) (err_string er))
      (λ d n, h_record E n d e _)) as (rs1 & H1 & R1).
    destruct (rs_RecordOutboxFailure store (e_ID e) (err_string er) w1) as [r1 w2]. cbn [snd st_ret] in *.
    exists ([] ++ rs1). split; [|done]. econstructor; [apply h_refuse|done].
Qed.

Lemma batch_sys es w hs rns :
  let w' := (st_iter (handle store Dispatch ApplyPlacement) es w).2 in
  ∃ rs, rtc (sys_step Other) (mkSys (db (world_of w)) (hs ++ (HClaimed <$> es)) rns)
    (mkSys (db (world_of w')) (hs ++ ((λ _, HDone) <$> es)) (rns ++ rs)) ∧ running w' ⊆+ running w ++ rs.
Proof using backed dispatch_ok placement_ok.
  revert w hs rns. induction es as [|e es IH]; intros w hs rns; simpl.
  { exists []. rw !app_nil_r. split; [apply rtc_refl|done]. }
  destruct (handle_simulates e w) as (rs1 & H1 & R1).
  unfold st_bind. destruct (handle _ _ _ e w) as [[] w1]. simpl in H1, R1.
  destruct (IH w1 (hs ++ [HDone]) (rns ++ rs1)) as (rs2 & H2 & R2).
  exists (rs1 ++ rs2). split.
  - rw -!app_assoc in H2. etrans; [|exact H2].
    eapply (hsteps_other _ _ _ _ _ (length hs) (hs ++ HClaimed e :: (HClaimed <$> es)) rns) in H1.
    + rw insert_app_r_alt in H1; [|done]. by rw Nat.sub_diag in H1.
    + rw lookup_app_r; [|done]. by rw Nat.sub_diag.
  - rw app_assoc. etrans; [exact R2|]. by apply submseteq_skips_r.
Qed.

Lemma drain_sys w hs rns :
  let w' := (drain store Dispatch ApplyPlacement w).2 in
  ∃ k rs, rtc (sys_step Other) (mkSys (db (world_of w)) hs rns)
    (mkSys (db (world_of w')) (hs ++ replicate k HDone) (rns ++ rs)) ∧ running w' ⊆+ running w ++ rs.
Proof using backed dispatch_ok placement_ok.
  unfold drain, st_bind. destruct (pb_claim _ _ _ backed drainBatch w) as [Hc Rc].
  destruct (rs_ClaimOutbox store drainBatch w) as [r w1]. cbn [fst snd] in *.
  assert (db (world_of w1) = db (world_of w) ∧
    match r with Ok es => es = sql_claim_outbox rg drainBatch (db (world_of w)) | Err _ => True end) as [Hdb Hes].
  { unfold ClaimOutbox, query in Hc. destruct (env_fault E (tick (world_of w))); injection Hc as <- Hw1; by rw -Hw1. }
  destruct r as [es|er]; cbn [st_ret snd]; [|exists 0%nat, []; rw !app_nil_r Hdb Rc; split; [apply rtc_refl|done]].
  subst es. set (es := sql_claim_outbox rg drainBatch (db (world_of w))).
  destruct (batch_sys es w1 hs rns) as (rs & H & R).
  exists (length es), rs. rw (const_fmap (λ _, HDone) es HDone (λ _ _ _, eq_refl)) Hdb in H. rw Rc in R.
  split; [|done]. etrans; [|exact H]. by apply (claims_sys rg).
Qed.
End interface.

(** ** Lemmas: the dispatcher's code offers a job the way the system does *)

Section dispatcher.
Context {UU : PgUuid} {W : Type} (world_of : W → world) (running : W → list runner).
Context (candidates : option (W → list string)).
Context (ExecuteJob : string → ExecuteJobRequest → stM W (result err ExecuteJobResponse)).

Definition code_dispatch (d : Dispatcher) (job : Job) : stM W (result err string) :=
  λ w, let '((r, _), w') := Dispatch.Dispatch candidates ExecuteJob d job w in (r, w').

Lemma offer_hsteps e a0 lastErr ws w r w' :
  worker_calls world_of running ExecuteJob → offer ExecuteJob (e_Job e) lastErr ws w = (r, w') →
  ∃ a rs, hsteps (db (world_of w)) (HDispatch e a0) (db (world_of w')) (HDispatch e a) rs ∧
    running w' ⊆+ running w ++ rs ∧ (is_ok r = true → a = true).
Proof.
  intros Hw. revert a0 lastErr w. induction ws as [|name ws IH]; intros a0 lastErr w H; simpl in H.
  { unfold st_ret in H. simplify_eq. exists a0, []. rw app_nil_r. split; [constructor|done]. }
  unfold st_bind in H. destruct (ExecuteJob name _ w) as [r1 w1] eqn:Hx.
  assert (∀ a1 rs1, hsteps (db (world_of w)) (HDispatch e a0) (db (world_of w1)) (HDispatch e a1) rs1 →
    running w1 ⊆+ running w ++ rs1 → (is_ok r1 = true → a1 = true) →
    ∃ a rs, hsteps (db (world_of w)) (HDispatch e a0) (db (world_of w')) (HDispatch e a) rs ∧
      running w' ⊆+ running w ++ rs ∧ (is_ok r = true → a = true)) as Hnext.
  { intros a1 rs1 H1 R1 Hok1. destruct r1 as [resp|e1].
    - unfold st_ret in H. simplify_eq. exists a1, rs1. split; [done|]. split; [done|]. intros _. by apply Hok1.
    - destruct (IH a1 _ _ H) as (a & rs & Hs & R & Ha). exists a, (rs1 ++ rs). split; [by eapply hsteps_trans|]. split; [|done].
      rw app_assoc. etrans; [exact R|]. by apply submseteq_skips_r. }
  destruct (Hw _ _ _ _ _ Hx) as [(Hr & Hdb & [R|(wk & R)])|(E & n & wk & r' & w2 & Hm & Hdb & Hok & R)]; cbn [ejr_JobId] in *.
  - eapply (Hnext a0 []); [rw Hdb; constructor|by rw app_nil_r|by rw Hr].
  - eapply (Hnext a0 [RAccept (ID (e_Job e)) wk]); [rw Hdb; apply hsteps_one, h_late|done|by rw Hr].
  - destruct r' as [[]|e'].
    + eapply (Hnext true [RRun (ID (e_Job e))]); [rw Hdb; by eapply hsteps_one, h_accept|done|done].
    + eapply (Hnext a0 []); [rw Hdb; by eapply hsteps_one, h_reject|done|]. by intros Hr1%Hok.
Qed.

Lemma code_dispatch_sim d : worker_calls world_of running ExecuteJob → dispatch_sim world_of running (code_dispatch d).
Proof.
  intros Hw e w r w' H. unfold code_dispatch, Dispatch.Dispatch in H.
  destruct (eligible candidates d w) as [ws d']. destruct (Nat.eqb (length ws) 0).
  { simplify_eq. exists false, []. rw app_nil_r. split; [constructor|done]. }
  destruct (offer ExecuteJob (e_Job e) None ws w) as [r1 w1] eqn:Ho. simplify_eq. by eapply offer_hsteps.
Qed.
End dispatcher.

Lemma pg_store_backed {UU : PgUuid} (running : world → list runner) E rg :
  (∀ w w', running w = running w') → pg_backed (λ w, w) running (pg_relay_store E rg) E rg.
Proof. intros Hr. split; intros; intros w; (split; [apply surjective_pairing|apply Hr]). Qed.

(** ** Properties *)

(** C1: no intent is lost. However submissions, relays of any number of would-be
    leaders, workers, late answers, crashes, failing statements and reclaims
    interleave, every job that is pending in the table has a dispatch command
    that is still pending or was abandoned: no command is ever closed as
    dispatched under a job that is, or has gone back to, waiting. *)
Theorem no_lost_intent {UU : PgUuid} (st : sys) (j : string) (x : job_row) :
  reachable st → jobs (tables st) !! j = Some x → j_status x = StatusPending →
  ∃ c o, outbox (tables st) !! c = Some o ∧ o_job o = j ∧
    (o_status o = OutboxPending ∨ o_status o = OutboxFailed).
Proof.
  intros Hr Hx Hp. destruct (sys_inv_reachable st Hr) as (_ & _ & Hint).
  destruct (Hint j x Hx Hp) as (c & o & Ho & Hj & Hs & _). eauto 10.
Qed.

Lemma demo_env_ok : env_ok (UU := any_uuid) demo_env.
Proof. done. Qed.

(** The tables after one submission. *)
Definition submitted : DB := after (CreateJobWithOutbox (UU := any_uuid) demo_env "demo" EmptyString) (mkDB ∅ ∅) 0.

Lemma submitted_reachable : reachable (UU := any_uuid) (mkSys submitted [] []).
Proof.
  eapply rtc_l; [|apply rtc_refl]. exists Other.
  apply (s_submit (UU := any_uuid) demo_env 0 "demo" EmptyString sys_init demo_env_ok).
Qed.

Lemma no_lost_intent_witness :
  ∃ c o, outbox submitted !! c = Some o ∧ o_job o = "id-1" ∧
    (o_status o = OutboxPending ∨ o_status o = OutboxFailed).
Proof.
  apply (no_lost_intent (UU := any_uuid) (mkSys submitted [] []) "id-1"
    (new_job_row "demo" EmptyString 1000) submitted_reachable); by vm_compute.
Defined.

(** C3: the tables stay well typed. In every state that submissions, relays, workers,
    late answers, crashes, failing statements and reclaims can lead to, every status
    is one the CHECK constraints of the migrations allow, attempt counts fit their
    columns, every key is a canonical UUID, every command belongs to a job of the
    table, and every command that a relay holds is one of them. *)
Theorem tables_stay_typed {UU : PgUuid} (st : sys) :
  reachable st →
  (∀ j x, jobs (tables st) !! j = Some x →
     pg_uuid j = Some j ∧ valid_status (j_status x) = true ∧ 0 ≤ j_attempts x < 2 ^ 31) ∧
  (∀ c o, outbox (tables st) !! c = Some o →
     pg_uuid c = Some c ∧ valid_outbox_status (o_status o) = true ∧ 0 ≤ o_attempts o < 2 ^ 31 ∧
     is_Some (jobs (tables st) !! o_job o)) ∧
  (∀ h e, h ∈ handlers st → held h = Some e →
     ∃ o, outbox (tables st) !! e_ID e = Some o ∧ o_job o = ID (e_Job e)).
Proof.
  intros Hr. destruct (sys_inv_reachable st Hr) as ([Hj Ho] & Hheld & _).
  destruct (db_ok_reachable st Hr) as [Hjobs Hout]. split; [|split].
  - intros j x Hx. destruct (Hjobs j x Hx) as [H1 H2]. split; [apply Hj; by eexists|done].
  - intros c o Hc. destruct (Hout c o Hc) as (H1 & H2 & H3). split; [apply Ho; by eexists|done].
  - intros h e Hh He. rewrite ->Forall_forall in Hheld. by destruct (Hheld h Hh e He) as [_ ?].
Qed.

Lemma tables_stay_typed_witness :
  ∃ o, outbox submitted !! "id-2" = Some o ∧ is_Some (jobs submitted !! o_job o).
Proof.
  eexists. split; [by vm_compute|].
  apply (tables_stay_typed (UU := any_uuid) (mkSys submitted [] []) submitted_reachable) with (c := "id-2"). by vm_compute.
Defined.

(** The system covers the relay's code. One batch of the relay, with the
    dispatcher's code offering jobs to workers that record their acceptances, is a
    sequence of steps of the system from any state on, whatever statements fail. *)
Theorem relay_refines_system {UU : PgUuid} (E : env) (rg : Ranger outbox_row)
    (candidates : option (world → list string))
    (ExecuteJob : string → ExecuteJobRequest → stM world (result err ExecuteJobResponse))
    (disp : Dispatcher) (ApplyPlacement : string → string → stM world (result err unit))
    (w : world) (hs : list handler) (rns : list runner) :
  worker_calls (λ w, w) (λ _, []) ExecuteJob → (∀ id wk w, db (ApplyPlacement id wk w).2 = db w) →
  ∃ k rs, rtc sys_any (mkSys (db w) hs rns)
    (mkSys (db (drain (pg_relay_store E rg) (code_dispatch candidates ExecuteJob disp) ApplyPlacement w).2)
       (hs ++ replicate k HDone) (rns ++ rs)).
Proof.
  intros Hw Hp.
  destruct (drain_sys (λ w, w) (λ _, []) (pg_relay_store E rg) E rg (code_dispatch candidates ExecuteJob disp)
    ApplyPlacement (pg_store_backed (λ _, []) E rg (λ _ _, eq_refl)) (code_dispatch_sim _ _ candidates ExecuteJob disp Hw)
    (λ id wk w, conj (Hp id wk w) eq_refl) w hs rns) as (k & rs & H & _).
  exists k, rs. by apply other_any.
Qed.

(** *** Runs that lose a job *)


(** The job, accepted by worker-1, its command closed. *)
Definition entry1 : OutboxEntry := stuck_entry.
Definition accepted1 : DB :=
  after (MarkScheduled (UU := any_uuid) demo_env "id-1" "worker-1") submitted 10.
Definition closed1 : DB := after (MarkOutboxDispatched (UU := any_uuid) demo_env "id-2") accepted1 11.

Lemma closed1_reachable : reachable (UU := any_uuid) (mkSys closed1 [HDone] [RRun "id-1"]).
Proof.
  unfold reachable; etrans; [apply submitted_reachable|].
  eapply rtc_l; [exists Other; apply (s_claim (ranger_asc _) entry1 (mkSys submitted [] []))|].
  { replace (sql_claim_outbox _ _ _) with [entry1] by (by vm_compute). set_solver. }
  simpl. eapply (hsteps_sys (UU := any_uuid) submitted (HClaimed entry1) closed1 HDone [RRun "id-1"] 0
    [HClaimed entry1] []); [|done].
  eapply (hsteps_cons _ _ _ _ [] _ _ [RRun "id-1"]); [apply h_decide|].
  eapply (hsteps_cons _ (decide_entry entry1) accepted1 (HDispatch entry1 true) [RRun "id-1"] _ _ []).
  { eapply (h_accept demo_env 10 "worker-1" submitted entry1 false
      (MarkScheduled (UU := any_uuid) demo_env "id-1" "worker-1" (mkWorld submitted 10)).2). by vm_compute. }
  eapply (hsteps_cons _ _ _ _ [] _ _ []); [apply h_ack|].
  apply hsteps_one. apply (h_close demo_env 11 accepted1 entry1).
Qed.

(** A run that never reclaims from worker [wk]. *)
Definition without_reclaim {UU : PgUuid} (wk : string) : sys → sys → Prop :=
  rtc (λ st st', ∃ l, l ≠ Reclaim wk ∧ sys_step l st st').

Lemma stranded_run {UU : PgUuid} wk st st' j x :
  (∀ wk', wk' ≠ wk → reclaimable wk' x = false) →
  sys_inv st → stranded j x st → without_reclaim wk st st' → stranded j x st'.
Proof.
  intros Hwk Hinv Hs Hrun. induction Hrun as [|a b c (l & Hl & Hab) _ IH]; [done|].
  apply IH; [by eapply sys_inv_step|]. eapply stranded_step; [done|done|done|].
  intros wk' ->. apply Hwk. congruence.
Qed.

(** A statement of a worker's run that fails once loses the job while the
    worker lives. After a failed MarkRunning nothing is left that knows of the
    job: it stays scheduled on its worker in every continuation, until the
    reaper reclaims from that worker, which it does only once the worker is
    presumed dead. *)
Theorem failed_start_strands_job :
  ∃ st j x, reachable (UU := any_uuid) st ∧ jobs (tables st) !! j = Some x ∧
    j_status x = StatusScheduled ∧ j_worker x = Some "worker-1" ∧
    ∀ st', without_reclaim (UU := any_uuid) "worker-1" st st' → jobs (tables st') !! j = Some x.
Proof.
  set (x := set_scheduled 1010 "worker-1" (new_job_row "demo" EmptyString 1000)).
  exists (mkSys closed1 [HDone] [RDone]), "id-1", x.
  assert (reachable (UU := any_uuid) (mkSys closed1 [HDone] [RDone])) as Hr.
  { unfold reachable; etrans; [apply closed1_reachable|]. eapply rtc_l; [|apply rtc_refl]. exists Other.
    eapply (s_runner 0 (RRun "id-1") closed1 RDone (mkSys closed1 [HDone] [RRun "id-1"])); [done|].
    apply (r_run (failing_env 20) 20 "id-1" true EmptyString closed1
      (Err (EWrap "store: " (EText "conn closed"))) (mkWorld closed1 21)). by vm_compute. }
  split; [done|]. split; [by vm_compute|]. split; [done|]. split; [done|].
  intros st' Hrun. apply (stranded_run (UU := any_uuid) "worker-1" (mkSys closed1 [HDone] [RDone]) st' "id-1" x);
    [|by apply sys_inv_reachable| |done].
  - intros wk' Hne. change (String.eqb "worker-1" wk' && true = false). rw andb_true_r.
    apply String.eqb_neq. congruence.
  - split; [by vm_compute|]. split; [done|]. split; [by repeat constructor|]. split; [by repeat constructor|].
    intros c o Ho Hp _. revert Hp.
    assert (map_Forall (λ _ o, o_status o ≠ OutboxPending) (outbox closed1)) as Hall
      by (apply (bool_decide_unpack _); by vm_compute).
    by apply (Hall c o).
Qed.

(** C36: status updates are not guarded. A worker presumed dead between accepting
    a job and starting it marks the reclaimed job running with no worker
    assigned; the fresh command is then closed, and if that worker does stop, the
    job stays running for ever: in no continuation at all does it change again,
    because the reaper looks for a worker's jobs by their assignment. *)
Theorem late_start_strands_job :
  ∃ st j x, reachable (UU := any_uuid) st ∧ jobs (tables st) !! j = Some x ∧
    j_status x = StatusRunning ∧ j_worker x = None ∧
    ∀ st', rtc (sys_any (UU := any_uuid)) st st' → jobs (tables st') !! j = Some x.
Proof.
  set (reclaimed := after (ReclaimJobs (UU := any_uuid) demo_env (ranger_asc _) "worker-1") closed1 30).
  set (running := after (MarkRunning (UU := any_uuid) demo_env "id-1") reclaimed 40).
  set (final := after (MarkOutboxDispatched (UU := any_uuid) demo_env "id-32") running 41).
  set (x := set_running 1040 1 (set_reclaimed 1030 (set_scheduled 1010 "worker-1" (new_job_row "demo" EmptyString 1000)))).
  set (entry2 := mkOutboxEntry "id-32" 0 (scanJob "id-1" x)).
  exists (mkSys final [HDone; HDone] [RDone]), "id-1", x.
  assert (reachable (UU := any_uuid) (mkSys final [HDone; HDone] [RDone])) as Hr.
  { unfold reachable; etrans; [apply closed1_reachable|].
    eapply rtc_l; [exists (Reclaim "worker-1");
      apply (s_reclaim (UU := any_uuid) demo_env 30 (ranger_asc _) "worker-1" (mkSys closed1 [HDone] [RRun "id-1"])
        demo_env_ok)|]. simpl.
    eapply rtc_l; [exists Other; eapply (s_runner 0 (RRun "id-1") running (RFinish "id-1" true EmptyString)
      (mkSys reclaimed [HDone] [RRun "id-1"])); [done|]|].
    { apply (r_run demo_env 40 "id-1" true EmptyString reclaimed (Ok tt)
        (MarkRunning (UU := any_uuid) demo_env "id-1" (mkWorld reclaimed 40)).2). by vm_compute. }
    eapply rtc_l; [exists Other; apply (s_claim (ranger_asc _) entry2
      (mkSys running [HDone] [RFinish "id-1" true EmptyString]))|].
    { replace (sql_claim_outbox _ _ _) with [entry2] by (by vm_compute). set_solver. }
    etrans; [apply (hsteps_sys (UU := any_uuid) running (HClaimed entry2) final HDone [] 1
      [HDone; HClaimed entry2] [RFinish "id-1" true EmptyString]); [|done]|].
    { eapply (hsteps_cons _ _ _ _ [] _ _ []); [apply h_decide|]. apply hsteps_one.
      apply (h_close demo_env 41 running entry2). }
    simpl. eapply rtc_l; [|apply rtc_refl]. exists Other.
    apply (s_runner (UU := any_uuid) 0 (RFinish "id-1" true EmptyString) final RDone
      (mkSys final [HDone; HDone] [RFinish "id-1" true EmptyString])); [done|]. apply r_stop. }
  split; [done|]. split; [by vm_compute|]. split; [done|]. split; [done|]. intros st' Hrun.
  assert (stranded (UU := any_uuid) "id-1" x (mkSys final [HDone; HDone] [RDone])) as Hs.
  { split; [by vm_compute|]. split; [done|]. split; [by repeat constructor|]. split; [by repeat constructor|].
    intros c o Ho Hp _. revert Hp.
    assert (map_Forall (λ _ o, o_status o ≠ OutboxPending) (outbox final)) as Hall
      by (apply (bool_decide_unpack _); by vm_compute).
    by apply (Hall c o). }
  apply sys_inv_reachable in Hr. revert Hr Hs. generalize dependent (mkSys final [HDone; HDone] [RDone]).
  induction 1 as [|a b c [l Hab] _ IH]; [by intros _ [? _]|]. intros Ha Hs.
  apply IH; [by eapply sys_inv_step|]. eapply stranded_step; [done|done|done|]. by intros wk ->.
Qed.
