(* ===== verification/Protoconv.v ===== *)
(** * internal/protoconv: store rows and wire messages *)

From S2P Require Import Prelude GoRuntime Proto Store.
Local Open Scope Z_scope.

Definition statusToProto : gmap string JobStatus :=
  {[ StatusPending := JOB_STATUS_PENDING;
     StatusScheduled := JOB_STATUS_SCHEDULED;
     StatusRunning := JOB_STATUS_RUNNING;
     StatusSucceeded := JOB_STATUS_SUCCEEDED;
     StatusFailed := JOB_STATUS_FAILED ]}.

(** [for s, p := range statusToProto { m[p] = s }]: a map from the enum, as its
    lookup function. *)
Definition statusFromProto (rg : Ranger JobStatus) : JobStatus → option string :=
  foldl (λ m sp, λ q, if decide (q = sp.2) then Some sp.1 else m q) (λ _, None)
    (rg 0%nat statusToProto).

Definition StatusToProto (s : string) : JobStatus :=
  default JOB_STATUS_UNSPECIFIED (statusToProto !! s).

Definition StatusFromProto (rg : Ranger JobStatus) (s : JobStatus) : string :=
  default EmptyString (statusFromProto rg s).

Definition JobToProto (j : Job) : ProtoJob :=
  mkProtoJob (ID j) (Name j) (Payload j) (StatusToProto (Status j)) (AssignedWorker j)
    (u32 (Attempts j)) (Error_ j) (Some (CreatedAt j)) (Some (UpdatedAt j))
    (StartedAt j) (FinishedAt j).

(** ** Lemmas *)

(** A loop [m[p] = s] over pairs with distinct [p] is the inverse lookup. *)
Lemma inverse_loop (l : list (string * JobStatus)) m0 s p :
  NoDup l.*2 → (s, p) ∈ l →
  foldl (λ m sp, λ q, if decide (q = sp.2) then Some sp.1 else m q) m0 l p = Some s.
Proof.
  revert m0. induction l as [|[s0 p0] l IH]; intros m0 Hnd Hin; [set_solver|].
  simpl in *. inversion_clear Hnd as [|? ? Hni Hnd'].
  apply elem_of_cons in Hin as [[= <- <-]|Hin]; [|by apply IH].
  clear IH. assert (∀ m1, m1 p = Some s →
    foldl (λ m sp, λ q, if decide (q = sp.2) then Some sp.1 else m q) m1 l p = Some s) as Hk.
  { clear Hnd'. induction l as [|[s1 p1] l IH]; intros m1 Hm1; simpl; [done|].
    apply IH; [set_solver|]. simpl. rw decide_False; [done|]. set_solver. }
  apply Hk. simpl. by rw decide_True.
Qed.

Lemma inverse_loop_none (l : list (string * JobStatus)) m0 p :
  p ∉ l.*2 → foldl (λ m sp, λ q, if decide (q = sp.2) then Some sp.1 else m q) m0 l p = m0 p.
Proof.
  revert m0. induction l as [|[s0 p0] l IH]; intros m0 Hni; simpl; [done|].
  rw IH; [|set_solver]. simpl. rw decide_False; [done|]. set_solver.
Qed.

Lemma StatusFromProto_spec rg p :
  StatusFromProto rg p =
    match p with
    | JOB_STATUS_PENDING => StatusPending
    | JOB_STATUS_SCHEDULED => StatusScheduled
    | JOB_STATUS_RUNNING => StatusRunning
    | JOB_STATUS_SUCCEEDED => StatusSucceeded
    | JOB_STATUS_FAILED => StatusFailed
    | _ => EmptyString
    end.
Proof.
  unfold StatusFromProto, statusFromProto. set (l := rg 0%nat statusToProto).
  assert (NoDup l.*2) as Hnd.
  { unfold l. rw (range_perm rg 0 statusToProto). apply (bool_decide_unpack _). by vm_compute. }
  assert (∀ s q, statusToProto !! s = Some q → (s, q) ∈ l) as Hin.
  { intros s q H. by apply elem_of_range. }
  assert (∀ q, q ∉ (map_to_list statusToProto).*2 → q ∉ l.*2) as Hout.
  { intros q Hq. unfold l. by rw (range_perm rg 0 statusToProto). }
  destruct p.
  - rw inverse_loop_none; [done|]. apply Hout. apply (bool_decide_unpack _). by vm_compute.
  - rw (inverse_loop l _ StatusPending); [done|done|]. by apply Hin.
  - rw (inverse_loop l _ StatusScheduled); [done|done|]. by apply Hin.
  - rw (inverse_loop l _ StatusRunning); [done|done|]. by apply Hin.
  - rw (inverse_loop l _ StatusSucceeded); [done|done|]. by apply Hin.
  - rw (inverse_loop l _ StatusFailed); [done|done|]. by apply Hin.
  - rw inverse_loop_none; [done|]. apply Hout.
    intros ([s q] & Hq & Hmem)%list_elem_of_fmap. simpl in Hq. subst.
    vm_compute in Hmem. repeat (apply elem_of_cons in Hmem as [Hmem|Hmem]; [done|]). by apply not_elem_of_nil in Hmem.
Qed.

Lemma StatusToProto_valid s :
  valid_status s = true ∨ StatusToProto s = JOB_STATUS_UNSPECIFIED.
Proof.
  unfold StatusToProto. destruct (statusToProto !! s) as [p|] eqn:H; [left|by right].
  apply elem_of_map_to_list in H. vm_compute in H.
  repeat (apply elem_of_cons in H as [H|H]; [injection H as -> ->; done|]). by apply not_elem_of_nil in H.
Qed.

Lemma StatusToProto_unknown s : valid_status s = false → StatusToProto s = JOB_STATUS_UNSPECIFIED.
Proof. intros Hv. by destruct (StatusToProto_valid s) as [H|]; [congruence|]. Qed.

Lemma status_back rg s : valid_status s = true → StatusFromProto rg (StatusToProto s) = s.
Proof.
  unfold valid_status. rw !orb_true_iff !String.eqb_eq.
  intros [[[[-> | ->] | ->] | ->] | ->]; by rw StatusFromProto_spec.
Qed.

(** ** Properties *)

(** The row a wire job was made from. *)
Definition job_of_proto (rg : Ranger JobStatus) (p : ProtoJob) : Job :=
  mkJob (pj_Id p) (pj_Name p) (pj_Payload p) (StatusFromProto rg (pj_Status p)) (pj_AssignedWorkerId p)
    (pj_Attempts p) (pj_Error p) (default 0 (pj_CreatedAt p)) (default 0 (pj_UpdatedAt p))
    (pj_StartedAt p) (pj_FinishedAt p).

(** Nothing is lost on the wire. Every row whose status the table's CHECK
    admits and whose attempts fit the column is recovered from its wire message,
    whatever order the inverse status map was built in. *)
Theorem job_wire_roundtrip (rg : Ranger JobStatus) (j : Job) :
  valid_status (Status j) = true → 0 ≤ Attempts j < 2 ^ 31 → job_of_proto rg (JobToProto j) = j.
Proof.
  intros Hs Ha. unfold job_of_proto, JobToProto. destruct j. simpl in *.
  rw status_back; [|done]. rw wrap_u_small; [done|lia].
Qed.

Lemma job_wire_roundtrip_witness :
  job_of_proto (ranger_desc _) (JobToProto (scanJob "j1" (set_scheduled 7 "worker-1" (new_job_row "a" "x" 1)))) =
    scanJob "j1" (set_scheduled 7 "worker-1" (new_job_row "a" "x" 1)).
Proof. apply (job_wire_roundtrip (ranger_desc _)); [done|simpl; lia]. Defined.
