(* ===== verification/RaftNode.v ===== *)
(** * internal/raftnode: the placement state machine and the node around it

    hashicorp/raft is a parameter: its state, leader, statistics, configuration
    and the outcome of a replicated [Apply]. Log entries and snapshots are the JSON
    texts encoding/json writes and reads for the two structs. An instant is kept
    without the zone it was written in, and the nil slice is the empty list. *)

From S2P Require Import Prelude GoRuntime Json GoTime.
Local Open Scope Z_scope.

Definition maxRecentPlacements : nat := 16.

Record Placement : Type := mkPlacement {
  JobID : string;
  Worker : string;
  At : Z;
}.

#[export] Instance Placement_eq_dec : EqDecision Placement.
Proof. solve_decision. Defined.

(** [fsmState]; [Count] is a uint64. *)
Record fsmState : Type := mkFsmState {
  Count : Z;
  Recent : list Placement;
}.

#[export] Instance fsmState_eq_dec : EqDecision fsmState.
Proof. solve_decision. Defined.

Definition fsm_zero : fsmState := mkFsmState 0 [].

(** ** JSON texts *)

Section codec.
Context {JE : JsonEnv}.

(** The fields of [Placement], in order. *)
Definition f_job_id : bytes * decoder Placement :=
  field "job_id" JobID (λ x p, mkPlacement x (Worker p) (At p)) dec_string.
Definition f_worker : bytes * decoder Placement :=
  field "worker" Worker (λ x p, mkPlacement (JobID p) x (At p)) dec_string.
Definition f_at : bytes * decoder Placement :=
  field "at" At (λ x p, mkPlacement (JobID p) (Worker p) x) dec_time.
Definition placement_fields : fields Placement := [f_job_id; f_worker; f_at].

Definition zero_placement : Placement := mkPlacement EmptyString EmptyString zero_time.

Definition placement_json (p : Placement) : option json :=
  match jtime (At p) with
  | Some at_ => Some (JObject [jmember "job_id" (jstr (JobID p)); jmember "worker" (jstr (Worker p)); jmember "at" at_])
  | None => None
  end.

(** The fields of [fsmState]. *)
Definition f_count : bytes * decoder fsmState :=
  field "count" Count (λ x s, mkFsmState x (Recent s)) dec_uint.
Definition f_recent : bytes * decoder fsmState :=
  field "recent" Recent (λ x s, mkFsmState (Count s) x) (dec_slice zero_placement (decode_struct placement_fields)).
Definition state_fields : fields fsmState := [f_count; f_recent].

(** A nil slice is written as null. *)
Definition recent_json (ps : list Placement) : option json :=
  match ps with
  | [] => Some JNull
  | _ => match mapM placement_json ps with Some l => Some (JArray l) | None => None end
  end.

Definition state_json (st : fsmState) : option json :=
  match recent_json (Recent st) with
  | Some r => Some (JObject [jmember "count" (juint (Count st)); jmember "recent" r])
  | None => None
  end.

Definition year_error : err :=
  EText "json: error calling MarshalJSON for type time.Time: Time.MarshalJSON: year outside of range [0,9999]".

Definition marshal {A} (to_json : A → option json) (a : A) : result err string :=
  match to_json a with Some v => Ok (text_of v) | None => Err year_error end.

(** ** The state machine *)

Definition trim_recent (recent : list Placement) : list Placement :=
  if (maxRecentPlacements <? length recent)%nat
  then drop (length recent - maxRecentPlacements) recent else recent.

(** [Apply]: the error it returns, and the state. *)
Definition Apply (data : string) (st : fsmState) : option err * fsmState :=
  match Unmarshal (decode_struct placement_fields) zero_placement data with
  | Err e => (Some (EWrap "raftnode: decode placement entry: " e), st)
  | Ok p => (None, mkFsmState (u64 (Count st + 1)) (trim_recent (Recent st ++ [p])))
  end.

Definition Placements (st : fsmState) : Z * list Placement := (Count st, Recent st).

Definition Snapshot (st : fsmState) : result err string := marshal state_json st.

Definition Restore (data : string) (st : fsmState) : option err * fsmState :=
  match Decode (decode_struct state_fields) fsm_zero data false with
  | Err e => (Some e, st)
  | Ok st' => (None, st')
  end.

(** [Persist]: the sink's [Write] and [Close]; a failed write cancels. *)
Inductive sink_end : Type := SinkClosed | SinkCancelled.
Definition Persist (write close : option err) : option err * sink_end :=
  match write with
  | Some e => (Some e, SinkCancelled)
  | None => (close, SinkClosed)
  end.

(** The state machine of a node that was handed [log], oldest entry first. *)
Definition replay (log : list string) (st : fsmState) : fsmState :=
  foldl (λ st data, (Apply data st).2) st log.

(** The placements among the entries of a log. *)
Definition decoded (log : list string) : list Placement :=
  omap (λ data, match Unmarshal (decode_struct placement_fields) zero_placement data with
                | Ok p => Some p
                | Err _ => None
                end) log.
End codec.

(** ** The node *)

(** [strconv.ParseUint(s, 10, 64)]'s value: 0 on a syntax error, the largest
    uint64 on overflow, whichever is met first. *)
Definition max_u64 : Z := 2 ^ 64 - 1.
Definition cutoff_u64 : Z := max_u64 / 10 + 1.

Definition digit_value (c : Ascii.ascii) : option Z :=
  let n := Z.of_nat (Ascii.nat_of_ascii c) in
  if (48 <=? n) && (n <=? 57) then Some (n - 48) else None.

Fixpoint parse_digits (n : Z) (s : string) : Z :=
  match s with
  | EmptyString => n
  | String c s' =>
      match digit_value c with
      | None => 0
      | Some d =>
          if cutoff_u64 <=? n then max_u64
          else if max_u64 <? n * 10 + d then max_u64
          else parse_digits (n * 10 + d) s'
      end
  end.

Definition parse_uint (s : string) : Z :=
  if String.eqb s EmptyString then 0 else parse_digits 0 s.

Definition statUint (stats : gmap string string) (key : string) : Z :=
  parse_uint (default EmptyString (stats !! key)).

Record Info : Type := mkInfo {
  i_State : string;
  i_LeaderID : string;
  i_Term : Z;
  i_LastLogIndex : Z;
  i_AppliedIndex : Z;
  i_Peers : list string;
  i_PlacementCount : Z;
  i_RecentPlacements : list Placement;
}.

(** What a node asks of the raft library. *)
Record RaftLib (R : Type) : Type := mkRaftLib {
  raft_State : R → string;
  raft_LeaderWithID : R → string * string;
  raft_Stats : R → gmap string string;
  raft_GetConfiguration : R → result err (list (string * string));
  raft_Apply : string → stM R (result err (option err));
}.
Arguments raft_State {R} _ _.
Arguments raft_LeaderWithID {R} _ _.
Arguments raft_Stats {R} _ _.
Arguments raft_GetConfiguration {R} _ _.
Arguments raft_Apply {R} _ _.

Section node.
Context {R : Type} (lib : RaftLib R).

Definition IsLeader (r : R) : bool := String.eqb (raft_State lib r) "Leader".
Definition LeaderID (r : R) : string := (raft_LeaderWithID lib r).2.

Definition ApplyPlacement (now : Z) (jobID worker : string) : stM R (option err) :=
  match marshal placement_json (mkPlacement jobID worker now) with
  | Err e => st_ret (Some e)
  | Ok data =>
      st_bind (raft_Apply lib data) (λ r,
      st_ret (match r with
              | Err e => Some (EWrap "raftnode: apply placement: " e)
              | Ok resp => resp
              end))
  end.

Definition info (r : R) (fsm : fsmState) : Info :=
  let stats := raft_Stats lib r in
  let '(count, recent) := Placements fsm in
  let peers := match raft_GetConfiguration lib r with
               | Ok servers => sort_strings servers.*1
               | Err _ => []
               end in
  mkInfo (raft_State lib r) (LeaderID r) (statUint stats "term") (statUint stats "last_log_index")
    (statUint stats "applied_index") peers count recent.
End node.

(** The part of [New] that reads the configuration: this member's advertised
    address, and the bootstrap configuration of a first boot. *)
Definition advertise (peers : gmap string string) (instance : string) : result err string :=
  match peers !! instance with
  | Some a => Ok a
  | None => Err (EText ("raftnode: instance " +:+ go_quote instance +:+ " missing from IRONWORK_RAFT_PEERS"))
  end.

Definition bootstrap_servers (rg : Ranger string) (peers : gmap string string) : list (string * string) :=
  go_sort (λ a b : string * string, str_ltb a.1 b.1) (rg 0%nat peers).

(** ** Lemmas *)

(** The last sixteen, newest last. *)
Definition last_recent (ps : list Placement) : list Placement :=
  drop (length ps - maxRecentPlacements) ps.

Lemma trim_recent_last ps p : trim_recent (last_recent ps ++ [p]) = last_recent (ps ++ [p]).
Proof.
  unfold trim_recent, last_recent, maxRecentPlacements. rw !length_app length_drop /=.
  destruct (decide (16 ≤ length ps)%nat) as [H|H].
  - replace (16 <? length ps - (length ps - 16) + 1)%nat with true by (symmetry; apply Nat.ltb_lt; lia).
    rw (drop_app_le (drop _ ps)); [|rw length_drop; lia]. rw drop_drop drop_app_le; [|lia]. do 2 f_equal. lia.
  - replace (length ps - 16)%nat with 0%nat by lia. replace (length ps + 1 - 16)%nat with 0%nat by lia.
    replace (16 <? length ps - 0 + 1)%nat with false; [done|]. symmetry. apply Nat.ltb_ge. lia.
Qed.

Section codec_lemmas.
Context {JE : JsonEnv}.

Lemma replay_app log log' st : replay (log ++ log') st = replay log' (replay log st).
Proof. apply foldl_app. Qed.

Lemma u64_succ n : u64 (u64 n + 1) = u64 (n + 1).
Proof. unfold wrap_u. by rw Zplus_mod_idemp_l. Qed.

Lemma replay_decoded log :
  replay log fsm_zero = mkFsmState (u64 (Z.of_nat (length (decoded log)))) (last_recent (decoded log)).
Proof.
  induction log as [|data log IH] using rev_ind; [done|].
  rw replay_app IH. unfold decoded. rw omap_app. cbn [replay foldl omap list_omap]. unfold Apply.
  destruct (Unmarshal _ _ data) as [p|e]; cbn [snd Count Recent]; [|by rw app_nil_r].
  rw trim_recent_last length_app /= u64_succ. do 2 f_equal. lia.
Qed.

(** The names in a placement are well-formed UTF-8. *)
Definition placement_ok (p : Placement) : Prop := utf8 (JobID p) ∧ utf8 (Worker p).

Lemma fields_keep_ok : Forall (keeps placement_ok) placement_fields.
Proof.
  unfold placement_fields. rw !Forall_cons.
  split_and!; [apply field_keeps; intros a raw v b [Hj Hw] H; split; cbn [JobID Worker]; eauto using dec_string_utf8..|].
  apply Forall_nil_2.
Qed.

Lemma decoded_ok log : Forall placement_ok (decoded log).
Proof.
  apply Forall_forall. intros p (data & _ & H)%list_elem_of_omap. revert H. unfold Unmarshal.
  destruct (parse _) as [v|]; [|done]. cbn [mbind option_bind].
  case_match eqn:E; [|done]. case_match eqn:E2; [|done]. simplify_eq. intros [= ->].
  eapply (decode_struct_inv placement_ok); [apply fields_keep_ok| |exact E2]. done.
Qed.

(** A placement is read back from the text it is written as. *)
Lemma placement_roundtrip p v old d :
  placement_ok p → placement_json p = Some v →
  json_ok v (S d) = true ∧ decode_struct placement_fields old [] v = Some p.
Proof.
  intros [Hj Hw]. unfold placement_json. case_match eqn:E; [|done]. intros <-%(inj Some).
  destruct (jtime_roundtrip _ _ zero_time d E) as [Hok _]. split.
  - apply jobject_ok. rw !Forall_cons. split_and!; [apply jmember_ok; auto using jstr_ok; done..|apply Forall_nil_2].
  - cbn [decode_struct]. rw (decode_field _ _ _ _ _ f_job_id.2) //. cbn [f_job_id field snd]. rw dec_string_jstr //.
    rw (decode_field _ _ _ _ _ f_worker.2) //. cbn [f_worker field snd]. rw dec_string_jstr //.
    rw (decode_field _ _ _ _ _ f_at.2) //. cbn [f_at field snd]. rw (proj2 (jtime_roundtrip _ _ _ d E)). by destruct p.
Qed.

Lemma recent_roundtrip ps l d :
  Forall placement_ok ps → mapM placement_json ps = Some l →
  forallb (λ v, json_ok v (S d)) l = true ∧
  decode_elems zero_placement (decode_struct placement_fields) [] l = Some ps.
Proof.
  intros Hok Hm. apply mapM_Some_1 in Hm. revert Hok. induction Hm as [|p v ps l Hp _ IH]; intros Hok; [done|].
  apply Forall_cons in Hok as [H1 H2]. destruct (IH H2) as [Hj Hd].
  destruct (placement_roundtrip p v zero_placement d H1 Hp) as [Hpj Hpd].
  cbn [forallb decode_elems default head tail from_option id]. rw Hpd. unfold tail. by rw Hd Hpj Hj.
Qed.

Lemma state_roundtrip st v :
  Forall placement_ok (Recent st) → 0 ≤ Count st < 2 ^ 64 → state_json st = Some v →
  json_ok v maxNestingDepth = true ∧ decode_struct state_fields fsm_zero [] v = Some st.
Proof.
  intros Hok Hc. destruct max_depth as [d ->]. unfold state_json. case_match eqn:E; [|done]. intros <-%(inj Some).
  rename select json into r.
  assert (json_ok r (S (S d)) = true ∧
          dec_slice zero_placement (decode_struct placement_fields) [] (print r) r = Some (Recent st)) as [Hr Hd].
  { unfold recent_json in E. destruct (Recent st) as [|p ps]; [by simplify_eq|].
    case_match eqn:Hm; [|done]. apply (inj Some) in E as <-. by apply (recent_roundtrip (p :: ps)). }
  split.
  - apply jobject_ok. rw !Forall_cons. split_and!; [apply jmember_ok; auto using juint_ok; done..|apply Forall_nil_2].
  - cbn [decode_struct]. rw (decode_field _ _ _ _ _ f_count.2) //. cbn [f_count field snd]. rw dec_uint_juint //.
    rw (decode_field _ _ _ _ _ f_recent.2) //. cbn [f_recent field snd Recent fsm_zero]. rw Hd. by destruct st.
Qed.

(** A snapshot can be written exactly when every instant in it has a year of four
    digits. *)
Lemma snapshot_ok st :
  is_ok (Snapshot st) = true ↔ Forall (λ p, is_Some (format_rfc3339 (At p))) (Recent st).
Proof.
  assert (∀ p, is_Some (placement_json p) ↔ is_Some (format_rfc3339 (At p))) as Hp.
  { intros p. unfold placement_json, jtime. destruct (format_rfc3339 (At p)); rw !is_Some_alt //. }
  unfold Snapshot, marshal, state_json, recent_json. destruct (Recent st) as [|p ps]; [done|].
  assert (is_Some (mapM placement_json (p :: ps)) ↔ Forall (λ p, is_Some (format_rfc3339 (At p))) (p :: ps)) as <-.
  { rw mapM_is_Some. split; intros H; (eapply Forall_impl; [exact H|]); intros q; apply Hp. }
  destruct (mapM placement_json (p :: ps)); split; done || by intros [].
Qed.
End codec_lemmas.

(** ** Properties *)

(** The replicated history. Whatever log the consensus group agreed on, a node
    that replays it ends with the number of well-formed entries (as a uint64) and
    the last sixteen placements in log order; undecodable entries change nothing.
    So nodes that applied the same log report the same history. *)
Theorem fsm_replay_history {JE : JsonEnv} (log : list string) :
  let '(count, recent) := Placements (replay log fsm_zero) in
  count = u64 (Z.of_nat (length (decoded log))) ∧
  recent `suffix_of` decoded log ∧
  length recent = (length (decoded log) `min` maxRecentPlacements)%nat.
Proof.
  rw replay_decoded. simpl. split; [done|]. unfold last_recent. split; [apply suffix_drop|].
  rw length_drop. unfold maxRecentPlacements. lia.
Qed.


(** The text of an entry, or of a snapshot. *)
Definition text_or_empty (r : result err string) : string := match r with Ok d => d | Err _ => EmptyString end.
Definition demo_entry : string := text_or_empty (marshal placement_json (mkPlacement "j1" "worker-1" 1500000000)).
Definition demo_snapshot : string :=
  text_or_empty (Snapshot (replay (JE := demo_json_env) [demo_entry; "garbage"] fsm_zero)).


(** C24: what the leader proposes is what every member applies. Unless the clock
    has left the years 0 to 9999, [ApplyPlacement] hands the group an entry that
    any member's state machine, in whatever state, decodes to this very placement
    and appends; its caller gets the group's verdict. *)
Theorem proposed_placement_applies {JE : JsonEnv} {R : Type} (lib : RaftLib R) (now : Z) (jobID worker : string) (r : R) :
  utf8 jobID → utf8 worker →
  match format_rfc3339 now with
  | None => ApplyPlacement lib now jobID worker r = (Some year_error, r)
  | Some _ => ∃ data,
      ApplyPlacement lib now jobID worker r =
        (let '(answer, r') := raft_Apply lib data r in
         (match answer with Ok e => e | Err e => Some (EWrap "raftnode: apply placement: " e) end, r')) ∧
      ∀ st, Apply data st =
        (None, mkFsmState (u64 (Count st + 1)) (trim_recent (Recent st ++ [mkPlacement jobID worker now])))
  end.
Proof.
  intros Hj Hw. unfold ApplyPlacement, marshal. destruct (placement_json (mkPlacement jobID worker now)) as [v|] eqn:E.
  - pose proof E as E'. unfold placement_json, jtime in E'. cbn [At] in E'.
    destruct (format_rfc3339 now); [|done]. exists (text_of v). split.
    { unfold st_bind, st_ret. by destruct (raft_Apply lib (text_of v) r) as [[]]. }
    intros st. unfold Apply. destruct max_depth as [d Hd].
    destruct (placement_roundtrip (mkPlacement jobID worker now) v zero_placement (S (S d)) (conj Hj Hw) E) as [Hok Hdec].
    rw -Hd in Hok. by rw (Unmarshal_text _ _ _ _ Hok Hdec).
  - unfold placement_json, jtime in E. cbn [At] in E. by destruct (format_rfc3339 now).
Qed.

(** A group that accepts every proposal. *)
Definition accepting_lib : RaftLib (list string) :=
  mkRaftLib _ (λ _, "Leader") (λ _, (EmptyString, "scheduler-1")) (λ _, ∅) (λ _, Ok []) (λ data log, (Ok None, log ++ [data])).

Lemma proposed_placement_applies_witness : ∃ data : string,
  Apply (JE := demo_json_env) data fsm_zero = (None, mkFsmState 1 [mkPlacement "j1" "worker-1" 1500000000]).
Proof.
  pose proof (proposed_placement_applies (JE := demo_json_env) accepting_lib 1500000000 "j1" "worker-1" []
    ltac:(by vm_compute) ltac:(by vm_compute)) as H.
  destruct (format_rfc3339 1500000000) as [t|] eqn:Ht; [|by vm_compute in Ht].
  destruct H as (data & _ & H).
  exists data. exact (H fsm_zero).
Defined.
