(* ===== verification/SchedulerSvc.v ===== *)
(** * internal/schedulersvc: the scheduler's gRPC services

    The job service (schedulersvc.go) over a store and the relay's wake channel,
    the worker-facing service (workers.go) over the registry, and the state
    service (state.go). The role of the node is read from raftnode when a call
    needs it. *)

From Stdlib Require Import QArith.
From S2P Require Import Prelude GoRuntime Proto Store Registry Relay RaftNode Protoconv.
Local Open Scope Z_scope.

Definition maxNameLength : Z := 200.
Definition defaultLimit : Z := 50.
Definition maxLimit : Z := 200.

(** [d.Seconds()]. *)
Definition dur_seconds (d : Z) : Q := Qmake d 1000000000.

(** ** The job service *)

(** [JobStore], the slice of [store.Store] the scheduler needs. *)
Record SchedStore (W : Type) : Type := mkSchedStore {
  ss_CreateJobWithOutbox : string → string → stM W (result err Job);
  ss_GetJob : string → stM W (result err Job);
  ss_ListJobs : string → Z → stM W (result err (list Job));
  ss_OutboxStats : stM W (result err OutboxStats);
}.
Arguments ss_CreateJobWithOutbox {W} _ _ _.
Arguments ss_GetJob {W} _ _.
Arguments ss_ListJobs {W} _ _ _.
Arguments ss_OutboxStats {W} _.

Definition pg_sched_store {UU : PgUuid} (E : env) (rg : Ranger job_row) : SchedStore world :=
  {| ss_CreateJobWithOutbox := CreateJobWithOutbox E;
     ss_GetJob := GetJob E;
     ss_ListJobs := ListJobs E rg;
     ss_OutboxStats := OutboxStats_ E |}.

Section jobs.
Context {W : Type} (store : SchedStore W).

(** google/uuid's [uuid.Parse] accepts the text. *)
Context (uuid_ok : string → bool).

(** [SubmitJob]; the boolean of the state is the relay's wake channel,
    [isLeader] and [leaderID] what the node answers during the call. *)
Definition SubmitJob (isLeader : bool) (leaderID : string) (req : SubmitJobRequest) :
    stM (W * bool) (result err ProtoJob) :=
  λ '(w, wake),
    if negb isLeader then
      (Err (EStatus FailedPrecondition ("not leader (leader: " +:+ leaderID +:+ ")")), (w, wake))
    else if String.eqb (sjr_Name req) EmptyString ||
            (maxNameLength <? Z.of_nat (String.length (sjr_Name req))) then
      (Err (EStatus InvalidArgument "name is required (max 200 chars)"), (w, wake))
    else
      match ss_CreateJobWithOutbox store (sjr_Name req) (sjr_Payload req) w with
      | (Err _, w') => (Err (EStatus Internal "create job"), (w', wake))
      | (Ok job, w') => (Ok (JobToProto job), (w', Wake wake))
      end.

Definition GetOutboxStats : stM W (result err GetOutboxStatsResponse) :=
  st_bind (ss_OutboxStats store) (λ r,
  st_ret (match r with
          | Err _ => Err (EStatus Internal "outbox stats")
          | Ok stats => Ok (mkGetOutboxStatsResponse (st_Pending stats) (st_Dispatched stats)
                              (st_Failed stats) (dur_seconds (st_OldestPending stats)))
          end)).

Definition GetJob (id : string) : stM W (result err ProtoJob) :=
  if negb (uuid_ok id) then st_ret (Err (EStatus InvalidArgument "id must be a UUID"))
  else
    st_bind (ss_GetJob store id) (λ r,
    st_ret (match r with
            | Ok job => Ok (JobToProto job)
            | Err e =>
                if is_not_found e then Err (EStatus NotFound ("job " +:+ id +:+ " not found"))
                else Err (EStatus Internal "get job")
            end)).

(** [limit := int(req.PageSize); if limit < 1 || limit > maxLimit { ... }]. *)
Definition list_limit (pageSize : Z) : Z :=
  if (pageSize <? 1) || (maxLimit <? pageSize) then defaultLimit else pageSize.

Definition ListJobs (rg : Ranger JobStatus) (req : ListJobsRequest) : stM W (result err (list ProtoJob)) :=
  let filter := StatusFromProto rg (ljr_StatusFilter req) in
  st_bind (ss_ListJobs store filter (list_limit (ljr_PageSize req))) (λ r,
  st_ret (match r with
          | Err _ => Err (EStatus Internal "list jobs")
          | Ok js => Ok (JobToProto <$> js)
          end)).
End jobs.

(** ** The worker-facing service *)

(** [uint32(s.interval.Seconds())]. *)
Definition interval_seconds (interval : Z) : Z := u32 (Z.quot interval Second).

Definition RegisterWorker (now interval : Z) (req : RegisterWorkerRequest) :
    stM Registry (result err RegisterWorkerResponse) :=
  λ reg,
    if String.eqb (rwr_WorkerId req) EmptyString
    then (Err (EStatus InvalidArgument "worker_id is required"), reg)
    else (Ok (mkRegisterWorkerResponse (interval_seconds interval)),
          Record_ now (rwr_WorkerId req) (rwr_Capacity req) 0 reg).

Definition Heartbeat (now : Z) (req : HeartbeatRequest) : stM Registry (result err unit) :=
  λ reg,
    if String.eqb (hbr_WorkerId req) EmptyString
    then (Err (EStatus InvalidArgument "worker_id is required"), reg)
    else (Ok tt, Record_ now (hbr_WorkerId req) (hbr_Capacity req) (hbr_Inflight req) reg).

(** ** The state service *)

Definition placement_record (p : Placement) : PlacementRecord :=
  mkPlacementRecord (JobID p) (Worker p) (Some (At p)).

(** [now] is the clock of [time.Since] in the loop. *)
Definition worker_status (now : Z) (w : WorkerState) : WorkerStatus :=
  mkWorkerStatus (Instance_ w) (Alive w) (dur_seconds (time_sub now (LastSeen w)))
    (u32 (Capacity w)) (u32 (Inflight w)).

Definition GetClusterState (instance : string) (i : Info) (ws : list WorkerState) (now : Z) : ClusterState :=
  let rs := mkRaftStatus (i_State i) (i_LeaderID i) (i_Term i) (i_LastLogIndex i) (i_AppliedIndex i)
              (i_Peers i) (placement_record <$> i_RecentPlacements i) in
  mkClusterState instance [] None (Some now) (Some rs) (worker_status now <$> ws).

(** ** Lemmas *)

Lemma list_limit_range n : 1 ≤ list_limit n ≤ maxLimit.
Proof.
  unfold list_limit, maxLimit, defaultLimit.
  destruct (Z.ltb_spec n 1), (Z.ltb_spec 200 n); simpl; lia.
Qed.

(** ** Properties *)

(** C22: a submission is durable exactly when it is acknowledged as such. Only the
    leader writes; a request it refuses, or one without a usable name, changes
    nothing. A positive answer is the wire form of a pending job that is now in
    the table with its dispatch command, and the relay has been woken; a negative
    one never wakes it. When the database works, a valid request to the leader
    succeeds, unless its name holds a byte zero, which the service lets through
    and the database refuses. *)
Theorem submit_durable {UU : PgUuid} (E : env) (rg : Ranger job_row) (isLeader : bool) (leaderID : string)
    (req : SubmitJobRequest) (w w' : world) (wake wake' : bool) (r : result err ProtoJob) :
  uuids_fresh E w →
  SubmitJob (pg_sched_store E rg) isLeader leaderID req (w, wake) = (r, (w', wake')) →
  let valid := isLeader ∧ sjr_Name req ≠ EmptyString ∧ Z.of_nat (String.length (sjr_Name req)) ≤ maxNameLength in
  (¬ valid → db w' = db w) ∧
  (is_ok r = false → wake' = wake) ∧
  (∀ p, r = Ok p → valid ∧ wake' = true ∧
     ∃ id x c o, pj_Id p = id ∧ p = JobToProto (scanJob id x) ∧ j_status x = StatusPending ∧
       jobs (db w') = <[id := x]> (jobs (db w)) ∧ jobs (db w) !! id = None ∧
       outbox (db w') = <[c := o]> (outbox (db w)) ∧ o_job o = id ∧ o_status o = OutboxPending) ∧
  (valid → (∀ n, env_fault E n = NoFault) → is_ok r = pg_text_ok (sjr_Name req)).
Proof.
  intros Hf Hrun valid. revert Hrun. unfold SubmitJob.
  destruct isLeader; simpl; [|intros [= <- <- <-]; split; [done|]; split; [done|]; split; [done|]; by intros [? _]].
  destruct (String.eqb (sjr_Name req) EmptyString) eqn:Hn; reflect_bools; simpl.
  { intros [= <- <- <-]. split; [done|]. split; [done|]. split; [done|]. by intros (_ & ? & _). }
  destruct (Z.ltb_spec maxNameLength (Z.of_nat (String.length (sjr_Name req)))) as [Hl|Hl].
  { intros [= <- <- <-]. split; [done|]. split; [done|]. split; [done|]. intros (_ & _ & ?). lia. }
  assert valid as Hv by (by split; [|split]).
  destruct (CreateJobWithOutbox E (sjr_Name req) (sjr_Payload req) w) as [r1 w1] eqn:Hc.
  pose proof (create_with_outbox_spec E _ _ _ _ _ Hf Hc) as (Hcases & Hbad & Hh).
  destruct Hf as (_ & _ & Hfresh). destruct (Hfresh (S (tick w)) ltac:(lia)) as [Hj _].
  destruct r1 as [job|e]; intros [= <- <- <-]; (split; [done|]).
  - split; [done|]. split; [|by intros _ _; destruct (pg_text_ok (sjr_Name req)); [|destruct (Hbad eq_refl)]].
    intros p [= <-]. split; [done|]. split; [done|].
    destruct Hcases as [[_ ?]|[Hdb [[= ->]|?]]]; [done| |done].
    eexists _, (new_job_row _ _ _), _, (new_outbox_row _ _). rw Hdb.
    split; [done|]. split; [done|]. split; [done|]. split; [done|]. split; [exact Hj|].
    split; [done|]. by split.
  - split; [done|]. split; [done|]. intros _ Hnf. destruct (pg_text_ok (sjr_Name req)); [by destruct (Hh eq_refl Hnf)|done].
Qed.

Lemma submit_durable_witness :
  is_ok (SubmitJob (pg_sched_store (UU := any_uuid) demo_env (ranger_asc _)) true "scheduler-1"
    (mkSubmitJobRequest "sleep" EmptyString) (empty_world, false)).1 = true.
Proof.
  destruct (SubmitJob (pg_sched_store (UU := any_uuid) demo_env (ranger_asc _)) true "scheduler-1"
    (mkSubmitJobRequest "sleep" EmptyString) (empty_world, false)) as [r [w' wake']] eqn:Hrun.
  apply (submit_durable (UU := any_uuid) demo_env (ranger_asc _) true "scheduler-1" _ empty_world w' false wake' r
    demo_env_fresh Hrun); [|done].
  split; [done|]. split; [done|]. simpl. unfold maxNameLength. lia.
Defined.
