(* ===== verification/LeaderClient.v ===== *)
(** * internal/leaderclient: routing the gateway's calls to the leader

    [route] walks the schedulers leader-first, up to three rounds, and caches
    the one that answers; the call it routes and whether the caller gave up
    during a pause are parameters. [RaftStatus] is the fan-out behind /raft. *)

From Stdlib Require Import QArith.
From S2P Require Import Prelude GoRuntime Proto.
Local Open Scope Z_scope.

Definition retryRounds : nat := 3.

(** [Router], less its connections: the members by name, in order, and the
    cached index (an int64). *)
Record Router : Type := mkRouter {
  members : list string;
  leader : Z;
}.

Definition new_step (addrs : gmap string string) (dial : string → option err)
    (acc : result err Router) (name : string) : result err Router :=
  match acc with
  | Err e => Err e
  | Ok r =>
      match dial (default EmptyString (addrs !! name)) with
      | Some e => Err (EWrap ("leaderclient: client for " +:+ name +:+ ": ") e)
      | None => Ok (mkRouter (members r ++ [name]) (leader r))
      end
  end.

Definition New (rg : Ranger string) (addrs : gmap string string) (dial : string → option err) :
    result err Router :=
  if Nat.eqb (size addrs) 0
  then Err (EText "leaderclient: no schedulers configured (IRONWORK_SCHEDULERS)")
  else foldl (new_step addrs dial) (Ok (mkRouter [] 0)) (sort_strings (rg 0%nat addrs).*1).

Definition retryable (e : err) : bool :=
  match status_code e with
  | FailedPrecondition | Unavailable | DeadlineExceeded => true
  | _ => false
  end.

(** [(start + int64(i)) % int64(len(r.members))]. *)
Definition member_index (start : Z) (n i : nat) : Z := Z.rem (start + Z.of_nat i) (Z.of_nat n).

Section route.
Context {W T : Type}.
Context (fn : string → stM W (result err T)).
(** [ctxDone k w]: the caller's context ends during the pause after round [k]. *)
Context (ctxDone : nat → W → bool).

(** How a pass over the members ends: an answer to return (with the index to
    cache on success), or the last refusal. *)
Inductive pass_end : Type :=
| Answer (r : result err T) (idx : option Z)
| Declined (lastErr : option err).

(** [for i := range r.members] from index [i] on, [k] members to go. *)
Fixpoint pass (ms : list string) (start : Z) (i k : nat) (lastErr : option err) : stM W pass_end :=
  match k with
  | O => st_ret (Declined lastErr)
  | S k' =>
      let idx := member_index start (length ms) i in
      st_bind (fn (default EmptyString (ms !! Z.to_nat idx))) (λ r,
      match r with
      | Ok out => st_ret (Answer (Ok out) (Some idx))
      | Err e =>
          if negb (retryable e) then st_ret (Answer (Err e) None)
          else pass ms start (S i) k' (Some e)
      end)
  end.

(** The outer loop from [round] on, [left] rounds to go. The result is nil/zero
    with a nil error only for an empty router. *)
Fixpoint rounds (r : Router) (start : Z) (round left : nat) (lastErr : option err) :
    stM W (result (option err) T * Router) :=
  match left with
  | O => st_ret (Err lastErr, r)
  | S left' =>
      st_bind (pass (members r) start 0 (length (members r)) lastErr) (λ pe,
      match pe with
      | Answer (Ok out) (Some idx) => st_ret (Ok out, mkRouter (members r) idx)
      | Answer (Ok out) None => st_ret (Ok out, r)
      | Answer (Err e) _ => st_ret (Err (Some e), r)
      | Declined lastErr' =>
          λ w, if (0 <? left')%nat && ctxDone round w then ((Err lastErr', r), w)
               else rounds r start (S round) left' lastErr' w
      end)
  end.

Definition route (r : Router) : stM W (result (option err) T * Router) :=
  rounds r (leader r) 0 retryRounds None.

(** ** Specification *)

(** The order of one pass. *)
Definition order (r : Router) : list string :=
  drop (Z.to_nat (leader r)) (members r) ++ take (Z.to_nat (leader r)) (members r).

(** Members [ms] asked in turn, all of them declining for now. *)
Inductive declined : list string → W → option err → W → option err → Prop :=
| declined_nil w e : declined [] w e w e
| declined_cons m ms w w1 w' e0 e e' :
    fn m w = (Err e, w1) → retryable e = true → declined ms w1 (Some e) w' e' →
    declined (m :: ms) w e0 w' e'.

Definition router_ok (r : Router) : Prop :=
  members r ≠ [] ∧ 0 ≤ leader r < Z.of_nat (length (members r)).

(** ** Lemmas *)

Lemma declined_app ms1 ms2 w w1 w' e0 e1 e' :
  declined ms1 w e0 w1 e1 → declined ms2 w1 e1 w' e' → declined (ms1 ++ ms2) w e0 w' e'.
Proof. induction 1; [done|]. intros. simpl. econstructor; eauto. Qed.

Lemma pass_cases ms start i k lastErr w pe w' :
  pass ms start i k lastErr w = (pe, w') →
  let asked := (λ j, default EmptyString (ms !! Z.to_nat (member_index start (length ms) j))) <$> seq i k in
  match pe with
  | Declined e' => declined asked w lastErr w' e'
  | Answer r idx =>
      ∃ j w1 e1, (i ≤ j < i + k)%nat ∧
        declined ((λ j, default EmptyString (ms !! Z.to_nat (member_index start (length ms) j))) <$> seq i (j - i))
          w lastErr w1 e1 ∧
        fn (default EmptyString (ms !! Z.to_nat (member_index start (length ms) j))) w1 = (r, w') ∧
        match r with
        | Ok _ => idx = Some (member_index start (length ms) j)
        | Err e => idx = None ∧ retryable e = false
        end
  end.
Proof.
  revert i lastErr w. induction k as [|k IH]; intros i lastErr w H; simpl in H.
  { unfold st_ret in H. simplify_eq. constructor. }
  unfold st_bind in H. destruct (fn _ w) as [[out|e] w1] eqn:Hf.
  - unfold st_ret in H. simplify_eq. exists i, w, lastErr. split; [lia|].
    rw Nat.sub_diag. split; [constructor|]. by split.
  - destruct (retryable e) eqn:Hr; simpl in H.
    + apply IH in H. destruct pe as [r idx|e'].
      * destruct H as (j & w2 & e2 & Hj & Hd & Hfj & Hx). exists j, w2, e2. split; [lia|].
        split; [|done]. replace (j - i)%nat with (S (j - S i)) by lia. simpl. by econstructor.
      * simpl. by econstructor.
    + unfold st_ret in H. simplify_eq. exists i, w, lastErr. split; [lia|].
      rw Nat.sub_diag. split; [constructor|]. by split.
Qed.

Lemma member_index_small start n i :
  0 ≤ start < Z.of_nat n → (i < n)%nat →
  member_index start n i = if decide (start + Z.of_nat i < Z.of_nat n) then start + Z.of_nat i
                           else start + Z.of_nat i - Z.of_nat n.
Proof.
  intros Hs Hi. unfold member_index. rw Z.rem_mod_nonneg; [|lia|lia]. case_decide.
  - apply Z.mod_small. lia.
  - symmetry. apply (Z.mod_unique_pos _ _ 1); lia.
Qed.

Lemma asked_order r :
  router_ok r →
  (λ j, default EmptyString (members r !! Z.to_nat (member_index (leader r) (length (members r)) j))) <$>
    seq 0 (length (members r)) = order r.
Proof.
  intros [Hne Hl]. set (n := length (members r)) in *. unfold order. set (s := Z.to_nat (leader r)).
  apply list_eq. intros i. rw list_lookup_fmap. destruct (decide (i < n)%nat) as [Hi|Hi].
  - rw lookup_seq_lt; [|done]. simpl. rw member_index_small; [|done|done]. case_decide as D.
    + rw lookup_app_l; [|rw length_drop; fold n; lia]. rw lookup_drop.
      replace (Z.to_nat _) with (s + i)%nat by lia.
      by destruct (lookup_lt_is_Some_2 (members r) (s + i)%nat ltac:(fold n; lia)) as [x ->].
    + rw lookup_app_r; [|rw length_drop; fold n; lia]. rw length_drop. fold n. rw lookup_take_lt; [|lia].
      replace (Z.to_nat _) with (i - (n - s))%nat by lia.
      by destruct (lookup_lt_is_Some_2 (members r) (i - (n - s))%nat ltac:(fold n; lia)) as [x ->].
  - rw lookup_seq_ge; [|lia]. simpl. symmetry. apply lookup_ge_None_2.
    rw length_app length_drop length_take. fold n. lia.
Qed.

(** The members asked before and at the [j]-th call of a pass. *)
Lemma asked_prefix r j :
  router_ok r → (j < length (members r))%nat →
  (λ j, default EmptyString (members r !! Z.to_nat (member_index (leader r) (length (members r)) j))) <$>
    seq 0 j = take j (order r) ∧
  order r !! j = Some (default EmptyString
    (members r !! Z.to_nat (member_index (leader r) (length (members r)) j))).
Proof.
  intros Hok Hj. rw -(asked_order r Hok). split.
  - rw -fmap_take. f_equal. rw take_seq. f_equal. lia.
  - rw list_lookup_fmap lookup_seq_lt; [|done]. done.
Qed.

Lemma order_perm r : order r ≡ₚ members r.
Proof. unfold order. rw Permutation_app_comm. by rw take_drop. Qed.

(** The outcome of [route]: [k] full passes of refusals, then a definitive answer
    of the [j]-th member of a pass, or nothing but refusals. *)
Definition outcome (r : Router) (w : W) (res : result (option err) T) (r' : Router) (w' : W) : Prop :=
  (∃ k j m w1 e1, (k < retryRounds)%nat ∧ order r !! j = Some m ∧
     declined (concat (replicate k (order r)) ++ take j (order r)) w None w1 e1 ∧
     members r' = members r ∧
     ((∃ out, fn m w1 = (Ok out, w') ∧ res = Ok out ∧
         members r' !! Z.to_nat (leader r') = Some m ∧ router_ok r') ∨
      (∃ e, fn m w1 = (Err e, w') ∧ retryable e = false ∧ res = Err (Some e) ∧ r' = r))) ∨
  (∃ k e, (1 ≤ k ≤ retryRounds)%nat ∧ declined (concat (replicate k (order r))) w None w' (Some e) ∧
     res = Err (Some e) ∧ r' = r ∧ retryable e = true ∧
     (k < retryRounds → ctxDone (k - 1) w' = true)%nat).

Lemma declined_last ms w e0 w' e :
  declined ms w e0 w' e → ms ≠ [] → ∃ e1, e = Some e1 ∧ retryable e1 = true.
Proof.
  induction 1 as [|m ms w w1 w' e0 e e' Hf Hr Hd IH]; [done|]. intros _.
  destruct ms; [|by apply IH]. inversion Hd. subst. eauto.
Qed.

Lemma passes_nonempty r k : router_ok r → (0 < k)%nat → concat (replicate k (order r)) ≠ [].
Proof.
  intros [Hne _] Hk. destruct k; [lia|]. simpl. intros [H _]%app_nil.
  pose proof (order_perm r) as Hp. rw H in Hp. by apply Permutation_nil_l in Hp.
Qed.

Lemma rounds_outcome r left k w0 w lastErr res r' w' :
  router_ok r → (k + left = retryRounds)%nat → (left = 0 → 0 < k)%nat →
  declined (concat (replicate k (order r))) w0 None w lastErr →
  rounds r (leader r) k left lastErr w = ((res, r'), w') → outcome r w0 res r' w'.
Proof.
  intros Hok. revert k w lastErr. induction left as [|left IH]; intros k w lastErr Hk Hpos Hd H; simpl in H.
  { pose proof (passes_nonempty r k Hok (Hpos eq_refl)) as Hne.
    destruct (declined_last _ _ _ _ _ Hd Hne) as (e & -> & He).
    unfold st_ret in H. simplify_eq. right. exists k, e. split; [lia|].
    split; [done|]. split; [done|]. split; [done|]. split; [done|]. lia. }
  unfold st_bind in H. destruct (pass _ _ _ _ _ w) as [pe w1] eqn:Hp.
  apply pass_cases in Hp. destruct pe as [ans idx|e'].
  - destruct Hp as (j & w2 & e2 & Hj & Hdj & Hfj & Hx). rw Nat.sub_0_r in Hdj.
    destruct (asked_prefix r j Hok ltac:(lia)) as [Hpre Hat]. rw Hpre in Hdj.
    left. eexists k, j, _, w2, e2. split; [lia|]. split; [exact Hat|].
    split; [by eapply declined_app|]. destruct ans as [out|e].
    + subst idx. unfold st_ret in H. simplify_eq. split; [done|]. left. exists out.
      split; [done|]. split; [done|]. simpl.
      assert (0 ≤ member_index (leader r) (length (members r)) j < Z.of_nat (length (members r))) as Hidx.
      { destruct Hok as [_ Hl]. rw member_index_small; [|done|lia]. case_decide; lia. }
      split; [|by destruct Hok].
      by destruct (lookup_lt_is_Some_2 (members r) (Z.to_nat (member_index (leader r) (length (members r)) j))
        ltac:(lia)) as [x ->].
    + destruct Hx as [-> Hr]. unfold st_ret in H. simplify_eq. split; [done|]. right. exists e. done.
  - rw asked_order in Hp; [|done].
    assert (declined (concat (replicate (S k) (order r))) w0 None w1 e') as Hd'.
    { rw replicate_S_end concat_app /= app_nil_r. by eapply declined_app. }
    destruct ((0 <? left)%nat && ctxDone k w1) eqn:Hc.
    + apply andb_true_iff in Hc as [Hc1%Nat.ltb_lt Hc2].
      pose proof (passes_nonempty r (S k) Hok ltac:(lia)) as Hne.
      destruct (declined_last _ _ _ _ _ Hd' Hne) as (e & -> & He). simplify_eq. right. exists (S k), e. split; [lia|].
      split; [done|]. split; [done|]. split; [done|]. split; [done|]. intros _. by rw Nat.sub_1_r.
    + eapply (IH (S k)); [lia|lia|exact Hd'|exact H].
Qed.
End route.

(** ** The routed calls *)

Section calls.
Context {W : Type} (ctxDone : nat → W → bool).
Context (submitJob : string → SubmitJobRequest → stM W (result err ProtoJob)).
Context (getJob : string → string → stM W (result err ProtoJob)).
Context (listJobs : string → ListJobsRequest → stM W (result err (list ProtoJob))).
Context (getOutboxStats : string → stM W (result err GetOutboxStatsResponse)).

Definition SubmitJob (r : Router) (req : SubmitJobRequest) : stM W (result (option err) ProtoJob * Router) :=
  route (λ m, submitJob m req) ctxDone r.
Definition GetJob (r : Router) (id : string) : stM W (result (option err) ProtoJob * Router) :=
  route (λ m, getJob m id) ctxDone r.
Definition ListJobs (r : Router) (req : ListJobsRequest) : stM W (result (option err) (list ProtoJob) * Router) :=
  route (λ m, listJobs m req) ctxDone r.
Definition GetOutboxStats (r : Router) : stM W (result (option err) GetOutboxStatsResponse * Router) :=
  route (λ m, getOutboxStats m) ctxDone r.
End calls.

(** ** The fan-out behind /raft and /workers *)

Record WorkerView : Type := mkWorkerView {
  wv_Instance : string;
  wv_Alive : bool;
  wv_SecondsSinceHeartbeat : Q;
  wv_Capacity : Z;
  wv_Inflight : Z;
}.

Record PlacementView : Type := mkPlacementView {
  pv_JobID : string;
  pv_Worker : string;
  pv_At : Z;
}.

Record NodeStatus : Type := mkNodeStatus {
  ns_Name : string;
  ns_Reachable : bool;
  ns_Error : string;
  ns_State : string;
  ns_LeaderID : string;
  ns_Term : Z;
  ns_LastLogIndex : Z;
  ns_AppliedIndex : Z;
  ns_Placements : list PlacementView;
  ns_Workers : list WorkerView;
}.

(** The goroutine of member [name] on the answer to GetClusterState, a message
    whose [State] may be nil. *)
Definition node_status (name : string) (answer : result err (option ClusterState)) : NodeStatus :=
  match answer with
  | Err e => mkNodeStatus name false (status_message e) EmptyString EmptyString 0 0 0 [] []
  | Ok state =>
      let raft := ClusterState_GetRaft state in
      mkNodeStatus name true EmptyString
        (RaftStatus_GetState raft) (RaftStatus_GetLeaderId raft) (RaftStatus_GetTerm raft)
        (RaftStatus_GetLastLogIndex raft) (RaftStatus_GetAppliedIndex raft)
        ((λ p, mkPlacementView (plr_JobId p) (plr_Worker p) (default 0 (plr_At p))) <$>
           RaftStatus_GetRecentPlacements raft)
        ((λ w, mkWorkerView (ws_Instance w) (ws_Alive w) (ws_SecondsSinceHeartbeat w) (ws_Capacity w)
                 (ws_Inflight w)) <$> ClusterState_GetWorkers state)
  end.

(** Each goroutine writes its own slot; [wg.Wait] joins them. *)
Definition RaftStatus_ (r : Router) (answers : string → result err (option ClusterState)) : list NodeStatus :=
  (λ name, node_status name (answers name)) <$> members r.

(** ** Properties *)

(** C28: how a call is routed. The schedulers are asked in turn, the cached leader
    first and each of them once per round; the first definitive answer, success
    or an error that is not a refusal, is the result, and a success is cached;
    otherwise the last refusal is returned after the third round, or earlier only
    if the caller gave up during a pause. *)
Theorem route_outcome {W T : Type} (fn : string → stM W (result err T)) (ctxDone : nat → W → bool)
    (r r' : Router) (w w' : W) (res : result (option err) T) :
  router_ok r → route fn ctxDone r w = ((res, r'), w') →
  order r ≡ₚ members r ∧ head (order r) = members r !! Z.to_nat (leader r) ∧
  outcome fn ctxDone r w res r' w'.
Proof.
  intros Hok H. split; [apply order_perm|]. split.
  - destruct Hok as [_ Hl]. unfold order. rw head_lookup lookup_app_l; [|rw length_drop; lia].
    rw lookup_drop. f_equal. lia.
  - eapply (rounds_outcome fn ctxDone r retryRounds 0); [done|done|done|constructor|exact H].
Qed.

Definition demo_router : Router := mkRouter ["s1"; "s2"; "s3"] 0.

(** Two followers and a leader; the world counts the calls. *)
Definition demo_call (m : string) : stM nat (result err string) :=
  λ n, (if String.eqb m "s3" then Ok m else Err (EStatus FailedPrecondition "not leader"), S n).

Lemma route_outcome_witness :
  outcome demo_call (λ _ _, false) demo_router 0%nat (Ok "s3") (mkRouter ["s1"; "s2"; "s3"] 2) 3%nat.
Proof.
  apply (route_outcome demo_call (λ _ _, false) demo_router (mkRouter ["s1"; "s2"; "s3"] 2) 0%nat 3%nat (Ok "s3")).
  - split; [done|]. simpl. lia.
  - by vm_compute.
Defined.

(** The leader is found and remembered. While one scheduler answers and the
    others decline, a call reaches it within the first round, whoever was cached
    before, and the next call asks it first. *)
Theorem route_finds_leader {W T : Type} (fn : string → stM W (result err T)) (ctxDone : nat → W → bool)
    (r : Router) (w : W) (m : string) :
  router_ok r → m ∈ members r →
  (∀ w, is_ok (fn m w).1 = true) →
  (∀ m' w, m' ≠ m → m' ∈ members r → ∃ e, (fn m' w).1 = Err e ∧ retryable e = true) →
  ∃ out r' w', route fn ctxDone r w = ((Ok out, r'), w') ∧ router_ok r' ∧ head (order r') = Some m.
Proof.
  intros Hok Hm Hup Hdown. destruct (route fn ctxDone r w) as [[res r'] w'] eqn:Hroute.
  pose proof (rounds_outcome fn ctxDone r retryRounds 0 w w None res r' w' Hok eq_refl ltac:(done)
    (declined_nil fn w None) Hroute) as Hout.
  assert (∀ ms w e0 w' e, declined fn ms w e0 w' e → m ∉ ms) as Hnotin.
  { intros ms w0 e0 w1 e. induction 1 as [|m' ms w2 w3 w4 e1 e2 e3 Hf Hr _ IH]; [set_solver|].
    apply not_elem_of_cons. split; [|done]. intros <-. specialize (Hup w2). by rw Hf in Hup. }
  destruct Hout as [(k & j & m' & w1 & e1 & Hk & Hj & Hd & Hmem & Hcase)|(k & e & Hk & Hd & _)].
  - assert (m' ∈ members r) as Hm' by (rw -(order_perm r); by eapply list_elem_of_lookup_2).
    destruct Hcase as [(out & Hf & -> & Hlead & Hok')|(e & Hf & Hr & _ & _)].
    + destruct (decide (m' = m)) as [->|Hne].
      * exists out, r', w'. split; [done|]. split; [done|]. destruct Hok' as [_ Hl]. unfold order.
        rw head_lookup lookup_app_l; [|rw length_drop; lia]. rw lookup_drop -Hlead. f_equal. lia.
      * destruct (Hdown m' w1 Hne Hm') as (e & He & _). by rw Hf in He.
    + destruct (decide (m' = m)) as [->|Hne].
      * specialize (Hup w1). by rw Hf in Hup.
      * destruct (Hdown m' w1 Hne Hm') as (e' & He & Hr'). rw Hf in He. simpl in He. simplify_eq. congruence.
  - destruct (Hnotin _ _ _ _ _ Hd). destruct k; [lia|]. simpl. apply elem_of_app. left. by rw (order_perm r).
Qed.

Lemma route_finds_leader_witness :
  ∃ out r' w', route demo_call (λ _ _, false) demo_router 0%nat = ((Ok out, r'), w') ∧ router_ok r' ∧
    head (order r') = Some "s3".
Proof.
  apply (route_finds_leader demo_call (λ _ _, false) demo_router 0%nat "s3").
  - split; [done|]. simpl. lia.
  - simpl. set_solver.
  - done.
  - intros m' w Hne Hin. exists (EStatus FailedPrecondition "not leader"). split; [|done].
    unfold demo_call. simpl. by destruct (String.eqb_spec m' "s3").
Defined.
