(* ===== verification/Reporting.v ===== *)
(** * What a worker tells the rest of the cluster

    internal/heartbeat (liveness and load, to every scheduler) and
    internal/statereport (job outcomes, to one statemanager). The gRPC clients
    are parameters. *)

From S2P Require Import Prelude GoRuntime Proto StateSvc Registry SchedulerSvc.
Local Open Scope Z_scope.

Module Heartbeat.

Definition Interval : Z := 2 * Second.
Definition perCallTimeout : Z := 1500 * Millisecond.

(** [Config] and [Loop], less the connections. *)
Record Loop : Type := mkLoop {
  l_Instance : string;
  l_Capacity : Z;
  l_targets : list string;
}.

Definition new_step (addrs : gmap string string) (dial : string → option err)
    (acc : result err (list string)) (name : string) : result err (list string) :=
  match acc with
  | Err e => Err e
  | Ok ts =>
      match dial (default EmptyString (addrs !! name)) with
      | Some e => Err (EWrap ("heartbeat: client for " +:+ name +:+ ": ") e)
      | None => Ok (ts ++ [name])
      end
  end.

Definition New (rg : Ranger string) (instance : string) (capacity : Z) (schedulers : gmap string string)
    (dial : string → option err) : result err Loop :=
  if Nat.eqb (size schedulers) 0
  then Err (EText "heartbeat: no schedulers configured (IRONWORK_SCHEDULERS)")
  else match foldl (new_step schedulers dial) (Ok []) (sort_strings (rg 0%nat schedulers).*1) with
       | Ok ts => Ok (mkLoop instance capacity ts)
       | Err e => Err e
       end.

Section loop.
Context {W : Type}.
Context (registerWorker : string → RegisterWorkerRequest → stM W (result err RegisterWorkerResponse)).
Context (heartbeat : string → HeartbeatRequest → stM W (result err unit)).

(** [fanOut]: the calls run in parallel, in some order of the targets; failures
    are only logged. *)
Definition fanOut {A} (fn : string → stM W (result err A)) (order : list string) : stM W unit :=
  st_iter (λ t, st_bind (fn t) (λ _, st_ret tt)) order.

Definition register (l : Loop) (order : list string) : stM W unit :=
  fanOut (λ t, registerWorker t (mkRegisterWorkerRequest (l_Instance l) EmptyString (u32 (l_Capacity l)))) order.

(** One tick: [inflight] is sampled once, [sentAt t] is the clock of each call. *)
Definition beat (l : Loop) (inflight : Z) (sentAt : string → Z) (order : list string) : stM W unit :=
  fanOut (λ t, heartbeat t (mkHeartbeatRequest (l_Instance l) (u32 (l_Capacity l)) (u32 inflight)
                              (Some (sentAt t)))) order.

(** [Run] over the ticks it sees before its context ends. *)
Definition Run (l : Loop) (first : list string) (ticks : list (Z * (string → Z) * list string)) : stM W unit :=
  st_bind (register l first) (λ _, st_iter (λ '(inflight, sentAt, order), beat l inflight sentAt order) ticks).
End loop.

(** ** The schedulers' side *)

(** The registries of all schedulers; a call reaches a scheduler or is lost. *)
Definition deliver (clock : string → Z) (up : string → bool) (t : string) (req : HeartbeatRequest) :
    stM (gmap string Registry) (result err unit) :=
  λ regs,
    match regs !! t with
    | Some reg =>
        if up t
        then let '(r, reg') := SchedulerSvc.Heartbeat (clock t) req reg in (r, <[t := reg']> regs)
        else (Err (EStatus Unavailable "connection refused"), regs)
    | None => (Err (EStatus Unavailable "connection refused"), regs)
    end.

(** A tick leaves in every scheduler it reaches the worker's load and a fresh
    sighting, and changes nothing else, in whatever order the calls ran. *)
Lemma beat_refreshes_registries l inflight sentAt clock up order regs t :
  l_Instance l ≠ EmptyString → NoDup order → 0 ≤ l_Capacity l < 2 ^ 32 → 0 ≤ inflight < 2 ^ 32 →
  (beat (deliver clock up) l inflight sentAt order regs).2 !! t =
    if decide (t ∈ order) then
      (λ reg, if up t then Record_ (clock t) (l_Instance l) (l_Capacity l) inflight reg else reg) <$> regs !! t
    else regs !! t.
Proof.
  intros Hi Hnd Hc Hf. unfold beat, fanOut. rw !wrap_u_small; [|done|done].
  revert regs. induction order as [|t0 order IH]; intros regs; cbn [st_iter].
  { case_decide; [set_solver|done]. }
  inversion_clear Hnd as [|? ? Hni Hnd']. unfold st_bind, deliver at 1.
  destruct (regs !! t0) as [reg|] eqn:Hr; simpl.
  - destruct (up t0) eqn:Hu; simpl.
    + unfold SchedulerSvc.Heartbeat. simpl.
      destruct (String.eqb_spec (l_Instance l) EmptyString); [done|]. simpl. rw IH; [|done].
      destruct (decide (t = t0)) as [->|Hne].
      * rw decide_False; [|done]. rw decide_True; [|set_solver]. by rw lookup_insert_eq Hr /= Hu.
      * rw lookup_insert_ne; [|done]. by repeat case_decide; set_solver.
    + rw IH; [|done]. destruct (decide (t = t0)) as [->|Hne].
      * rw decide_False; [|done]. rw decide_True; [|set_solver]. by rw Hr /= Hu.
      * by repeat case_decide; set_solver.
  - rw IH; [|done]. destruct (decide (t = t0)) as [->|Hne].
    + rw decide_False; [|done]. rw decide_True; [|set_solver]. by rw Hr.
    + by repeat case_decide; set_solver.
Qed.

End Heartbeat.

Module StateReport.

(** [ReportJobEvent]: the request, sent once; its failure is only logged. *)
Definition ReportJobEvent {W : Type} (send : ReportJobEventRequest → stM W (result err unit))
    (jobID worker : string) (succeeded : bool) : stM W unit :=
  let outcome := if negb succeeded then OutcomeFailed else OutcomeSucceeded in
  st_bind (send (mkReportJobEventRequest jobID worker outcome)) (λ _, st_ret tt).

End StateReport.
