(* ===== verification/CrdtView.v ===== *)
(** * internal/crdtview: the dashboard's view of the statemanager replicas

    [Fetch] asks every replica for its CRDT state and decides whether they have
    converged; [SetGossip] forwards the partition control. *)

From S2P Require Import Prelude GoRuntime Proto.
Local Open Scope Z_scope.

Record CounterView : Type := mkCounterView {
  Total : Z;
  Shards : gmap string Z;
}.

Record RecentView : Type := mkRecentView {
  rv_JobID : string;
  rv_Status : string;
  rv_Worker : string;
  rv_TSUnixMS : Z;
  rv_Replica : string;
}.

Record ReplicaView : Type := mkReplicaView {
  rep_Name : string;
  rep_Reachable : bool;
  rep_Error : string;
  rep_GossipEnabled : bool;
  rep_ByStatus : gmap string CounterView;
  rep_ByWorker : gmap string CounterView;
  rep_Recent : list RecentView;
}.

Record View : Type := mkView {
  Converged : bool;
  Replicas : list ReplicaView;
}.

(** [New]: the replicas in name order. *)
Definition new_step (addrs : gmap string string) (dial : string → option err)
    (acc : result err (list string)) (name : string) : result err (list string) :=
  match acc with
  | Err e => Err e
  | Ok ms =>
      match dial (default EmptyString (addrs !! name)) with
      | Some e => Err (EWrap ("crdtview: client for " +:+ name +:+ ": ") e)
      | None => Ok (ms ++ [name])
      end
  end.

Definition New (rg : Ranger string) (addrs : gmap string string) (dial : string → option err) :
    result err (list string) :=
  if Nat.eqb (size addrs) 0
  then Err (EText "crdtview: no statemanagers configured (IRONWORK_STATEMANAGERS)")
  else foldl (new_step addrs dial) (Ok []) (sort_strings (rg 0%nat addrs).*1).

(** [total += v] over the shards, a uint64. *)
Definition shards_total (rg : Ranger Z) (shards : gmap string Z) : Z :=
  foldl (λ total kv, u64 (total + kv.2)) 0 (rg 0%nat shards).

Definition countersToView (rgc : Ranger GCounterState) (rgs : Ranger Z) (src : gmap string GCounterState) :
    gmap string CounterView :=
  foldl (λ out '(key, c), <[key := mkCounterView (shards_total rgs (gcs_Shards c)) (gcs_Shards c)]> out) ∅
    (rgc 0%nat src).

Definition recentToView (rg : Ranger ProtoLWWEntry) (src : gmap string ProtoLWWEntry) : list RecentView :=
  go_sort (λ a b, rv_TSUnixMS b <? rv_TSUnixMS a)
    ((λ ie : string * ProtoLWWEntry, mkRecentView ie.1 (ple_Status ie.2) (ple_Worker ie.2) (ple_TsUnixMs ie.2)
        (ple_Replica ie.2)) <$> rg 0%nat src).

(** [for i, st := range states { if st == nil || (i > 0 && !proto.Equal(states[0], st)) }],
    from index [i] on; [first] is [states[0]]. *)
Fixpoint verdict_loop (first : option CRDTState) (i : nat) (states : list (option CRDTState)) : bool :=
  match states with
  | [] => true
  | st :: rest =>
      if bool_decide (st = None) || ((0 <? i)%nat && negb (bool_decide (first = st))) then false
      else verdict_loop first (S i) rest
  end.

Definition verdict (states : list (option CRDTState)) : bool :=
  verdict_loop (default None (head states)) 0 states.

Section fetch.
Context (rgc : Ranger GCounterState) (rgs : Ranger Z) (rge : Ranger ProtoLWWEntry).

(** The goroutine of one replica. *)
Definition replica_view (name : string) (answer : result err GetCRDTStateResponse) :
    ReplicaView * option CRDTState :=
  match answer with
  | Err e => (mkReplicaView name false (status_message e) false ∅ ∅ [], None)
  | Ok resp =>
      (mkReplicaView name true EmptyString (gcr_GossipEnabled resp)
         (countersToView rgc rgs (CRDTState_GetByStatus (gcr_State resp)))
         (countersToView rgc rgs (CRDTState_GetByWorker (gcr_State resp)))
         (recentToView rge (CRDTState_GetRecent (gcr_State resp))), gcr_State resp)
  end.

Definition Fetch (members : list string) (answers : string → result err GetCRDTStateResponse) : View :=
  let slots := (λ name, replica_view name (answers name)) <$> members in
  mkView (verdict slots.*2) slots.*1.
End fetch.

(** [SetGossip] on every replica; the joined error lists the failures. *)
Section set_gossip.
Context {W : Type} (setGossip : string → bool → stM W (result err unit)).

Fixpoint set_all (members : list string) (enabled : bool) (errs : list err) : stM W (list err) :=
  match members with
  | [] => st_ret errs
  | m :: ms =>
      st_bind (setGossip m enabled) (λ r,
      set_all ms enabled (match r with Ok _ => errs | Err e => errs ++ [EWrap (m +:+ ": ") e] end))
  end.

Definition newline : string := String (Ascii.ascii_of_nat 10) EmptyString.

(** [errors.Join(errs...)]: nil without errors, else their texts line by line. *)
Definition errors_join (errs : list err) : option err :=
  match errs with
  | [] => None
  | e :: es => Some (EText (foldl (λ acc e, acc +:+ newline +:+ err_string e) (err_string e) es))
  end.

Definition SetGossip (members : list string) (enabled : bool) : stM W (option err) :=
  st_bind (set_all members enabled []) (λ errs, st_ret (errors_join errs)).
End set_gossip.

(** ** Lemmas *)

Lemma verdict_loop_true first i states :
  (0 < i)%nat →
  verdict_loop first i states = true ↔ (∀ st, st ∈ states → is_Some st ∧ st = first).
Proof.
  revert i. induction states as [|st rest IH]; intros i Hi; simpl; [set_solver|].
  replace (0 <? i)%nat with true by (symmetry; by apply Nat.ltb_lt). simpl.
  destruct (bool_decide (st = None) || negb (bool_decide (first = st))) eqn:Hb.
  - split; [done|]. intros H. destruct (H st ltac:(set_solver)) as [[x ->] <-].
    rw orb_true_iff negb_true_iff bool_decide_eq_true bool_decide_eq_false in Hb. naive_solver.
  - rw IH; [|lia]. apply orb_false_iff in Hb as [Hn Hf].
    apply negb_false_iff in Hf. apply bool_decide_eq_true in Hf. apply bool_decide_eq_false in Hn. subst.
    split; [|set_solver]. intros H st' [->|Hin]%elem_of_cons; [|by apply H].
    split; [|done]. destruct st; [by eexists|done].
Qed.

Lemma verdict_true states :
  verdict states = true ↔ states = [] ∨ ∃ s, ∀ st, st ∈ states → st = Some s.
Proof.
  unfold verdict. destruct states as [|st rest]; simpl; [naive_solver|].
  rw orb_false_r. case_bool_decide as Hn.
  { split; [done|]. intros [?|[s Hs]]; [done|]. specialize (Hs st ltac:(set_solver)). congruence. }
  rw verdict_loop_true; [|lia]. split.
  - intros H. right. destruct st as [s|]; [|done]. exists s. intros st' [->|Hin]%elem_of_cons; [done|].
    by apply H.
  - intros [?|[s Hs]]; [done|]. intros st' Hin. rw (Hs st' ltac:(set_solver)) (Hs st ltac:(set_solver)).
    split; [by eexists|done].
Qed.

(** ** Properties *)

(** The convergence verdict is exact. The dashboard shows the replicas as
    converged exactly when every one of them answered, with one and the same CRDT
    state; an unreachable replica, or two that differ anywhere in their counters
    or recent entries, always shows as diverged. *)
Theorem fetch_converged_iff (rgc : Ranger GCounterState) (rgs : Ranger Z) (rge : Ranger ProtoLWWEntry)
    (members : list string) (answers : string → result err GetCRDTStateResponse) :
  Converged (Fetch rgc rgs rge members answers) = true ↔
    members = [] ∨
    ∃ s, ∀ m, m ∈ members → ∃ resp, answers m = Ok resp ∧ gcr_State resp = Some s.
Proof.
  unfold Fetch. simpl. rw verdict_true. rw -!list_fmap_compose. split.
  - intros [H|[s Hs]]; [left; by apply fmap_nil_inv in H|right]. exists s. intros m Hm.
    assert ((replica_view rgc rgs rge m (answers m)).2 = Some s) as Hv.
    { apply Hs. apply list_elem_of_fmap. by exists m. }
    destruct (answers m) as [resp|e]; [|done]. by exists resp.
  - intros [->|[s Hs]]; [by left|right]. exists s. intros st (m & -> & Hm)%list_elem_of_fmap.
    destruct (Hs m Hm) as (resp & Ha & Hst). simpl. by rw Ha.
Qed.
