(* ===== verification/Observer.v ===== *)
(** * internal/healthsvc and internal/observersvc: cluster health

    [ClusterCheck] checks every configured target and the database at the same
    time; the components are appended in the order the checks happen to finish,
    an arbitrary permutation here, and sorted by name. *)

From S2P Require Import Prelude GoRuntime Proto.
Local Open Scope Z_scope.

Module HealthSvc.

Record Server : Type := mkServer { component : string; instance : string }.

Definition New (component instance : string) : Server := mkServer component instance.

Definition Check_ (s : Server) : CheckResponse :=
  mkCheckResponse (component s) (instance s) SERVING_STATUS_SERVING.

End HealthSvc.

Module ObserverSvc.

Definition dbComponentName : string := "postgres-primary".

(** [GRPCTargetChecker]: the dial's error or the call's; the answer itself is
    not looked at. *)
Definition GRPCTargetChecker (dial : string → option err) (check : string → result err CheckResponse)
    (addr : string) : option err :=
  match dial addr with
  | Some e => Some e
  | None => match check addr with Err e => Some e | Ok _ => None end
  end.

Definition componentHealth (name : string) (e : option err) : ComponentHealth :=
  match e with
  | Some er => mkComponentHealth name SERVING_STATUS_NOT_SERVING (err_string er)
  | None => mkComponentHealth name SERVING_STATUS_SERVING EmptyString
  end.

(** The goroutines [ClusterCheck] starts, each with the component it adds;
    [ping] is nil without a database. *)
Definition checks (targets : gmap string string) (check : string → option err) (ping : option (option err)) :
    list ComponentHealth :=
  ((λ na, componentHealth na.1 (check na.2)) <$> map_to_list targets) ++
  match ping with Some e => [componentHealth dbComponentName e] | None => [] end.

Definition by_name (a b : ComponentHealth) : bool := str_ltb (ch_Name a) (ch_Name b).

Definition overall (components : list ComponentHealth) : ServingStatus :=
  foldl (λ o c, if decide (ch_Status c = SERVING_STATUS_SERVING) then o else SERVING_STATUS_NOT_SERVING)
    SERVING_STATUS_SERVING components.

(** [finished] lists the components in the order their goroutines added them. *)
Definition ClusterCheck (finished : list ComponentHealth) (now : Z) : ClusterCheckResponse :=
  let components := go_sort by_name finished in
  mkClusterCheckResponse (overall components) components (Some now).

(** ** Lemmas *)

#[global] Instance by_name_ok : LessOk by_name.
Proof. apply (less_on_ok ch_Name str_ltb). Qed.

Lemma overall_acc o cs :
  foldl (λ o c, if decide (ch_Status c = SERVING_STATUS_SERVING) then o else SERVING_STATUS_NOT_SERVING) o cs =
    if decide (Forall (λ c, ch_Status c = SERVING_STATUS_SERVING) cs) then o else SERVING_STATUS_NOT_SERVING.
Proof.
  revert o. induction cs as [|c cs IH]; intros o; simpl.
  { done. }
  rw IH. destruct (decide (ch_Status c = SERVING_STATUS_SERVING)) as [Hc|Hc].
  - destruct (decide (Forall _ cs)) as [H|H].
    + rw decide_True; [done|]. by constructor.
    + rw decide_False; [done|]. inversion 1. done.
  - rw (decide_False (P := Forall _ (c :: cs))); [|by inversion 1]. by case_decide.
Qed.

Lemma overall_serving cs :
  overall cs = SERVING_STATUS_SERVING ↔ Forall (λ c, ch_Status c = SERVING_STATUS_SERVING) cs.
Proof. unfold overall. rw overall_acc. by case_decide. Qed.

Lemma component_serving name e : ch_Status (componentHealth name e) = SERVING_STATUS_SERVING ↔ e = None.
Proof. by destruct e. Qed.

Lemma checks_serving targets check ping :
  Forall (λ c, ch_Status c = SERVING_STATUS_SERVING) (checks targets check ping) ↔
    (∀ name addr, targets !! name = Some addr → check addr = None) ∧ (∀ e, ping = Some e → e = None).
Proof.
  unfold checks. rw Forall_app Forall_fmap Forall_forall. split.
  - intros [Ht Hp]. split.
    + intros name addr Ha. apply (component_serving name). apply (Ht (name, addr)).
      by apply elem_of_map_to_list.
    + intros e ->. inversion_clear Hp as [|? ? Hc _]. by apply component_serving in Hc.
  - intros [Ht Hp]. split.
    + intros [name addr] Ha%elem_of_map_to_list. simpl. apply component_serving. by eapply Ht.
    + destruct ping as [e|]; [|constructor]. constructor; [|constructor]. apply component_serving. by apply Hp.
Qed.

End ObserverSvc.
