(* ===== verification/Conns.v ===== *)
(** * The gRPC connections the components hold

    dispatch, leaderclient, crdtview and heartbeat build one client per configured
    peer in the same way, statereport a single one, and the gossip loop of statesvc
    one per other replica. Opening and closing is recorded in a trace; whether
    [grpc.NewClient] accepts an address is answered by an arbitrary oracle. *)

From S2P Require Import Prelude GoRuntime Proto Crdt StateSvc Dispatch LeaderClient CrdtView Reporting.
Local Open Scope Z_scope.

Inductive conn_event : Type := Opened (addr : string) | Closed (addr : string).

#[export] Instance conn_event_eq_dec : EqDecision conn_event.
Proof. solve_decision. Defined.

(** A peer's client: its name and the address its connection was made to. *)
Record client : Type := mkClient { cl_name : string; cl_addr : string }.

Definition trace : Type := list conn_event.

Section conns.
Context (fails : trace → string → option err).

(** [Close]: every member's connection, in order. *)
Definition close_all (ms : list client) : stM trace unit := λ tr, (tt, tr ++ ((λ m, Closed (cl_addr m)) <$> ms)).

(** The loop of the constructors: [grpc.NewClient] and [Connect] for each name; on
    an error what was opened so far is closed. *)
Fixpoint connect (prefix : string) (addrs : gmap string string) (ms : list client) (names : list string) :
    stM trace (result err (list client)) :=
  match names with
  | [] => st_ret (Ok ms)
  | name :: names' => λ tr,
      let addr := default EmptyString (addrs !! name) in
      match fails tr addr with
      | Some e => st_bind (close_all ms) (λ _, st_ret (Err (EWrap (prefix +:+ name +:+ ": ") e))) tr
      | None => connect prefix addrs (ms ++ [mkClient name addr]) names' (tr ++ [Opened addr])
      end
  end.

(** The constructors: no peers at all is an error, otherwise one client per peer in
    name order. *)
Definition new_clients (missing prefix : string) (rg : Ranger string) (addrs : gmap string string) :
    stM trace (result err (list client)) :=
  if Nat.eqb (size addrs) 0 then st_ret (Err (EText missing))
  else connect prefix addrs [] (sort_strings (rg 0%nat addrs).*1).

Definition dispatch_clients : Ranger string → gmap string string → stM trace (result err (list client)) :=
  new_clients "dispatch: no workers configured (IRONWORK_WORKERS)" "dispatch: client for ".
Definition leaderclient_clients : Ranger string → gmap string string → stM trace (result err (list client)) :=
  new_clients "leaderclient: no schedulers configured (IRONWORK_SCHEDULERS)" "leaderclient: client for ".
Definition crdtview_clients : Ranger string → gmap string string → stM trace (result err (list client)) :=
  new_clients "crdtview: no statemanagers configured (IRONWORK_STATEMANAGERS)" "crdtview: client for ".
Definition heartbeat_clients : Ranger string → gmap string string → stM trace (result err (list client)) :=
  new_clients "heartbeat: no schedulers configured (IRONWORK_SCHEDULERS)" "heartbeat: client for ".

(** Their [Close] methods. *)
Definition dispatch_Close : list client → stM trace unit := close_all.
Definition leaderclient_Close : list client → stM trace unit := close_all.
Definition crdtview_Close : list client → stM trace unit := close_all.
Definition heartbeat_Close : list client → stM trace unit := close_all.

(** statereport's [New] and [Close]. *)
Definition report_client (addr : string) : stM trace (result err client) := λ tr,
  match fails tr addr with
  | Some e => (Err (EWrap ("statereport: client for " +:+ addr +:+ ": ") e), tr)
  | None => (Ok (mkClient addr addr), tr ++ [Opened addr])
  end.
Definition report_close (c : client) : stM trace unit := close_all [c].

(** The connection phase of [RunGossip]: an error returns at once; the deferred
    closes run last opened first, on every return. *)
Fixpoint gossip_connect (peers : gmap string string) (ms : list client) (names : list string) :
    stM trace (result err unit * list client) :=
  match names with
  | [] => st_ret (Ok tt, ms)
  | name :: names' => λ tr,
      let addr := default EmptyString (peers !! name) in
      match fails tr addr with
      | Some e => ((Err e, ms), tr)
      | None => gossip_connect peers (ms ++ [mkClient name addr]) names' (tr ++ [Opened addr])
      end
  end.

(** [RunGossip] for the ticks it sees before its context ends. *)
Definition RunGossip {W} (rs : Ranges) (rg : Ranger string) (peers : gmap string string)
    (sync : string → CRDTState → stM W (result err CRDTState)) (ticks : nat) :
    stM (Server * W * trace) (result err unit) := λ '(s, w, tr),
  let '((r, ms), tr1) := gossip_connect peers [] (gossip_peers rg peers s) tr in
  let '(s', w') :=
    match r with
    | Err _ => (s, w)
    | Ok _ => (st_iter (λ _, gossip_tick rs sync (cl_name <$> ms)) (replicate ticks tt) (s, w)).2
    end in
  (r, (s', w', (close_all (reverse ms) tr1).2)).
End conns.

(** ** Lemmas *)

(** Connections to [a] that are open after a trace. *)
Fixpoint balance (a : string) (tr : trace) : Z :=
  match tr with
  | [] => 0
  | Opened b :: tr' => (if decide (a = b) then 1 else 0) + balance a tr'
  | Closed b :: tr' => (if decide (a = b) then -1 else 0) + balance a tr'
  end.

Lemma balance_app a tr tr' : balance a (tr ++ tr') = balance a tr + balance a tr'.
Proof. induction tr as [|[b|b] tr IH]; simpl; [done|rw IH; lia..]. Qed.

(** The members connected to [a]. *)
Definition held (a : string) (ms : list client) : Z := Z.of_nat (length (filter (λ m, cl_addr m = a) ms)).

Lemma held_app a ms ms' : held a (ms ++ ms') = held a ms + held a ms'.
Proof. unfold held. rw filter_app length_app. lia. Qed.

Lemma held_one a m : held a [m] = if decide (a = cl_addr m) then 1 else 0.
Proof. unfold held. rw filter_cons filter_nil. by repeat case_decide. Qed.

Lemma balance_close a ms : balance a ((λ m, Closed (cl_addr m)) <$> ms) = - held a ms.
Proof.
  induction ms as [|m ms IH]; [done|]. cbn [fmap list_fmap balance]. rw (held_app a [m] ms) held_one.
  unfold fmap in IH. rw IH. case_decide; lia.
Qed.

Lemma held_reverse a ms : held a (reverse ms) = held a ms.
Proof. unfold held. by rw (Permutation_length (filter_Permutation _ _ _ (reverse_Permutation ms))). Qed.

Lemma connect_balance fails prefix addrs ms names tr r tr' a :
  connect fails prefix addrs ms names tr = (r, tr') →
  match r with
  | Err _ => balance a tr' = balance a tr - held a ms
  | Ok ms' => cl_name <$> ms' = (cl_name <$> ms) ++ names ∧
      balance a tr' - held a ms' = balance a tr - held a ms
  end.
Proof.
  revert ms tr. induction names as [|name names IH]; intros ms tr; cbn [connect].
  { intros [= <- <-]. rw app_nil_r. by split. }
  destruct (fails tr _) as [e|].
  { intros [= <- <-]. rw balance_app balance_close. lia. }
  intros H%IH. destruct r as [ms'|].
  - destruct H as [-> Hb]. rw balance_app held_app held_one /= in Hb. rw fmap_app -app_assoc. split; [done|]. lia.
  - rw balance_app held_app held_one /= in H. lia.
Qed.

Lemma gossip_connect_balance fails peers ms names tr r ms' tr' a :
  gossip_connect fails peers ms names tr = ((r, ms'), tr') →
  balance a tr' - held a ms' = balance a tr - held a ms ∧
  (is_ok r = true → cl_name <$> ms' = (cl_name <$> ms) ++ names).
Proof.
  revert ms tr. induction names as [|name names IH]; intros ms tr; cbn [gossip_connect].
  { intros [= <- <- <-]. by rw app_nil_r. }
  destruct (fails tr _) as [e|]; [by intros [= <- <- <-]|].
  intros [Hb Hn]%IH. rw balance_app held_app held_one /= in Hb. split; [lia|].
  intros Hok. rw (Hn Hok) fmap_app -app_assoc. done.
Qed.

(** The constructors of the components, which keep no trace, agree. *)
Lemma connect_foldl fails prefix addrs dial ms names tr :
  (∀ tr a, fails tr a = dial a) →
  match (connect fails prefix addrs ms names tr).1 with Ok ms' => Ok (cl_name <$> ms') | Err e => Err e end =
  foldl (λ acc name, match acc with
                     | Err e => Err e
                     | Ok ts => match dial (default EmptyString (addrs !! name)) with
                                | Some e => Err (EWrap (prefix +:+ name +:+ ": ") e)
                                | None => Ok (ts ++ [name])
                                end
                     end) (Ok (cl_name <$> ms)) names.
Proof.
  intros Hf. revert ms tr. induction names as [|name names IH]; intros ms tr; [done|]. cbn [connect foldl]. rw Hf.
  destruct (dial _) as [e|]; [|by rw IH fmap_app].
  cbn [fst st_bind close_all st_ret]. clear. induction names as [|n names IH]; [done|]. done.
Qed.

(** The traceless constructors that Dispatch, LeaderClient, CrdtView and Reporting
    use are these, with an oracle that only looks at the address. *)
Lemma clients_agree rg addrs dial fails :
  (∀ tr a, fails tr a = dial a) →
  (λ r, match r with Ok ms => Ok (cl_name <$> ms) | Err e => Err e end) (leaderclient_clients fails rg addrs []).1 =
    match LeaderClient.New rg addrs dial with Ok r => Ok (members r) | Err e => Err e end ∧
  (λ r, match r with Ok ms => Ok (cl_name <$> ms) | Err e => Err e end) (dispatch_clients fails rg addrs []).1 =
    match Dispatch.New rg addrs dial with Ok d => Ok (workers d) | Err e => Err e end.
Proof.
  intros Hf. unfold leaderclient_clients, dispatch_clients, new_clients, LeaderClient.New, Dispatch.New.
  destruct (Nat.eqb (size addrs) 0); [done|]. rw !(connect_foldl fails _ _ dial) //. split.
  - change (cl_name <$> []) with (members (mkRouter [] 0)). generalize (mkRouter [] 0) as r0.
    induction (sort_strings (rg 0%nat addrs).*1) as [|n ns IH]; intros r0; [done|]. cbn [foldl new_step].
    unfold LeaderClient.new_step at 2. destruct (dial _) as [e|].
    + clear. by induction ns.
    + apply (IH (mkRouter (members r0 ++ [n]) (leader r0))).
  - change (cl_name <$> []) with (workers (mkDispatcher [] ∅ 0)). generalize (mkDispatcher [] ∅ 0) as d0.
    induction (sort_strings (rg 0%nat addrs).*1) as [|n ns IH]; intros d0; [done|]. cbn [foldl new_step].
    unfold Dispatch.new_step at 2. destruct (dial _) as [e|].
    + clear. by induction ns.
    + apply (IH (mkDispatcher (workers d0 ++ [n]) ({[n]} ∪ byName d0) (next d0))).
Qed.

(** ** Properties *)

(** C32: no connection is leaked. A constructor that fails has closed whatever it
    opened; one that succeeds holds exactly one connection per configured peer, in
    name order whatever order the configuration is iterated in, and its Close
    leaves none open. The gossip loop dials every replica but its own and leaves
    no connection open when it returns, whether dialling failed or its context
    ended. *)
Theorem connections_balanced (fails : trace → string → option err) (missing prefix : string) (rg : Ranger string)
    (addrs : gmap string string) (tr : trace) (a : string) :
  (let '(r, tr') := new_clients fails missing prefix rg addrs tr in
   match r with
   | Err _ => balance a tr' = balance a tr
   | Ok ms => cl_name <$> ms = sort_strings (map_to_list addrs).*1 ∧
       balance a tr' = balance a tr + held a ms ∧
       balance a (close_all ms tr').2 = balance a tr
   end) ∧
  (∀ (W : Type) rs (sync : string → CRDTState → stM W (result err CRDTState)) ticks s w,
     balance a (RunGossip fails rs rg addrs sync ticks (s, w, tr)).2.2 = balance a tr) ∧
  (let '(r, tr') := report_client fails a tr in
   match r with
   | Err _ => tr' = tr
   | Ok c => balance a tr' = balance a tr + 1 ∧ balance a (report_close c tr').2 = balance a tr
   end).
Proof.
  split; [|split].
  - unfold new_clients. destruct (Nat.eqb (size addrs) 0); [done|].
    destruct (connect _ _ _ _ _ tr) as [r tr'] eqn:H. apply (connect_balance _ _ _ _ _ _ _ _ a) in H.
    destruct r as [ms|e]; cbn [held] in H; change (held a []) with 0 in H; [|lia].
    destruct H as [Hn Hb]. cbn [fmap list_fmap app] in Hn. split; [|split; [lia|]].
    + rw Hn. apply sort_strings_unique. by rw (range_perm rg 0 addrs).
    + cbn [close_all snd]. rw balance_app balance_close. lia.
  - intros W rs sync ticks s w. unfold RunGossip.
    destruct (gossip_connect fails addrs [] (gossip_peers rg addrs s) tr) as [[r ms] tr1] eqn:H.
    apply (gossip_connect_balance _ _ _ _ _ _ _ _ a) in H as [Hb _]. change (held a []) with 0 in Hb.
    assert (balance a (close_all (reverse ms) tr1).2 = balance a tr) as Hc.
    { cbn [close_all snd]. rw balance_app balance_close held_reverse. lia. }
    by destruct (match r with Ok _ => _ | Err _ => _ end).
  - unfold report_client. destruct (fails tr a); [done|]. cbn [report_close close_all snd].
    rw !balance_app. simpl. rw !decide_True //. lia.
Qed.
