(* ===== verification/Boot.v ===== *)
(** * Starting a consensus member: internal/tlsutil, raftnode's stream layer and New

    Certificate files and their parsing are parameters (what crypto/tls and
    crypto/x509 make of the files); every call that acts on the outside world
    (listening, directories, stores, the raft library) is recorded, in order, in a
    trace, and answered by an arbitrary oracle that sees the trace. *)

From S2P Require Import Prelude GoRuntime RaftNode Config.
Local Open Scope Z_scope.

(** ** net.SplitHostPort *)

(** The position of the first [c] in [s]. *)
Fixpoint index_byte (c : Ascii.ascii) (s : bytes) : option nat :=
  match s with
  | [] => None
  | x :: s' => if decide (x = c) then Some 0%nat else S <$> index_byte c s'
  end.

(** The position of the last one. *)
Definition last_index_byte (c : Ascii.ascii) (s : bytes) : option nat :=
  (λ i, length s - 1 - i)%nat <$> index_byte c (reverse s).

Definition colon : Ascii.ascii := Ascii.ascii_of_nat 58.
Definition lbracket : Ascii.ascii := Ascii.ascii_of_nat 91.
Definition rbracket : Ascii.ascii := Ascii.ascii_of_nat 93.

(** [*net.AddrError]'s text. *)
Definition addr_error (addr : bytes) (why : string) : err :=
  EText (if decide (addr = []) then why
         else "address " +:+ String.string_of_list_ascii addr +:+ ": " +:+ why).

(** The host of a bracketed address whose last colon is at [i], or the complaint. *)
Definition bracketed_host (s : bytes) (i : nat) : result err (bytes * nat * nat) :=
  match index_byte rbracket s with
  | None => Err (addr_error s "missing ']' in address")
  | Some e =>
      if Nat.eqb (S e) (length s) then Err (addr_error s "missing port in address")
      else if Nat.eqb (S e) i then Ok (take (e - 1) (drop 1 s), 1%nat, S e)
      else if decide (s !! S e = Some colon) then Err (addr_error s "too many colons in address")
      else Err (addr_error s "missing port in address")
  end.

Definition plain_host (s : bytes) (i : nat) : result err (bytes * nat * nat) :=
  if decide (colon ∈ take i s) then Err (addr_error s "too many colons in address")
  else Ok (take i s, 0%nat, 0%nat).

(** Host and port of [s]: the port follows the last colon; brackets only around a
    whole host. *)
Definition SplitHostPort (s : bytes) : result err (bytes * bytes) :=
  match last_index_byte colon s with
  | None => Err (addr_error s "missing port in address")
  | Some i =>
      match (if decide (head s = Some lbracket) then bracketed_host s i else plain_host s i) with
      | Err e => Err e
      | Ok (host, j, k) =>
          if decide (lbracket ∈ drop j s) then Err (addr_error s "unexpected '[' in address")
          else if decide (rbracket ∈ drop k s) then Err (addr_error s "unexpected ']' in address")
          else Ok (host, drop (S i) s)
      end
  end.

(** ** tlsutil *)

Inductive client_auth : Type :=
| NoClientCert | RequestClientCert | RequireAnyClientCert | VerifyClientCertIfGiven
| RequireAndVerifyClientCert.

Definition VersionTLS13 : Z := 772.

(** The fields of [tls.Config] the code sets, over abstract certificates and pools. *)
Record tls_config (Cert Pool : Type) : Type := mkTlsConfig {
  MinVersion : Z;
  Certificates : list Cert;
  ClientAuth : client_auth;
  ClientCAs : option Pool;
  RootCAs : option Pool;
  ServerName : string;
}.
Arguments mkTlsConfig {Cert Pool} _ _ _ _ _ _.
Arguments MinVersion {Cert Pool} _.
Arguments Certificates {Cert Pool} _.
Arguments ClientAuth {Cert Pool} _.
Arguments ClientCAs {Cert Pool} _.
Arguments RootCAs {Cert Pool} _.
Arguments ServerName {Cert Pool} _.

Section boot.
Context {Cert Pool : Type}.
(** [tls.LoadX509KeyPair], [os.ReadFile] and a fresh pool's [AppendCertsFromPEM]
    ([None]: no certificate parsed). *)
Context (LoadX509KeyPair : string → string → result err Cert).
Context (ReadFile : string → result err string).
Context (AppendCertsFromPEM : string → option Pool).

Definition load (p : TLSPaths) : result err (Cert * Pool) :=
  match LoadX509KeyPair (CertFile p) (KeyFile p) with
  | Err e => Err (EWrap "tlsutil: load key pair (did you run `make certs`?): " e)
  | Ok cert =>
      match ReadFile (CAFile p) with
      | Err e => Err (EWrap "tlsutil: read CA (did you run `make certs`?): " e)
      | Ok caPEM =>
          match AppendCertsFromPEM caPEM with
          | None => Err (EText ("tlsutil: no certificates parsed from " +:+ CAFile p))
          | Some pool => Ok (cert, pool)
          end
      end
  end.

Definition Server (p : TLSPaths) : result err (tls_config Cert Pool) :=
  match load p with
  | Err e => Err e
  | Ok (cert, pool) =>
      Ok (mkTlsConfig VersionTLS13 [cert] RequireAndVerifyClientCert (Some pool) None EmptyString)
  end.

Definition Client (p : TLSPaths) : result err (tls_config Cert Pool) :=
  match load p with
  | Err e => Err e
  | Ok (cert, pool) => Ok (mkTlsConfig VersionTLS13 [cert] NoClientCert None (Some pool) EmptyString)
  end.

(** ** Calls on the outside world *)

Inductive call : Type :=
| CListen (addr : string) (cfg : tls_config Cert Pool)
| CDial (addr : string) (cfg : tls_config Cert Pool)
| CMkdirAll (dir : string)
| CNewBoltStore (dir file : string)
| CNewFileSnapshotStore (dir : string) (retain : Z)
| CHasExistingState
| CNewRaft (localID : string)
| CBootstrapCluster (servers : list (string * string))
| CLeadershipTransfer
| CShutdown.

(** How a call fails, if it does, after the calls already made; and what
    [raft.HasExistingState] finds. *)
Context (fails : list call → call → option err) (existing : list call → bool).
(** [errors.Is(err, raft.ErrCantBootstrap)]. *)
Context (isCantBootstrap : err → bool).

Local Open Scope go_scope.

(** A call, with [if err != nil { return ..., wrap(err) }] after it. *)
Definition try {A : Type} (wrap : err → err) (c : call) (k : stM (list call) (result err A)) :
    stM (list call) (result err A) :=
  λ tr, match fails tr c with Some e => (Err (wrap e), tr ++ [c]) | None => k (tr ++ [c]) end.

(** ** The stream layer *)

Record tlsStreamLayer : Type := mkTlsStreamLayer {
  sl_advertise : string;
  sl_clientTLS : tls_config Cert Pool;
}.

Definition newTLSStreamLayer {A : Type} (bindAddr advertiseAddr : string) (serverTLS clientTLS : tls_config Cert Pool)
    (k : tlsStreamLayer → stM (list call) (result err A)) : stM (list call) (result err A) :=
  try (EWrap ("raftnode: listen " +:+ bindAddr +:+ ": ")) (CListen bindAddr serverTLS)
    (k (mkTlsStreamLayer advertiseAddr clientTLS)).

Definition Addr (l : tlsStreamLayer) : string := sl_advertise l.

(** [cfg := l.clientTLS.Clone(); cfg.ServerName = host]. *)
Definition dial_config (host : string) (c : tls_config Cert Pool) : tls_config Cert Pool :=
  mkTlsConfig (MinVersion c) (Certificates c) (ClientAuth c) (ClientCAs c) (RootCAs c) host.

Definition Dial (l : tlsStreamLayer) (address : string) : stM (list call) (result err unit) :=
  match SplitHostPort (String.list_ascii_of_string address) with
  | Err e => st_ret (Err (EWrap ("raftnode: bad peer address " +:+ go_quote address +:+ ": ") e))
  | Ok (host, _) =>
      try id (CDial address (dial_config (String.string_of_list_ascii host) (sl_clientTLS l))) (st_ret (Ok tt))
  end.

(** ** The member *)

Definition snapshotRetain : Z := 2.

Record NodeConfig : Type := mkNodeConfig {
  nc_Instance : string;
  nc_BindAddr : string;
  nc_Peers : gmap string string;
  nc_DataDir : string;
  nc_TLS : TLSPaths;
}.

(** [Node], less the raft handle: its state machine, its id, and the stream layer
    its transport runs on. *)
Record Node : Type := mkNode {
  n_fsm : fsmState;
  n_id : string;
  n_stream : tlsStreamLayer;
}.

Definition newWithBackends {A : Type} (id : string) (stream : tlsStreamLayer)
    (k : Node → stM (list call) (result err A)) : stM (list call) (result err A) :=
  try (EWrap "raftnode: start raft: ") (CNewRaft id) (k (mkNode fsm_zero id stream)).

(** [BootstrapCluster], whose loss of the race is no error. *)
Definition bootstrap (servers : list (string * string)) (node : Node) : stM (list call) (result err Node) :=
  λ tr,
    let tr' := tr ++ [CBootstrapCluster servers] in
    match fails tr (CBootstrapCluster servers) with
    | Some e => if isCantBootstrap e then (Ok node, tr') else (Err (EWrap "raftnode: bootstrap: " e), tr')
    | None => (Ok node, tr')
    end.

Definition New (rg : Ranger string) (cfg : NodeConfig) : stM (list call) (result err Node) :=
  match advertise (nc_Peers cfg) (nc_Instance cfg) with
  | Err e => st_ret (Err e)
  | Ok adv =>
  match Server (nc_TLS cfg) with
  | Err e => st_ret (Err e)
  | Ok serverTLS =>
  match Client (nc_TLS cfg) with
  | Err e => st_ret (Err e)
  | Ok clientTLS =>
      newTLSStreamLayer (nc_BindAddr cfg) adv serverTLS clientTLS (λ stream,
      try (EWrap "raftnode: create data dir: ") (CMkdirAll (nc_DataDir cfg)) (
      try (EWrap "raftnode: open bolt store: ") (CNewBoltStore (nc_DataDir cfg) "raft.db") (
      try (EWrap "raftnode: open snapshot store: ") (CNewFileSnapshotStore (nc_DataDir cfg) snapshotRetain) (
      λ tr, let hasState := existing tr in
      try (EWrap "raftnode: check existing state: ") CHasExistingState (
      newWithBackends (nc_Instance cfg) stream (λ node,
      if hasState then st_ret (Ok node) else bootstrap (bootstrap_servers rg (nc_Peers cfg)) node)) tr))))
  end end end.

(** [Shutdown]: errors are only logged. *)
Definition Shutdown (isLeader : bool) : stM (list call) unit :=
  λ tr, (tt, tr ++ (if isLeader then [CLeadershipTransfer] else []) ++ [CShutdown]).
End boot.
Arguments call : clear implicits.

(** ** Lemmas *)

Lemma index_byte_app c s t : c ∉ s → index_byte c (s ++ c :: t) = Some (length s).
Proof.
  induction s as [|x s IH]; intros H; simpl; [by rw decide_True|].
  rw decide_False; [|set_solver]. rw IH; [done|set_solver].
Qed.

Lemma last_index_byte_app c s t : c ∉ t → last_index_byte c (s ++ c :: t) = Some (length s).
Proof.
  intros H. unfold last_index_byte. rw reverse_app reverse_cons -app_assoc /=.
  rw index_byte_app; [|by rw elem_of_reverse]. simpl. rw length_app length_reverse /=. f_equal. lia.
Qed.

(** A host and a port without colons and brackets are found again. *)
Lemma SplitHostPort_plain host port :
  (∀ c, c ∈ [colon; lbracket; rbracket] → c ∉ host ∧ c ∉ port) →
  SplitHostPort (host ++ colon :: port) = Ok (host, port).
Proof.
  intros H. destruct (H colon) as [H1 H2]; [set_solver|]. destruct (H lbracket) as [H3 H4]; [set_solver|].
  destruct (H rbracket) as [H5 H6]; [set_solver|].
  assert (lbracket ≠ colon ∧ rbracket ≠ colon) as [Hl Hr] by done.
  unfold SplitHostPort. rw last_index_byte_app; [|done].
  rw decide_False; [|destruct host; simpl; [congruence|set_solver]].
  unfold plain_host. rw take_app_length decide_False; [|done].
  rw !drop_0 !decide_False; [|set_solver..]. rw -(Nat.add_1_r (length host)) drop_app_add /=. by rw drop_0.
Qed.

Lemma bootstrap_servers_order rg rg' peers : bootstrap_servers rg peers = bootstrap_servers rg' peers.
Proof.
  unfold bootstrap_servers. apply go_sort_unique; [apply _| |].
  - intros [n a] [n' a'] Hx Hy H1 H2. apply elem_of_range in Hx, Hy. simpl in *.
    pose proof (str_ltb_false_antisym n n' H1 H2) as ->. simplify_eq. done.
  - etrans; [apply range_perm|]. symmetry. apply range_perm.
Qed.

Section boot_facts.
Context {Cert Pool : Type}.
Context (LoadX509KeyPair : string → string → result err Cert).
Context (ReadFile : string → result err string).
Context (AppendCertsFromPEM : string → option Pool).
Context (fails : list (call Cert Pool) → call Cert Pool → option err).
Context (existing : list (call Cert Pool) → bool).
Context (isCantBootstrap : err → bool).

Lemma try_ok {A} wrap c (k : stM _ (result err A)) tr a tr' :
  try fails wrap c k tr = (Ok a, tr') → fails tr c = None ∧ k (tr ++ [c]) = (Ok a, tr').
Proof. unfold try. destruct (fails tr c); [done|auto]. Qed.

Lemma bootstrap_ok servers node tr n' tr' :
  bootstrap fails isCantBootstrap servers node tr = (Ok n', tr') →
  n' = node ∧ tr' = tr ++ [CBootstrapCluster servers].
Proof.
  unfold bootstrap. destruct (fails tr _) as [e|]; [destruct (isCantBootstrap e)|]; intros; by simplify_eq.
Qed.

Lemma boot_trace rg cfg tr node tr' :
  New LoadX509KeyPair ReadFile AppendCertsFromPEM fails existing isCantBootstrap rg cfg tr = (Ok node, tr') →
  ∃ adv cert pool, nc_Peers cfg !! nc_Instance cfg = Some adv ∧
    load LoadX509KeyPair ReadFile AppendCertsFromPEM (nc_TLS cfg) = Ok (cert, pool) ∧
    node = mkNode fsm_zero (nc_Instance cfg)
             (mkTlsStreamLayer adv (mkTlsConfig VersionTLS13 [cert] NoClientCert None (Some pool) EmptyString)) ∧
    let opened := tr ++ [CListen (nc_BindAddr cfg)
        (mkTlsConfig VersionTLS13 [cert] RequireAndVerifyClientCert (Some pool) None EmptyString);
      CMkdirAll (nc_DataDir cfg); CNewBoltStore (nc_DataDir cfg) "raft.db";
      CNewFileSnapshotStore (nc_DataDir cfg) snapshotRetain] in
    tr' = opened ++ [CHasExistingState; CNewRaft (nc_Instance cfg)] ++
            (if existing opened then [] else [CBootstrapCluster (bootstrap_servers rg (nc_Peers cfg))]).
Proof.
  unfold New, advertise, Server, Client, newTLSStreamLayer, newWithBackends.
  destruct (nc_Peers cfg !! nc_Instance cfg) as [adv|]; [|done].
  destruct (load _ _ _ (nc_TLS cfg)) as [[cert pool]|e]; [|done]. intros H.
  do 4 apply try_ok in H as [_ H]. rw -!app_assoc /= in H.
  apply try_ok in H as [_ H]. apply try_ok in H as [_ H].
  exists adv, cert, pool. split; [done|]. split; [done|].
  destruct (existing _).
  - unfold st_ret in H. simplify_eq. by rw -!app_assoc.
  - apply bootstrap_ok in H as [-> ->]. by rw -!app_assoc.
Qed.
End boot_facts.

(** ** Properties *)

(** C30: how a consensus member starts. A member that is not among its own peers
    touches nothing and fails. One that starts has opened, in this order, a
    listener that demands TLS 1.3 and a client certificate of the cluster's CA,
    its directory, its stores and the raft instance; it has bootstrapped exactly
    when there was no earlier state, with a configuration that does not depend on
    the order its peers are looked at, so all first-time members agree on it; it
    advertises its configured address; and when it dials a peer "host:port" it
    verifies that host against the same CA. *)
Theorem member_boot {Cert Pool : Type} (LoadX509KeyPair : string → string → result err Cert)
    (ReadFile : string → result err string) (AppendCertsFromPEM : string → option Pool)
    (fails : list (call Cert Pool) → call Cert Pool → option err)
    (existing : list (call Cert Pool) → bool) (isCantBootstrap : err → bool)
    (rg rg' : Ranger string) (cfg : NodeConfig) (tr : list (call Cert Pool)) :
  let started := New LoadX509KeyPair ReadFile AppendCertsFromPEM fails existing isCantBootstrap rg cfg tr in
  (nc_Peers cfg !! nc_Instance cfg = None → is_ok started.1 = false ∧ started.2 = tr) ∧
  (∀ node, started.1 = Ok node →
     ∃ scfg pool hadState, started.2 = tr ++
         [CListen (nc_BindAddr cfg) scfg; CMkdirAll (nc_DataDir cfg); CNewBoltStore (nc_DataDir cfg) "raft.db";
          CNewFileSnapshotStore (nc_DataDir cfg) snapshotRetain; CHasExistingState; CNewRaft (nc_Instance cfg)] ++
         (if hadState : bool then [] else [CBootstrapCluster (bootstrap_servers rg' (nc_Peers cfg))]) ∧
       hadState = existing (take (length tr + 4) started.2) ∧
       MinVersion scfg = VersionTLS13 ∧ ClientAuth scfg = RequireAndVerifyClientCert ∧ ClientCAs scfg = Some pool ∧
       nc_Peers cfg !! nc_Instance cfg = Some (Addr (n_stream node)) ∧
       ∀ host port tr2, (∀ c, c ∈ [colon; lbracket; rbracket] → c ∉ host ∧ c ∉ port) →
         let address := String.string_of_list_ascii (host ++ colon :: port) in
         ∃ ccfg, (Dial fails (n_stream node) address tr2).2 = tr2 ++ [CDial address ccfg] ∧
           MinVersion ccfg = VersionTLS13 ∧ RootCAs ccfg = Some pool ∧
           ServerName ccfg = String.string_of_list_ascii host).
Proof.
  intros started. split.
  { intros H. unfold started, New, advertise. by rw H. }
  intros node Hs. destruct started as [r tr'] eqn:E. simpl in *. subst r.
  apply boot_trace in E as (adv & cert & pool & Hadv & _ & -> & ->).
  eexists _, pool, _. split; [rw (bootstrap_servers_order rg' rg) -!app_assoc; done|].
  split; [by rw -!app_assoc /= take_app_add|]. do 4 (split; [done|]).
  intros host port tr2 Hhp. unfold Dial.
  rw String.list_ascii_of_string_of_list_ascii SplitHostPort_plain; [|done]. unfold try.
  eexists. split; [by destruct (fails tr2 _)|done].
Qed.

Definition demo_member : NodeConfig :=
  mkNodeConfig "scheduler-1" ":9444"
    {["scheduler-2" := "scheduler-2:9444"; "scheduler-1" := "scheduler-1:9444"]} "raft-data"
    (mkTLSPaths "c.pem" "k.pem" "ca.pem").

(** A first boot that loses the race to bootstrap. *)
Definition lost_race (tr : list (call string string)) (c : call string string) : option err :=
  match c with CBootstrapCluster _ => Some (EText "bootstrap only works on new clusters") | _ => None end.

Lemma member_boot_witness :
  let started := New (λ c _, Ok c) Ok Some lost_race (λ _, false) (λ _, true) (ranger_asc _) demo_member [] in
  is_ok started.1 = true ∧
  ∃ scfg, started.2 =
    [CListen ":9444" scfg; CMkdirAll "raft-data"; CNewBoltStore "raft-data" "raft.db";
     CNewFileSnapshotStore "raft-data" 2; CHasExistingState; CNewRaft "scheduler-1";
     CBootstrapCluster [("scheduler-1", "scheduler-1:9444"); ("scheduler-2", "scheduler-2:9444")]] ∧
    ClientAuth scfg = RequireAndVerifyClientCert ∧ ClientCAs scfg = Some "ca.pem".
Proof.
  split; [by vm_compute|].
  destruct (proj2 (member_boot (λ c _, Ok c) Ok Some lost_race (λ _, false) (λ _, true) (ranger_asc _)
    (ranger_desc _) demo_member []) _ eq_refl) as (scfg & pool & had & Htr & Hh & _ & Ha & Hp & _).
  exists scfg. rw Hh in Htr. split; [by rw Htr; vm_compute|]. split; [done|].
  vm_compute in Htr. by simplify_eq.
Defined.
