(* ===== verification/Gateway.v ===== *)
(** * internal/gatewayhttp: the REST edge

    Each handler is a function from the request's parts and the collaborators'
    answers to the response: status code, headers and the value the body encodes.
    [NewRouter] is the table of routes and [serve] the handler behind each of them
    on the collaborators in [Deps]. chi's matching of a request to a route and
    google/uuid are parameters; the embedded dashboard page is one of [serve]. *)

From Stdlib Require Import QArith.
From S2P Require Import Prelude GoRuntime Json Proto Store Protoconv SchedulerSvc LeaderClient CrdtView Observer.
Local Open Scope Z_scope.

Definition maxBodyBytes : Z := Z.shiftl 1 20.
Definition defaultLimit : Z := 50.
Definition maxLimit : Z := 200.

Definition StatusOK : Z := 200.
Definition StatusCreated : Z := 201.
Definition StatusBadRequest : Z := 400.
Definition StatusNotFound : Z := 404.
Definition StatusBadGateway : Z := 502.
Definition StatusServiceUnavailable : Z := 503.

(** ** Rendering *)

Record jobJSON : Type := mkJobJSON {
  jj_ID : string;
  jj_Name : string;
  jj_Status : string;
  jj_AssignedWorker : string;
  jj_Attempts : Z;
  jj_Error : string;
  jj_CreatedAt : Z;
  jj_UpdatedAt : Z;
  jj_StartedAt : option Z;
  jj_FinishedAt : option Z;
  jj_Payload : option string;
}.

Record nodeWorkers : Type := mkNodeWorkers {
  nw_Name : string;
  nw_Reachable : bool;
  nw_Error : string;
  nw_Workers : list WorkerView;
}.

Record componentHealthJSON : Type := mkComponentHealthJSON {
  chj_Name : string;
  chj_Status : string;
  chj_Message : string;
}.

Record healthResponse : Type := mkHealthResponse {
  hr_Status : string;
  hr_CheckedAt : Z;
  hr_Components : list componentHealthJSON;
  hr_Error : string;
}.

(** The value a response body encodes. *)
Inductive body : Type :=
| BText (s : string)
| BPage (html : string)
| BError (msg : string)
| BJob (j : jobJSON)
| BJobs (js : list jobJSON)
| BRaft (leader : string) (nodes : list NodeStatus)
| BWorkers (nodes : list nodeWorkers)
| BOutbox (pending dispatched failed : Z) (oldest : Q)
| BCrdt (v : View)
| BGossip (enabled : bool)
| BHealth (h : healthResponse).

Record response : Type := mkResponse {
  code_ : Z;
  location : option string;
  content : body;
}.

Definition writeJSON (code : Z) (b : body) : response := mkResponse code None b.
Definition writeError (code : Z) (msg : string) : response := writeJSON code (BError msg).

(** [writeRPCError]; an error that is no status has code Unknown. *)
Definition writeRPCError (e : err) : response :=
  match status_code e with
  | InvalidArgument => writeError StatusBadRequest (status_message e)
  | NotFound => writeError StatusNotFound (status_message e)
  | _ => writeError StatusBadGateway ("scheduler unavailable: " +:+ status_message e)
  end.

Definition statusString (s : ServingStatus) : string :=
  match s with
  | SERVING_STATUS_SERVING => "SERVING"
  | SERVING_STATUS_NOT_SERVING => "NOT_SERVING"
  | _ => "UNKNOWN"
  end.

(** [validStatuses]. *)
Definition validStatuses (s : string) : bool :=
  String.eqb s StatusPending || String.eqb s StatusScheduled || String.eqb s StatusRunning ||
  String.eqb s StatusSucceeded || String.eqb s StatusFailed.

(** ** [strconv.Atoi] *)

Definition digit (c : Ascii.ascii) : option Z :=
  let n := Z.of_nat (Ascii.nat_of_ascii c) in
  if (48 <=? n) && (n <=? 57) then Some (n - 48) else None.

Fixpoint digits (acc : Z) (s : string) : option Z :=
  match s with
  | EmptyString => Some acc
  | String c s' => match digit c with Some d => digits (acc * 10 + d) s' | None => None end
  end.

(** An optional sign, at least one digit, and a value that fits an int. *)
Definition Atoi (s : string) : option Z :=
  let '(neg, rest) :=
    match s with
    | String c s' =>
        if Ascii.eqb c (Ascii.ascii_of_nat 45) then (true, s')
        else if Ascii.eqb c (Ascii.ascii_of_nat 43) then (false, s') else (false, s)
    | EmptyString => (false, s)
    end in
  if String.eqb rest EmptyString then None
  else match digits 0 rest with
       | None => None
       | Some n =>
           let v := if neg then - n else n in
           if (min_i64 <=? v) && (v <=? max_i64) then Some v else None
       end.

(** ** Handlers *)

(** The request body of POST /jobs; a payload that is absent stays nil, which is the
    empty text. *)
Record createBody : Type := mkCreateBody { cb_Name : string; cb_Payload : string }.

Definition f_name : bytes * decoder createBody := field "name" cb_Name (λ x b, mkCreateBody x (cb_Payload b)) dec_string.
Definition f_payload : bytes * decoder createBody :=
  field "payload" cb_Payload (λ x b, mkCreateBody (cb_Name b) x) dec_raw.
Definition body_fields : fields createBody := [f_name; f_payload].

(** What [http.MaxBytesReader] lets through of a body: its first bytes, and whether
    the reader then fails. *)
Definition limited (raw : string) : string := String.substring 0 (Z.to_nat maxBodyBytes) raw.
Definition cut_off (raw : string) : bool := maxBodyBytes <? Z.of_nat (String.length raw).

Section handlers.
Context (rgp : Ranger JobStatus).
Context {JE : JsonEnv}.
Context (uuid_ok : string → bool).

Definition renderJob (j : ProtoJob) : jobJSON :=
  mkJobJSON (pj_Id j) (pj_Name j) (StatusFromProto rgp (pj_Status j)) (pj_AssignedWorkerId j) (pj_Attempts j)
    (pj_Error j) (default 0 (pj_CreatedAt j)) (default 0 (pj_UpdatedAt j)) (pj_StartedAt j) (pj_FinishedAt j)
    (if Valid (String.list_ascii_of_string (pj_Payload j)) then Some (pj_Payload j) else None).

Section with_world.
Context {W : Type}.

Context (submitJob : SubmitJobRequest → stM W (result err ProtoJob)).
Context (getJob : string → stM W (result err ProtoJob)).
Context (listJobs : ListJobsRequest → stM W (result err (list ProtoJob))).

Definition handleCreateJob (raw : string) : stM W response :=
  match Decode (decode_struct body_fields) (mkCreateBody EmptyString EmptyString) (limited raw) (cut_off raw) with
  | Err e => st_ret (writeError StatusBadRequest ("invalid JSON body: " +:+ err_string e))
  | Ok body =>
      st_bind (submitJob (mkSubmitJobRequest (cb_Name body) (cb_Payload body))) (λ r,
      st_ret (match r with
              | Err e => writeRPCError e
              | Ok job => mkResponse StatusCreated (Some ("/jobs/" +:+ pj_Id job)) (BJob (renderJob job))
              end))
  end.

Definition handleGetJob (id : string) : stM W response :=
  if negb (uuid_ok id) then st_ret (writeError StatusBadRequest "id must be a UUID")
  else
    st_bind (getJob id) (λ r,
    st_ret (match r with
            | Err e => writeRPCError e
            | Ok job => writeJSON StatusOK (BJob (renderJob job))
            end)).

(** The request [handleListJobs] sends for the query's [status] and [limit]
    (empty when absent), or the complaint it answers with. *)
Definition list_request (filter rawLimit : string) : result string ListJobsRequest :=
  if negb (String.eqb filter EmptyString) && negb (validStatuses filter) then Err "unknown status filter"
  else
    match (if String.eqb rawLimit EmptyString then Some defaultLimit else Atoi rawLimit) with
    | None => Err "limit must be an integer"
    | Some n =>
        let limit := if (n <? 1) || (maxLimit <? n) then defaultLimit else n in
        Ok (mkListJobsRequest (StatusToProto filter) (u32 limit) EmptyString)
    end.

Definition handleListJobs (filter rawLimit : string) : stM W response :=
  match list_request filter rawLimit with
  | Err msg => st_ret (writeError StatusBadRequest msg)
  | Ok req =>
      st_bind (listJobs req) (λ r,
      st_ret (match r with
              | Err e => writeRPCError e
              | Ok js => writeJSON StatusOK (BJobs (renderJob <$> js))
              end))
  end.
End with_world.
End handlers.

(** [votes[n.LeaderID]++] for the reachable nodes that name a leader. *)
Definition vote_step (votes : gmap string Z) (n : NodeStatus) : gmap string Z :=
  if ns_Reachable n && negb (String.eqb (ns_LeaderID n) EmptyString)
  then <[ns_LeaderID n := default 0 (votes !! ns_LeaderID n) + 1]> votes else votes.

Definition count_votes (nodes : list NodeStatus) : gmap string Z := foldl vote_step ∅ nodes.

(** [for id, count := range votes { if count > len(nodes)/2 { leader = id } }]. *)
Definition majority (rg : Ranger Z) (nodes : list NodeStatus) : string :=
  foldl (λ leader ic, if Z.of_nat (length nodes) / 2 <? ic.2 then ic.1 else leader) EmptyString
    (rg 0%nat (count_votes nodes)).

Definition handleRaft (rg : Ranger Z) (nodes : list NodeStatus) : response :=
  writeJSON StatusOK (BRaft (majority rg nodes) nodes).

Definition handleWorkers (nodes : list NodeStatus) : response :=
  writeJSON StatusOK (BWorkers ((λ n, mkNodeWorkers (ns_Name n) (ns_Reachable n) (ns_Error n) (ns_Workers n)) <$> nodes)).

Definition handleOutbox (answer : result err GetOutboxStatsResponse) : response :=
  match answer with
  | Err e => writeRPCError e
  | Ok r => writeJSON StatusOK (BOutbox (gos_Pending r) (gos_Dispatched r) (gos_Failed r) (gos_OldestPendingSeconds r))
  end.

Definition handleCRDTState (v : View) : response := writeJSON StatusOK (BCrdt v).

Definition handleSetGossip (enabled : bool) (e : option err) : response :=
  match e with
  | Some er => writeError StatusBadGateway (err_string er)
  | None => writeJSON StatusOK (BGossip enabled)
  end.

Definition handleHealth (answer : result err ClusterCheckResponse) (now : Z) : response :=
  match answer with
  | Err e => writeJSON StatusBadGateway (BHealth (mkHealthResponse "UNREACHABLE" now [] (err_string e)))
  | Ok resp =>
      let code := if decide (ccr_Status resp = SERVING_STATUS_SERVING) then StatusOK else StatusServiceUnavailable in
      writeJSON code (BHealth (mkHealthResponse (statusString (ccr_Status resp)) (default 0 (ccr_CheckedAt resp))
        ((λ c, mkComponentHealthJSON (ch_Name c) (statusString (ch_Status c)) (ch_Message c)) <$> ccr_Components resp)
        EmptyString))
  end.

(** ** The router *)

(** [Deps]: the clients behind the handlers, on a shared world. *)
Record Deps (W : Type) : Type := mkDeps {
  d_ClusterCheck : stM W (result err ClusterCheckResponse);
  d_SubmitJob : SubmitJobRequest → stM W (result err ProtoJob);
  d_GetJob : string → stM W (result err ProtoJob);
  d_ListJobs : ListJobsRequest → stM W (result err (list ProtoJob));
  d_GetOutboxStats : stM W (result err GetOutboxStatsResponse);
  d_RaftStatus : stM W (list NodeStatus);
  d_Fetch : stM W View;
  d_SetGossip : bool → stM W (option err);
}.
Arguments d_ClusterCheck {W} _.
Arguments d_SubmitJob {W} _ _.
Arguments d_GetJob {W} _ _.
Arguments d_ListJobs {W} _ _.
Arguments d_GetOutboxStats {W} _.
Arguments d_RaftStatus {W} _.
Arguments d_Fetch {W} _.
Arguments d_SetGossip {W} _ _.

(** The handlers that routes are bound to. *)
Inductive endpoint : Type :=
| Healthz | Health | Raft | Workers | Dashboard | CRDTState | SetGossip_ (enabled : bool) | Outbox
| CreateJob | ListJobs_ | GetJob_.

#[export] Instance endpoint_eq_dec : EqDecision endpoint.
Proof. solve_decision. Defined.

(** [NewRouter]: method, pattern and handler of every route, [r.Route] flattened. *)
Definition NewRouter : list (string * string * endpoint) :=
  [("GET", "/healthz", Healthz);
   ("GET", "/health", Health);
   ("GET", "/raft", Raft);
   ("GET", "/workers", Workers);
   ("GET", "/crdt", Dashboard);
   ("GET", "/crdt/state", CRDTState);
   ("POST", "/crdt/partition", SetGossip_ false);
   ("POST", "/crdt/heal", SetGossip_ true);
   ("GET", "/outbox", Outbox);
   ("POST", "/jobs/", CreateJob);
   ("GET", "/jobs/", ListJobs_);
   ("GET", "/jobs/{id}", GetJob_)].

(** The parts of a request the handlers read: the body, the [{id}] of the path and
    the query's [status] and [limit]. *)
Record request : Type := mkRequest { rq_body : string; rq_id : string; rq_status : string; rq_limit : string }.

Definition newline : string := String (Ascii.ascii_of_nat 10) EmptyString.

Section serve.
Context (rgp : Ranger JobStatus) (rgv : Ranger Z) {JE : JsonEnv} (uuid_ok : string → bool).
Context {W : Type} (d : Deps W) (dashboardHTML : string) (now : Z).

(** The handler of an endpoint; [now] is its clock. *)
Definition serve (ep : endpoint) (rq : request) : stM W response :=
  match ep with
  | Healthz => st_ret (mkResponse StatusOK None (BText ("ok" +:+ newline)))
  | Health => st_bind (d_ClusterCheck d) (λ r, st_ret (handleHealth r now))
  | Raft => st_bind (d_RaftStatus d) (λ nodes, st_ret (handleRaft rgv nodes))
  | Workers => st_bind (d_RaftStatus d) (λ nodes, st_ret (handleWorkers nodes))
  | Dashboard => st_ret (mkResponse StatusOK None (BPage dashboardHTML))
  | CRDTState => st_bind (d_Fetch d) (λ v, st_ret (handleCRDTState v))
  | SetGossip_ enabled => st_bind (d_SetGossip d enabled) (λ e, st_ret (handleSetGossip enabled e))
  | Outbox => st_bind (d_GetOutboxStats d) (λ r, st_ret (handleOutbox r))
  | CreateJob => handleCreateJob rgp (d_SubmitJob d) (rq_body rq)
  | ListJobs_ => handleListJobs rgp (d_ListJobs d) (rq_status rq) (rq_limit rq)
  | GetJob_ => handleGetJob rgp uuid_ok (d_GetJob d) (rq_id rq)
  end.
End serve.

(** ** Lemmas: votes *)

(** The nodes that are reachable and name [id] as leader. *)
Definition voters (id : string) (nodes : list NodeStatus) : nat :=
  length (filter (λ n, ns_Reachable n = true ∧ ns_LeaderID n = id) nodes).

Lemma voters_cons id n nodes :
  voters id (n :: nodes) =
    ((if decide (ns_Reachable n = true ∧ ns_LeaderID n = id) then 1 else 0) + voters id nodes)%nat.
Proof. unfold voters. rw filter_cons. by case_decide. Qed.

Lemma vote_fold nodes m id :
  id ≠ EmptyString →
  default 0 (foldl vote_step m nodes !! id) = default 0 (m !! id) + Z.of_nat (voters id nodes).
Proof.
  intros Hid. revert m. induction nodes as [|n nodes IH]; intros m; [simpl; unfold voters; simpl; lia|].
  cbn [foldl]. rw IH voters_cons.
  destruct (decide (ns_Reachable n = true ∧ ns_LeaderID n = id)) as [[Hr Hl]|Hno].
  - unfold vote_step. rw Hr Hl. destruct (String.eqb_spec id EmptyString); [done|]. simpl.
    rw lookup_insert_eq. simpl. lia.
  - assert (vote_step m n !! id = m !! id) as ->; [|lia]. unfold vote_step.
    destruct (ns_Reachable n); [|done]. destruct (String.eqb_spec (ns_LeaderID n) EmptyString); [done|].
    simpl. rw lookup_insert_ne; [done|]. naive_solver.
Qed.

Lemma vote_dom nodes m id :
  foldl vote_step m nodes !! id ≠ None → m !! id = None → id ≠ EmptyString.
Proof.
  revert m. induction nodes as [|n nodes IH]; intros m H Hm; [done|]. cbn [foldl] in H.
  destruct (vote_step m n !! id) eqn:Hv; [|by eapply IH].
  unfold vote_step in Hv. destruct (ns_Reachable n); simpl in Hv; [|congruence].
  destruct (String.eqb_spec (ns_LeaderID n) EmptyString); simpl in Hv; [congruence|].
  rw lookup_insert in Hv. case_decide; congruence.
Qed.

Lemma count_votes_lookup nodes id c :
  count_votes nodes !! id = Some c → id ≠ EmptyString ∧ c = Z.of_nat (voters id nodes).
Proof.
  unfold count_votes. intros H.
  assert (id ≠ EmptyString) as Hid by (by eapply (vote_dom nodes ∅); [rw H|]).
  split; [done|]. pose proof (vote_fold nodes ∅ id Hid) as Hf. rw H lookup_empty /= in Hf. lia.
Qed.

Lemma count_votes_total nodes id :
  id ≠ EmptyString → (0 < voters id nodes)%nat → count_votes nodes !! id = Some (Z.of_nat (voters id nodes)).
Proof.
  intros Hid Hv. pose proof (vote_fold nodes ∅ id Hid) as Hf. rw lookup_empty /= in Hf.
  unfold count_votes. destruct (foldl vote_step ∅ nodes !! id); simpl in Hf; [f_equal|]; lia.
Qed.

Lemma voters_disjoint a b nodes : a ≠ b → (voters a nodes + voters b nodes ≤ length nodes)%nat.
Proof.
  intros Hab. induction nodes as [|n nodes IH]; [done|]. rw !voters_cons. simpl.
  repeat case_decide; try lia. naive_solver.
Qed.

(** A loop that keeps the last match, when at most one can match. *)
Lemma keep_unique {A} (P : A → bool) (f : A → string) (d y : string) (l : list A) :
  (∀ x, x ∈ l → P x = true → f x = y) →
  foldl (λ acc x, if P x then f x else acc) d l = if existsb P l then y else d.
Proof.
  revert d. induction l as [|x l IH]; intros d H; simpl; [done|].
  rw IH; [|set_solver]. destruct (P x) eqn:Hx; simpl; [|done].
  rw (H x); [|set_solver|done]. by destruct (existsb P l).
Qed.

(** What [majority] finds: the one candidate with more than half of all nodes. *)
Lemma majority_spec rg nodes id :
  id ≠ EmptyString → (length nodes < 2 * voters id nodes)%nat → majority rg nodes = id.
Proof.
  intros Hid Hmaj. unfold majority.
  rw (keep_unique (λ ic : string * Z, Z.of_nat (length nodes) / 2 <? ic.2) fst EmptyString id).
  - assert (existsb (λ ic : string * Z, Z.of_nat (length nodes) / 2 <? ic.2) (rg 0%nat (count_votes nodes)) = true)
      as ->; [|done].
    apply existsb_exists. exists (id, Z.of_nat (voters id nodes)). split.
    + apply list_elem_of_In, elem_of_range, count_votes_total; [done|lia].
    + simpl. apply Z.ltb_lt. apply Z.div_lt_upper_bound; lia.
  - intros [id' c] [Hid' ->]%elem_of_range%count_votes_lookup Hc%Z.ltb_lt. simpl in *.
    destruct (decide (id' = id)) as [->|Hne]; [done|].
    pose proof (voters_disjoint id' id nodes Hne).
    pose proof (Z.div_mod (Z.of_nat (length nodes)) 2 ltac:(lia)). pose proof (Z.mod_pos_bound (Z.of_nat (length nodes)) 2 ltac:(lia)). lia.
Qed.

Lemma majority_none rg nodes :
  (∀ id, id ≠ EmptyString → (2 * voters id nodes ≤ length nodes)%nat) → majority rg nodes = EmptyString.
Proof.
  intros Hno. unfold majority.
  rw (keep_unique (λ ic : string * Z, Z.of_nat (length nodes) / 2 <? ic.2) fst EmptyString EmptyString);
    [by case_match|].
  intros [id c] [Hid ->]%elem_of_range%count_votes_lookup Hc%Z.ltb_lt. simpl in *.
  specialize (Hno id Hid). pose proof (Z.div_mod (Z.of_nat (length nodes)) 2 ltac:(lia)). pose proof (Z.mod_pos_bound (Z.of_nat (length nodes)) 2 ltac:(lia)). lia.
Qed.

(** ** Properties *)

(** GET /raft shows a leader exactly when a strict majority of all schedulers,
    unreachable ones counted against it, is reachable and names that scheduler;
    the answer does not depend on the order the votes are looked at, and is empty
    when there is no such majority. *)
Theorem raft_leader_majority (rg : Ranger Z) (nodes : list NodeStatus) (id : string) :
  (majority rg nodes = id ∧ id ≠ EmptyString ↔ id ≠ EmptyString ∧ (length nodes < 2 * voters id nodes)%nat) ∧
  (majority rg nodes = EmptyString ↔ ∀ id', id' ≠ EmptyString → (2 * voters id' nodes ≤ length nodes)%nat).
Proof.
  assert (majority rg nodes ≠ EmptyString → (length nodes < 2 * voters (majority rg nodes) nodes)%nat) as Hmaj.
  { intros Hne. destruct (decide (length nodes < 2 * voters (majority rg nodes) nodes)%nat) as [?|Hge]; [done|].
    destruct Hne. apply majority_none. intros id' Hid'.
    destruct (decide (length nodes < 2 * voters id' nodes)%nat) as [Hlt|?]; [|lia].
    rw (majority_spec rg nodes id' Hid' Hlt) in Hge. lia. }
  split; split.
  - intros [<- Hne]. auto.
  - intros [Hid Hv]. split; [by apply majority_spec|done].
  - intros He id' Hid'. destruct (decide (length nodes < 2 * voters id' nodes)%nat) as [Hlt|?]; [|lia].
    pose proof (majority_spec rg nodes id' Hid' Hlt). congruence.
  - apply majority_none.
Qed.

(** GET /jobs end to end. A query that the gateway accepts reaches the store
    unchanged through both services: the jobs shown are the rows of the wanted
    status, newest first, cut to the wanted number of rows, which is between 1
    and 200 and is the requested one whenever that is in range; queries with an
    unknown status or a limit that is no integer are answered with 400. *)
Theorem list_jobs_end_to_end {UU : PgUuid} (E : env) (rgj : Ranger job_row) (rgp rgp' : Ranger JobStatus)
    (filter rawLimit : string) (w : world) :
  env_fault E (tick w) = NoFault →
  let resp := (handleListJobs rgp (SchedulerSvc.ListJobs (pg_sched_store E rgj) rgp') filter rawLimit w).1 in
  match (if String.eqb rawLimit EmptyString then Some defaultLimit else Atoi rawLimit) with
  | Some n =>
      if String.eqb filter EmptyString || validStatuses filter then
        ∃ limit, 1 ≤ limit ≤ maxLimit ∧ (1 ≤ n ≤ maxLimit → limit = n) ∧
          resp = writeJSON StatusOK (BJobs ((λ j, renderJob rgp (JobToProto j)) <$>
                   sql_list_jobs rgj filter limit (db w)))
      else code_ resp = StatusBadRequest
  | None => code_ resp = StatusBadRequest
  end.
Proof.
  intros Hf. unfold handleListJobs, list_request. simpl.
  assert (negb (String.eqb filter EmptyString) && negb (validStatuses filter) =
    negb (String.eqb filter EmptyString || validStatuses filter)) as -> by (by rw negb_orb).
  destruct (if String.eqb rawLimit EmptyString then Some defaultLimit else Atoi rawLimit) as [n|];
    [|by destruct (String.eqb filter EmptyString || validStatuses filter)].
  destruct (String.eqb filter EmptyString || validStatuses filter) eqn:Hv; simpl; [|done].
  set (limit := if (n <? 1) || (maxLimit <? n) then defaultLimit else n).
  assert (1 ≤ limit ≤ maxLimit ∧ (1 ≤ n ≤ maxLimit → limit = n)) as [Hlim Hn].
  { unfold limit, maxLimit, defaultLimit. destruct (Z.ltb_spec n 1), (Z.ltb_spec 200 n); simpl; lia. }
  exists limit. split; [done|]. split; [done|].
  unfold SchedulerSvc.ListJobs, st_bind. simpl.
  rw wrap_u_small; [|unfold maxLimit in Hlim; lia].
  assert (list_limit limit = limit) as ->.
  { unfold list_limit, SchedulerSvc.maxLimit. unfold maxLimit in Hlim.
    destruct (Z.ltb_spec limit 1), (Z.ltb_spec 200 limit); simpl; lia. }
  assert (StatusFromProto rgp' (StatusToProto filter) = filter) as ->.
  { apply orb_true_iff in Hv as [->%String.eqb_eq|Hv]; [by rw StatusFromProto_spec|]. by apply status_back. }
  unfold Store.ListJobs, query. rw Hf. unfold st_ret. simpl. by rw -list_fmap_compose.
Qed.

Lemma list_jobs_end_to_end_witness :
  ∃ limit, 1 ≤ limit ≤ maxLimit ∧ (1 ≤ 7 ≤ maxLimit → limit = 7) ∧
    (handleListJobs (ranger_asc _)
       (SchedulerSvc.ListJobs (pg_sched_store (UU := any_uuid) demo_env (ranger_asc _)) (ranger_asc _))
       "scheduled" "7" reclaim_world).1 =
    writeJSON StatusOK (BJobs ((λ j, renderJob (ranger_asc _) (JobToProto j)) <$>
      sql_list_jobs (ranger_asc _) "scheduled" limit (db reclaim_world))).
Proof.
  exact (list_jobs_end_to_end (UU := any_uuid) demo_env (ranger_asc _) (ranger_asc _) (ranger_asc _)
    "scheduled" "7" reclaim_world eq_refl).
Defined.

(** GET /health end to end. The gateway answers 200 exactly when the observer
    answered and every configured target and the database passed their checks;
    the components it lists are all of them, in name order, in whatever order the
    concurrent checks finished. *)
Theorem health_exact (targets : gmap string string) (check : string → option err) (ping : option (option err))
    (finished : list ComponentHealth) (now t : Z) :
  finished ≡ₚ ObserverSvc.checks targets check ping →
  let resp := ObserverSvc.ClusterCheck finished now in
  (code_ (handleHealth (Ok resp) t) = StatusOK ↔
     (∀ name addr, targets !! name = Some addr → check addr = None) ∧ (∀ e, ping = Some e → e = None)) ∧
  (∀ e, code_ (handleHealth (Err e) t) = StatusBadGateway) ∧
  ccr_Components resp ≡ₚ ObserverSvc.checks targets check ping ∧
  StronglySorted (not_after ObserverSvc.by_name) (ccr_Components resp).
Proof.
  intros Hp. cbv zeta. split; [|split; [done|split]].
  - assert (go_sort ObserverSvc.by_name finished ≡ₚ ObserverSvc.checks targets check ping) as Hs
      by (by rw go_sort_perm).
    rw -ObserverSvc.checks_serving -Hs -ObserverSvc.overall_serving.
    unfold handleHealth, ObserverSvc.ClusterCheck. simpl. by case_decide.
  - simpl. by rw go_sort_perm.
  - apply (go_sort_sorted ObserverSvc.by_name).
Qed.

Lemma health_exact_witness :
  code_ (handleHealth (Ok (ObserverSvc.ClusterCheck
    (ObserverSvc.checks {["w1" := "worker-1:9443"]} (λ _, None) (Some None)) 0)) 0) = StatusOK.
Proof.
  apply (health_exact {["w1" := "worker-1:9443"]} (λ _, None) (Some None) _ 0 0 (reflexivity _)).
  split; [done|]. by intros e [= <-].
Defined.
