(* ===== verification/EndToEnd.v ===== *)
(** * A request through the gateway, the router, the leader and the store

    The REST edge (Gateway) on the leader-following router (LeaderClient), whose
    calls cross a network that may refuse them or lose their answers and arrive at
    schedulers (SchedulerSvc) that share one database (Store). *)

From S2P Require Import Prelude GoRuntime Json JsonText Proto Store WorkerSvc Protoconv SchedulerSvc LeaderClient Gateway.
Local Open Scope Z_scope.

(** ** The cluster behind the gateway *)

(** The fate of a call: it is answered, it never arrives, or its answer is lost,
    because the deadline passed or because the connection broke. *)
Inductive fate : Type := Delivered | Unreachable | AnswerLost (deadline : bool).

(** For the [n]-th call: its fate, and who leads the schedulers then (nobody when
    empty). *)
Record network : Type := mkNetwork { net_fate : nat → fate; net_leader : nat → string }.

(** The database, each scheduler's wake channel, and the calls made so far. *)
Record cluster : Type := mkCluster { c_store : world; c_wake : gmap string bool; c_calls : nat }.

Section cluster.
Context {UU : PgUuid} (E : env) (rg : Ranger job_row) (rgp : Ranger JobStatus).
Context {JE : JsonEnv} (uuid_ok : string → bool).
Context (N : network) (ctxDone : nat → cluster → bool).

(** A call to scheduler [m], which knows whether it leads and who does. *)
Definition rpc {T} (m : string) (h : bool → string → stM cluster (result err T)) : stM cluster (result err T) := λ c,
  let n := c_calls c in
  let c0 := mkCluster (c_store c) (c_wake c) (S n) in
  match net_fate N n with
  | Unreachable => (Err (EStatus Unavailable "connection refused"), c0)
  | Delivered => h (String.eqb (net_leader N n) m) (net_leader N n) c0
  | AnswerLost deadline =>
      (Err (if deadline then EStatus DeadlineExceeded "context deadline exceeded"
            else EStatus Unavailable "error reading from server: EOF"),
       (h (String.eqb (net_leader N n) m) (net_leader N n) c0).2)
  end.

(** The scheduler's handlers on the shared database. *)
Definition on_store {T} (call : stM world (result err T)) : stM cluster (result err T) := λ c,
  let '(r, w') := call (c_store c) in (r, mkCluster w' (c_wake c) (c_calls c)).

Definition node_submit (m : string) (req : SubmitJobRequest) (isLeader : bool) (leaderID : string) :
    stM cluster (result err ProtoJob) := λ c,
  let '(r, (w', wake')) :=
    SchedulerSvc.SubmitJob (pg_sched_store E rg) isLeader leaderID req (c_store c, default false (c_wake c !! m)) in
  (r, mkCluster w' (<[m := wake']> (c_wake c)) (c_calls c)).

(** A routed call as the gateway makes it; a router always has members, so it never
    answers with neither a value nor an error. *)
Definition routed {T} (call : Router → stM cluster (result (option err) T * Router)) :
    stM (cluster * Router) (result err T) := λ '(c, r),
  let '((res, r'), c') := call r c in
  (match res with
   | Ok x => Ok x
   | Err (Some e) => Err e
   | Err None => Err (EText "no answer")
   end, (c', r')).

Definition gw_SubmitJob (req : SubmitJobRequest) : stM (cluster * Router) (result err ProtoJob) :=
  routed (λ r, LeaderClient.SubmitJob ctxDone (λ m req, rpc m (node_submit m req)) r req).
Definition gw_GetJob (id : string) : stM (cluster * Router) (result err ProtoJob) :=
  routed (λ r, LeaderClient.GetJob ctxDone
    (λ m id, rpc m (λ _ _, on_store (SchedulerSvc.GetJob (pg_sched_store E rg) uuid_ok id))) r id).
Definition gw_ListJobs (req : ListJobsRequest) : stM (cluster * Router) (result err (list ProtoJob)) :=
  routed (λ r, LeaderClient.ListJobs ctxDone
    (λ m req, rpc m (λ _ _, on_store (SchedulerSvc.ListJobs (pg_sched_store E rg) rgp req))) r req).
Definition gw_GetOutboxStats : stM (cluster * Router) (result err GetOutboxStatsResponse) :=
  routed (λ r, LeaderClient.GetOutboxStats ctxDone
    (λ m, rpc m (λ _ _, on_store (SchedulerSvc.GetOutboxStats (pg_sched_store E rg)))) r).

(** POST /jobs. *)
Definition post_jobs (raw : string) : stM (cluster * Router) response := handleCreateJob rgp gw_SubmitJob raw.

(** ** Specification: a submission is one atomic step on the tables *)

(** [ids] are the jobs that submissions of [name] and [payload] have added, each
    together with its pending command. *)
Inductive submissions (name payload : string) (d : DB) : list string → DB → Prop :=
| submissions_none : submissions name payload d [] d
| submissions_one ids d1 id oid now :
    submissions name payload d ids d1 → jobs d1 !! id = None → outbox d1 !! oid = None →
    submissions name payload d (ids ++ [id])
      (mkDB (<[id := new_job_row name payload now]> (jobs d1)) (<[oid := new_outbox_row id now]> (outbox d1))).

(** No answer of the network or of the database is lost. *)
Definition answers_kept : Prop := (∀ n b, net_fate N n ≠ AnswerLost b) ∧ (∀ n e, env_fault E n ≠ FailAfter e).
End cluster.

(** ** Lemmas: calls on the tables *)

Section submit_lemmas.
Context {UU : PgUuid} (E : env) (rg : Ranger job_row) (N : network).

Lemma submissions_app name payload d ids1 d1 ids2 d2 :
  submissions name payload d ids1 d1 → submissions name payload d1 ids2 d2 →
  submissions name payload d (ids1 ++ ids2) d2.
Proof.
  intros H1 H2. induction H2 as [|ids d' id oid now _ IH Hj Ho]; [by rw app_nil_r|].
  rw app_assoc. by constructor.
Qed.

(** What one handled request did: at most one submission, known to the caller when
    it succeeds. *)
Definition submitted (req : SubmitJobRequest) (c : cluster) (r : result err ProtoJob) (c' : cluster) : Prop :=
  uuids_fresh E (c_store c') ∧
  ∃ ids, submissions (sjr_Name req) (sjr_Payload req) (db (c_store c)) ids (db (c_store c')) ∧
    (length ids ≤ 1)%nat ∧
    (∀ p, r = Ok p → ∃ id now, ids = [id] ∧
       p = JobToProto (scanJob id (new_job_row (sjr_Name req) (sjr_Payload req) now)) ∧
       jobs (db (c_store c')) !! id = Some (new_job_row (sjr_Name req) (sjr_Payload req) now)) ∧
    (answers_kept E N → is_ok r = false → ids = []).

Lemma submitted_none req c e c' :
  uuids_fresh E (c_store c') → db (c_store c') = db (c_store c) → submitted req c (Err e) c'.
Proof.
  intros Hf Hdb. split; [done|]. exists []. rw Hdb. split; [constructor|]. split; [simpl; lia|]. by split.
Qed.

Lemma node_submit_spec m req isLeader leaderID c r c' :
  uuids_fresh E (c_store c) → node_submit E rg m req isLeader leaderID c = (r, c') → submitted req c r c'.
Proof.
  intros Hf. unfold node_submit, SchedulerSvc.SubmitJob.
  assert (∀ e w k, submitted req c (Err e) (mkCluster (c_store c) w k)) as Hnone.
  { intros e wk k. by apply submitted_none. }
  destruct isLeader; cbn [negb]; [|intros [= <- <-]; apply Hnone].
  destruct (String.eqb (sjr_Name req) EmptyString || (maxNameLength <? Z.of_nat (String.length (sjr_Name req))));
    [intros [= <- <-]; apply Hnone|]. cbn [ss_CreateJobWithOutbox pg_sched_store].
  destruct (CreateJobWithOutbox E (sjr_Name req) (sjr_Payload req) (c_store c)) as [r1 w1] eqn:Hc.
  destruct (create_with_outbox_spec E _ _ _ _ _ Hf Hc) as (Hcases & _ & _).
  destruct (create_with_outbox_next E _ _ _ _ _ Hf Hc) as [Hf' Hkept].
  destruct Hf as (_ & _ & Hfresh). destruct (Hfresh (S (tick (c_store c))) ltac:(lia)) as [Hj _].
  destruct (Hfresh (S (S (tick (c_store c)))) ltac:(lia)) as [_ Ho].
  destruct r1 as [job|e]; intros [= <- <-].
  - split; [done|]. cbn [c_store]. destruct Hcases as [[_ ?]|[Hdb [[= ->]|?]]]; [done| |done].
    eexists ([] ++ [_]). rw Hdb. split; [constructor; [constructor|done|done]|]. split; [simpl; lia|].
    split; [|done]. intros p [= <-]. eexists _, _. split; [done|]. split; [done|]. cbn [jobs]. by rw lookup_insert_eq.
  - destruct Hcases as [[Hdb _]|[Hdb _]].
    + by apply submitted_none.
    + split; [done|]. eexists ([] ++ [_]). split; [rw Hdb; constructor; [constructor|done|done]|].
      split; [simpl; lia|]. split; [done|]. intros [_ Hk] _. exfalso. specialize (Hkept Hk eq_refl).
      rw Hdb in Hkept. apply (f_equal (λ d, jobs d !! env_uuid E (S (tick (c_store c))))) in Hkept.
      simpl in Hkept. by rw lookup_insert_eq Hj in Hkept.
Qed.

Lemma rpc_submit_spec m req c r c' :
  uuids_fresh E (c_store c) → rpc N m (node_submit E rg m req) c = (r, c') → submitted req c r c'.
Proof.
  intros Hf. unfold rpc. set (c0 := mkCluster (c_store c) (c_wake c) (S (c_calls c))).
  destruct (net_fate N (c_calls c)) eqn:Hfate.
  - intros H. by apply (node_submit_spec _ _ _ _ c0) in H.
  - intros [= <- <-]. by apply submitted_none.
  - destruct (node_submit E rg m req _ _ c0) as [r1 c1] eqn:Hn. intros [= <- <-].
    apply node_submit_spec in Hn as (Hf' & ids & Hs & Hlen & _ & _); [|done].
    split; [done|]. exists ids. split; [done|]. split; [done|]. split; [done|].
    intros [Hk _]. by destruct (Hk _ _ Hfate).
Qed.

(** A run of refusals. *)
Lemma declined_submits req ms c e0 c' e :
  uuids_fresh E (c_store c) → declined (λ m, rpc N m (node_submit E rg m req)) ms c e0 c' e →
  uuids_fresh E (c_store c') ∧ ∃ ids, submissions (sjr_Name req) (sjr_Payload req) (db (c_store c)) ids (db (c_store c')) ∧
    (length ids ≤ length ms)%nat ∧ (answers_kept E N → ids = []).
Proof.
  intros Hf Hd. induction Hd as [c e|m ms c c1 c' e0 e e' Hfn Hr _ IH].
  { split; [done|]. exists []. split; [constructor|]. split; [simpl; lia|done]. }
  apply rpc_submit_spec in Hfn as (Hf1 & ids1 & Hs1 & Hl1 & _ & Hk1); [|done].
  destruct (IH Hf1) as (Hf' & ids2 & Hs2 & Hl2 & Hk2). split; [done|]. exists (ids1 ++ ids2).
  split; [by eapply submissions_app|]. split; [rw length_app /=; lia|].
  intros Hk. by rw (Hk1 Hk eq_refl) (Hk2 Hk).
Qed.

Lemma length_passes {A} k (l : list A) : length (concat (replicate k l)) = (k * length l)%nat.
Proof. induction k as [|k IH]; [done|]. simpl. by rw length_app IH. Qed.

Lemma length_order r : length (order r) = length (members r).
Proof. apply Permutation_length, order_perm. Qed.

(** A routed submission. *)
Lemma routed_submit_spec ctxDone req c r res c' r' :
  uuids_fresh E (c_store c) → router_ok r →
  gw_SubmitJob E rg N ctxDone req (c, r) = (res, (c', r')) →
  uuids_fresh E (c_store c') ∧ router_ok r' ∧
  ∃ ids, submissions (sjr_Name req) (sjr_Payload req) (db (c_store c)) ids (db (c_store c')) ∧
    (length ids ≤ retryRounds * length (members r))%nat ∧
    (∀ p, res = Ok p → ∃ id now, last ids = Some id ∧
       p = JobToProto (scanJob id (new_job_row (sjr_Name req) (sjr_Payload req) now)) ∧
       jobs (db (c_store c')) !! id = Some (new_job_row (sjr_Name req) (sjr_Payload req) now)) ∧
    (answers_kept E N → (length ids ≤ 1)%nat ∧ (is_ok res = false → ids = [])).
Proof.
  intros Hf Hok. unfold gw_SubmitJob, routed, LeaderClient.SubmitJob.
  destruct (route _ ctxDone r c) as [[res0 r0] c0] eqn:Hroute. intros [= <- <- <-].
  set (fn := λ m, rpc N m (node_submit E rg m req)) in *.
  pose proof (rounds_outcome fn ctxDone r retryRounds 0 c c None res0 r0 c0 Hok eq_refl ltac:(done)
    (declined_nil fn c None) Hroute) as [(k & j & m & c1 & e1 & Hk & Hj & Hd & Hmem & Hcase)|
      (k & e & Hk & Hd & -> & -> & _)].
  - pose proof (lookup_lt_Some _ _ _ Hj) as Hjl. rw length_order in Hjl.
    destruct (declined_submits _ _ _ _ _ _ Hf Hd) as (Hf1 & ids1 & Hs1 & Hl1 & Hk1).
    rw length_app length_passes length_take length_order in Hl1.
    assert (S k * length (members r) ≤ retryRounds * length (members r))%nat as Hb by (apply Nat.mul_le_mono_r; lia).
    destruct Hcase as [(out & Hfn & -> & _ & Hok')|(e & Hfn & _ & -> & ->)];
      apply rpc_submit_spec in Hfn as (Hf' & ids2 & Hs2 & Hl2 & Hp & Hk2); try done; (split; [done|]); (split; [done|]);
      exists (ids1 ++ ids2); (split; [by eapply submissions_app|]); (split; [rw length_app; etrans; [|exact Hb]; rw Nat.mul_succ_l; lia|]); split.
    + intros p [= <-]. destruct (Hp out eq_refl) as (id & now & -> & -> & Hrow). exists id, now. split; [by rw last_snoc|]. by split.
    + intros Ha. rw (Hk1 Ha). by split.
    + done.
    + intros Ha. rw (Hk1 Ha) (Hk2 Ha eq_refl). by split; [simpl; lia|].
  - destruct (declined_submits _ _ _ _ _ _ Hf Hd) as (Hf1 & ids1 & Hs1 & Hl1 & Hk1). split; [done|]. split; [done|].
    rw length_passes length_order in Hl1.
    assert (k * length (members r) ≤ retryRounds * length (members r))%nat as Hb by (apply Nat.mul_le_mono_r; lia).
    exists ids1. split; [done|]. split; [lia|]. split; [done|]. intros Ha. rw (Hk1 Ha). by split; [simpl; lia|].
Qed.
End submit_lemmas.

(** ** Lemmas: the request body *)

Definition decode_body {JE : JsonEnv} (raw : string) : result err createBody :=
  Decode (decode_struct body_fields) (mkCreateBody EmptyString EmptyString) (limited raw) (cut_off raw).

Lemma find_body_field same d :
  find_field same body_fields = Some d → d = f_name.2 ∨ d = f_payload.2.
Proof. unfold body_fields, f_name, f_payload. simpl. repeat case_match; naive_solver. Qed.

Lemma fold_payload ms b0 b :
  foldl (decode_member body_fields) (Some b0) ms = Some b →
  cb_Payload b = cb_Payload b0 ∨
  ∃ m, m ∈ ms ∧ cb_Payload b = String.string_of_list_ascii m.2.1.
Proof.
  revert b0. induction ms as [|m ms IH]; intros b0; [intros [= <-]; by left|]. cbn [foldl decode_member].
  assert (∀ b1, cb_Payload b1 = cb_Payload b0 ∨ cb_Payload b1 = String.string_of_list_ascii m.2.1 →
    foldl (decode_member body_fields) (Some b1) ms = Some b →
    cb_Payload b = cb_Payload b0 ∨ ∃ m0, m0 ∈ m :: ms ∧ cb_Payload b = String.string_of_list_ascii m0.2.1) as Hnext.
  { intros b1 Hb1 [Hb|(m0 & Hm0 & Hb)]%IH; [|right; exists m0; split; [by constructor|done]].
    rw Hb. destruct Hb1 as [->| ->]; [by left|]. right. exists m. split; [by constructor|done]. }
  assert (foldl (decode_member body_fields) None ms = None) as Hnone by (clear; by induction ms).
  destruct (lookup_field body_fields (unquote 0 m.1)) as [d|] eqn:Hl; [|by apply Hnext; left].
  assert (d = f_name.2 ∨ d = f_payload.2) as Hd.
  { unfold lookup_field in Hl. case_match eqn:E; [simplify_eq|]; by eapply find_body_field. }
  destruct Hd as [-> | ->]; cbn [f_name f_payload field snd].
  - case_match; [|by rw Hnone]. apply Hnext. by left.
  - apply Hnext. by right.
Qed.

(** The payload of an accepted body is absent, or the text of a value the body
    holds, which stands for that value wherever it is read again. *)
Lemma body_payload {JE : JsonEnv} raw b :
  decode_body raw = Ok b →
  cb_Payload b = EmptyString ∨
  ∃ ms m, decode_first (String.list_ascii_of_string (limited raw)) (cut_off raw) = Some (JObject ms) ∧ m ∈ ms ∧
    cb_Payload b = String.string_of_list_ascii m.2.1 ∧
    parse (String.list_ascii_of_string (cb_Payload b)) = Some m.2.2.
Proof.
  unfold decode_body, Decode.
  destruct (decode_first (String.list_ascii_of_string (limited raw)) (cut_off raw)) as [v|] eqn:Hv; [|done].
  cbn [mbind option_bind]. case_match eqn:E; [|done]. intros [= <-].
  destruct v as [| | | | |ms]; try done; [cbn [decode_struct] in E; injection E as <-; by left|].
  cbn [decode_struct] in E. apply fold_payload in E as [E|(m & Hm & E)]; [by left|]. right. exists ms, m.
  split; [done|]. split; [done|]. split; [done|]. rw E String.list_ascii_of_string_of_list_ascii.
  assert (∃ r, parse_value maxNestingDepth (skip_ws (String.list_ascii_of_string (limited raw))) = Some (JObject ms, r)) as [r Hr].
  { unfold decode_first in Hv. destruct (parse_value _ _) as [[v r]|]; [|done]. exists r. by repeat case_match; simplify_eq. }
  apply parse_raw in Hr; [|done]. rewrite ->Forall_forall in Hr. by apply Hr.
Qed.

Lemma payload_valid {JE : JsonEnv} raw b :
  decode_body raw = Ok b →
  Valid (String.list_ascii_of_string (cb_Payload b)) = negb (String.eqb (cb_Payload b) EmptyString).
Proof.
  intros [->|(ms & m & _ & _ & _ & Hp)]%body_payload; [done|]. unfold Valid. rw Hp.
  destruct (cb_Payload b); [done|]. done.
Qed.

(** ** Properties *)

(** C2: POST /jobs end to end. A body that does not decode is answered with 400 and
    reaches nobody. Otherwise the whole walk over the schedulers amounts to atomic
    submissions of exactly the decoded name and payload, at most one per call. A
    201 points to a job that is in the table with its pending command, and shows
    its name, its status and its payload. As long as no answer is lost, on the
    network or to the database, at most one job is added, and one is added exactly
    when the client is told 201. *)
Theorem post_jobs_outcome {UU : PgUuid} {JE : JsonEnv} (E : env) (rg : Ranger job_row) (rgp : Ranger JobStatus)
    (N : network) (ctxDone : nat → cluster → bool) (raw : string) (c c' : cluster) (r r' : Router) (resp : response) :
  uuids_fresh E (c_store c) → router_ok r →
  post_jobs E rg rgp N ctxDone raw (c, r) = (resp, (c', r')) →
  match decode_body raw with
  | Err _ => code_ resp = StatusBadRequest ∧ c' = c ∧ r' = r
  | Ok b =>
      ∃ ids, submissions (cb_Name b) (cb_Payload b) (db (c_store c)) ids (db (c_store c')) ∧
        (length ids ≤ retryRounds * length (members r))%nat ∧
        (code_ resp = StatusCreated → ∃ id j, last ids = Some id ∧ location resp = Some ("/jobs/" +:+ id) ∧
           content resp = BJob j ∧ jj_ID j = id ∧ jj_Name j = cb_Name b ∧ jj_Status j = StatusPending ∧
           jj_Payload j = (if String.eqb (cb_Payload b) EmptyString then None else Some (cb_Payload b))) ∧
        (answers_kept E N → (length ids ≤ 1)%nat ∧ (code_ resp = StatusCreated ↔ length ids = 1%nat))
  end.
Proof.
  intros Hf Hok. unfold post_jobs, handleCreateJob. fold (decode_body raw).
  destruct (decode_body raw) as [b|e] eqn:Hb; [|intros [= <- <- <-]; done].
  unfold st_bind. destruct (gw_SubmitJob _ _ _ _ _ (c, r)) as [res [c1 r1]] eqn:Hs. intros [= <- <- <-].
  destruct (routed_submit_spec E rg N _ _ _ _ _ _ _ Hf Hok Hs) as (_ & _ & ids & Hsub & Hlen & Hp & Hk).
  exists ids. split; [done|]. split; [done|]. split.
  - intros Hcode. destruct res as [p|e]; [|by unfold writeRPCError in Hcode; destruct (status_code e)].
    destruct (Hp p eq_refl) as (id & now & Hlast & -> & _). eexists id, _. split; [done|]. split; [done|]. split; [done|].
    split; [done|]. split; [done|]. split; [by cbn; rw StatusFromProto_spec|].
    cbn [renderJob jj_Payload JobToProto pj_Payload scanJob Payload new_job_row j_payload sjr_Payload].
    rw (payload_valid raw b Hb). by destruct (String.eqb (cb_Payload b) EmptyString).
  - intros Ha. destruct (Hk Ha) as [H1 H0]. split; [done|]. destruct res as [p|e].
    + destruct (Hp p eq_refl) as (id & now & Hlast & _). split; [|done]. intros _.
      destruct ids as [|x [|y ids]]; [done|done|simpl in H1; lia].
    + rw (H0 eq_refl). split; [|done]. intros Hcode. unfold writeRPCError in Hcode. by destruct (status_code e).
Qed.

(** A body a client sends, three schedulers of which the second leads, and calls
    whose answers all arrive. *)
Definition body_text (name : string) (payload : json) : string :=
  text_of (JObject [jmember "name" (jstr name); jmember "payload" payload]).
Definition demo_payload : json := JObject [jmember "duration_ms" (jint 250); jmember "fail" (JBool true)].
Definition demo_body : string := body_text "sleep" demo_payload.
Definition demo_cluster : cluster := mkCluster empty_world ∅ 0.
Definition demo_members : Router := mkRouter ["s1"; "s2"; "s3"] 0.
Definition all_delivered : network := mkNetwork (λ _, Delivered) (λ _, "s2").

Abbreviation demo_post N :=
  (post_jobs (UU := any_uuid) (JE := demo_json_env) demo_env (ranger_asc _) (ranger_asc _) N (λ _ _, false) demo_body
     (demo_cluster, demo_members)).

Lemma post_jobs_outcome_witness :
  ∃ resp c' r', demo_post all_delivered = (resp, (c', r')) ∧ code_ resp = StatusCreated ∧
    ∃ ids, submissions "sleep" (text_of demo_payload) (db empty_world) ids (db (c_store c')) ∧ length ids = 1%nat.
Proof.
  destruct (demo_post all_delivered) as [resp [c' r']] eqn:Hrun. exists resp, c', r'. split; [done|].
  assert (code_ resp = StatusCreated) as Hcode by (apply (f_equal (λ x, code_ x.1)) in Hrun; by vm_compute in Hrun).
  split; [done|].
  pose proof (post_jobs_outcome (UU := any_uuid) (JE := demo_json_env) demo_env (ranger_asc _) (ranger_asc _)
    all_delivered (λ _ _, false) demo_body demo_cluster c' demo_members r' resp demo_env_fresh
    ltac:(split; [done|simpl; lia]) Hrun) as H.
  destruct (decode_body (JE := demo_json_env) demo_body) as [b|e] eqn:Hb; [|by vm_compute in Hb].
  assert (b = mkCreateBody "sleep" (text_of demo_payload)) as -> by (vm_compute in Hb; injection Hb as <-; by vm_compute).
  destruct H as (ids & Hs & _ & _ & Hk). exists ids. split; [exact Hs|].
  apply Hk; [|exact Hcode]. by split.
Defined.

(** One scheduler leads and is heard, and the database works. *)
Definition served_by (E : env) (N : network) (m : string) : Prop :=
  (∀ n, net_leader N n = m ∧ net_fate N n = Delivered) ∧ (∀ n, env_fault E n = NoFault).

Lemma leader_accepts {UU : PgUuid} (E : env) (rg : Ranger job_row) (N : network) m req c :
  served_by E N m → uuids_fresh E (c_store c) → sjr_Name req ≠ EmptyString →
  Z.of_nat (String.length (sjr_Name req)) ≤ maxNameLength → pg_text_ok (sjr_Name req) = true →
  is_ok (rpc N m (node_submit E rg m req) c).1 = true.
Proof.
  intros [HN HE] Hf Hne Hlen Htext. unfold rpc. destruct (HN (c_calls c)) as [-> ->].
  unfold node_submit, SchedulerSvc.SubmitJob. rw String.eqb_refl. cbn [negb].
  destruct (String.eqb_spec (sjr_Name req) EmptyString); [done|].
  replace (maxNameLength <? Z.of_nat (String.length (sjr_Name req))) with false by lia. cbn [orb c_store].
  cbn [ss_CreateJobWithOutbox pg_sched_store].
  destruct (CreateJobWithOutbox E (sjr_Name req) (sjr_Payload req) (c_store c)) as [r1 w1] eqn:Hc.
  destruct (create_with_outbox_spec E _ _ _ _ _ Hf Hc) as (_ & _ & Hh). destruct (Hh Htext HE) as [_ ->]. done.
Qed.

Lemma follower_declines {UU : PgUuid} (E : env) (rg : Ranger job_row) (N : network) m m' req c r c' :
  served_by E N m → m' ≠ m → rpc N m' (node_submit E rg m' req) c = (r, c') →
  ∃ e, r = Err e ∧ retryable e = true.
Proof.
  intros [HN _] Hne. unfold rpc. destruct (HN (c_calls c)) as [-> ->]. unfold node_submit, SchedulerSvc.SubmitJob.
  destruct (String.eqb_spec m m'); [congruence|]. cbn [negb]. intros [= <- _]. by eexists.
Qed.




(** ** From the client's payload to the worker's verdict *)

(** What [execute] makes of a value. *)
Definition verdict {JE : JsonEnv} (text : string) (v : json) : option Z * option err :=
  match decode_struct payload_fields zero_payload [] v with
  | None => (None, Some (EWrap "invalid payload: " (json_error text false)))
  | Some p =>
      if DurationMS p <? 0 then (None, Some (EText "invalid payload: duration_ms must be >= 0"))
      else (Some (sleep_of p), if Fail p then Some (EText "job requested failure") else None)
  end.

(** The worker executes what the client wrote. The payload that a POST /jobs
    body stores is empty, and the job succeeds after the default sleep, or it is the
    text of a value of the body's object, and the execution is decided by that very
    value: it is never rejected as malformed JSON, only for not fitting the payload
    struct or for a negative duration. *)
Theorem posted_payload_executes {JE : JsonEnv} (raw : string) (b : createBody) :
  decode_body raw = Ok b →
  (cb_Payload b = EmptyString ∧ execute (cb_Payload b) = (Some defaultSleep, None)) ∨
  (∃ ms m, decode_first (String.list_ascii_of_string (limited raw)) (cut_off raw) = Some (JObject ms) ∧ m ∈ ms ∧
     cb_Payload b = String.string_of_list_ascii m.2.1 ∧ execute (cb_Payload b) = verdict (cb_Payload b) m.2.2).
Proof.
  intros [He|(ms & m & Hd & Hm & Hp & Hv)]%body_payload.
  - left. split; [done|]. by rw He.
  - right. exists ms, m. split; [done|]. split; [done|]. split; [done|].
    unfold execute, Unmarshal, verdict. rw Hv. cbn [mbind option_bind].
    destruct (cb_Payload b) as [|ch t]; [done|]. cbn [String.length Nat.eqb].
    by destruct (decode_struct payload_fields zero_payload [] m.2.2).
Qed.

Lemma posted_payload_executes_witness :
  execute (JE := demo_json_env) (text_of demo_payload) = (Some (250 * Millisecond), Some (EText "job requested failure")).
Proof.
  destruct (posted_payload_executes (JE := demo_json_env) demo_body (mkCreateBody "sleep" (text_of demo_payload)))
    as [[He _]|(ms & m & _ & _ & _ & He)]; [by vm_compute|by vm_compute in He|].
  cbn [cb_Payload] in He. by vm_compute.
Defined.

(** ** The whole gateway *)

Section gateway.
Context {UU : PgUuid} {JE : JsonEnv} (E : env) (rg : Ranger job_row) (rgp : Ranger JobStatus) (uuid_ok : string → bool).
Context (N : network) (ctxDone : nat → cluster → bool).

(** The clients of the other services, none of which touches the job tables. *)
Context (health : cluster → result err ClusterCheckResponse) (raft : cluster → list NodeStatus).
Context (view : cluster → CrdtView.View) (gossip : bool → cluster → option err).

Definition gateway_deps : Deps (cluster * Router) :=
  {| d_ClusterCheck := λ s, (health s.1, s);
     d_SubmitJob := gw_SubmitJob E rg N ctxDone;
     d_GetJob := gw_GetJob E rg uuid_ok N ctxDone;
     d_ListJobs := gw_ListJobs E rg rgp N ctxDone;
     d_GetOutboxStats := gw_GetOutboxStats E rg N ctxDone;
     d_RaftStatus := λ s, (raft s.1, s);
     d_Fetch := λ s, (view s.1, s);
     d_SetGossip := λ on s, (gossip on s.1, s) |}.

(** Calls that leave the tables alone. *)
Definition reads_only {A} (call : stM cluster A) : Prop := ∀ c, db (c_store (call c).2) = db (c_store c).

Lemma route_reads {T} (fn : string → stM cluster (result err T)) r c :
  (∀ m, reads_only (fn m)) → db (c_store (route fn ctxDone r c).2) = db (c_store c).
Proof.
  intros Hfn. unfold route. generalize (leader r) as start, (None : option err) as last, 0%nat as round, retryRounds as left_.
  intros start last round left_. revert round last c. induction left_ as [|n IH]; intros round last c; [done|].
  cbn [rounds]. unfold st_bind.
  assert (∀ i k last c, db (c_store (pass fn (members r) start i k last c).2) = db (c_store c)) as Hpass.
  { intros i k. revert i. induction k as [|k IHk]; intros i last' c0; [done|]. cbn [pass]. unfold st_bind.
    pose proof (Hfn (default EmptyString (members r !! Z.to_nat (member_index start (length (members r)) i))) c0) as Hone.
    destruct (fn _ c0) as [[out|e] c1]; [done|]. simpl in Hone. destruct (negb (retryable e)); [done|]. by rw IHk. }
  specialize (Hpass 0%nat (length (members r)) last c).
  destruct (pass fn (members r) start 0 (length (members r)) last c) as [[[out|e] [idx|]|e] c1]; try done.
  simpl in Hpass. destruct ((0 <? n)%nat && ctxDone round c1); [done|]. by rw IH.
Qed.

Lemma routed_reads {T} (fn : string → stM cluster (result err T)) s :
  (∀ m, reads_only (fn m)) → db (c_store (routed (λ r, route fn ctxDone r) s).2.1) = db (c_store s.1).
Proof.
  intros Hfn. destruct s as [c r]. unfold routed. pose proof (route_reads fn r c Hfn) as H.
  by destruct (route fn ctxDone r c) as [[res r'] c'].
Qed.

Lemma rpc_reads {T} m (call : stM world (result err T)) :
  (∀ w, db (call w).2 = db w) → reads_only (rpc N m (λ _ _, on_store call)).
Proof.
  intros Hc c. unfold rpc, on_store. specialize (Hc (c_store c)). destruct (call (c_store c)) as [r w'] eqn:Hr. simpl in Hc.
  destruct (net_fate N (c_calls c)); cbn [c_store]; rw ?Hr //.
Qed.
End gateway.

(** Only POST /jobs writes. Every route of the gateway other than the one that
    creates a job leaves the job and outbox tables as they were, whatever the
    network, the database and the router do; every handler is behind exactly one
    route. *)
Theorem only_create_writes {UU : PgUuid} {JE : JsonEnv} (E : env) (rg : Ranger job_row) (rgp : Ranger JobStatus)
    (rgv : Ranger Z) (uuid_ok : string → bool) (N : network) (ctxDone : nat → cluster → bool)
    (health : cluster → result err ClusterCheckResponse) (raft : cluster → list NodeStatus)
    (view : cluster → CrdtView.View) (gossip : bool → cluster → option err) (page : string) (now : Z)
    (rq : request) (c : cluster) (r : Router) :
  (∀ ep, ep ≠ CreateJob →
     db (c_store (serve rgp rgv uuid_ok
       (gateway_deps E rg rgp uuid_ok N ctxDone health raft view gossip) page now ep rq (c, r)).2.1) = db (c_store c)) ∧
  (∀ ep, count_occ endpoint_eq_dec NewRouter.*2 ep = 1%nat) ∧ NoDup NewRouter.*1.
Proof.
  split; [|split; [by intros [| | | | | |[]| | | |]|apply (bool_decide_unpack _); by vm_compute]].
  assert (∀ id w, db (SchedulerSvc.GetJob (pg_sched_store E rg) uuid_ok id w).2 = db w) as Hget.
  { intros id w. unfold SchedulerSvc.GetJob. by destruct (uuid_ok id). }
  intros ep Hep. destruct ep; try done; cbn [serve].
  - unfold st_bind. cbn [d_GetOutboxStats gateway_deps].
    pose proof (routed_reads ctxDone _ (c, r)
      (λ m, rpc_reads N m (SchedulerSvc.GetOutboxStats (pg_sched_store E rg)) (λ w, eq_refl))) as H.
    unfold gw_GetOutboxStats, LeaderClient.GetOutboxStats. by destruct (routed _ (c, r)) as [res [c' r']].
  - unfold handleListJobs. destruct (list_request _ _) as [req|]; [|done]. unfold st_bind. cbn [d_ListJobs gateway_deps].
    pose proof (routed_reads ctxDone _ (c, r)
      (λ m, rpc_reads N m (SchedulerSvc.ListJobs (pg_sched_store E rg) rgp req) (λ w, eq_refl))) as H.
    unfold gw_ListJobs, LeaderClient.ListJobs. by destruct (routed _ (c, r)) as [res [c' r']].
  - unfold handleGetJob. destruct (uuid_ok (rq_id rq)); [|done]. cbn [negb]. unfold st_bind. cbn [d_GetJob gateway_deps].
    pose proof (routed_reads ctxDone _ (c, r)
      (λ m, rpc_reads N m (SchedulerSvc.GetJob (pg_sched_store E rg) uuid_ok (rq_id rq)) (Hget _))) as H.
    unfold gw_GetJob, LeaderClient.GetJob. by destruct (routed _ (c, r)) as [res [c' r']].
Qed.
