(* ===== verification/Render.v ===== *)
(** * internal/gatewayhttp: the texts of the responses

    [writeJSON] hands the value of a response to encoding/json. This file writes
    out the text each of them becomes, with the field names and the [omitempty] of
    the struct tags, and shows what a client that parses it finds. How strconv
    prints a float64 is a parameter. *)

From Stdlib Require Import QArith Qround.
From S2P Require Import Prelude GoRuntime Json JsonText Compact GoTime Proto Store Relay System Protoconv SchedulerSvc LeaderClient CrdtView Gateway EndToEnd.
Local Open Scope Z_scope.

(** ** Writing *)

(** A member that is left out when the value is empty ([omitempty]). *)
Definition omit_str (name s : string) : list (bytes * (bytes * json)) :=
  if String.eqb s EmptyString then [] else [jmember name (jstr s)].
Definition omit_uint (name : string) (n : Z) : list (bytes * (bytes * json)) :=
  if n =? 0 then [] else [jmember name (juint n)].
Definition omit_array (name : string) (l : list json) : list (bytes * (bytes * json)) :=
  match l with [] => [] | _ => [jmember name (JArray l)] end.
Definition omit_time (name : string) (t : option Z) : option (list (bytes * (bytes * json))) :=
  match t with None => Some [] | Some t => (λ v, [jmember name v]) <$> jtime t end.
Definition omit_raw (name : string) (raw : option string) : option (list (bytes * (bytes * json))) :=
  match raw with
  | None | Some EmptyString => Some []
  | Some raw => (λ v, [jmember name v]) <$> raw_json raw
  end.

(** A map with string keys is written in the order of its keys; a nil map, which is
    what an empty map of a message is, as null. *)
Definition sorted_members {A} (f : A → json) (m : gmap string A) : list (bytes * (bytes * json)) :=
  (λ kv : string * A, jmember kv.1 (f kv.2)) <$> go_sort (λ x y, str_ltb x.1 y.1) (map_to_list m).
Definition jmap {A} (f : A → json) (m : gmap string A) : json :=
  if decide (m = ∅) then JNull else JObject (sorted_members f m).
Definition omit_map {A} (name : string) (f : A → json) (m : gmap string A) : list (bytes * (bytes * json)) :=
  if decide (m = ∅) then [] else [jmember name (JObject (sorted_members f m))].

(** A nil slice is null. *)
Definition jslice (l : list json) : json := match l with [] => JNull | _ => JArray l end.

Definition job_json (j : jobJSON) : option json :=
  created ← jtime (jj_CreatedAt j);
  updated ← jtime (jj_UpdatedAt j);
  started ← omit_time "started_at" (jj_StartedAt j);
  finished ← omit_time "finished_at" (jj_FinishedAt j);
  payload ← omit_raw "payload" (jj_Payload j);
  Some (JObject ([jmember "id" (jstr (jj_ID j)); jmember "name" (jstr (jj_Name j)); jmember "status" (jstr (jj_Status j))] ++
    omit_str "assigned_worker" (jj_AssignedWorker j) ++ [jmember "attempts" (juint (jj_Attempts j))] ++
    omit_str "error" (jj_Error j) ++ [jmember "created_at" created; jmember "updated_at" updated] ++
    started ++ finished ++ payload)).

Definition component_json (c : componentHealthJSON) : json :=
  JObject ([jmember "name" (jstr (chj_Name c)); jmember "status" (jstr (chj_Status c))] ++ omit_str "message" (chj_Message c)).

Definition health_json (h : healthResponse) : option json :=
  checked ← jtime (hr_CheckedAt h);
  Some (JObject ([jmember "status" (jstr (hr_Status h)); jmember "checked_at" checked] ++
    omit_array "components" (component_json <$> hr_Components h) ++ omit_str "error" (hr_Error h))).

Definition placement_view_json (p : PlacementView) : option json :=
  at_ ← jtime (pv_At p);
  Some (JObject [jmember "job_id" (jstr (pv_JobID p)); jmember "worker" (jstr (pv_Worker p)); jmember "at" at_]).

Section floats.
Context (json_float : Q → bytes).

Definition worker_view_json (w : WorkerView) : json :=
  JObject [jmember "instance" (jstr (wv_Instance w)); jmember "alive" (JBool (wv_Alive w));
    jmember "seconds_since_heartbeat" (JNumber (json_float (wv_SecondsSinceHeartbeat w)));
    jmember "capacity" (juint (wv_Capacity w)); jmember "inflight" (juint (wv_Inflight w))].

Definition node_status_json (n : NodeStatus) : option json :=
  placements ← mapM placement_view_json (ns_Placements n);
  Some (JObject ([jmember "name" (jstr (ns_Name n)); jmember "reachable" (JBool (ns_Reachable n))] ++
    omit_str "error" (ns_Error n) ++ omit_str "state" (ns_State n) ++ omit_str "leader_id" (ns_LeaderID n) ++
    omit_uint "term" (ns_Term n) ++ omit_uint "last_log_index" (ns_LastLogIndex n) ++
    omit_uint "applied_index" (ns_AppliedIndex n) ++ omit_array "recent_placements" placements ++
    omit_array "workers" (worker_view_json <$> ns_Workers n))).

Definition node_workers_json (n : nodeWorkers) : json :=
  JObject ([jmember "name" (jstr (nw_Name n)); jmember "reachable" (JBool (nw_Reachable n))] ++
    omit_str "error" (nw_Error n) ++ [jmember "workers" (jslice (worker_view_json <$> nw_Workers n))]).

Definition counter_json (c : CounterView) : json :=
  JObject [jmember "total" (juint (Total c)); jmember "shards" (jmap juint (Shards c))].

Definition recent_view_json (r : RecentView) : json :=
  JObject [jmember "job_id" (jstr (rv_JobID r)); jmember "status" (jstr (rv_Status r)); jmember "worker" (jstr (rv_Worker r));
    jmember "ts_unix_ms" (jint (rv_TSUnixMS r)); jmember "replica" (jstr (rv_Replica r))].

Definition replica_json (r : ReplicaView) : json :=
  JObject ([jmember "name" (jstr (rep_Name r)); jmember "reachable" (JBool (rep_Reachable r))] ++
    omit_str "error" (rep_Error r) ++ [jmember "gossip_enabled" (JBool (rep_GossipEnabled r))] ++
    omit_map "by_status" counter_json (rep_ByStatus r) ++ omit_map "by_worker" counter_json (rep_ByWorker r) ++
    omit_array "recent" (recent_view_json <$> rep_Recent r)).

Definition view_json (v : View) : json :=
  JObject [jmember "converged" (JBool (Converged v)); jmember "replicas" (JArray (replica_json <$> Replicas v))].

(** The value [writeJSON] is given; the keys of a Go map literal are written in
    order. A time outside the years 0 to 9999 is an error. *)
Definition body_json (b : body) : option json :=
  match b with
  | BText _ | BPage _ => None
  | BError msg => Some (JObject [jmember "error" (jstr msg)])
  | BJob j => job_json j
  | BJobs js => (λ l, JObject [jmember "jobs" (JArray l)]) <$> mapM job_json js
  | BRaft leader nodes =>
      (λ l, JObject [jmember "leader" (jstr leader); jmember "nodes" (JArray l)]) <$> mapM node_status_json nodes
  | BWorkers nodes => Some (JObject [jmember "nodes" (JArray (node_workers_json <$> nodes))])
  | BOutbox pending dispatched failed oldest =>
      Some (JObject [jmember "dispatched" (juint dispatched); jmember "failed" (juint failed);
        jmember "oldest_pending_seconds" (JNumber (json_float oldest)); jmember "pending" (juint pending)])
  | BCrdt v => Some (view_json v)
  | BGossip enabled => Some (JObject [jmember "gossip_enabled" (JBool enabled)])
  | BHealth h => health_json h
  end.

(** What is written to the connection: [Encode] puts a line end behind the value, and
    writes nothing when it fails; its error is dropped. *)
Definition written (b : body) : string :=
  match b with
  | BText s | BPage s => s
  | _ => match body_json b with
         | Some v => String.string_of_list_ascii (print v ++ [byte_of 10])
         | None => EmptyString
         end
  end.
End floats.

(** ** Lemmas: everything that is written can be read *)

Lemma jint_ok n d : min_i64 ≤ n ≤ max_i64 → json_ok (jint n) d = true.
Proof.
  intros Hn. unfold jint. destruct (Z.ltb_spec n 0) as [Hneg|Hpos]; [|apply juint_ok; unfold max_i64 in Hn; lia].
  destruct (juint_literal (- n)) as (c & t & Heq & _ & _ & _ & Hu); [unfold min_i64 in Hn; lia|].
  rw Heq. assert (scan_number (byte_of 45 :: c :: t) = Some (byte_of 45 :: c :: t, [])) as H
    by (cbn [scan_number]; rw code_byte; [|lia]; cbn [Z.eqb Pos.eqb]; by rw Hu).
  destruct d; by apply bool_decide_eq_true.
Qed.

Lemma jtime_ok t v d : jtime t = Some v → json_ok v d = true.
Proof. unfold jtime. case_match eqn:E; [|done]. intros [= <-]. destruct d; by eapply plain_literal, format_plain. Qed.

(** A list of members of an object that nests at most [d] deep. *)
Abbreviation members_wf d := (Forall (λ m, member_ok d m = true)).

Lemma jobject_wf ms d : members_wf d ms → json_ok (JObject ms) (S d) = true.
Proof. apply jobject_ok. Qed.

Lemma jarray_wf l d : Forall (λ v, json_ok v d = true) l → json_ok (JArray l) (S d) = true.
Proof. intros H. cbn [json_ok]. apply forallb_forall. intros v Hv%list_elem_of_In. by eapply Forall_forall in H. Qed.

Lemma member_wf name v d : json_ok v d = true → members_wf d [jmember name v].
Proof. intros H. constructor; [by apply jmember_wf|constructor]. Qed.

Lemma omit_str_wf name s d : members_wf d (omit_str name s).
Proof. unfold omit_str. destruct (String.eqb s EmptyString); [constructor|]. apply member_wf, jstr_literal. Qed.

Lemma omit_uint_wf name n d : 0 ≤ n < 2 ^ 64 → members_wf d (omit_uint name n).
Proof. intros H. unfold omit_uint. destruct (n =? 0); [constructor|]. by apply member_wf, juint_ok. Qed.

Lemma omit_array_wf name l d : Forall (λ v, json_ok v d = true) l → members_wf (S d) (omit_array name l).
Proof. intros H. unfold omit_array. destruct l; [constructor|]. by apply member_wf, jarray_wf. Qed.

Lemma omit_time_wf name t ms d : omit_time name t = Some ms → members_wf d ms.
Proof.
  destruct t as [t|]; cbn [omit_time]; [|intros [= <-]; constructor].
  destruct (jtime t) as [v|] eqn:E; [|done]. intros [= <-]. by eapply member_wf, jtime_ok.
Qed.

(** The text [raw] is a value that nests at most [d] deep. *)
Definition nests (raw : string) (d : nat) : Prop :=
  ∃ v, parse (String.list_ascii_of_string raw) = Some v ∧ tree_ok v d = true.

Lemma omit_raw_wf name raw ms d : (∀ s, raw = Some s → nests s d) → omit_raw name raw = Some ms → members_wf d ms.
Proof.
  intros Hn. destruct raw as [s|]; cbn [omit_raw]; [|intros [= <-]; constructor].
  destruct (Hn s eq_refl) as (v & Hv & Hok). unfold raw_json.
  destruct s as [|c s]; [intros [= <-]; constructor|]. rw Hv. intros [= <-]. by apply member_wf, compact_ok.
Qed.

Lemma sorted_members_wf {A} (f : A → json) m d :
  map_Forall (λ _ x, json_ok (f x) d = true) m → members_wf d (sorted_members f m).
Proof.
  intros H. unfold sorted_members. apply Forall_fmap, Forall_forall. intros [k x] Hin.
  rw elem_of_go_sort elem_of_map_to_list in Hin. apply jmember_wf. by apply (H k x).
Qed.

#[local] Hint Resolve jstr_literal juint_ok jint_ok jtime_ok : core.

(** The numbers of a value are within their Go types. *)
Definition job_fits (d : nat) (j : jobJSON) : Prop :=
  0 ≤ jj_Attempts j < 2 ^ 32 ∧ ∀ raw, jj_Payload j = Some raw → nests raw d.

Lemma job_json_ok j v d : job_fits d j → job_json j = Some v → json_ok v (S d) = true.
Proof.
  intros [Ha Hp]. unfold job_json.
  destruct (jtime (jj_CreatedAt j)) as [c|] eqn:Hc; [|done]. destruct (jtime (jj_UpdatedAt j)) as [u|] eqn:Hu; [|done].
  destruct (omit_time "started_at" _) as [st|] eqn:Hst; [|done]. destruct (omit_time "finished_at" _) as [fi|] eqn:Hfi; [|done].
  destruct (omit_raw "payload" _) as [pl|] eqn:Hpl; [|done]. intros [= <-]. apply jobject_wf.
  repeat (apply Forall_app_2 || apply Forall_cons_2 || apply Forall_nil_2); try (apply jmember_wf);
    eauto using omit_str_wf, omit_time_wf, omit_raw_wf. apply juint_ok. lia.
Qed.

Definition worker_fits (w : WorkerView) : Prop := 0 ≤ wv_Capacity w < 2 ^ 32 ∧ 0 ≤ wv_Inflight w < 2 ^ 32.
Definition node_fits (n : NodeStatus) : Prop :=
  0 ≤ ns_Term n < 2 ^ 64 ∧ 0 ≤ ns_LastLogIndex n < 2 ^ 64 ∧ 0 ≤ ns_AppliedIndex n < 2 ^ 64 ∧ Forall worker_fits (ns_Workers n).
Definition counter_fits (c : CounterView) : Prop :=
  0 ≤ Total c < 2 ^ 64 ∧ map_Forall (λ _ n, 0 ≤ n < 2 ^ 64) (Shards c).
Definition replica_fits (r : ReplicaView) : Prop :=
  map_Forall (λ _, counter_fits) (rep_ByStatus r) ∧ map_Forall (λ _, counter_fits) (rep_ByWorker r) ∧
  Forall (λ e, min_i64 ≤ rv_TSUnixMS e ≤ max_i64) (rep_Recent r).

(** A response whose numbers are within their types; a payload nests at most as
    deep as leaves room for what is around it. *)
Definition body_fits (b : body) : Prop :=
  match b with
  | BText _ | BPage _ | BError _ | BGossip _ | BHealth _ => True
  | BJob j => job_fits (maxNestingDepth - 1) j
  | BJobs js => Forall (job_fits (maxNestingDepth - 3)) js
  | BRaft _ nodes => Forall node_fits nodes
  | BWorkers nodes => Forall (λ n, Forall worker_fits (nw_Workers n)) nodes
  | BOutbox pending dispatched failed _ => 0 ≤ pending < 2 ^ 64 ∧ 0 ≤ dispatched < 2 ^ 64 ∧ 0 ≤ failed < 2 ^ 64
  | BCrdt v => Forall replica_fits (Replicas v)
  end.

Lemma many_levels : maxNestingDepth = S (S (S (maxNestingDepth - 3))) ∧ ∃ d, (maxNestingDepth - 3 = S (S (S (S (S d)))))%nat.
Proof. destruct max_depth_many as [d Hd]. rw Hd. split; [lia|]. exists d. lia. Qed.

Section readable.
Context (json_float : Q → bytes).
Hypothesis float_number : ∀ q, scan_number (json_float q) = Some (json_float q, []).

Lemma float_ok q d : json_ok (JNumber (json_float q)) d = true.
Proof using float_number. destruct d; apply bool_decide_eq_true, float_number. Qed.
#[local] Hint Resolve float_ok : core.

Lemma worker_view_ok w d : worker_fits w → json_ok (worker_view_json json_float w) (S d) = true.
Proof using float_number.
  intros [H1 H2]. apply jobject_wf. repeat (apply Forall_cons_2 || apply Forall_nil_2); apply jmember_wf; auto; try (apply juint_ok; lia);
  by destruct d.
Qed.

Lemma worker_views_ok ws d : Forall worker_fits ws → Forall (λ v, json_ok v (S d) = true) (worker_view_json json_float <$> ws).
Proof using float_number. intros H. apply Forall_fmap. eapply Forall_impl; [exact H|]. intros w. apply worker_view_ok. Qed.

Lemma node_status_ok n v d : node_fits n → node_status_json json_float n = Some v → json_ok v (S (S (S d))) = true.
Proof using float_number.
  intros (H1 & H2 & H3 & H4). unfold node_status_json.
  destruct (mapM placement_view_json (ns_Placements n)) as [ps|] eqn:Hps; [|done]. intros [= <-]. apply jobject_wf.
  assert (Forall (λ v, json_ok v (S d) = true) ps) as Hp.
  { apply mapM_Some_1 in Hps. eapply Forall2_Forall_r; [exact Hps|]. apply Forall_true. intros p v. unfold placement_view_json.
    destruct (jtime (pv_At p)) as [a|] eqn:Ha; [|done]. intros [= <-]. apply jobject_wf.
    repeat (apply Forall_cons_2 || apply Forall_nil_2); apply jmember_wf; eauto. }
  repeat (apply Forall_app_2 || apply Forall_cons_2 || apply Forall_nil_2); try (apply jmember_wf);
    eauto using omit_str_wf, omit_uint_wf, omit_array_wf, worker_views_ok.
Qed.

Lemma node_workers_ok n d : Forall worker_fits (nw_Workers n) → json_ok (node_workers_json json_float n) (S (S (S d))) = true.
Proof using float_number.
  intros H. apply jobject_wf. repeat (apply Forall_app_2 || apply Forall_cons_2 || apply Forall_nil_2); try (apply jmember_wf);
    eauto using omit_str_wf.
  apply (worker_views_ok _ d) in H. unfold jslice. destruct (_ <$> _); [done|]. by apply jarray_wf.
Qed.

Lemma counter_ok c d : counter_fits c → json_ok (counter_json c) (S (S d)) = true.
Proof using.
  intros [H1 H2]. apply jobject_wf. repeat (apply Forall_cons_2 || apply Forall_nil_2); apply jmember_wf; auto.
  unfold jmap. case_decide; [done|]. apply jobject_wf, sorted_members_wf. eapply map_Forall_impl; [exact H2|].
  intros k n Hn. by apply juint_ok.
Qed.

Lemma replica_ok r d : replica_fits r → json_ok (replica_json r) (S (S (S (S d)))) = true.
Proof using.
  intros (H1 & H2 & H3). apply jobject_wf.
  assert (∀ name m, map_Forall (λ _ : string, counter_fits) m → members_wf (S (S (S d))) (omit_map name counter_json m)) as Hm.
  { intros name m Hf. unfold omit_map. case_decide; [constructor|]. apply member_wf, jobject_wf, sorted_members_wf.
    eapply map_Forall_impl; [exact Hf|]. intros k c. apply counter_ok. }
  repeat (apply Forall_app_2 || apply Forall_cons_2 || apply Forall_nil_2); try (apply jmember_wf); auto using omit_str_wf.
  apply omit_array_wf, Forall_fmap. eapply Forall_impl; [exact H3|]. intros e He. apply jobject_wf.
  repeat (apply Forall_cons_2 || apply Forall_nil_2); apply jmember_wf; auto; by apply jint_ok.
Qed.

Lemma health_ok h v d : health_json h = Some v → json_ok v (S (S (S d))) = true.
Proof using.
  unfold health_json. destruct (jtime (hr_CheckedAt h)) as [t|] eqn:Ht; [|done]. intros [= <-]. apply jobject_wf.
  repeat (apply Forall_app_2 || apply Forall_cons_2 || apply Forall_nil_2); try (apply jmember_wf); eauto using omit_str_wf.
  apply omit_array_wf, Forall_fmap, Forall_true. intros c. apply jobject_wf.
  repeat (apply Forall_app_2 || apply Forall_cons_2 || apply Forall_nil_2); try (apply jmember_wf); auto using omit_str_wf.
Qed.

Lemma body_json_ok b v : body_fits b → body_json json_float b = Some v → json_ok v maxNestingDepth = true.
Proof using float_number.
  destruct many_levels as [Hd (d & Hd')]. 
  destruct b as [s|s|msg|j|js|ld nodes|nodes|p di fa q|view|on|h]; cbn [body_json body_fits]; intros Hf; [discriminate 1|discriminate 1|..].
  - rw Hd. intros [= <-]. by apply jobject_wf, member_wf.
  - intros Hj. replace maxNestingDepth with (S (maxNestingDepth - 1)) by lia. by eapply job_json_ok.
  - destruct (mapM job_json js) as [l|] eqn:Hl; [|done]. intros [= <-]. rw Hd. apply jobject_wf, member_wf, jarray_wf.
    apply mapM_Some_1 in Hl. eapply Forall2_Forall_r; [exact Hl|]. eapply Forall_impl; [exact Hf|]. intros j Hj v. by apply job_json_ok.
  - destruct (mapM _ nodes) as [l|] eqn:Hl; [|done]. intros [= <-]. rw Hd Hd'. apply jobject_wf.
    repeat (apply Forall_cons_2 || apply Forall_nil_2); apply jmember_wf; auto. apply jarray_wf.
    apply mapM_Some_1 in Hl. eapply Forall2_Forall_r; [exact Hl|]. eapply Forall_impl; [exact Hf|]. intros n Hn v. by apply node_status_ok.
  - intros [= <-]. rw Hd Hd'. apply jobject_wf, member_wf, jarray_wf, Forall_fmap. eapply Forall_impl; [exact Hf|].
    intros n. apply node_workers_ok.
  - intros [= <-]. rw Hd. destruct Hf as (H1 & H2 & H3). apply jobject_wf.
    repeat (apply Forall_cons_2 || apply Forall_nil_2); apply jmember_wf; auto.
  - intros [= <-]. rw Hd Hd'. apply jobject_wf. repeat (apply Forall_cons_2 || apply Forall_nil_2); apply jmember_wf; auto.
    apply jarray_wf, Forall_fmap. eapply Forall_impl; [exact Hf|]. intros r. apply replica_ok.
  - intros [= <-]. rw Hd. by apply jobject_wf, member_wf.
  - intros Hh. rw Hd. by eapply health_ok.
Qed.

(** Reading what was written. *)
Lemma written_parse b v :
  body_fits b → body_json json_float b = Some v → parse (String.list_ascii_of_string (written json_float b)) = Some v.
Proof using float_number.
  intros Hf Hv. pose proof (body_json_ok b v Hf Hv) as Hok.
  assert (written json_float b = String.string_of_list_ascii (print v ++ [byte_of 10])) as ->.
  { unfold written. destruct b; by rw ?Hv. }
  rw String.list_ascii_of_string_of_list_ascii. by apply parse_line.
Qed.
End readable.

(** ** Lemmas: a job keeps its name and payload *)

Definition texts_kept (d d' : DB) : Prop :=
  ∀ id x, jobs d !! id = Some x → ∃ x', jobs d' !! id = Some x' ∧ j_name x' = j_name x ∧ j_payload x' = j_payload x.

Section texts.
Context {UU : PgUuid} (E : env).

Lemma texts_kept_refl d : texts_kept d d.
Proof using. intros id x Hx. eauto. Qed.

Lemma texts_kept_trans d1 d2 d3 : texts_kept d1 d2 → texts_kept d2 d3 → texts_kept d1 d3.
Proof using.
  intros H1 H2 id x (x1 & Hx1 & Hn1 & Hp1)%H1. destruct (H2 _ _ Hx1) as (x2 & Hx2 & Hn2 & Hp2).
  exists x2. split; [done|]. split; congruence.
Qed.

Lemma texts_kept_jobs d d1 d2 : jobs d2 = jobs d1 → texts_kept d d1 → texts_kept d d2.
Proof using. intros Hj H id x Hx. rw Hj. by apply H. Qed.

Lemma update_job_texts id f d n :
  (∀ now r r', f now r = Ok r' → j_name r' = j_name r ∧ j_payload r' = j_payload r) →
  texts_kept d (after (exec E (λ now, update_job id (f now))) d n).
Proof using.
  intros Hf. unfold after. apply (exec_inv E (texts_kept d)); [|apply texts_kept_refl].
  intros now d1 rows d2 H [[_ ->]|(u & r & r' & _ & Hr & Hfr & _ & ->)]%update_job_ok; [done|].
  eapply texts_kept_trans; [exact H|]. intros j x Hx. cbn [jobs]. rw lookup_insert. case_decide as Hj; [|by eauto].
  subst. rw Hr in Hx. simplify_eq. destruct (Hf _ _ _ Hfr). eauto.
Qed.

Lemma update_outbox_texts id f d n : texts_kept d (after (exec E (λ now, update_outbox id (f now))) d n).
Proof using.
  unfold after. apply (exec_inv E (texts_kept d)); [|apply texts_kept_refl].
  intros now d1 rows d2 H [[_ ->]|(u & o & o' & _ & _ & _ & _ & ->)]%update_outbox_ok; [done|]. by eapply texts_kept_jobs.
Qed.

Lemma enqueue_texts now jid w : jobs (db (enqueueOutbox E now jid w).2) = jobs (db w).
Proof using.
  unfold enqueueOutbox, tx_stmt. destruct (env_fault E (tick w)); try done.
  destruct (sql_insert_outbox _ _ _ _) as [[[] d']|ex] eqn:Hi; [|done]. by apply insert_outbox_shape in Hi as (u & _ & _ & ->).
Qed.

Lemma create_texts name payload d n : texts_kept d (after (CreateJobWithOutbox E name payload) d n).
Proof using.
  unfold after, CreateJobWithOutbox. apply (in_tx_inv E (texts_kept d)); [|apply texts_kept_refl]. intros now w Hw.
  apply res_bind_inv; [|intros j w1 Hw1|done].
  - intros _. apply tx_stmt_inv; [|done]. intros n0 d0 j d' H0. unfold sql_insert_job.
    destruct (negb (pg_text_ok name)); [done|]. destruct (jobs d0 !! env_uuid E n0) eqn:Hid; [done|]. intros [= _ <-].
    eapply texts_kept_trans; [exact H0|]. intros id x Hx. exists x. split; [|done]. cbn [jobs].
    rw lookup_insert_ne; [done|congruence].
  - apply res_bind_inv; [|done|done]. intros _. eapply texts_kept_jobs; [apply enqueue_texts|done].
Qed.

Lemma enqueue_all_texts now js w : jobs (db (enqueue_all E now js w).2) = jobs (db w).
Proof using.
  revert w. induction js as [|j js IH]; intros w; [done|]. cbn [enqueue_all]. unfold res_bind, st_bind.
  pose proof (enqueue_texts now (ID j) w) as H. destruct (enqueueOutbox E now (ID j) w) as [[[]|ex] w1]; [|done]. by rw IH.
Qed.

Lemma reclaim_texts rg wk d n : texts_kept d (after (ReclaimJobs E rg wk) d n).
Proof using.
  unfold after, ReclaimJobs. apply (in_tx_inv E (texts_kept d)); [|apply texts_kept_refl]. intros now w Hw.
  apply res_bind_inv; [|intros js w1 Hw1|done].
  - intros _. apply tx_stmt_inv; [|done]. intros n0 d0 js d' H0. unfold sql_reclaim. intros [= _ <-].
    eapply texts_kept_trans; [exact H0|]. intros id x Hx. cbn [jobs]. rw lookup_fmap Hx. eexists. split; [done|].
    by destruct (reclaimable wk x).
  - apply res_bind_inv; [|done|done]. intros _. eapply texts_kept_jobs; [apply enqueue_all_texts|done].
Qed.
End texts.

(** Whatever happens in the system. *)
Lemma sys_texts {UU : PgUuid} st st' : rtc sys_any st st' → texts_kept (tables st) (tables st').
Proof.
  assert (∀ E id wk d n, texts_kept d (after (MarkScheduled E id wk) d n)) as Hs.
  { intros. apply (update_job_texts E id (λ now r, Ok (set_scheduled now wk r))). by intros ??? [= <-]. }
  assert (∀ E id d n, texts_kept d (after (MarkRunning E id) d n)) as Hr.
  { intros. apply (update_job_texts E id (λ now r, match incr_int4 (j_attempts r) with
      | Err e => Err e | Ok n => Ok (set_running now n r) end)).
    intros now r r'. destruct (incr_int4 _); [|done]. by intros [= <-]. }
  assert (∀ E id ok msg d n, texts_kept d (after (MarkFinished E id ok msg) d n)) as Hf.
  { intros. apply (update_job_texts E id (λ now r, Ok (set_finished now
      (if negb ok then StatusFailed else StatusSucceeded) msg r))). by intros now r r' [= <-]. }
  assert (∀ (E : env) (A : Type) (m : stM world A) d n r w', (∀ d n, texts_kept d (after m d n)) → m (mkWorld d n) = (r, w') → texts_kept d (db w')) as Hrun.
  { intros E A m d n r w' Hm H. specialize (Hm d n). unfold after in Hm. by rw H in Hm. }
  induction 1 as [st|st st1 st2 [l Hstep] _ IH]; [apply texts_kept_refl|].
  eapply texts_kept_trans; [|exact IH]. clear IH.
  destruct Hstep as [E n name payload st _|E n rg wk st _|rg e st _|i h d' h' rs st _ Hh|i r d' r' st _ Hst]; cbn [tables].
  - apply create_texts.
  - apply reclaim_texts.
  - apply texts_kept_refl.
  - destruct Hh as [| | | | | |E n d e|E n d e msg|E n d e reason| |]; try apply texts_kept_refl; try (apply Hf);
      try (eapply Hrun; [exact E|intros; apply Hs|eassumption]).
    + apply (update_outbox_texts E (e_ID e)).
    + apply (update_outbox_texts E (e_ID e)).
    + apply (update_outbox_texts E (e_ID e)).
  - destruct Hst; try apply texts_kept_refl; try (apply Hf).
    all: eapply Hrun; [exact E| |eassumption]; auto.
Qed.

(** ** What a client finds in the text of a job *)

(** The value of the member [name] of an object. *)
Definition member_named (name : string) (v : json) : option json :=
  match v with
  | JObject ms => (λ m, m.2.2) <$> head (filter (λ m, unquote 0 m.1 = String.list_ascii_of_string name) ms)
  | _ => None
  end.

(** The text a string value stands for. *)
Definition string_value (v : json) : option string :=
  match v with JString b => Some (String.string_of_list_ascii (unquote 0 b)) | _ => None end.

Lemma string_value_jstr s : utf8 s → string_value (jstr s) = Some s.
Proof. intros H. by apply (dec_string_jstr s s []) in H. Qed.

Section members.
Context (want : string).
Abbreviation wanted ms := (filter (λ m : bytes * (bytes * json), unquote 0 m.1 = String.list_ascii_of_string want) ms).

Lemma other_member name v ms : utf8 name → name ≠ want → wanted (jmember name v :: ms) = wanted ms.
Proof.
  intros Hn Hne. rw filter_cons_False; [done|]. cbn [jmember fst].
  destruct (quote_unquote _ [] Hn) as [Hq _]. rw !app_nil_r in Hq. rw Hq. intros H. apply Hne.
  rw -(String.string_of_list_ascii_of_string name) H. by rw String.string_of_list_ascii_of_string.
Qed.

Lemma other_str name s ms : utf8 name → name ≠ want → wanted (omit_str name s ++ ms) = wanted ms.
Proof. intros Hn Hne. unfold omit_str. destruct (String.eqb s EmptyString); [done|]. by apply other_member. Qed.

Lemma other_time name t l ms : utf8 name → name ≠ want → omit_time name t = Some l → wanted (l ++ ms) = wanted ms.
Proof.
  intros Hn Hne. destruct t as [t|]; cbn [omit_time]; [|by intros [= <-]].
  destruct (jtime t); [|done]. intros [= <-]. by apply other_member.
Qed.
End members.

Lemma job_members j v :
  job_json j = Some v →
  member_named "id" v = Some (jstr (jj_ID j)) ∧ member_named "name" v = Some (jstr (jj_Name j)) ∧
  member_named "status" v = Some (jstr (jj_Status j)) ∧
  member_named "payload" v =
    match jj_Payload j with None | Some EmptyString => None | Some raw => raw_json raw end.
Proof.
  unfold job_json.
  destruct (jtime (jj_CreatedAt j)) as [c|]; [|done]. destruct (jtime (jj_UpdatedAt j)) as [u|]; [|done].
  cbn [mbind option_bind].
  destruct (omit_time "started_at" _) as [st|] eqn:Hst; [|done]. destruct (omit_time "finished_at" _) as [fi|] eqn:Hfi; [|done].
  destruct (omit_raw "payload" _) as [pl|] eqn:Hpl; [|done]. cbn [mbind option_bind]. intros [= <-].
  split; [reflexivity|]. split; [reflexivity|]. split; [reflexivity|]. cbn [member_named].
  rw !other_member // other_str // other_member // other_str // !other_member // (other_time _ _ _ _ _ _ _ Hst) // (other_time _ _ _ _ _ _ _ Hfi) //.
  revert Hpl. unfold omit_raw. destruct (jj_Payload j) as [[|ch raw]|]; [by intros [= <-]| |by intros [= <-]].
  destruct (raw_json (String ch raw)); [|done]. by intros [= <-].
Qed.

(** A text shows job [id] with its name, status and payload: the payload is absent
    when it is empty, and else means the same value. *)
Definition shows (text id name status payload : string) : Prop :=
  ∃ v, parse (String.list_ascii_of_string text) = Some v ∧ member_named "id" v = Some (jstr id) ∧
    member_named "name" v ≫= string_value = Some name ∧ member_named "status" v ≫= string_value = Some status ∧
    if String.eqb payload EmptyString then member_named "payload" v = None
    else ∃ p q, parse (String.list_ascii_of_string payload) = Some p ∧ member_named "payload" v = Some q ∧ meaning q = meaning p.

(** The instants of a row that a response writes. *)
Definition times_ok (x : job_row) : Prop :=
  Forall (λ t, is_Some (format_rfc3339 t)) (j_created x :: j_updated x :: option_list (j_started x) ++ option_list (j_finished x)).

Lemma valid_status_utf8 s : valid_status s = true → utf8 s.
Proof.
  unfold valid_status. rw !orb_true_iff !String.eqb_eq.
  intros H; repeat destruct H as [H|H]; subst; by vm_compute.
Qed.

(** The job of a row, as it is rendered. *)
Abbreviation rendered rgp jid x := (renderJob rgp (JobToProto (scanJob jid x))).

Lemma rendered_payload rgp jid x d :
  j_payload x = EmptyString ∨ nests (j_payload x) d →
  jj_Payload (rendered rgp jid x) = (if String.eqb (j_payload x) EmptyString then None else Some (j_payload x)).
Proof.
  intros Hp. cbn [renderJob jj_Payload JobToProto pj_Payload scanJob Payload]. unfold Valid.
  destruct Hp as [->|(p & Hp & _)]; [done|]. rw Hp. by destruct (j_payload x).
Qed.

Lemma rendered_json rgp jid x d :
  times_ok x → j_payload x = EmptyString ∨ nests (j_payload x) d → ∃ v, job_json (rendered rgp jid x) = Some v.
Proof.
  intros Ht Hp. unfold times_ok in Ht. rw !Forall_cons Forall_app in Ht. destruct Ht as ([c Hc] & [u Hu] & Hs & Hf).
  assert (∀ name t, Forall (λ t, is_Some (format_rfc3339 t)) (option_list t) → is_Some (omit_time name t)) as Hot.
  { intros name [t|] Hall; [|by eexists]. apply Forall_singleton in Hall as [s Hs']. cbn [omit_time]. unfold jtime. rw Hs'. by eexists. }
  apply (Hot "started_at") in Hs as [st Hs]. apply (Hot "finished_at") in Hf as [fi Hf].
  unfold job_json. rw (rendered_payload _ _ _ d Hp).
  cbn [renderJob jj_CreatedAt jj_UpdatedAt jj_StartedAt jj_FinishedAt JobToProto pj_CreatedAt pj_UpdatedAt
    pj_StartedAt pj_FinishedAt scanJob CreatedAt UpdatedAt StartedAt FinishedAt default from_option]. unfold jtime, id. rw Hc Hu Hs Hf.
  cbn [mbind option_bind]. destruct Hp as [->|(p & Hp & _)]; [by eexists|].
  destruct (j_payload x) as [|ch raw]; [by eexists|]. cbn [String.eqb omit_raw]. unfold raw_json. rw Hp. by eexists.
Qed.

Lemma rendered_fits rgp jid x d :
  j_payload x = EmptyString ∨ nests (j_payload x) d → job_fits d (rendered rgp jid x).
Proof.
  intros Hp. split; [apply (Z.mod_pos_bound (j_attempts x) (2 ^ 32)); lia|]. rw (rendered_payload _ _ _ d Hp).
  destruct Hp as [->|Hp]; [done|]. intros raw. by destruct (String.eqb _ _); intros [= <-].
Qed.

Lemma row_shown json_float rgp jid x :
  (∀ q, scan_number (json_float q) = Some (json_float q, [])) →
  job_row_ok x → times_ok x → utf8 (j_name x) →
  (j_payload x = EmptyString ∨ nests (j_payload x) (maxNestingDepth - 1)) →
  shows (written json_float (BJob (rendered rgp jid x))) jid (j_name x) (j_status x) (j_payload x).
Proof.
  intros Hfl [Hst _] Ht Hn Hp. destruct (rendered_json rgp jid x _ Ht Hp) as [v Hv].
  pose proof (written_parse json_float Hfl (BJob (rendered rgp jid x)) v (rendered_fits rgp jid x _ Hp) Hv) as Hparse.
  destruct (job_members _ v Hv) as (H1 & H2 & H3 & H4). rw (rendered_payload _ _ _ _ Hp) in H4. clear Hv.
  cbn [renderJob jj_ID jj_Name jj_Status JobToProto pj_Id pj_Name pj_Status scanJob ID Name Status] in H1, H2, H3.
  rw status_back // in H3. exists v. split; [exact Hparse|]. clear Hparse. split; [exact H1|]. rw H2 H3 H4. cbn [mbind option_bind].
  rw !string_value_jstr //; [|by apply valid_status_utf8]. split; [reflexivity|]. split; [reflexivity|].
  destruct Hp as [->|(p & Hp & Hok)]; [reflexivity|]. destruct (j_payload x) as [|ch raw] eqn:Hx; [reflexivity|]. cbn [String.eqb].
  exists p, (compact p). split; [exact Hp|]. split; [unfold raw_json; by rw Hp|]. by eapply compact_meaning.
Qed.

(** ** Lemmas: the payload a body stores, and a routed read *)

Lemma body_payload_nests {JE : JsonEnv} raw b :
  decode_body raw = Ok b → cb_Payload b = EmptyString ∨ nests (cb_Payload b) (maxNestingDepth - 1).
Proof.
  intros [He|(ms & m & Hd & Hm & _ & Hv)]%body_payload; [by left|]. right. exists m.2.2. split; [done|].
  unfold decode_first in Hd. destruct (parse_value _ _) as [[v r]|] eqn:Hp; [|done].
  assert (v = JObject ms) as -> by (by repeat case_match; simplify_eq). apply parse_tree in Hp.
  destruct many_levels as [Hn _]. rw Hn in Hp. cbn [tree_ok] in Hp. rw forallb_forall in Hp.
  specialize (Hp m). rw -list_elem_of_In in Hp. specialize (Hp Hm). apply andb_true_iff in Hp as [_ Hp].
  replace (maxNestingDepth - 1)%nat with (S (S (maxNestingDepth - 3))); [done|]. lia.
Qed.

Lemma body_name_utf8 {JE : JsonEnv} raw b : decode_body raw = Ok b → utf8 (cb_Name b).
Proof.
  unfold decode_body, Decode. destruct (decode_first _ _) as [v|]; [|done]. cbn [mbind option_bind].
  destruct (decode_struct body_fields _ _ v) as [b'|] eqn:Hd; [|done]. intros [= <-].
  apply (decode_struct_inv (λ b, utf8 (cb_Name b))) in Hd; [done| |done].
  repeat constructor; apply field_keeps.
  - intros a r v' x Ha. cbn [cb_Name]. by apply dec_string_utf8.
  - done.
Qed.

Section reads.
Context {UU : PgUuid} (E : env) (rg : Ranger job_row) (uuid_ok : string → bool) (N : network) (ctxDone : nat → cluster → bool).

Lemma declined_reads {T} (fn : string → stM cluster (result err T)) ms c e0 c' e :
  (∀ m, reads_only (fn m)) → declined fn ms c e0 c' e → db (c_store c') = db (c_store c).
Proof. intros Hfn. induction 1 as [|m ms c c1 c' e0 e e' H _ _ IH]; [done|]. rw IH. specialize (Hfn m c). by rw H in Hfn. Qed.

(** A job that is shown is in the table. *)
Lemma routed_get id c r p s :
  router_ok r → gw_GetJob E rg uuid_ok N ctxDone id (c, r) = (Ok p, s) →
  ∃ u x, pg_uuid id = Some u ∧ jobs (db (c_store c)) !! u = Some x ∧ p = JobToProto (scanJob u x).
Proof.
  intros Hok. unfold gw_GetJob, routed, LeaderClient.GetJob. set (fn := λ m, rpc N m (λ _ _, on_store (SchedulerSvc.GetJob (pg_sched_store E rg) uuid_ok id))).
  destruct (route fn ctxDone r c) as [[res r0] c0] eqn:Hroute. intros [= Hres <-].
  assert (∀ m, reads_only (fn m)) as Hreads.
  { intros m. apply rpc_reads. intros w. unfold SchedulerSvc.GetJob. by destruct (uuid_ok id). }
  pose proof (rounds_outcome fn ctxDone r retryRounds 0 c c None res r0 c0 Hok eq_refl ltac:(done)
    (declined_nil fn c None) Hroute) as [(k & j & m & c1 & e1 & _ & _ & Hd & _ & Hcase)|(k & e & _ & _ & -> & _)]; [|done].
  destruct Hcase as [(out & Hfn & -> & _)|(e & _ & _ & -> & _)]; [|done]. injection Hres as <-.
  apply declined_reads in Hd as Hdb; [|done]. revert Hfn. unfold fn, rpc, on_store.
  destruct (net_fate N (c_calls c1)); try done. unfold SchedulerSvc.GetJob. destruct (uuid_ok id); [|done].
  cbn [negb]. unfold st_bind. cbn [ss_GetJob pg_sched_store c_store]. unfold Store.GetJob.
  destruct (env_fault E (tick (c_store c1))); [|by destruct (is_not_found _)..].
  destruct (pg_uuid id) as [u|]; [|by destruct (is_not_found _)]. rw Hdb.
  destruct (jobs (db (c_store c)) !! u) as [x|] eqn:Hx; [|done]. intros [= <- _]. eauto.
Qed.
End reads.

(** ** Properties *)


(** C23: what is posted is what is shown. When POST /jobs is answered with 201, the
    text of the answer is a JSON object with the id of the Location header, the name
    of the body, the status pending and a payload that means the value the client
    wrote, or none when it wrote none. And whatever happens to the job in between,
    whenever GET /jobs/{id} answers 200, through any router, network and scheduler,
    its text shows the same id, name and payload and the status in the table. *)
Theorem posted_job_shown {UU : PgUuid} {JE : JsonEnv} (json_float : Q → bytes)
    (E : env) (rg : Ranger job_row) (rgp : Ranger JobStatus) (uuid_ok : string → bool)
    (N : network) (ctxDone : nat → cluster → bool) (raw : string) (b : createBody) (c c' : cluster) (r r' : Router) (resp : response) :
  (∀ q, scan_number (json_float q) = Some (json_float q, [])) →
  uuids_fresh E (c_store c) → router_ok r → decode_body raw = Ok b →
  post_jobs E rg rgp N ctxDone raw (c, r) = (resp, (c', r')) → code_ resp = StatusCreated →
  map_Forall (λ _ x, times_ok x) (jobs (db (c_store c'))) →
  ∃ id, location resp = Some ("/jobs/" +:+ id) ∧
    shows (written json_float (content resp)) id (cb_Name b) StatusPending (cb_Payload b) ∧
    ∀ hs rs st' E2 N2 ctx2 n2 wake2 r2 resp2 s2 x,
      rtc sys_any (mkSys (db (c_store c')) hs rs) st' → router_ok r2 →
      pg_uuid id = Some id → jobs (tables st') !! id = Some x → job_row_ok x → times_ok x →
      handleGetJob rgp uuid_ok (gw_GetJob E2 rg uuid_ok N2 ctx2) id
        (mkCluster (mkWorld (tables st') n2) wake2 0, r2) = (resp2, s2) → code_ resp2 = StatusOK →
      shows (written json_float (content resp2)) id (cb_Name b) (j_status x) (cb_Payload b).
Proof.
  intros Hfl Hf Hok Hb. unfold post_jobs, handleCreateJob. fold (decode_body raw). rw Hb. unfold st_bind.
  destruct (gw_SubmitJob _ _ _ _ _ (c, r)) as [res [c1 r1]] eqn:Hs. intros [= <- <- <-] Hcode Htimes.
  destruct (routed_submit_spec E rg N _ _ _ _ _ _ _ Hf Hok Hs) as (_ & _ & ids & _ & _ & Hp & _).
  destruct res as [p|e]; [|by unfold writeRPCError in Hcode; destruct (status_code e)].
  destruct (Hp p eq_refl) as (id & now & _ & -> & Hrow). exists id. split; [done|].
  pose proof (body_name_utf8 raw b Hb) as Hn. pose proof (body_payload_nests raw b Hb) as Hpay.
  split; [apply (row_shown json_float rgp id (new_job_row (cb_Name b) (cb_Payload b) now)); try done; by eapply Htimes|].
  intros hs rs st' E2 N2 ctx2 n2 wake2 r2 resp2 s2 x Hrun Hok2 Hid Hx Hrx Htx.
  destruct (sys_texts _ _ Hrun id _ Hrow) as (x' & Hx' & Hnx & Hpx). rw Hx in Hx'. simplify_eq.
  unfold handleGetJob. destruct (uuid_ok id); cbn [negb]; [|intros [= <- _]; done]. unfold st_bind.
  destruct (gw_GetJob _ _ _ _ _ id _) as [[p2|e2] s3] eqn:Hg; intros [= <- _];
    [|intros Hc2; by unfold writeRPCError in Hc2; destruct (status_code e2)].
  intros _. apply routed_get in Hg as (u & y & Hu & Hy & ->); [|done]. cbn [c_store db] in Hy. simplify_eq.
  cbn [new_job_row j_name j_payload sjr_Name sjr_Payload] in Hnx, Hpx. cbn [content writeJSON]. rw -Hnx -Hpx.
  apply row_shown; rw ?Hnx ?Hpx //.
Qed.

(** Seconds as whole numbers, for examples. *)
Definition whole (q : Q) : bytes := reverse (digits_rev 20 (Qfloor q mod 2 ^ 64)).

Lemma whole_number q : scan_number (whole q) = Some (whole q, []).
Proof.
  pose proof (juint_ok (Qfloor q mod 2 ^ 64) 0 ltac:(apply Z.mod_pos_bound; lia)) as H. by apply bool_decide_eq_true in H.
Qed.

(** A listing with a payload that needs escaping, and the backlog. *)
Definition demo_job_shown : jobJSON :=
  mkJobJSON "id-1" "sleep" StatusRunning "worker-1" 1 EmptyString (1709210096 * Second) (1709210097 * Second)
    (Some (1709210096 * Second + 500 * Millisecond)) None (Some (text_of (JArray [jstr "a"; JString [byte_of 60]; JNull]))).

Definition expected_listing : json :=
  JObject [jmember "jobs" (JArray [JObject [jmember "id" (jstr "id-1"); jmember "name" (jstr "sleep");
    jmember "status" (jstr "running"); jmember "assigned_worker" (jstr "worker-1"); jmember "attempts" (juint 1);
    jmember "created_at" (jstr "2024-02-29T12:34:56Z"); jmember "updated_at" (jstr "2024-02-29T12:34:57Z");
    jmember "started_at" (jstr "2024-02-29T12:34:56.5Z"); jmember "payload" (JArray [jstr "a"; jstr "<"; JNull])]])].

Lemma demo_listing_fits : body_fits (BJobs [demo_job_shown]).
Proof.
  constructor; [|constructor]. split; [by vm_compute|]. intros raw [= <-].
  exists (JArray [jstr "a"; JString [byte_of 60]; JNull]). split; [vm_compute; reflexivity|].
  destruct many_levels as [_ [d ->]]. vm_compute. reflexivity.
Qed.

Lemma demo_listing_json : body_json whole (BJobs [demo_job_shown]) = Some expected_listing.
Proof. vm_compute. reflexivity. Qed.


Lemma posted_job_shown_witness :
  ∃ c' r' resp, demo_post all_delivered = (resp, (c', r')) ∧
    shows (written whole (content resp)) "id-1" "sleep" StatusPending (text_of demo_payload).
Proof.
  destruct (demo_post all_delivered) as [resp [c' r']] eqn:Hrun. exists c', r', resp. split; [done|].
  assert (code_ resp = StatusCreated) as Hcode by (apply (f_equal (λ x, code_ x.1)) in Hrun; by vm_compute in Hrun).
  assert (location resp = Some "/jobs/id-1") as Hloc by (apply (f_equal (λ x, location x.1)) in Hrun; by vm_compute in Hrun).
  assert (map_Forall (λ _ x, times_ok x) (jobs (db (c_store c')))) as Ht.
  { apply (f_equal (λ x, jobs (db (c_store x.2.1)))) in Hrun. cbn [fst snd] in Hrun. rw -Hrun. clear.
    apply (bool_decide_unpack _). vm_compute. reflexivity. }
  destruct (posted_job_shown (UU := any_uuid) (JE := demo_json_env) whole demo_env (ranger_asc _) (ranger_asc _) (λ _, true)
    all_delivered (λ _ _, false) demo_body (mkCreateBody "sleep" (text_of demo_payload)) demo_cluster c' demo_members r' resp
    whole_number demo_env_fresh ltac:(split; [done|simpl; lia]) ltac:(vm_compute; reflexivity) Hrun Hcode Ht) as (id & Hl & Hshow & _).
  rw Hloc in Hl. injection Hl as Hid. revert Hid. change (EmptyString +:+ id) with id. intros <-. exact Hshow.
Defined.
