(* ===== verification/Lifecycle.v ===== *)
(** * The processes: internal/app, internal/logging and cmd

    Each main function is a script: what it loads, opens, starts, registers and
    serves, recorded in a trace, with every step that can fail answered by an
    arbitrary oracle. [log.Fatal] ends the process at once, without deferred calls;
    a normal return runs them last first. How the two servers stop (the gRPC
    services and the gateway's HTTP server) is a step relation over requests in
    flight and the signal. *)

From S2P Require Import Prelude GoRuntime Config Boot Registry WorkerSvc Reporting Observer.
Local Open Scope Z_scope.

(** ** internal/logging *)

Inductive level : Type := TraceLevel | DebugLevel | InfoLevel | WarnLevel | ErrorLevel | FatalLevel | PanicLevel | NoLevel | Disabled.

#[export] Instance level_eq_dec : EqDecision level.
Proof. solve_decision. Defined.

Record Logger : Type := mkLogger { lg_level : level; lg_component : string; lg_instance : string }.

Section logging.
(** [zerolog.ParseLevel]. *)
Context (ParseLevel : string → option level).

Definition logging_New (component instance lvl : string) : Logger :=
  mkLogger (match ParseLevel lvl with
            | None => InfoLevel
            | Some l => if decide (l = NoLevel) then InfoLevel else l
            end) component instance.
End logging.

(** ** Scripts *)

(** What a process holds until it is released. *)
Inductive resource : Type :=
| DBPool | DispatchClients | ReportClient | HeartbeatClients | ObserverConn | RouterClients | ViewClients
| Context_ (what : string) | Signals.

#[export] Instance resource_eq_dec : EqDecision resource.
Proof. solve_decision. Defined.

Inductive pevent : Type :=
| PLogger (l : Logger)
| POpen (r : resource)
| PRelease (r : resource)
| PRaft (cfg : NodeConfig)
| PSpawn (what : string)
| PRegister (service : string)
| PListen (addr : string)
| PServe (addr : string)
| PDrain (timeout : Z)
| PRaftShutdown
| PPing (n : nat)
| PGoose (what : string)
| PFatal (msg : string).

(** The trace so far, and whether the process returned from main. *)
Definition proc : Type := list pevent → list pevent * bool.

Section processes.
Context {Cert Pool : Type}.
Context (LoadX509KeyPair : string → string → result err Cert) (ReadFile : string → result err string).
Context (AppendCertsFromPEM : string → option Pool).
Context (lookup_env : string → option string) (to_int : string → Z) (ParseLevel : string → option level).

(** How a step fails after the ones already taken. *)
Context (fails : list pevent → pevent → option err).

Definition fin : proc := λ tr, (tr, true).
Definition fatal (msg : string) : proc := λ tr, (tr ++ [PFatal msg], false).
Definition act (e : pevent) (k : proc) : proc := λ tr, k (tr ++ [e]).
Definition must (e : pevent) (msg : string) (k : proc) : proc := λ tr,
  match fails tr e with Some _ => fatal msg tr | None => k (tr ++ [e]) end.
Definition must_ok {A} (r : result err A) (msg : string) (k : A → proc) : proc :=
  match r with Ok a => k a | Err _ => fatal msg end.
Definition deferred (e : pevent) (k : proc) : proc := λ tr,
  let '(tr', ok) := k tr in (if ok then tr' ++ [e] else tr', ok).
(** [x, err := open(); if err != nil { log.Fatal() }; defer x.Close()]. *)
Definition opening (r : resource) (msg : string) (k : proc) : proc := must (POpen r) msg (deferred (PRelease r) k).
(** [ctx, cancel := context.WithCancel(...); defer cancel()]. *)
Definition with_context (what : string) (k : proc) : proc :=
  act (POpen (Context_ what)) (deferred (PRelease (Context_ what)) k).

Definition tls_server (p : TLSPaths) := Boot.Server LoadX509KeyPair ReadFile AppendCertsFromPEM p.
Definition tls_client (p : TLSPaths) := Boot.Client LoadX509KeyPair ReadFile AppendCertsFromPEM p.

(** ** internal/app *)

Definition MustLoad (component : string) (k : Config → proc) : proc :=
  match Load lookup_env to_int component with
  | Err _ => act (PLogger (logging_New ParseLevel component component "info")) (fatal "load config")
  | Ok cfg => act (PLogger (logging_New ParseLevel (Component cfg) (Config.Instance_ cfg) (LogLevel cfg))) (k cfg)
  end.

(** [ServeGRPC] returns when the server has stopped gracefully. *)
Definition ServeGRPC (addr : string) (k : proc) : proc :=
  must (PListen addr) "listen" (λ tr,
    let '(tr', ok) :=
      act (POpen Signals) (deferred (PRelease Signals) (act (PSpawn "graceful stop") (must (PServe addr) "serve" fin))) tr in
    if ok then k tr' else (tr', false)).

Definition RunStub (component : string) : proc :=
  MustLoad component (λ cfg,
  must_ok (tls_server (TLS cfg)) "build server TLS" (λ _,
  act (PRegister "HealthService") (
  ServeGRPC (GRPCAddr cfg) fin))).

(** ** cmd/scheduler *)

Definition workerStaleTTL : Z := 5 * Second.
Definition workerDeadTTL : Z := 8 * Second.

Definition scheduler_registry : Registry := Registry.New workerStaleTTL workerDeadTTL.

Definition scheduler_main : proc :=
  MustLoad "scheduler" (λ cfg,
  must_ok (tls_server (TLS cfg)) "build server TLS" (λ _,
  must_ok (tls_client (TLS cfg)) "build client TLS" (λ _,
  opening DBPool "create db pool" (
  opening DispatchClients "build dispatcher" (
  must (PRaft (mkNodeConfig (Config.Instance_ cfg) (RaftAddr cfg) (RaftPeers cfg) (RaftDataDir cfg) (TLS cfg)))
    "start raft member" (
  with_context "services" (
  act (PSpawn "relay") (
  act (PRegister "JobService") (
  act (PRegister "StateService") (
  act (PRegister "WorkerService") (
  act (PRegister "HealthService") (
  act (PSpawn "reaper") (
  ServeGRPC (GRPCAddr cfg) (
  act PRaftShutdown fin)))))))))))))).

(** ** cmd/worker *)

Definition drainTimeout : Z := 30 * Second.

Definition worker_main : proc :=
  MustLoad "worker" (λ cfg,
  must_ok (tls_server (TLS cfg)) "build server TLS" (λ _,
  must_ok (tls_client (TLS cfg)) "build client TLS" (λ _,
  opening DBPool "create db pool" (
  opening ReportClient "build statemanager reporter" (
  opening HeartbeatClients "build heartbeat loop" (
  with_context "heartbeat" (
  act (PSpawn "heartbeat") (
  act (PRegister "WorkerService") (
  act (PRegister "HealthService") (
  ServeGRPC (GRPCAddr cfg) (
  act (PDrain drainTimeout) fin))))))))))).

(** ** cmd/statemanager; a gossip loop that cannot start is fatal from its own
    goroutine. *)
Definition statemanager_main : proc :=
  MustLoad "statemanager" (λ cfg,
  must_ok (tls_server (TLS cfg)) "build server TLS" (λ _,
  must_ok (tls_client (TLS cfg)) "build client TLS" (λ _,
  with_context "gossip" (
  act (PSpawn "gossip") (
  act (PRegister "StateService") (
  act (PRegister "HealthService") (
  ServeGRPC (GRPCAddr cfg) fin))))))).

(** ** cmd/observer *)

Definition observer_main : proc :=
  MustLoad "observer" (λ cfg,
  must_ok (tls_server (TLS cfg)) "build server TLS" (λ _,
  must_ok (tls_client (TLS cfg)) "build client TLS" (λ _,
  opening DBPool "create db pool" (
  act (PRegister "HealthService") (
  ServeGRPC (GRPCAddr cfg) fin))))).

(** ** cmd/gateway; [ListenAndServe] returns [http.ErrServerClosed] on shutdown. *)
Definition gateway_main : proc :=
  MustLoad "gateway" (λ cfg,
  must_ok (tls_client (TLS cfg)) "build client TLS" (λ _,
  opening ObserverConn "create observer client" (
  opening RouterClients "create scheduler router" (
  opening ViewClients "create statemanager view" (
  act (POpen Signals) (deferred (PRelease Signals) (
  act (PSpawn "graceful stop") (
  must (PServe (HTTPAddr cfg)) "serve" fin)))))))).

(** ** cmd/migrate *)

Definition dbWaitTimeout : Z := 60 * Second.
Definition pingPause : Z := 2 * Second.

(** The loop that waits for the database: [ping n] is the [n]-th answer, [clock n]
    the time read after it. *)
Context (ping : nat → option err) (start : Z) (clock : nat → Z).

Fixpoint wait_db (fuel n : nat) (k : proc) : option proc :=
  match fuel with
  | O => None
  | S f =>
      match ping n with
      | None => Some (act (PPing n) k)
      | Some _ =>
          if start + dbWaitTimeout <? clock n then Some (act (PPing n) (fatal "postgres unreachable"))
          else act (PPing n) <$> wait_db f (S n) k
      end
  end.

(** Pings allowed for; [migrate_waits] shows that the loop never needs more. *)
Definition max_pings : nat := 32.

Definition migrate_main : proc :=
  MustLoad "migrate" (λ cfg,
  opening DBPool "open database" (
  default (fatal "more pings than the deadline allows") (wait_db max_pings 0 (
  must (PGoose "dialect") "set goose dialect" (
  must (PGoose "up") "apply migrations" (
  must (PGoose "version") "read migration version" fin)))))).
End processes.

(** ** How the servers stop *)

(** The gRPC server under [ServeGRPC], or the gateway's HTTP server. *)
Inductive server : Type := GRPC | HTTP.

Record serving : Type := mkServing {
  sv_signal : bool;        (* SIGINT or SIGTERM arrived *)
  sv_stopping : bool;      (* GracefulStop or Shutdown was called *)
  sv_stopped : bool;       (* ... and has returned *)
  sv_returned : bool;      (* Serve or ListenAndServe has returned to main *)
  sv_inflight : nat;       (* requests being handled *)
}.

Definition sv_init : serving := mkServing false false false false 0.

(** [GracefulStop] returns when no request is left, [Shutdown] also when its ten
    seconds are over. [Serve] returns after [GracefulStop] has; [ListenAndServe]
    returns as soon as [Shutdown] is called. *)
Inductive sv_step (kind : server) : serving → serving → Prop :=
| SvRequest s : sv_stopping s = false →
    sv_step kind s (mkServing (sv_signal s) false (sv_stopped s) (sv_returned s) (S (sv_inflight s)))
| SvFinish s n : sv_inflight s = S n →
    sv_step kind s (mkServing (sv_signal s) (sv_stopping s) (sv_stopped s) (sv_returned s) n)
| SvSignal s : sv_step kind s (mkServing true (sv_stopping s) (sv_stopped s) (sv_returned s) (sv_inflight s))
| SvStop s : sv_signal s = true →
    sv_step kind s (mkServing true true (sv_stopped s) (sv_returned s) (sv_inflight s))
| SvStopped s : sv_stopping s = true → (kind = GRPC → sv_inflight s = 0%nat) →
    sv_step kind s (mkServing (sv_signal s) true true (sv_returned s) (sv_inflight s))
| SvReturn s : (match kind with GRPC => sv_stopped s | HTTP => sv_stopping s end) = true →
    sv_step kind s (mkServing (sv_signal s) (sv_stopping s) (sv_stopped s) true (sv_inflight s)).

(** ** Lemmas: scripts *)

(** The resources held after some events, innermost first; none when something is
    released that is not the innermost. *)
Fixpoint holding (stk : list resource) (evs : list pevent) : option (list resource) :=
  match evs with
  | [] => Some stk
  | POpen r :: evs' => holding (r :: stk) evs'
  | PRelease r :: evs' =>
      match stk with
      | r' :: stk' => if decide (r = r') then holding stk' evs' else None
      | [] => None
      end
  | _ :: evs' => holding stk evs'
  end.

Lemma holding_app stk evs evs' : holding stk (evs ++ evs') = holding stk evs ≫= λ stk', holding stk' evs'.
Proof.
  revert stk. induction evs as [|e evs IH]; intros stk; [done|]. destruct e; simpl; try apply IH.
  destruct stk as [|r' stk]; [done|]. case_decide; [apply IH|done].
Qed.

(** A script that releases exactly what it opened, in reverse order, when it
    returns, and that ends with its complaint, holding on to things, when it does
    not. *)
Definition tidy (k : proc) : Prop := ∀ tr, ∃ evs, (k tr).1 = tr ++ evs ∧
  if (k tr).2 then ∀ stk, holding stk evs = Some stk
  else ∀ stk, ∃ more pre msg, holding stk evs = Some (more ++ stk) ∧ evs = pre ++ [PFatal msg].

Definition neutral (e : pevent) : bool :=
  match e with POpen _ | PRelease _ => false | _ => true end.

Lemma tidy_fin : tidy fin.
Proof. intros tr. exists []. by rw app_nil_r. Qed.

Lemma tidy_fatal msg : tidy (fatal msg).
Proof. intros tr. exists [PFatal msg]. split; [done|]. intros stk. by exists [], [], msg. Qed.

Lemma holding_neutral e evs stk : neutral e = true → holding stk (e :: evs) = holding stk evs.
Proof. by destruct e. Qed.

Lemma tidy_act e k : neutral e = true → tidy k → tidy (act e k).
Proof.
  intros He Hk tr. unfold act. destruct (Hk (tr ++ [e])) as (evs & Htr & Hcase). exists (e :: evs).
  rw Htr -app_assoc. split; [done|]. destruct (k (tr ++ [e])).2.
  - intros stk. by rw holding_neutral.
  - intros stk. destruct (Hcase stk) as (more & pre & msg & Hh & ->). exists more, (e :: pre), msg. by rw holding_neutral.
Qed.

Section tidy_scripts.
Context (fails : list pevent → pevent → option err).

Lemma tidy_must e msg k : neutral e = true → tidy k → tidy (must fails e msg k).
Proof.
  intros He Hk tr. unfold must. destruct (fails tr e); [apply tidy_fatal|]. by apply (tidy_act e k He Hk tr).
Qed.

Lemma tidy_must_ok {A} (r : result err A) msg k : (∀ a, tidy (k a)) → tidy (must_ok r msg k).
Proof. intros Hk. destruct r; [apply Hk|apply tidy_fatal]. Qed.

(** A resource held while [k] runs. *)
Lemma tidy_bracket r k : tidy k → tidy (act (POpen r) (deferred (PRelease r) k)).
Proof.
  intros Hk tr. unfold act, deferred. destruct (Hk (tr ++ [POpen r])) as (evs & Htr & Hcase).
  destruct (k (tr ++ [POpen r])) as [tr' ok]. cbn [fst snd] in *. subst tr'. destruct ok; cbn [fst snd].
  - exists (POpen r :: evs ++ [PRelease r]). split; [by rw -!app_assoc|]. intros stk.
    cbn [holding]. rw holding_app Hcase. simpl. by rw decide_True.
  - exists (POpen r :: evs). split; [by rw -app_assoc|]. intros stk.
    destruct (Hcase (r :: stk)) as (more & pre & msg & Hh & ->). exists (more ++ [r]), (POpen r :: pre), msg.
    split; [|done]. cbn [holding]. rw Hh. by rw -app_assoc.
Qed.

Lemma tidy_opening r msg k : tidy k → tidy (opening fails r msg k).
Proof.
  intros Hk tr. unfold opening, must. destruct (fails tr (POpen r)); [apply tidy_fatal|].
  apply (tidy_bracket r k Hk tr).
Qed.

Lemma tidy_context what k : tidy k → tidy (with_context what k).
Proof. apply tidy_bracket. Qed.

Lemma tidy_ServeGRPC addr k : tidy k → tidy (ServeGRPC fails addr k).
Proof.
  intros Hk. apply tidy_must; [done|]. intros tr.
  set (inner := act (POpen Signals) _). assert (tidy inner) as Hin.
  { apply tidy_bracket, tidy_act; [done|]. apply tidy_must; [done|apply tidy_fin]. }
  destruct (Hin tr) as (evs & Htr & Hcase). destruct (inner tr) as [tr' ok]. cbn [fst snd] in *. subst tr'.
  destruct ok; [|by exists evs]. destruct (Hk (tr ++ evs)) as (evs' & Htr' & Hcase'). exists (evs ++ evs').
  split; [by rw Htr' -app_assoc|]. destruct (k (tr ++ evs)).2.
  - intros stk. rw holding_app Hcase. simpl. apply Hcase'.
  - intros stk. destruct (Hcase' stk) as (more & pre & msg & Hh & ->). exists more, (evs ++ pre), msg.
    split; [|by rw -app_assoc]. rw holding_app Hcase. exact Hh.
Qed.
End tidy_scripts.

#[export] Hint Resolve tidy_fin tidy_fatal tidy_act tidy_must tidy_opening tidy_context tidy_ServeGRPC : ironwork.

(** Take a script apart, step by step. *)
Ltac solve_tidy :=
  repeat first
    [ apply tidy_fin | apply tidy_fatal | apply tidy_opening | apply tidy_context | apply tidy_ServeGRPC
    | apply tidy_must_ok; intros ? | apply tidy_must; [done|] | apply tidy_act; [done|] | apply tidy_bracket ].

Lemma tidy_MustLoad lookup_env to_int ParseLevel component k :
  (∀ cfg, tidy (k cfg)) → tidy (MustLoad lookup_env to_int ParseLevel component k).
Proof. intros Hk. unfold MustLoad. destruct (Load lookup_env to_int component); apply tidy_act; auto using tidy_fatal. Qed.

Lemma tidy_wait ping start clock fuel n k k' :
  tidy k → wait_db ping start clock fuel n k = Some k' → tidy k'.
Proof.
  intros Hk. revert n k'. induction fuel as [|f IH]; intros n k'; [done|]. cbn [wait_db].
  destruct (ping n); [|intros [= <-]; by solve_tidy].
  case_match; [intros [= <-]; by solve_tidy|].
  intros (k1 & Hw & ->)%fmap_Some. apply tidy_act; [done|]. by eapply IH.
Qed.

(** What a process opens it closes. Whatever fails, each of the seven programs
    either returns from main having released everything it opened, last opened
    first, or stops with the complaint of the step that failed, in which case
    nothing that was open at that point is released. *)
Lemma mains_release {Cert Pool : Type} (LoadX509KeyPair : string → string → result err Cert)
    (ReadFile : string → result err string) (AppendCertsFromPEM : string → option Pool)
    (lookup_env : string → option string) (to_int : string → Z) (ParseLevel : string → option level)
    (fails : list pevent → pevent → option err) (ping : nat → option err) (start : Z) (clock : nat → Z) :
  Forall (λ main : proc,
      let '(tr, returned) := main [] in
      if returned then holding [] tr = Some []
      else ∃ held pre msg, holding [] tr = Some held ∧ tr = pre ++ [PFatal msg])
    [scheduler_main LoadX509KeyPair ReadFile AppendCertsFromPEM lookup_env to_int ParseLevel fails;
     worker_main LoadX509KeyPair ReadFile AppendCertsFromPEM lookup_env to_int ParseLevel fails;
     gateway_main LoadX509KeyPair ReadFile AppendCertsFromPEM lookup_env to_int ParseLevel fails;
     statemanager_main LoadX509KeyPair ReadFile AppendCertsFromPEM lookup_env to_int ParseLevel fails;
     observer_main LoadX509KeyPair ReadFile AppendCertsFromPEM lookup_env to_int ParseLevel fails;
     migrate_main lookup_env to_int ParseLevel fails ping start clock;
     RunStub LoadX509KeyPair ReadFile AppendCertsFromPEM lookup_env to_int ParseLevel fails "worker"].
Proof.
  apply (Forall_impl tidy).
  - repeat (apply Forall_cons; split); [..|apply Forall_nil_2];
      apply tidy_MustLoad; intros cfg; solve_tidy.
    destruct (wait_db _ _ _ _ _ _) as [k'|] eqn:Hw; [|apply tidy_fatal]. eapply tidy_wait; [|exact Hw]. solve_tidy.
  - intros main Hm. destruct (Hm []) as (evs & Htr & Hcase). destruct (main []) as [tr ok]. cbn [fst snd app] in *. subst tr.
    destruct ok; [apply Hcase|]. destruct (Hcase []) as (more & pre & msg & Hh & ->). rw app_nil_r in Hh. eauto.
Qed.

(** The order of a graceful stop. When a worker returns from main, its last steps
    were: the server stopped, the running jobs were given thirty seconds to finish
    while the database pool, the reporter and the heartbeats were still up, and only
    then the heartbeats, the connections and last the pool were released. When a
    scheduler returns, it left the consensus group after its server had stopped and
    before its loops were cancelled and its connections closed. *)
Lemma shutdown_order {Cert Pool : Type} (LoadX509KeyPair : string → string → result err Cert)
    (ReadFile : string → result err string) (AppendCertsFromPEM : string → option Pool)
    (lookup_env : string → option string) (to_int : string → Z) (ParseLevel : string → option level)
    (fails : list pevent → pevent → option err) :
  (∀ tr, worker_main LoadX509KeyPair ReadFile AppendCertsFromPEM lookup_env to_int ParseLevel fails [] = (tr, true) →
     ∃ pre addr, tr = pre ++ [PServe addr; PRelease Signals; PDrain drainTimeout; PRelease (Context_ "heartbeat");
       PRelease HeartbeatClients; PRelease ReportClient; PRelease DBPool]) ∧
  (∀ tr, scheduler_main LoadX509KeyPair ReadFile AppendCertsFromPEM lookup_env to_int ParseLevel fails [] = (tr, true) →
     ∃ pre addr, tr = pre ++ [PServe addr; PRelease Signals; PRaftShutdown; PRelease (Context_ "services");
       PRelease DispatchClients; PRelease DBPool]).
Proof.
  unfold worker_main, scheduler_main, MustLoad. split; intros tr.
  - destruct (Load lookup_env to_int "worker") as [cfg|]; [|done]. unfold must_ok, act.
    destruct (tls_server _ _ _ _); [|done]. destruct (tls_client _ _ _ _); [|done].
    unfold opening, with_context, ServeGRPC, must, deferred, act, fin, fatal.
    repeat (match goal with |- context [fails ?t ?e] => destruct (fails t e); [by cbn|] end).
    cbn. intros [= <-]. eexists ([_; _; _; _; _; _; _; _; _; _; _]), _. reflexivity.
  - destruct (Load lookup_env to_int "scheduler") as [cfg|]; [|done]. unfold must_ok, act.
    destruct (tls_server _ _ _ _); [|done]. destruct (tls_client _ _ _ _); [|done].
    unfold opening, with_context, ServeGRPC, must, deferred, act, fin, fatal.
    repeat (match goal with |- context [fails ?t ?e] => destruct (fails t e); [by cbn|] end).
    cbn. intros [= <-]. eexists ([_; _; _; _; _; _; _; _; _; _; _; _; _; _]), _. reflexivity.
Qed.

(** ** Properties *)

(** How the programs end. Whatever fails, each of the seven either returns from
    main having released everything it opened, last opened first, or stops with the
    complaint of the step that failed. When a worker returns, its last steps were:
    the server stopped; the running jobs got thirty seconds to finish while
    heartbeats, reporter and database pool were still up; then these were released,
    the pool last. When a scheduler returns, it left the consensus group after its
    server had stopped and before its loops and connections were released. *)
Theorem process_exit {Cert Pool : Type} (LoadX509KeyPair : string → string → result err Cert)
    (ReadFile : string → result err string) (AppendCertsFromPEM : string → option Pool)
    (lookup_env : string → option string) (to_int : string → Z) (ParseLevel : string → option level)
    (fails : list pevent → pevent → option err) (ping : nat → option err) (start : Z) (clock : nat → Z) :
  let run (main : (string → string → result err Cert) → (string → result err string) → (string → option Pool) →
      (string → option string) → (string → Z) → (string → option level) → (list pevent → pevent → option err) → proc) :=
    main LoadX509KeyPair ReadFile AppendCertsFromPEM lookup_env to_int ParseLevel fails [] in
  Forall (λ tr_returned : list pevent * bool,
      let '(tr, returned) := tr_returned in
      if returned then holding [] tr = Some []
      else ∃ held pre msg, holding [] tr = Some held ∧ tr = pre ++ [PFatal msg])
    [run scheduler_main; run worker_main; run gateway_main; run statemanager_main; run observer_main;
     migrate_main lookup_env to_int ParseLevel fails ping start clock [];
     RunStub LoadX509KeyPair ReadFile AppendCertsFromPEM lookup_env to_int ParseLevel fails "worker" []] ∧
  (∀ tr, run worker_main = (tr, true) →
     ∃ pre addr, tr = pre ++ [PServe addr; PRelease Signals; PDrain drainTimeout; PRelease (Context_ "heartbeat");
       PRelease HeartbeatClients; PRelease ReportClient; PRelease DBPool]) ∧
  (∀ tr, run scheduler_main = (tr, true) →
     ∃ pre addr, tr = pre ++ [PServe addr; PRelease Signals; PRaftShutdown; PRelease (Context_ "services");
       PRelease DispatchClients; PRelease DBPool]).
Proof.
  split; [|apply shutdown_order].
  pose proof (mains_release LoadX509KeyPair ReadFile AppendCertsFromPEM lookup_env to_int ParseLevel fails ping start clock) as H.
  rw !Forall_cons in H. rw !Forall_cons. destruct H as (H1 & H2 & H3 & H4 & H5 & H6 & H7 & _).
  by split_and!.
Qed.

(** A cluster where everything starts. *)
Definition demo_paths (key : string) : option string :=
  if String.eqb key "workers" then Some "worker-1=worker-1:9443" else None.

Lemma process_exit_witness :
  ∃ pre addr, (worker_main (λ _ _, Ok tt) (λ _, Ok "pem") (λ _, Some tt) demo_paths (λ _, 4) (λ _, None) (λ _ _, None) []).1 =
    pre ++ [PServe addr; PRelease Signals; PDrain drainTimeout; PRelease (Context_ "heartbeat");
      PRelease HeartbeatClients; PRelease ReportClient; PRelease DBPool].
Proof.
  apply (proj1 (proj2 (process_exit (λ _ _, Ok tt) (λ _, Ok "pem") (λ _, Some tt) demo_paths (λ _, 4) (λ _, None)
    (λ _ _, None) (λ _, None) 0 (λ _, 0)))).
  by vm_compute.
Defined.

(** Stopping the gRPC services. In every execution, once [ServeGRPC] has returned
    to main no call is being handled any more and none is accepted: what main does
    next (draining, leaving the consensus group, closing the database) cannot cut
    a handler short. *)
Lemma grpc_stop_waits (s s' : serving) :
  rtc (sv_step GRPC) sv_init s → sv_returned s = true →
  sv_inflight s = 0%nat ∧ (rtc (sv_step GRPC) s s' → sv_inflight s' = 0%nat).
Proof.
  intros Hr.
  assert (∀ s s', rtc (sv_step GRPC) s s' →
    (sv_returned s = true → sv_stopped s = true) ∧ (sv_stopped s = true → sv_stopping s = true ∧ sv_inflight s = 0%nat) →
    (sv_returned s' = true → sv_stopped s' = true) ∧ (sv_stopped s' = true → sv_stopping s' = true ∧ sv_inflight s' = 0%nat)) as Hinv.
  { induction 1 as [|x y z Hxy _ IH]; [done|]. intros [H1 H2]. apply IH. clear IH.
    destruct Hxy; simpl in *; split; intros H'; intuition congruence. }
  pose proof (Hinv _ _ Hr ltac:(done)) as Hs. intros Hret. destruct Hs as [H1 H2]. split; [by apply H2, H1|].
  intros Hs'. destruct (Hinv _ _ Hs' (conj H1 H2)) as [_ H2']. apply H2'.
  assert (∀ s s', rtc (sv_step GRPC) s s' → sv_stopped s = true → sv_stopped s' = true) as Hmono.
  { induction 1 as [|x y z Hxy _ IH]; [done|]. intros H. apply IH. by destruct Hxy. }
  by apply (Hmono _ _ Hs'), H1.
Qed.

(** Stopping the gateway. Its HTTP server does not wait: for every number of
    requests there is an execution in which main has its server back, and so exits,
    while that many requests are still being handled and [Shutdown], with its ten
    seconds of grace, has not returned. *)
Lemma gateway_stop_cuts_requests (n : nat) :
  ∃ s, rtc (sv_step HTTP) sv_init s ∧ sv_returned s = true ∧ sv_stopped s = false ∧ sv_inflight s = n.
Proof.
  exists (mkServing true true false true n). split; [|done].
  assert (∀ m, rtc (sv_step HTTP) sv_init (mkServing false false false false m)) as Hreq.
  { induction m as [|m IH]; [constructor|]. eapply rtc_r; [exact IH|]. by apply (SvRequest HTTP (mkServing false false false false m)). }
  etrans; [apply (Hreq n)|]. eapply rtc_l; [apply SvSignal|]. simpl. eapply rtc_l; [by apply SvStop|]. simpl.
  eapply rtc_l; [by apply SvReturn|]. constructor.
Qed.

(** Stopping the servers. Once [ServeGRPC] has returned to main no call is being
    handled any more and none is accepted, so draining, leaving the consensus group
    and closing the database cannot cut a handler short. The gateway does not wait
    like that: for every number of requests there is an execution in which main has
    its server back, and so exits, while that many are still being handled and
    [Shutdown], with its ten seconds of grace, has not returned. *)
Theorem server_stop (n : nat) :
  (∀ s s', rtc (sv_step GRPC) sv_init s → sv_returned s = true → rtc (sv_step GRPC) s s' → sv_inflight s' = 0%nat) ∧
  (∃ s, rtc (sv_step HTTP) sv_init s ∧ sv_returned s = true ∧ sv_stopped s = false ∧ sv_inflight s = n).
Proof.
  split; [|apply gateway_stop_cuts_requests]. intros s s' Hr Hret Hs. by apply (grpc_stop_waits s s' Hr Hret).
Qed.

(** Waiting for the database. With two seconds between pings the loop of
    cmd/migrate ends after at most 32 of them: the migrations run exactly when some
    ping succeeds before the minute is over, and otherwise the program gives up; it
    never runs out of the pings the model allows for. *)
Theorem migrate_waits (ping : nat → option err) (start : Z) (clock : nat → Z) (k : proc) :
  start ≤ clock 0%nat → (∀ n, clock n + pingPause ≤ clock (S n)) →
  ∃ n, (n < max_pings)%nat ∧
    (∀ j, (j < n)%nat → ping j ≠ None ∧ clock j ≤ start + dbWaitTimeout) ∧
    (ping n = None ∧ wait_db ping start clock max_pings 0 k = Some (foldr (λ i, act (PPing i)) k (seq 0 (S n))) ∨
     ping n ≠ None ∧ start + dbWaitTimeout < clock n ∧
     wait_db ping start clock max_pings 0 k =
       Some (foldr (λ i, act (PPing i)) (fatal "postgres unreachable") (seq 0 (S n)))).
Proof.
  intros H0 Hstep.
  assert (∀ n, start + Z.of_nat n * pingPause ≤ clock n) as Hclock.
  { intros n. induction n as [|n IH]; [lia|]. specialize (Hstep n). lia. }
  assert (∀ fuel n, (n + fuel = max_pings)%nat → (0 < fuel)%nat →
    ∃ m, (n ≤ m < max_pings)%nat ∧
    (∀ j, (n ≤ j < m)%nat → ping j ≠ None ∧ clock j ≤ start + dbWaitTimeout) ∧
    (ping m = None ∧ wait_db ping start clock fuel n k = Some (foldr (λ i, act (PPing i)) k (seq n (S (m - n)))) ∨
     ping m ≠ None ∧ start + dbWaitTimeout < clock m ∧
     wait_db ping start clock fuel n k =
       Some (foldr (λ i, act (PPing i)) (fatal "postgres unreachable") (seq n (S (m - n)))))) as Hgen.
  { induction fuel as [|fuel IH]; intros n Hn Hf; [lia|]. cbn [wait_db]. destruct (ping n) as [e|] eqn:Hp.
    - destruct (Z.ltb_spec (start + dbWaitTimeout) (clock n)) as [Hlt|Hge].
      + exists n. split; [lia|]. split; [lia|]. right. rw Nat.sub_diag Hp. done.
      + assert (0 < fuel)%nat as Hf'.
        { specialize (Hclock n). unfold max_pings, dbWaitTimeout, pingPause, Second, Millisecond in *. lia. }
        destruct (IH (S n) ltac:(lia) Hf') as (m & Hm & Hbefore & Hcase). exists m. split; [lia|]. split.
        * intros j Hj. destruct (decide (j = n)) as [->|]; [by rw Hp|]. apply Hbefore. lia.
        * replace (S (m - n)) with (S (S (m - S n))) by lia. cbn [seq foldr].
          destruct Hcase as [[Hm1 ->]|(Hm1 & Hm2 & ->)]; [left|right]; done.
    - exists n. split; [lia|]. split; [lia|]. left. by rw Nat.sub_diag Hp. }
  destruct (Hgen max_pings 0%nat eq_refl ltac:(unfold max_pings; lia)) as (m & Hm & Hbefore & Hcase).
  exists m. split; [lia|]. split; [intros j Hj; apply Hbefore; lia|]. by rw Nat.sub_0_r in Hcase.
Qed.

Lemma migrate_waits_witness :
  ∃ n, (n < max_pings)%nat ∧ wait_db (λ n, if Nat.eqb n 3 then None else Some (EText "refused")) 0 (λ n, Z.of_nat n * pingPause)
    max_pings 0 fin = Some (foldr (λ i, act (PPing i)) fin (seq 0 (S n))).
Proof.
  destruct (migrate_waits (λ n, if Nat.eqb n 3 then None else Some (EText "refused")) 0 (λ n, Z.of_nat n * pingPause) fin)
    as (n & Hn & _ & [[_ H]|(Hp & Hc & H)]); [simpl; lia|intros n; lia|by exists n|].
  exists 3%nat. split; [unfold max_pings; lia|]. done.
Defined.

(** Heartbeats and thresholds fit together. A worker the scheduler heard from within
    the last two heartbeat intervals, so also when one beat was lost, is offered jobs
    whenever it has room; one not heard from for more than four intervals is reclaimed
    and shown as not alive; none is both. *)
Theorem heartbeat_thresholds (rg rg' : Ranger WorkerState) (seen now cap infl : Z) (name : string) :
  0 ≤ now - seen ≤ max_i64 →
  let reg := Record_ seen name cap infl scheduler_registry in
  (now - seen ≤ 2 * Heartbeat.Interval → name ∈ Available rg now reg ↔ infl < cap) ∧
  (now - seen ≤ 4 * Heartbeat.Interval ↔ name ∉ Dead rg' now reg) ∧
  ¬ (name ∈ Available rg now reg ∧ name ∈ Dead rg' now reg).
Proof.
  intros Hage reg. assert (reg_ok reg) as Hok by (apply Record_ok, New_ok).
  assert (workers reg !! name = Some (mkWorkerState name cap infl seen false)) as Hw by apply lookup_insert_eq.
  assert (time_sub now seen = now - seen) as Hsub by (apply time_sub_exact; unfold min_i64; lia).
  assert (name ∈ Available rg now reg ↔ now - seen ≤ workerStaleTTL ∧ infl < cap) as Ha.
  { rw elem_of_Available // Hw. unfold is_candidate. cbn [LastSeen Inflight Registry.Capacity staleTTL reg Record_ scheduler_registry Registry.New]. split.
    - intros (w & [= <-] & H). simpl in H. rw Hsub in H. lia.
    - intros [H1 H2]. eexists. split; [done|]. simpl. rw Hsub. lia. }
  assert (name ∈ Dead rg' now reg ↔ workerDeadTTL < now - seen) as Hd.
  { rw elem_of_Dead // Hw. unfold is_dead. split.
    - intros (w & [= <-] & H). simpl in H. rw Hsub in H. lia.
    - intros H1. eexists. split; [done|]. simpl. rw Hsub. lia. }
  rw Ha Hd. unfold workerStaleTTL, workerDeadTTL, Heartbeat.Interval, Second, Millisecond. split; [|split]; lia.
Qed.

Lemma heartbeat_thresholds_witness :
  "w1" ∈ Available (ranger_asc _) (4 * Second) (Record_ 0 "w1" 2 1 scheduler_registry).
Proof.
  apply (heartbeat_thresholds (ranger_asc _) (ranger_asc _) 0 (4 * Second) 2 1 "w1"); [split; by vm_compute|by vm_compute|lia].
Defined.
