(* ===== verification/RelaySteps.v ===== *)
(** * The relay's goroutine, one call at a time

    [drain] and [handle] of internal/outbox with [Dispatch] of internal/dispatch
    inside, as a goroutine that makes one call and then may have to wait: [relay_pc]
    is the point it is at, [relay_act] its next action. Run alone it is [drain]. The
    reaper's sweep is cut the same way. *)

From S2P Require Import Prelude GoRuntime Proto Store Registry Dispatch Relay Reaper System.
Local Open Scope Z_scope.

(** The point the goroutine of [Run] is at: what it holds of the batch, and the
    command in its hands. *)
Inductive relay_pc : Type :=
| PSelect                                                        (* in the select of Run *)
| PClaim                                                         (* about to ClaimOutbox *)
| PBatch (es : list OutboxEntry)                                 (* the rest of the batch *)
| PDispatch (e : OutboxEntry) (es : list OutboxEntry)            (* at the top of Dispatch *)
| POffer (e : OutboxEntry) (ws : list string) (lastErr : option err) (es : list OutboxEntry)
| PRecord (e : OutboxEntry) (msg : string) (es : list OutboxEntry)   (* about to RecordOutboxFailure *)
| PClose (e : OutboxEntry) (es : list OutboxEntry)               (* not pending any more: MarkOutboxDispatched *)
| PMark (e : OutboxEntry) (worker : string) (es : list OutboxEntry)  (* accepted: MarkOutboxDispatched *)
| PPlace (e : OutboxEntry) (worker : string) (es : list OutboxEntry) (* about to ApplyPlacement *)
| PAbandon (e : OutboxEntry) (reason : string) (es : list OutboxEntry)  (* about to MarkOutboxFailed *)
| PFail (e : OutboxEntry) (reason : string) (es : list OutboxEntry).    (* about to MarkFinished *)

(** The errors [Dispatch] returns. *)
Definition no_workers (job : Job) : err := EText ("dispatch: no available workers for job " +:+ ID job).

Definition not_accepted (job : Job) (lastErr : option err) : err :=
  let head := "dispatch: no worker accepted job " +:+ ID job +:+ ": " in
  match lastErr with Some e => EWrap head e | None => EText (head +:+ "%!w(<nil>)") end.

Section relay.
Context {W : Type} (store : RelayStore W).
Context (candidates : option (W → list string)).
Context (ExecuteJob : string → ExecuteJobRequest → stM W (result err ExecuteJobResponse)).
Context (disp : Dispatcher).
Context (ApplyPlacement : string → string → stM W (result err unit)).
Local Open Scope go_scope.

(** The next action. *)
Definition relay_act (pc : relay_pc) : stM W relay_pc :=
  match pc with
  | PSelect => st_ret PSelect
  | PClaim =>
      let! r := rs_ClaimOutbox store drainBatch in
      st_ret (match r with Ok es => PBatch es | Err _ => PSelect end)
  | PBatch [] => st_ret PSelect
  | PBatch (e :: es) =>
      st_ret (if negb (String.eqb (Status (e_Job e)) StatusPending) then PClose e es
              else if maxExecutionAttempts <=? Attempts (e_Job e) then PAbandon e (execution_reason e) es
              else if maxDispatchAttempts <=? e_Attempts e then PAbandon e (dispatch_reason e) es
              else PDispatch e es)
  | PDispatch e es => λ w,
      let ws := (eligible candidates disp w).1 in
      (if Nat.eqb (length ws) 0 then PRecord e (err_string (no_workers (e_Job e))) es else POffer e ws None es, w)
  | POffer e [] lastErr es => st_ret (PRecord e (err_string (not_accepted (e_Job e) lastErr)) es)
  | POffer e (name :: ws) lastErr es =>
      let! r := ExecuteJob name (mkExecuteJobRequest (ID (e_Job e)) (Name (e_Job e)) (Payload (e_Job e))) in
      st_ret (match r with Ok resp => PMark e (ejr_WorkerInstance resp) es | Err er => POffer e ws (Some er) es end)
  | PRecord e msg es => rs_RecordOutboxFailure store (e_ID e) msg ;;; st_ret (PBatch es)
  | PClose e es => rs_MarkOutboxDispatched store (e_ID e) ;;; st_ret (PBatch es)
  | PMark e worker es => rs_MarkOutboxDispatched store (e_ID e) ;;; st_ret (PPlace e worker es)
  | PPlace e worker es => ApplyPlacement (ID (e_Job e)) worker ;;; st_ret (PBatch es)
  | PAbandon e reason es => rs_MarkOutboxFailed store (e_ID e) reason ;;; st_ret (PFail e reason es)
  | PFail e reason es => rs_MarkFinished store (ID (e_Job e)) false reason ;;; st_ret (PBatch es)
  end.

Fixpoint relay_acts (k : nat) (pc : relay_pc) : stM W relay_pc :=
  match k with
  | O => st_ret pc
  | S k' => let! pc' := relay_act pc in relay_acts k' pc'
  end.

(** Some actions lead from one point and world to another. *)
Definition leads_to (pc : relay_pc) (w : W) (pc' : relay_pc) (w' : W) : Prop := ∃ k, relay_acts k pc w = (pc', w').

Lemma leads_refl pc w : leads_to pc w pc w.
Proof. by exists 0%nat. Qed.

Lemma leads_step pc w pc1 w1 pc' w' : relay_act pc w = (pc1, w1) → leads_to pc1 w1 pc' w' → leads_to pc w pc' w'.
Proof. intros H1 [k H2]. exists (S k). cbn [relay_acts]. unfold st_bind. by rw H1. Qed.

Lemma leads_trans pc w pc1 w1 pc2 w2 : leads_to pc w pc1 w1 → leads_to pc1 w1 pc2 w2 → leads_to pc w pc2 w2.
Proof.
  intros [k Hk]. revert pc w Hk. induction k as [|k IH]; intros pc w Hk H2; cbn [relay_acts] in Hk.
  { unfold st_ret in Hk. by simplify_eq. }
  unfold st_bind in Hk. destruct (relay_act pc w) as [pc3 w3] eqn:Ha. eapply leads_step; [exact Ha|]. by apply IH.
Qed.

Lemma offer_leads e es lastErr ws w :
  leads_to (POffer e ws lastErr es) w
    (match (offer ExecuteJob (e_Job e) lastErr ws w).1 with Ok inst => PMark e inst es | Err er => PRecord e (err_string er) es end)
    (offer ExecuteJob (e_Job e) lastErr ws w).2.
Proof.
  revert lastErr w. induction ws as [|name ws IH]; intros lastErr w.
  { eapply leads_step; [done|]. apply leads_refl. }
  cbn [offer]. unfold st_bind. destruct (ExecuteJob name _ w) as [[resp|er] w1] eqn:Hx.
  - eapply leads_step; [cbn [relay_act]; unfold st_bind; rw Hx; done|]. apply leads_refl.
  - eapply leads_step; [cbn [relay_act]; unfold st_bind; rw Hx; done|]. apply IH.
Qed.

(** One call, then the rest of the batch. *)
Lemma call_leads pc {A} (m : stM W A) pc' w :
  (∀ w, relay_act pc w = st_bind m (λ _, st_ret pc') w) → leads_to pc w pc' (m w).2.
Proof. intros H. eapply leads_step; [|apply leads_refl]. rw H. unfold st_bind. by destruct (m w). Qed.

Lemma abandon_leads e reason es w : leads_to (PAbandon e reason es) w (PBatch es) (abandon store e reason w).2.
Proof.
  unfold abandon, st_bind. pose proof (call_leads (PAbandon e reason es) (rs_MarkOutboxFailed store (e_ID e) reason) (PFail e reason es) w (λ _, eq_refl)) as H1.
  destruct (rs_MarkOutboxFailed store (e_ID e) reason w) as [r1 w1]. eapply leads_trans; [exact H1|].
  pose proof (call_leads (PFail e reason es) (rs_MarkFinished store (ID (e_Job e)) false reason) (PBatch es) w1 (λ _, eq_refl)) as H2.
  by destruct (rs_MarkFinished store _ false reason w1).
Qed.

Lemma handle_leads e es w :
  leads_to (PBatch (e :: es)) w (PBatch es) (handle store (code_dispatch candidates ExecuteJob disp) ApplyPlacement e w).2.
Proof.
  eapply leads_step; [done|]. unfold handle. destruct (negb _).
  { unfold st_bind. pose proof (call_leads (PClose e es) (rs_MarkOutboxDispatched store (e_ID e)) (PBatch es) w (λ _, eq_refl)) as H.
    by destruct (rs_MarkOutboxDispatched store (e_ID e) w). }
  destruct (_ <=? _)%Z; [apply abandon_leads|]. destruct (_ <=? _)%Z; [apply abandon_leads|].
  assert (∀ r w1, leads_to (match r with Ok inst => PMark e inst es | Err er => PRecord e (err_string er) es end) w1 (PBatch es)
    (match r with
     | Err er => rs_RecordOutboxFailure store (e_ID e) (err_string er) ;;; st_ret tt
     | Ok worker => rs_MarkOutboxDispatched store (e_ID e) ;;; ApplyPlacement (ID (e_Job e)) worker ;;; st_ret tt
     end w1).2) as Hend.
  { intros [inst|er] w1; unfold st_bind.
    - pose proof (call_leads (PMark e inst es) (rs_MarkOutboxDispatched store (e_ID e)) (PPlace e inst es) w1 (λ _, eq_refl)) as H1.
      destruct (rs_MarkOutboxDispatched store (e_ID e) w1) as [r1 w2]. eapply leads_trans; [exact H1|].
      pose proof (call_leads (PPlace e inst es) (ApplyPlacement (ID (e_Job e)) inst) (PBatch es) w2 (λ _, eq_refl)) as H2.
      by destruct (ApplyPlacement _ inst w2).
    - pose proof (call_leads (PRecord e (err_string er) es) (rs_RecordOutboxFailure store (e_ID e) (err_string er)) (PBatch es) w1 (λ _, eq_refl)) as H1.
      by destruct (rs_RecordOutboxFailure store (e_ID e) (err_string er) w1). }
  eapply leads_step; [done|]. unfold st_bind at 1. unfold code_dispatch, Dispatch.Dispatch.
  destruct (eligible candidates disp w) as [ws d']. cbn [fst]. destruct (Nat.eqb (length ws) 0); [exact (Hend (Err (no_workers (e_Job e))) w)|].
  pose proof (offer_leads e es None ws w) as Ho. destruct (offer ExecuteJob (e_Job e) None ws w) as [r w1]. cbn [fst snd] in Ho.
  eapply leads_trans; [exact Ho|]. apply Hend.
Qed.

Lemma batch_leads es w :
  leads_to (PBatch es) w PSelect (st_iter (handle store (code_dispatch candidates ExecuteJob disp) ApplyPlacement) es w).2.
Proof.
  revert w. induction es as [|e es IH]; intros w; [by eapply leads_step, leads_refl|].
  pose proof (handle_leads e es w) as H. cbn [st_iter]. unfold st_bind. destruct (handle _ _ _ e w) as [[] w1].
  eapply leads_trans; [exact H|]. apply IH.
Qed.
End relay.

(** ** The reaper's sweep *)

(** The point the goroutine of the reaper is at. *)
Inductive reaper_pc : Type :=
| QSelect
| QSweep (ws : list string) (requeued : bool)        (* the dead workers left *)
| QForget (w : string) (ws : list string) (requeued : bool).   (* reclaimed, about to Forget *)

Section reaper.
Context {W : Type} (ReclaimJobs : string → stM W (result err (list Job))).

Definition reaper_act (pc : reaper_pc) : stM (shared W) reaper_pc := λ sh,
  match pc with
  | QSelect => (QSelect, sh)
  | QSweep [] requeued =>
      (QSelect, if requeued then mkShared (s_store sh) (s_reg sh) (Wake (s_wake sh)) else sh)
  | QSweep (w :: ws) requeued =>
      let '(r, st) := ReclaimJobs w (s_store sh) in
      (match r with
       | Err _ => QSweep ws requeued
       | Ok jobs => QForget w ws (if Nat.eqb (length jobs) 0 then requeued else true)
       end, mkShared st (s_reg sh) (s_wake sh))
  | QForget w ws requeued => (QSweep ws requeued, mkShared (s_store sh) (Forget w (s_reg sh)) (s_wake sh))
  end.

Fixpoint reaper_acts (k : nat) (pc : reaper_pc) : stM (shared W) reaper_pc :=
  match k with
  | O => st_ret pc
  | S k' => st_bind (reaper_act pc) (reaper_acts k')
  end.
Lemma sweep_leads ws b sh :
  ∃ k, reaper_acts k (QSweep ws b) sh =
    (QSelect, let '(b', sh') := sweep_loop ReclaimJobs b ws sh in
              if b' then mkShared (s_store sh') (s_reg sh') (Wake (s_wake sh')) else sh').
Proof.
  revert b sh. induction ws as [|w ws IH]; intros b sh; [by exists 1%nat|]. cbn [sweep_loop]. unfold st_bind, sweep_worker.
  destruct (ReclaimJobs w (s_store sh)) as [[js|e] st] eqn:Hr.
  - set (b1 := if Nat.eqb (length js) 0 then b else true).
    destruct (IH b1 (mkShared st (Forget w (s_reg sh)) (s_wake sh))) as [k Hk]. exists (S (S k)).
    cbn [reaper_acts]. unfold st_bind. cbn [reaper_act]. rw Hr. cbn [reaper_act]. fold b1. cbn [s_store s_reg s_wake]. rw Hk.
    unfold b1. by destruct (Nat.eqb (length js) 0).
  - destruct (IH b (mkShared st (s_reg sh) (s_wake sh))) as [k Hk]. exists (S k).
    cbn [reaper_acts]. unfold st_bind. cbn [reaper_act]. rw Hr. exact Hk.
Qed.
End reaper.

(** ** Properties *)

