(* ===== verification/Cluster.v ===== *)
(** * The running cluster

    The schedulers, the workers and what they share, composed from the components'
    code as the programs under cmd compose it: every scheduler has its registry,
    its dispatcher and its relay's wake channel; every worker its server and
    goroutines; all share the database, the consensus group and the statistics.
    An event is one request, one turn of a loop or one action of a goroutine, and
    [step] is what the code does on it. Who leads, the clock and the network are
    part of the events or oracles, so several schedulers may believe to lead,
    offers and answers may be lost and every statement may fail. *)

From S2P Require Import Prelude GoRuntime Json Proto Store Registry Dispatch WorkerSvc Relay Reaper System RaftNode SchedulerSvc Lifecycle.
Local Open Scope Z_scope.

(** ** State *)

(** A worker process. *)
Record wproc : Type := mkWproc { wp_srv : WorkerSvc.Server; wp_threads : list thread }.

(** What the processes share: the database, the statistics ([M]), the consensus
    group ([G]), the workers by the names schedulers know them under, and the
    number of calls made to workers. *)
Record fabric (M G : Type) : Type := mkFabric {
  fb_world : world;
  fb_stats : M;
  fb_group : G;
  fb_workers : gmap string wproc;
  fb_calls : nat;
}.
Arguments mkFabric {M G} _ _ _ _ _.
Arguments fb_world {M G} _.
Arguments fb_stats {M G} _.
Arguments fb_group {M G} _.
Arguments fb_workers {M G} _.
Arguments fb_calls {M G} _.

(** A scheduler process. *)
Record scheduler : Type := mkScheduler { sc_reg : Registry; sc_wake : bool; sc_disp : Dispatcher }.

Record site (M G : Type) : Type := mkSite { si_fabric : fabric M G; si_scheds : gmap string scheduler }.
Arguments mkSite {M G} _ _.
Arguments si_fabric {M G} _.
Arguments si_scheds {M G} _.

(** The fate of an ExecuteJob call: it is answered, it is refused, its answer is
    lost, or the caller's deadline passes before the worker looks at it. *)
Inductive call_fate : Type := CallDelivered | CallRefused | CallLost | CallLate.

Inductive event : Type :=
| Submit (s : string) (leads : bool) (leaderID : string) (req : SubmitJobRequest)
| RelayTurn (s : string) (leads : bool) (ev : Relay.event) (now : nat → Z)
| ReaperTick (s : string) (leads : bool) (now : Z)
| Registers (s : string) (now : Z) (req : RegisterWorkerRequest)
| Beats (s : string) (now : Z) (req : HeartbeatRequest)
| Acts (wk : string) (i : nat)
| WorkerStarts (wk : string) (inst : string) (cap : Z)
| WorkerStops (wk : string)
| SchedulerStarts (s : string) (disp : Dispatcher)
| SchedulerStops (s : string).

Section cluster.
Context {UU : PgUuid} {JE : JsonEnv} {M G : Type}.
Context (E : env) (rgo : Ranger outbox_row) (rgj : Ranger job_row) (rgw : Ranger WorkerState).
Context (reporter : option (string → string → bool → stM M unit)) (lib : RaftLib G).
Context (fate : nat → call_fate).

(** ** The collaborators, on the shared state *)

Definition on_world {A} (m : stM world A) : stM (fabric M G) A := λ f,
  let '(r, w) := m (fb_world f) in (r, mkFabric w (fb_stats f) (fb_group f) (fb_workers f) (fb_calls f)).

Definition relay_store : RelayStore (fabric M G) :=
  let pg := pg_relay_store E rgo in
  {| rs_ClaimOutbox := λ n, on_world (rs_ClaimOutbox pg n);
     rs_MarkOutboxDispatched := λ id, on_world (rs_MarkOutboxDispatched pg id);
     rs_RecordOutboxFailure := λ id msg, on_world (rs_RecordOutboxFailure pg id msg);
     rs_MarkOutboxFailed := λ id msg, on_world (rs_MarkOutboxFailed pg id msg);
     rs_MarkFinished := λ id ok msg, on_world (rs_MarkFinished pg id ok msg) |}.

(** The worker's store and reporter, side by side. *)
Definition beside {A} (m : stM world A) : stM (world * M) A := λ '(w, x), let '(r, w') := m w in (r, (w', x)).

#[local] Instance worker_store : JobStore (world * M).
Proof.
  refine {| js_MarkScheduled := λ id inst, beside (MarkScheduled E id inst);
            js_MarkRunning := λ id, beside (MarkRunning E id);
            js_MarkFinished := λ id ok msg, beside (MarkFinished E id ok msg);
            js_view := λ w, store_view w.1 |}.
  - intros id inst [w x] [w' x']. unfold beside. destruct (MarkScheduled E id inst w) as [r w1] eqn:H.
    intros [= -> <- _]. by eapply (js_scheduled (JobStore := pg_job_store E)).
  - intros id [w x] [w' x']. unfold beside. destruct (MarkRunning E id w) as [r w1] eqn:H.
    intros [= -> <- _]. by eapply (js_running (JobStore := pg_job_store E)).
  - intros id ok msg [w x] [w' x']. unfold beside. destruct (MarkFinished E id ok msg w) as [r w1] eqn:H.
    intros [= -> <- _]. by eapply (js_finished (JobStore := pg_job_store E)).
Defined.

Definition worker_reporter : option (string → string → bool → stM (world * M) unit) :=
  (λ f id inst ok '(w, x), let '(r, x') := f id inst ok x in (r, (w, x'))) <$> reporter.

(** Worker [p], known as [name], runs ExecuteJob; its answer may get lost. *)
Definition run_call (name : string) (p : wproc) (lost : bool) (req : ExecuteJobRequest) :
    stM (fabric M G) (result err ExecuteJobResponse) := λ f,
  let '((r, srv, started), (w, x)) := WorkerSvc.ExecuteJob (wp_srv p) req (fb_world f, fb_stats f) in
  let threads := wp_threads p ++ option_list ((λ '(id, raw), RStart id raw) <$> started) in
  (if lost then Err (EStatus DeadlineExceeded "context deadline exceeded") else r,
   mkFabric w x (fb_group f) (<[name := mkWproc srv threads]> (fb_workers f)) (S (fb_calls f))).

(** The ExecuteJob client of worker [name]. *)
Definition call_worker (name : string) (req : ExecuteJobRequest) :
    stM (fabric M G) (result err ExecuteJobResponse) := λ f,
  let called ws := mkFabric (fb_world f) (fb_stats f) (fb_group f) ws (S (fb_calls f)) in
  match fb_workers f !! name, fate (fb_calls f) with
  | None, _ | _, CallRefused => (Err (EStatus Unavailable "connection refused"), called (fb_workers f))
  | Some p, CallDelivered => run_call name p false req f
  | Some p, CallLost => run_call name p true req f
  | Some p, CallLate =>
      (Err (EStatus DeadlineExceeded "context deadline exceeded"),
       called (<[name := mkWproc (wp_srv p) (wp_threads p ++ [XEnter req])]> (fb_workers f)))
  end.

(** The candidate provider of cmd/scheduler: [reg.Available]. *)
Definition candidates (reg : Registry) (now : nat → Z) : option (fabric M G → list string) :=
  Some (λ f, Available rgw (now (fb_calls f)) reg).

(** The placement log: the node's [ApplyPlacement]. *)
Definition log_placement (now : nat → Z) (id worker : string) : stM (fabric M G) (result err unit) := λ f,
  let '(e, g) := ApplyPlacement lib (now (fb_calls f)) id worker (fb_group f) in
  (match e with None => Ok tt | Some e => Err e end,
   mkFabric (fb_world f) (fb_stats f) g (fb_workers f) (fb_calls f)).

(** ** Events *)

(** A scheduler as cmd/scheduler starts it. *)
Definition start_scheduler (disp : Dispatcher) : scheduler := mkScheduler scheduler_registry false disp.

Definition relay_turn (sc : scheduler) (leads : bool) (ev : Relay.event) (now : nat → Z) :
    stM (fabric M G) scheduler := λ f,
  let '(r, f') :=
    run_select relay_store (code_dispatch (candidates (sc_reg sc) now) call_worker (sc_disp sc))
      (λ _, leads) (log_placement now) ev (sc_wake sc) f in
  (match r with Some (_, wake) => mkScheduler (sc_reg sc) wake (sc_disp sc) | None => sc end, f').

Definition reaper_tick (sc : scheduler) (leads : bool) (now : Z) : stM (fabric M G) scheduler := λ f,
  let '(_, sh) := run_tick (ReclaimJobs E rgj) leads rgw now (mkShared (fb_world f) (sc_reg sc) (sc_wake sc)) in
  (mkScheduler (s_reg sh) (s_wake sh) (sc_disp sc),
   mkFabric (s_store sh) (fb_stats f) (fb_group f) (fb_workers f) (fb_calls f)).

Definition submit (sc : scheduler) (leads : bool) (leaderID : string) (req : SubmitJobRequest) :
    stM (fabric M G) scheduler := λ f,
  let '(_, (w, wake)) := SchedulerSvc.SubmitJob (pg_sched_store E rgj) leads leaderID req (fb_world f, sc_wake sc) in
  (mkScheduler (sc_reg sc) wake (sc_disp sc), mkFabric w (fb_stats f) (fb_group f) (fb_workers f) (fb_calls f)).

(** The next action of goroutine [i] of a worker. *)
Definition act_thread (p : wproc) (i : nat) : stM (world * M) wproc := λ s,
  match wp_threads p !! i with
  | None => (p, s)
  | Some t =>
      let '(r, s') := thread_step worker_reporter (wp_srv p) t s in
      (match r with
       | Some (srv, t', started) => mkWproc srv (<[i := t']> (wp_threads p) ++ option_list started)
       | None => p
       end, s')
  end.

(** An event at scheduler [s], which may not be running. *)
Definition at_scheduler (s : string) (m : scheduler → stM (fabric M G) scheduler) (si : site M G) : site M G :=
  match si_scheds si !! s with
  | None => si
  | Some sc => let '(sc', f) := m sc (si_fabric si) in mkSite f (<[s := sc']> (si_scheds si))
  end.

Definition at_worker (wk : string) (m : wproc → stM (world * M) wproc) (f : fabric M G) : fabric M G :=
  match fb_workers f !! wk with
  | None => f
  | Some p =>
      let '(p', (w, x)) := m p (fb_world f, fb_stats f) in
      mkFabric w x (fb_group f) (<[wk := p']> (fb_workers f)) (fb_calls f)
  end.

(** The registry part of a scheduler. *)
Definition at_registry {A} (m : stM Registry A) (sc : scheduler) : stM (fabric M G) scheduler := λ f,
  (mkScheduler (m (sc_reg sc)).2 (sc_wake sc) (sc_disp sc), f).

Definition set_workers (g : gmap string wproc → gmap string wproc) (f : fabric M G) : fabric M G :=
  mkFabric (fb_world f) (fb_stats f) (fb_group f) (g (fb_workers f)) (fb_calls f).

Definition step (ev : event) (si : site M G) : site M G :=
  match ev with
  | Submit s leads leaderID req => at_scheduler s (λ sc, submit sc leads leaderID req) si
  | RelayTurn s leads ev now => at_scheduler s (λ sc, relay_turn sc leads ev now) si
  | ReaperTick s leads now => at_scheduler s (λ sc, reaper_tick sc leads now) si
  | Registers s now req => at_scheduler s (at_registry (RegisterWorker now Reporting.Heartbeat.Interval req)) si
  | Beats s now req => at_scheduler s (at_registry (SchedulerSvc.Heartbeat now req)) si
  | Acts wk i => mkSite (at_worker wk (λ p, act_thread p i) (si_fabric si)) (si_scheds si)
  | WorkerStarts wk inst cap =>
      mkSite (set_workers (<[wk := mkWproc (WorkerSvc.New inst cap) []]>) (si_fabric si)) (si_scheds si)
  | WorkerStops wk => mkSite (set_workers (delete wk) (si_fabric si)) (si_scheds si)
  | SchedulerStarts s disp => mkSite (si_fabric si) (<[s := start_scheduler disp]> (si_scheds si))
  | SchedulerStops s => mkSite (si_fabric si) (delete s (si_scheds si))
  end.

Definition run_events (evs : list event) (si : site M G) : site M G := foldl (λ si ev, step ev si) si evs.

(** Nothing is running yet and the tables are empty. *)
Definition site_init (x : M) (g : G) : site M G := mkSite (mkFabric (mkWorld (mkDB ∅ ∅) 0) x g ∅ 0) ∅.
End cluster.

(** ** The cluster as a system

    The abstraction forgets the schedulers, the counters and the network: the
    tables stay, and each goroutine of a worker becomes its runner. *)

Definition runner_of {JE : JsonEnv} (inst : string) (t : thread) : option runner :=
  match t with
  | XEnter req | XLoad req | XCas req _ | XMark req => Some (RAccept (ejr_JobId req) inst)
  | XWait req | XGo req => Some (RRun (ejr_JobId req))
  | RStart id _ => Some (RRun id)
  | RExec id raw => let '(ok, msg) := finish_args (execute raw).2 in Some (System.RFinish id ok msg)
  | WorkerSvc.RFinish id ok msg => Some (System.RFinish id ok msg)
  | _ => None
  end.

Definition proc_runners {JE : JsonEnv} (p : wproc) : list runner :=
  omap (runner_of (WorkerSvc.instance (wp_srv p))) (wp_threads p).

Definition all_runners {JE : JsonEnv} (ws : gmap string wproc) : list runner :=
  map_to_list ws ≫= λ kp, proc_runners kp.2.

(** [st] stands for the cluster. *)
Definition represents {JE : JsonEnv} {M G} (f : fabric M G) (st : sys) : Prop :=
  tables st = db (fb_world f) ∧ all_runners (fb_workers f) ⊆+ runners st.

(** ** Lemmas: goroutines *)

Section runner_lemmas.
Context {JE : JsonEnv}.

Lemma all_runners_lookup ws wk p :
  ws !! wk = Some p → all_runners ws ≡ₚ proc_runners p ++ all_runners (delete wk ws).
Proof. intros H. unfold all_runners. by rw -(map_to_list_delete ws wk p H). Qed.

Lemma all_runners_insert ws wk p :
  all_runners (<[wk := p]> ws) ≡ₚ proc_runners p ++ all_runners (delete wk ws).
Proof. rw (all_runners_lookup (<[wk := p]> ws) wk p); [|apply lookup_insert_eq]. by rw delete_insert_eq. Qed.

Lemma all_runners_delete ws wk : all_runners (delete wk ws) ⊆+ all_runners ws.
Proof.
  destruct (ws !! wk) as [p|] eqn:H; [|by rw delete_id]. rw (all_runners_lookup ws wk p H).
  apply submseteq_inserts_l. done.
Qed.

(** Replacing a worker's process by one with the same goroutines and more. *)
Lemma all_runners_replace ws wk p p' rs :
  ws !! wk = Some p → proc_runners p' ⊆+ proc_runners p ++ rs →
  all_runners (<[wk := p']> ws) ⊆+ all_runners ws ++ rs.
Proof.
  intros H Hp. rw all_runners_insert (all_runners_lookup ws wk p H).
  rw -(assoc app). rw (comm app (all_runners _) rs). rw (assoc app). by apply submseteq_skips_r.
Qed.

Lemma omap_insert {A B} (g : A → option B) l i x :
  l !! i = Some x →
  ∃ rest, omap g l ≡ₚ option_list (g x) ++ rest ∧ ∀ y, omap g (<[i := y]> l) ≡ₚ option_list (g y) ++ rest.
Proof.
  intros H. pose proof (lookup_lt_Some _ _ _ H) as Hlt. exists (omap g (take i l) ++ omap g (drop (S i) l)).
  split; [|intros y; rw (insert_take_drop l i y Hlt)]; [rw -{1}(take_drop_middle l i x H)|]; rw omap_app; simpl;
    [destruct (g x)|destruct (g y)]; simpl; by rw -?Permutation_middle.
Qed.
End runner_lemmas.

(** Steps of the system whose labels satisfy [L]. *)
Definition labelled {UU : PgUuid} (L : label → Prop) (st st' : sys) : Prop := ∃ l, L l ∧ sys_step l st st'.

Section runner_steps.
Context {UU : PgUuid} (L : label → Prop).
Hypothesis L_other : L Other.

Lemma other_labelled st st' : rtc (sys_step Other) st st' → rtc (labelled L) st st'.
Proof using L_other. apply rtc_subrel. by exists Other. Qed.

(** A step of one of the runners. *)
Lemma runner_sys r rest st d' r' :
  r :: rest ⊆+ runners st → rstep (tables st) r d' r' →
  ∃ rns, labelled L st (mkSys d' (handlers st) rns) ∧ r' :: rest ⊆+ rns.
Proof using L_other.
  intros Hsub Hs. assert (r ∈ runners st) as (i & Hi)%list_elem_of_lookup.
  { eapply elem_of_submseteq; [|exact Hsub]. by left. }
  exists (<[i := r']> (runners st)). split; [exists Other; split; [done|by eapply s_runner]|].
  pose proof (lookup_lt_Some _ _ _ Hi) as Hlt. rw (insert_take_drop _ _ r' Hlt).
  rw -(take_drop_middle _ _ _ Hi) in Hsub. rw -Permutation_middle in Hsub. rw -Permutation_middle.
  apply submseteq_skip. by apply (submseteq_app_inv_l _ _ [r]).
Qed.

(** The steps of a sequence of reclaims. *)
Lemma sweep_sys E rgj b ws (sh : shared world) hs rns :
  env_ok E → (∀ wk, wk ∈ ws → L (Reclaim wk)) →
  rtc (labelled L) (mkSys (db (s_store sh)) hs rns)
    (mkSys (db (s_store (sweep_loop (ReclaimJobs E rgj) b ws sh).2)) hs rns).
Proof.
  intros HE. revert b sh. induction ws as [|wk ws IH]; intros b sh HL; [apply rtc_refl|]. cbn [sweep_loop]. unfold st_bind.
  pose proof (s_reclaim E (tick (s_store sh)) rgj wk (mkSys (db (s_store sh)) hs rns) HE) as Hone.
  unfold sweep_worker. cbn [tables handlers runners] in Hone. unfold after in Hone.
  replace (mkWorld (db (s_store sh)) (tick (s_store sh))) with (s_store sh) in Hone by (by destruct (s_store sh)).
  destruct (ReclaimJobs E rgj wk (s_store sh)) as [r w]. cbn [snd] in Hone.
  eapply rtc_l; [exists (Reclaim wk); split; [apply HL; by left|exact Hone]|].
  destruct r as [js|e]; [destruct (Nat.eqb (length js) 0)|]; (apply (IH _ (mkShared w _ _)); intros wk' Hwk'; apply HL; by right).
Qed.
End runner_steps.

(** ** Lemmas: every event is a run of the system *)

Section refinement.
Context {UU : PgUuid} {JE : JsonEnv} {M G : Type}.
Context (E : env) (rgo : Ranger outbox_row) (rgj : Ranger job_row) (rgw : Ranger WorkerState).
Context (reporter : option (string → string → bool → stM M unit)) (lib : RaftLib G).
Context (fate : nat → call_fate).
Hypothesis E_ok : env_ok E.
Context (L : label → Prop).
Hypothesis L_other : L Other.

Abbreviation goroutines := (λ f : fabric M G, all_runners (fb_workers f)).

Lemma on_world_acts {A} (m : stM world A) : acts_as fb_world goroutines (on_world m) m.
Proof. intros f. unfold on_world. by destruct (m (fb_world f)). Qed.

Lemma relay_store_backed : pg_backed fb_world goroutines (relay_store E rgo) E rgo.
Proof. split; intros; apply on_world_acts. Qed.

Lemma run_call_calls name p lost req f r f' :
  fb_workers f !! name = Some p → run_call (G := G) E name p lost req f = (r, f') →
  (is_ok r = false ∧ db (fb_world f') = db (fb_world f) ∧ goroutines f' ⊆+ goroutines f) ∨
  ∃ E n wk r' w1, MarkScheduled E (ejr_JobId req) wk (mkWorld (db (fb_world f)) n) = (r', w1) ∧
    db (fb_world f') = db w1 ∧ (is_ok r = true → is_ok r' = true) ∧
    goroutines f' ⊆+ goroutines f ++ (if is_ok r' then [RRun (ejr_JobId req)] else []).
Proof.
  intros Hp. unfold run_call, WorkerSvc.ExecuteJob.
  assert (∀ srv ts rs g w x n, WorkerSvc.instance srv = WorkerSvc.instance (wp_srv p) →
    omap (runner_of (WorkerSvc.instance (wp_srv p))) ts = rs →
    goroutines (mkFabric w x g (<[name := mkWproc srv (wp_threads p ++ ts)]> (fb_workers f)) n) ⊆+ goroutines f ++ rs) as Hgo.
  { intros srv ts rs g w x n Hi <-. apply (all_runners_replace _ _ p); [done|].
    unfold proc_runners. cbn [wp_threads wp_srv]. by rw Hi omap_app. }
  destruct (String.eqb (ejr_JobId req) EmptyString).
  { intros [= <- <-]. left. split; [by destruct lost|]. split; [done|].
    rw -(app_nil_r (goroutines f)). by apply Hgo. }
  destruct (WorkerSvc.capacity _ <=? _).
  { intros [= <- <-]. left. split; [by destruct lost|]. split; [done|].
    rw -(app_nil_r (goroutines f)). by apply Hgo. }
  unfold st_bind. cbn [js_MarkScheduled worker_store beside].
  destruct (MarkScheduled E (ejr_JobId req) (WorkerSvc.instance (wp_srv p)) (fb_world f)) as [r' w1] eqn:Hm.
  intros H. right. exists E, (tick (fb_world f)), (WorkerSvc.instance (wp_srv p)), r', w1.
  split; [by destruct (fb_world f)|]. destruct r' as [[]|e]; injection H as <- <-; (split; [done|]).
  - split; [done|]. by apply Hgo.
  - split; [by destruct lost|]. by apply Hgo.
Qed.

Lemma call_worker_calls : worker_calls fb_world goroutines (call_worker (M := M) (G := G) E fate).
Proof.
  intros name req f r f'. unfold call_worker.
  destruct (fb_workers f !! name) as [p|] eqn:Hp; [|intros [= <- <-]; left; auto].
  destruct (fate (fb_calls f)) eqn:Hf.
  - intros [(? & ? & ?)|?]%run_call_calls; auto.
  - intros [= <- <-]. left. auto.
  - intros [(? & ? & ?)|?]%run_call_calls; auto.
  - intros [= <- <-]. left. split; [done|]. split; [done|]. right. exists (WorkerSvc.instance (wp_srv p)). cbn [fb_workers].
    apply (all_runners_replace _ _ p); [done|]. unfold proc_runners. cbn [wp_threads wp_srv]. by rw omap_app.
Qed.

(** What an event does to the shared state is a run of the system, in which the
    handlers of others stay. *)
Definition follows (f f' : fabric M G) : Prop :=
  ∀ st, represents f st → ∃ st', rtc (labelled L) st st' ∧ represents f' st' ∧ handlers st ⊆+ handlers st'.

Lemma follows_same f f' :
  db (fb_world f') = db (fb_world f) → goroutines f' ⊆+ goroutines f → follows f f'.
Proof. intros Hdb Hg st [H1 H2]. exists st. split; [apply rtc_refl|]. split; [|done]. split; [by rw Hdb|by etrans]. Qed.

Lemma drain_follows disp cand now f :
  follows f (drain (relay_store E rgo) (code_dispatch cand (call_worker E fate) disp) (log_placement lib now) f).2.
Proof using L_other.
  intros [d hs rns] [Hd Hg]. cbn [tables runners] in *. subst d.
  destruct (drain_sys fb_world goroutines (relay_store E rgo) E rgo (code_dispatch cand (call_worker E fate) disp)
    (log_placement lib now) relay_store_backed (code_dispatch_sim _ _ cand _ disp call_worker_calls)
    ltac:(intros id wk f'; unfold log_placement; by destruct (ApplyPlacement lib _ _ _ _))
    f hs rns) as (k & rs & Hrun & Hsub).
  eexists. split; [by apply (other_labelled L L_other)|]. split; [|by apply submseteq_inserts_r].
  split; [done|]. cbn [runners]. etrans; [exact Hsub|]. by apply submseteq_skips_r.
Qed.

Lemma submit_follows sc leads leaderID req f :
  follows f (submit (M := M) (G := G) E rgj sc leads leaderID req f).2.
Proof using E_ok L_other.
  unfold submit, SchedulerSvc.SubmitJob.
  destruct leads; cbn [negb]; [|by apply follows_same]. destruct (_ || _); [by apply follows_same|].
  intros [d hs rns] [Hd Hg]. cbn [tables runners] in *. subst d. cbn [ss_CreateJobWithOutbox pg_sched_store].
  pose proof (s_submit E (tick (fb_world f)) (sjr_Name req) (sjr_Payload req) (mkSys (db (fb_world f)) hs rns) E_ok) as Hs.
  unfold after in Hs. cbn [tables handlers runners] in Hs.
  replace (mkWorld (db (fb_world f)) (tick (fb_world f))) with (fb_world f) in Hs by (by destruct (fb_world f)).
  destruct (CreateJobWithOutbox E _ _ (fb_world f)) as [[job|e] w]; (eexists; split; [eapply rtc_l; [exists Other; split; [done|exact Hs]|apply rtc_refl]|]; split; [|done]; done).
Qed.

Lemma reaper_follows sc leads now f :
  (∀ wk, wk ∈ Dead rgw now (sc_reg sc) → L (Reclaim wk)) →
  follows f (reaper_tick (M := M) (G := G) E rgj rgw sc leads now f).2.
Proof using E_ok.
  intros HL.
  unfold reaper_tick, run_tick. destruct leads; cbn [negb]; [|by apply follows_same].
  intros [d hs rns] [Hd Hg]. cbn [tables runners] in *. subst d. unfold sweep.
  set (sh := mkShared (fb_world f) (sc_reg sc) (sc_wake sc)).
  pose proof (sweep_sys L E rgj false (Dead rgw now (s_reg sh)) sh hs rns E_ok HL) as Hrun.
  destruct (sweep_loop _ _ _ sh) as [b sh']. eexists. split; [exact Hrun|]. split; [|done]. split; [|done]. by destruct b.
Qed.

(** An action of a goroutine that leaves the tables alone. *)
Lemma thread_quiet wk p p' rest w x f :
  fb_workers f !! wk = Some p → db w = db (fb_world f) → proc_runners p' ⊆+ proc_runners p →
  follows f (mkFabric w x rest (<[wk := p']> (fb_workers f)) (fb_calls f)).
Proof.
  intros Hp Hdb Hsub. apply follows_same; [done|]. cbn [fb_workers].
  rw -(app_nil_r (all_runners (fb_workers f))). apply (all_runners_replace _ _ p); [done|]. by rw app_nil_r.
Qed.

(** An action of a goroutine that is a step of its runner. *)
Lemma thread_runs wk p p' r r' rest g w x f :
  fb_workers f !! wk = Some p → proc_runners p ≡ₚ r :: rest → rstep (db (fb_world f)) r (db w) r' →
  proc_runners p' ⊆+ r' :: rest →
  follows f (mkFabric w x g (<[wk := p']> (fb_workers f)) (fb_calls f)).
Proof using L_other.
  intros Hp Hpr Hs Hp' [d hs rns] [Hd Hg]. cbn [tables runners] in *. subst d.
  rw (all_runners_lookup _ _ _ Hp) Hpr /= in Hg.
  destruct (runner_sys L L_other r (rest ++ all_runners (delete wk (fb_workers f))) (mkSys (db (fb_world f)) hs rns) (db w) r' Hg Hs)
    as (rns' & Hstep & Hsub).
  eexists. split; [eapply rtc_l; [exact Hstep|apply rtc_refl]|]. split; [|done]. split; [done|]. cbn [runners fb_workers].
  rw all_runners_insert. etrans; [|exact Hsub]. rw (app_comm_cons rest). by apply submseteq_skips_r.
Qed.

(** An action of a goroutine: its runner, if it has one, stays what it is, steps or
    is dropped; a goroutine it starts takes over its runner. *)
Lemma thread_runner s t w x o w' x' :
  thread_step (JS := worker_store E) (worker_reporter reporter) s t (w, x) = (o, (w', x')) →
  match o with
  | None => (w', x') = (w, x)
  | Some (s', t', started) =>
      let now := option_list (runner_of (WorkerSvc.instance s) t') ++
        omap (runner_of (WorkerSvc.instance s)) (option_list started) in
      WorkerSvc.instance s' = WorkerSvc.instance s ∧
      (db w' = db w ∧ now ⊆+ option_list (runner_of (WorkerSvc.instance s) t) ∨
       ∃ r r', runner_of (WorkerSvc.instance s) t = Some r ∧ rstep (db w) r (db w') r' ∧ now ⊆+ [r'])
  end.
Proof using.
  destruct t; cbn [thread_step]; unfold st_ret, st_bind.
  - intros [= <- <- <-]. split; [done|]. left. split; [done|]. by case_match; [apply submseteq_nil_l|].
  - intros [= <- <- <-]. split; [done|]. left. split; [done|]. by case_match; [apply submseteq_nil_l|].
  - case_match; intros [= <- <- <-]; (split; [done|]); by left.
  - cbn [js_MarkScheduled worker_store beside].
    destruct (MarkScheduled E (ejr_JobId req) (WorkerSvc.instance s) w) as [r w1] eqn:Hm. intros [= <- <- <-].
    split; [done|]. right. eexists _, _. split; [done|]. split; [destruct w; by eapply r_accept|].
    destruct r; simpl; [done|by apply submseteq_nil_l].
  - intros [= <- <- <-]. split; [done|]. by left.
  - intros [= <- <- <-]. split; [done|]. by left.
  - intros [= <- <- <-]. split; [done|]. by left.
  - by intros [= <- <- <-].
  - cbn [js_MarkRunning worker_store beside]. destruct (MarkRunning E jobID w) as [r w1] eqn:Hm. intros [= <- <- <-].
    split; [done|]. right. destruct (finish_args (execute raw).2) as [ok msg] eqn:Hf.
    eexists _, _. split; [done|]. split; [destruct w; by eapply (r_run E _ _ ok msg)|].
    destruct r; simpl; [by rw Hf|by apply submseteq_nil_l].
  - destruct (finish_args (execute raw).2) as [ok msg] eqn:Hf. intros [= <- <- <-]. split; [done|]. left. split; [done|].
    simpl. by rw Hf.
  - cbn [js_MarkFinished worker_store beside]. destruct (MarkFinished E jobID succeeded errMsg w) as [r w1] eqn:Hm.
    intros [= <- <- <-]. split; [done|]. right. eexists _, _. split; [done|].
    split; [|destruct r; by apply submseteq_nil_l]. pose proof (r_finish E (tick w) jobID succeeded errMsg (db w)) as Hr.
    unfold after in Hr. replace (mkWorld (db w) (tick w)) with w in Hr by (by destruct w). by rw Hm in Hr.
  - unfold report, worker_reporter. destruct reporter as [rep|]; cbn [fmap option_fmap option_map].
    + destruct (rep jobID (WorkerSvc.instance s) succeeded x) as [[] x1]. intros [= <- <- <-]. split; [done|]. by left.
    + intros [= <- <- <-]. split; [done|]. by left.
  - intros [= <- <- <-]. split; [done|]. by left.
  - intros [= <- <- <-]. split; [done|]. by left.
  - by intros [= <- <- <-].
Qed.

Lemma act_follows wk i f :
  follows f (at_worker (G := G) wk (λ p, act_thread E reporter p i) f).
Proof using L_other.
  unfold at_worker. destruct (fb_workers f !! wk) as [p|] eqn:Hp; [|by apply follows_same].
  unfold act_thread. destruct (wp_threads p !! i) as [t|] eqn:Ht; [|by eapply thread_quiet].
  destruct (thread_step _ _ t _) as [o [w x]] eqn:Hstep. apply thread_runner in Hstep.
  destruct o as [[[srv t'] started]|]; [|simplify_eq; by eapply thread_quiet].
  destruct (omap_insert (runner_of (WorkerSvc.instance (wp_srv p))) _ _ _ Ht) as (rest & Hold & Hnew).
  fold (proc_runners p) in Hold. destruct Hstep as [Hi Hcase].
  assert (proc_runners (mkWproc srv (<[i := t']> (wp_threads p) ++ option_list started)) ≡ₚ
    (option_list (runner_of (WorkerSvc.instance (wp_srv p)) t') ++
     omap (runner_of (WorkerSvc.instance (wp_srv p))) (option_list started)) ++ rest) as Hafter.
  { unfold proc_runners. cbn [wp_srv wp_threads]. rw Hi omap_app Hnew -!(assoc app). by rw (comm app rest). }
  destruct Hcase as [[Hdb Hsub]|(r & r' & Hr & Hrs & Hsub)].
  - eapply thread_quiet; [done|done|]. rw Hafter Hold. by apply submseteq_skips_r.
  - eapply (thread_runs wk p _ r r' rest); [done|by rw Hold Hr|done|]. rw Hafter. change (r' :: rest) with ([r'] ++ rest). by apply submseteq_skips_r.
Qed.

Lemma step_follows ev si :
  (∀ s leads t sc wk, ev = ReaperTick s leads t → si_scheds si !! s = Some sc →
     wk ∈ Dead rgw t (sc_reg sc) → L (Reclaim wk)) →
  follows (si_fabric si) (si_fabric (step E rgo rgj rgw reporter lib fate ev si)).
Proof using E_ok L_other.
  intros HL. assert (∀ s m, (∀ sc, si_scheds si !! s = Some sc → follows (si_fabric si) (m sc (si_fabric si)).2) →
    follows (si_fabric si) (si_fabric (at_scheduler (M := M) (G := G) s m si))) as Hat.
  { intros s m Hm. unfold at_scheduler. destruct (si_scheds si !! s) as [sc|]; [|by apply follows_same].
    specialize (Hm sc eq_refl). by destruct (m sc (si_fabric si)). }
  destruct ev as [s leads leaderID req|s leads ev now|s leads now|s now req|s now req|wk i|wk inst cap|wk|s disp|s];
    cbn [step si_fabric].
  - apply Hat. intros sc Hsc. apply submit_follows.
  - apply Hat. intros sc Hsc. unfold relay_turn, run_select.
    destruct ev; [by apply follows_same| |destruct (sc_wake sc); [|by apply follows_same]];
      (destruct leads; [apply drain_follows|by apply follows_same]).
  - apply Hat. intros sc Hsc. apply reaper_follows. intros wk. by eapply HL.
  - apply Hat. intros sc Hsc. by apply follows_same.
  - apply Hat. intros sc Hsc. by apply follows_same.
  - apply act_follows.
  - apply follows_same; [done|]. cbn. rw all_runners_insert. simpl. apply all_runners_delete.
  - apply follows_same; [done|]. apply all_runners_delete.
  - by apply follows_same.
  - by apply follows_same.
Qed.

End refinement.

Lemma labelled_any {UU : PgUuid} L st st' : rtc (labelled L) st st' → rtc sys_any st st'.
Proof. apply rtc_subrel. intros a b (l & _ & H). by exists l. Qed.

Section runs.
Context {UU : PgUuid} {JE : JsonEnv} {M G : Type}.
Context (E : env) (rgo : Ranger outbox_row) (rgj : Ranger job_row) (rgw : Ranger WorkerState).
Context (reporter : option (string → string → bool → stM M unit)) (lib : RaftLib G) (fate : nat → call_fate).
Hypothesis E_ok : env_ok E.

Lemma run_snoc evs ev (si : site M G) :
  run_events E rgo rgj rgw reporter lib fate (evs ++ [ev]) si =
    step E rgo rgj rgw reporter lib fate ev (run_events E rgo rgj rgw reporter lib fate evs si).
Proof. unfold run_events. by rw foldl_app. Qed.

Lemma run_follows evs si :
  follows (λ _, True) (si_fabric si) (si_fabric (run_events (G := G) E rgo rgj rgw reporter lib fate evs si)).
Proof using E_ok.
  revert si. induction evs as [|ev evs IH]; intros si; [by apply follows_same|].
  intros st Hst. destruct (step_follows E rgo rgj rgw reporter lib fate E_ok (λ _, True) I ev si ltac:(done) st Hst)
    as (st1 & H1 & Hst1 & Hh1).
  destruct (IH _ st1 Hst1) as (st2 & H2 & Hst2 & Hh2). exists st2. split; [by etrans|]. split; [done|by etrans].
Qed.

(** A state of the system that stands for the cluster, reachable as it is. *)
Lemma run_represented x g evs :
  ∃ st, reachable st ∧ represents (si_fabric (run_events (G := G) E rgo rgj rgw reporter lib fate evs (site_init x g))) st.
Proof using E_ok.
  destruct (run_follows evs (site_init x g) sys_init) as (st & Hr & Hst & _).
  { split; [done|]. by apply submseteq_nil_l. }
  exists st. split; [|done]. by apply (labelled_any (λ _, True)).
Qed.
End runs.


(** ** Lemmas: a worker no scheduler has heard of *)

(** The event is a sign of life of worker [wk]. *)
Definition hears (wk : string) (ev : event) : Prop :=
  match ev with
  | Registers _ _ req => rwr_WorkerId req = wk
  | Beats _ _ req => hbr_WorkerId req = wk
  | _ => False
  end.

Definition unheard_by (wk : string) (reg : Registry) : Prop := reg_ok reg ∧ Registry.workers reg !! wk = None.

Definition unheard {M G} (wk : string) (si : site M G) : Prop :=
  map_Forall (λ _ sc, unheard_by wk (sc_reg sc)) (si_scheds si).

Lemma sweep_unheard {W} (reclaim : string → stM W (result err (list Job))) b ws sh wk :
  unheard_by wk (s_reg sh) → unheard_by wk (s_reg (sweep_loop reclaim b ws sh).2).
Proof.
  revert b sh. induction ws as [|w ws IH]; intros b sh Hu; [done|]. cbn [sweep_loop]. unfold st_bind, sweep_worker.
  destruct (reclaim w (s_store sh)) as [[js|e] st]; [|by apply IH].
  assert (unheard_by wk (Forget w (s_reg sh))) as Hf.
  { destruct Hu as [Hok Hno]. split; [by apply Forget_ok|]. by apply lookup_delete_None; right. }
  by destruct (Nat.eqb (length js) 0); apply IH.
Qed.

Section unheard.
Context {UU : PgUuid} {JE : JsonEnv} {M G : Type}.
Context (E : env) (rgo : Ranger outbox_row) (rgj : Ranger job_row) (rgw : Ranger WorkerState).
Context (reporter : option (string → string → bool → stM M unit)) (lib : RaftLib G) (fate : nat → call_fate).
Implicit Types si : site M G.

Lemma at_scheduler_unheard wk s m si :
  (∀ sc f, unheard_by wk (sc_reg sc) → unheard_by wk (sc_reg (m sc f).1)) →
  unheard wk si → unheard wk (at_scheduler s m si).
Proof.
  intros Hm Hu. unfold at_scheduler. destruct (si_scheds si !! s) as [sc|] eqn:Hsc; [|done].
  specialize (Hm sc (si_fabric si) (Hu s sc Hsc)). destruct (m sc (si_fabric si)) as [sc' f]. by apply map_Forall_insert_2.
Qed.

Lemma step_unheard wk ev si :
  ¬ hears wk ev → unheard wk si → unheard wk (step E rgo rgj rgw reporter lib fate ev si).
Proof.
  intros Hev Hu.
  destruct ev as [s leads leaderID req|s leads ev now|s leads now|s now req|s now req|w i|w inst cap|w|s disp|s];
    cbn [step hears] in *; try done.
  - apply at_scheduler_unheard; [|done]. intros sc f Hsc. unfold submit. by destruct (SchedulerSvc.SubmitJob _ _ _ _ _) as [? []].
  - apply at_scheduler_unheard; [|done]. intros sc f Hsc. unfold relay_turn.
    by destruct (run_select _ _ _ _ _ _ _) as [[[]|] ?].
  - apply at_scheduler_unheard; [|done]. intros sc f Hsc. unfold reaper_tick, run_tick. destruct leads; [|done]. cbn [negb].
    unfold sweep. set (sh := mkShared (fb_world f) (sc_reg sc) (sc_wake sc)).
    pose proof (sweep_unheard (ReclaimJobs E rgj) false (Dead rgw now (s_reg sh)) sh wk Hsc) as H.
    destruct (sweep_loop _ _ _ sh) as [b sh']. by destruct b.
  - apply at_scheduler_unheard; [|done]. intros sc f [Hok Hno]. unfold at_registry, RegisterWorker. cbn [fst sc_reg].
    destruct (String.eqb _ _); [done|]. split; [by apply Record_ok|]. by apply lookup_insert_None.
  - apply at_scheduler_unheard; [|done]. intros sc f [Hok Hno]. unfold at_registry, SchedulerSvc.Heartbeat. cbn [fst sc_reg].
    destruct (String.eqb _ _); [done|]. split; [by apply Record_ok|]. by apply lookup_insert_None.
  - apply map_Forall_insert_2; [|done]. split; [apply New_ok|done].
  - by apply map_Forall_delete.
Qed.

(** A job that only the reaper of [wk] could move, where nobody will reclaim. *)
Lemma unheard_run wk evs si st j x :
  env_ok E → j_worker x = Some wk → unheard wk si → Forall (λ ev, ¬ hears wk ev) evs →
  represents (si_fabric si) st → sys_inv st → stranded j x st →
  jobs (db (fb_world (si_fabric (run_events E rgo rgj rgw reporter lib fate evs si)))) !! j = Some x.
Proof.
  intros HE Hx. revert si st. induction evs as [|ev evs IH]; intros si st Hu Hevs Hrep Hinv Hs.
  { destruct Hrep as [Ht _]. unfold run_events. cbn [foldl]. rw -Ht. apply Hs. }
  inversion_clear Hevs as [|? ? Hev Hevs'].
  destruct (step_follows E rgo rgj rgw reporter lib fate HE (λ l, l ≠ Reclaim wk) ltac:(done) ev si) with (st := st)
    as (st' & Hrun & Hrep' & _); [|done|].
  { intros s leads t sc wk' -> Hsc Hd [= ->]. destruct (Hu s sc Hsc) as [Hok Hno].
    apply elem_of_Dead in Hd as (w & Hw & _); [|done]. by rw Hno in Hw. }
  apply (IH _ st'); [by apply step_unheard|done|done| |].
  - clear -Hrun Hinv. induction Hrun as [|a b c (l & _ & Hab) _ IH]; [done|]. apply IH. by eapply sys_inv_step.
  - apply (stranded_run wk st st' j x); [|done|done|].
    + intros wk' Hne. unfold reclaimable. rw Hx. destruct (String.eqb_spec wk wk'); [congruence|done].
    + clear -Hrun. induction Hrun as [|a b c Hab _ IH]; [constructor|]. econstructor; [exact Hab|exact IH].
Qed.
End unheard.
(** ** Properties *)

(** The system covers the programs. Whatever requests arrive, whichever
    schedulers believe to lead, however relays, reapers and worker goroutines take
    turns, processes stop and start, calls and answers are lost and statements
    fail: what the code has done to the tables is a run of the system from empty
    tables, in which every goroutine of a worker is one of the system's runners. So
    whatever holds of the system's reachable states holds of the running cluster. *)
Theorem cluster_refines_system {UU : PgUuid} {JE : JsonEnv} {M G : Type}
    (E : env) (rgo : Ranger outbox_row) (rgj : Ranger job_row) (rgw : Ranger WorkerState)
    (reporter : option (string → string → bool → stM M unit)) (lib : RaftLib G) (fate : nat → call_fate)
    (x : M) (g : G) (evs : list event) :
  env_ok E →
  let f := si_fabric (run_events E rgo rgj rgw reporter lib fate evs (site_init x g)) in
  ∃ st, reachable st ∧ tables st = db (fb_world f) ∧ all_runners (fb_workers f) ⊆+ runners st.
Proof.
  intros HE f. destruct (run_represented E rgo rgj rgw reporter lib fate HE x g evs) as (st & Hr & Ht & Hsub). eauto.
Qed.

(** A run for examples: one scheduler, two workers, a job. *)
Definition demo_site_run (evs : list event) : site (list (string * bool)) (list string) :=
  run_events (UU := any_uuid) (JE := demo_json_env) demo_env (ranger_asc _) (ranger_asc _) (ranger_asc _)
    (Some (λ id _ ok log, (tt, log ++ [(id, ok)]))) accepting_lib (λ _, CallDelivered) evs (site_init [] []).

Definition demo_disp : Dispatcher := mkDispatcher ["worker-1"; "worker-2"] {["worker-1"; "worker-2"]} 0.

Definition demo_events : list event :=
  [SchedulerStarts "scheduler-1" demo_disp; WorkerStarts "worker-1" "worker-1" 2;
   Registers "scheduler-1" 0 (mkRegisterWorkerRequest "worker-1" EmptyString 2);
   Submit "scheduler-1" true "scheduler-1" (mkSubmitJobRequest "demo" EmptyString);
   RelayTurn "scheduler-1" true Woken (λ _, Second);
   Acts "worker-1" 0].

Lemma cluster_refines_system_witness :
  ∃ st, reachable (UU := any_uuid) st ∧
    j_status <$> jobs (tables st) !! "id-1" = Some StatusRunning.
Proof.
  destruct (cluster_refines_system (UU := any_uuid) (JE := demo_json_env) demo_env (ranger_asc _) (ranger_asc _)
    (ranger_asc _) (Some (λ id _ ok log, (tt, log ++ [(id, ok)]))) accepting_lib (λ _, CallDelivered)
    [] [] demo_events demo_env_ok) as (st & Hr & Ht & _).
  exists st. split; [done|]. rw Ht. by vm_compute.
Defined.

(** C37: a worker nobody remembers is never reaped. The registry lives in memory:
    when a worker has died and the schedulers have been restarted since, none of
    them knows of it. Then a job that was scheduled or running on it, with no
    goroutine and no open command left for it, never changes again, whatever
    happens in the cluster, until a worker of that name reports. *)
Theorem unheard_worker_never_reaped {UU : PgUuid} {JE : JsonEnv} {M G : Type}
    (E : env) (rgo : Ranger outbox_row) (rgj : Ranger job_row) (rgw : Ranger WorkerState)
    (reporter : option (string → string → bool → stM M unit)) (lib : RaftLib G) (fate : nat → call_fate)
    (x0 : M) (g : G) (before after : list event) (wk j : string) (x : job_row) :
  env_ok E →
  let run := run_events E rgo rgj rgw reporter lib fate in
  let si := run before (site_init x0 g) in
  let d := db (fb_world (si_fabric si)) in
  unheard wk si → Forall (λ ev, ¬ hears wk ev) after →
  jobs d !! j = Some x → j_status x ≠ StatusPending → j_worker x = Some wk →
  Forall (λ r, ∀ id, runner_job r = Some id → pg_uuid id ≠ Some j) (all_runners (fb_workers (si_fabric si))) →
  (∀ c o, outbox d !! c = Some o → o_status o = OutboxPending → o_job o ≠ j) →
  jobs (db (fb_world (si_fabric (run after si)))) !! j = Some x.
Proof.
  intros HE run si d Hu Hafter Hx Hp Hwk Hr Ho.
  destruct (run_represented E rgo rgj rgw reporter lib fate HE x0 g before) as (st & Hreach & Ht & _).
  fold run in Ht. fold si in Ht. fold d in Ht. apply sys_inv_reachable in Hreach as (Hids & _ & Hint).
  apply (unheard_run E rgo rgj rgw reporter lib fate wk after si
    (mkSys d [] (all_runners (fb_workers (si_fabric si)))) j x HE Hwk Hu Hafter).
  - done.
  - rw Ht in Hids. split; [done|]. split; [constructor|]. intros j' x' Hj' Hp'. rw -Ht in Hj'.
    destruct (Hint j' x' Hj' Hp') as (c & o & Hc & Hjo & Hso & _). exists c, o. rw Ht in Hc. by repeat split.
  - split; [done|]. split; [done|]. split; [done|]. split; [constructor|done].
Qed.

(** The scheduler and the worker that was running the job both stop; the scheduler
    comes back, and with it another worker. *)
Definition restart_events : list event :=
  demo_events ++ [WorkerStops "worker-1"; SchedulerStops "scheduler-1"; SchedulerStarts "scheduler-1" demo_disp].

Definition later_events : list event :=
  [WorkerStarts "worker-2" "worker-2" 2; Registers "scheduler-1" (20 * Second) (mkRegisterWorkerRequest "worker-2" EmptyString 2);
   ReaperTick "scheduler-1" true (60 * Second); RelayTurn "scheduler-1" true Ticked (λ _, 61 * Second)].

Lemma unheard_worker_never_reaped_witness :
  ∃ x, jobs (db (fb_world (si_fabric (demo_site_run (restart_events ++ later_events))))) !! "id-1" = Some x ∧
    j_status x = StatusRunning ∧ j_worker x = Some "worker-1".
Proof.
  destruct (jobs (db (fb_world (si_fabric (demo_site_run restart_events)))) !! "id-1") as [x|] eqn:Hx; [|by vm_compute in Hx].
  assert (j_status x = StatusRunning ∧ j_worker x = Some "worker-1") as [Hs Hw].
  { vm_compute in Hx. injection Hx as <-. split; vm_compute; reflexivity. }
  exists x. split; [|exact (conj Hs Hw)]. unfold demo_site_run, run_events. rw foldl_app.
  apply (unheard_worker_never_reaped (UU := any_uuid) (JE := demo_json_env) demo_env (ranger_asc _) (ranger_asc _)
    (ranger_asc _) (Some (λ id _ ok log, (tt, log ++ [(id, ok)]))) accepting_lib (λ _, CallDelivered)
    [] [] restart_events later_events "worker-1" "id-1" x demo_env_ok).
  - apply map_Forall_lookup. intros s sc Hsc.
    assert (map_Forall (λ _ sc, sc_reg sc = scheduler_registry) (si_scheds (demo_site_run restart_events))) as Hall
      by (apply (bool_decide_unpack _); by vm_compute).
    rw (Hall s sc Hsc). split; [apply New_ok|done].
  - clear. repeat constructor; intros H; cbn in H; first [destruct H; fail | discriminate H | contradiction].
  - exact Hx.
  - rw Hs. discriminate.
  - exact Hw.
  - clear. by vm_compute.
  - assert (map_Forall (λ _ o, o_status o ≠ OutboxPending) (outbox (db (fb_world (si_fabric (demo_site_run restart_events)))))) as Hall
      by (apply (bool_decide_unpack _); by vm_compute).
    intros c o Hc Hp. destruct (Hall c o Hc). exact Hp.
Defined.
