(* ===== verification/Interleaved.v ===== *)
(** * The cluster with its loops cut open

    As Cluster, but the relay and the reaper of a scheduler are goroutines that make
    one call per event ([relay_act], [reaper_act]): between any two calls of a relay
    anything else may happen, submissions, acceptances and outcomes of workers,
    another scheduler's relay on the same commands, a reaper, crashes. *)

From S2P Require Import Prelude GoRuntime Json Proto Store Registry Dispatch WorkerSvc Relay Reaper System RelaySteps RaftNode SchedulerSvc Reporting Lifecycle Cluster.
Local Open Scope Z_scope.

(** A scheduler process with the points its two loops are at. *)
Record fscheduler : Type := mkFscheduler { fs_sched : scheduler; fs_relay : relay_pc; fs_reaper : reaper_pc }.

Record fsite (M G : Type) : Type := mkFsite { fi_fabric : fabric M G; fi_scheds : gmap string fscheduler }.
Arguments mkFsite {M G} _ _.
Arguments fi_fabric {M G} _.
Arguments fi_scheds {M G} _.

Inductive fevent : Type :=
| FSubmit (s : string) (leads : bool) (leaderID : string) (req : SubmitJobRequest)
| FTurn (s : string) (leads : bool) (ev : Relay.event)      (* the relay's select *)
| FRelay (s : string) (now : nat → Z)                       (* the relay's next action *)
| FTick (s : string) (leads : bool) (now : Z)               (* the reaper's select *)
| FReap (s : string)                                        (* the reaper's next action *)
| FRegisters (s : string) (now : Z) (req : RegisterWorkerRequest)
| FBeats (s : string) (now : Z) (req : HeartbeatRequest)
| FActs (wk : string) (i : nat)
| FWorkerStarts (wk : string) (inst : string) (cap : Z)
| FWorkerStops (wk : string)
| FSchedulerStarts (s : string) (disp : Dispatcher)
| FSchedulerStops (s : string).

Section interleaved.
Context {UU : PgUuid} {JE : JsonEnv} {M G : Type}.
Context (E : env) (rgo : Ranger outbox_row) (rgj : Ranger job_row) (rgw : Ranger WorkerState).
Context (reporter : option (string → string → bool → stM M unit)) (lib : RaftLib G).
Context (fate : nat → call_fate).

(** What the relay received: a tick, or the token of the wake channel. *)
Definition relay_select (leads : bool) (ev : Relay.event) (fs : fscheduler) : fscheduler :=
  let sc := fs_sched fs in
  match fs_relay fs, ev with
  | PSelect, Ticked => mkFscheduler sc (if leads then PClaim else PSelect) (fs_reaper fs)
  | PSelect, Woken =>
      if sc_wake sc
      then mkFscheduler (mkScheduler (sc_reg sc) false (sc_disp sc)) (if leads then PClaim else PSelect) (fs_reaper fs)
      else fs
  | _, _ => fs
  end.

Definition relay_next (now : nat → Z) (fs : fscheduler) : stM (fabric M G) fscheduler := λ f,
  let sc := fs_sched fs in
  let '(pc, f') := relay_act (relay_store E rgo) (candidates rgw (sc_reg sc) now) (call_worker E fate) (sc_disp sc)
                     (log_placement lib now) (fs_relay fs) f in
  (mkFscheduler sc pc (fs_reaper fs), f').

Definition reaper_select (leads : bool) (now : Z) (fs : fscheduler) : fscheduler :=
  match fs_reaper fs with
  | QSelect => mkFscheduler (fs_sched fs) (fs_relay fs) (if leads then QSweep (Dead rgw now (sc_reg (fs_sched fs))) false else QSelect)
  | _ => fs
  end.

Definition reaper_next (fs : fscheduler) : stM (fabric M G) fscheduler := λ f,
  let sc := fs_sched fs in
  let '(pc, sh) := reaper_act (ReclaimJobs E rgj) (fs_reaper fs) (mkShared (fb_world f) (sc_reg sc) (sc_wake sc)) in
  (mkFscheduler (mkScheduler (s_reg sh) (s_wake sh) (sc_disp sc)) (fs_relay fs) pc,
   mkFabric (s_store sh) (fb_stats f) (fb_group f) (fb_workers f) (fb_calls f)).

(** The other requests a scheduler serves, from Cluster. *)
Definition on_sched (m : scheduler → stM (fabric M G) scheduler) (fs : fscheduler) : stM (fabric M G) fscheduler := λ f,
  let '(sc, f') := m (fs_sched fs) f in (mkFscheduler sc (fs_relay fs) (fs_reaper fs), f').

Definition at_fscheduler (s : string) (m : fscheduler → stM (fabric M G) fscheduler) (si : fsite M G) : fsite M G :=
  match fi_scheds si !! s with
  | None => si
  | Some fs => let '(fs', f) := m fs (fi_fabric si) in mkFsite f (<[s := fs']> (fi_scheds si))
  end.

Definition fstep (ev : fevent) (si : fsite M G) : fsite M G :=
  match ev with
  | FSubmit s leads leaderID req => at_fscheduler s (on_sched (λ sc, submit E rgj sc leads leaderID req)) si
  | FTurn s leads ev => at_fscheduler s (λ fs f, (relay_select leads ev fs, f)) si
  | FRelay s now => at_fscheduler s (relay_next now) si
  | FTick s leads now => at_fscheduler s (λ fs f, (reaper_select leads now fs, f)) si
  | FReap s => at_fscheduler s reaper_next si
  | FRegisters s now req => at_fscheduler s (on_sched (at_registry (RegisterWorker now Heartbeat.Interval req))) si
  | FBeats s now req => at_fscheduler s (on_sched (at_registry (SchedulerSvc.Heartbeat now req))) si
  | FActs wk i => mkFsite (at_worker wk (λ p, act_thread E reporter p i) (fi_fabric si)) (fi_scheds si)
  | FWorkerStarts wk inst cap =>
      mkFsite (set_workers (<[wk := mkWproc (WorkerSvc.New inst cap) []]>) (fi_fabric si)) (fi_scheds si)
  | FWorkerStops wk => mkFsite (set_workers (delete wk) (fi_fabric si)) (fi_scheds si)
  | FSchedulerStarts s disp => mkFsite (fi_fabric si) (<[s := mkFscheduler (start_scheduler disp) PSelect QSelect]> (fi_scheds si))
  | FSchedulerStops s => mkFsite (fi_fabric si) (delete s (fi_scheds si))
  end.

Definition run_fevents (evs : list fevent) (si : fsite M G) : fsite M G := foldl (λ si ev, fstep ev si) si evs.

Definition fsite_init (x : M) (g : G) : fsite M G := mkFsite (si_fabric (site_init x g)) ∅.

(** ** The interleaved cluster as a system *)

(** The part of a batch not looked at. *)
Definition claimed (es : list OutboxEntry) : list handler := HClaimed <$> es.

(** The handlers a relay's goroutine stands for: the command in its hands, and those
    of the batch it has not looked at. *)
Definition pc_handlers (pc : relay_pc) (hs : list handler) : Prop :=
  match pc with
  | PSelect | PClaim => hs = []
  | PBatch es | PPlace _ _ es => hs = claimed es
  | PDispatch e es => hs = HDispatch e false :: claimed es
  | POffer e _ _ es => ∃ a, hs = HDispatch e a :: claimed es
  | PRecord e msg es => hs = HRecord e msg :: claimed es
  | PClose e es | PMark e _ es => hs = HClose e :: claimed es
  | PAbandon e reason es => hs = HAbandon e reason :: claimed es
  | PFail e reason es => hs = HFail e reason :: claimed es
  end.

Definition all_handlers (hm : gmap string (list handler)) : list handler := map_to_list hm ≫= snd.

(** The tables are those of [st], and its runners and handlers include the ones that
    the goroutines stand for. *)
Definition covers (f : fabric M G) (hs : list handler) (st : sys) : Prop :=
  tables st = db (fb_world f) ∧ all_runners (fb_workers f) ⊆+ runners st ∧ hs ⊆+ handlers st.

Definition frepresents (si : fsite M G) (st : sys) : Prop :=
  ∃ hm, (∀ s fs, fi_scheds si !! s = Some fs → ∃ hs, hm !! s = Some hs ∧ pc_handlers (fs_relay fs) hs) ∧
    covers (fi_fabric si) (all_handlers hm) st.

(** ** Lemmas *)

Lemma all_handlers_lookup hm s hs : hm !! s = Some hs → all_handlers hm ≡ₚ hs ++ all_handlers (delete s hm).
Proof. intros H. unfold all_handlers. by rw -(map_to_list_delete hm s hs H). Qed.

Lemma all_handlers_insert hm s hs : all_handlers (<[s := hs]> hm) ≡ₚ hs ++ all_handlers (delete s hm).
Proof. rw (all_handlers_lookup _ s hs); [|apply lookup_insert_eq]. by rw delete_insert_eq. Qed.

Lemma all_handlers_delete hm s : all_handlers (delete s hm) ⊆+ all_handlers hm.
Proof.
  destruct (hm !! s) as [hs|] eqn:H; [|by rw delete_id]. rw (all_handlers_lookup hm s hs H). by apply submseteq_inserts_l.
Qed.

Lemma covers_less f hs hs' st : hs' ⊆+ hs → covers f hs st → covers f hs' st.
Proof. intros H (H1 & H2 & H3). split; [done|]. split; [done|]. by etrans. Qed.

(** A step of one of the handlers. *)
Lemma covers_hstep h rest f f' h' rs st :
  covers f (h :: rest) st → hstep (db (fb_world f)) h (db (fb_world f')) h' rs →
  all_runners (fb_workers f') ⊆+ all_runners (fb_workers f) ++ rs →
  ∃ st', sys_step Other st st' ∧ covers f' (h' :: rest) st'.
Proof.
  intros (Ht & Hr & Hh) Hs Hrs. assert (h ∈ handlers st) as (i & Hi)%list_elem_of_lookup.
  { eapply elem_of_submseteq; [|exact Hh]. by left. }
  exists (mkSys (db (fb_world f')) (<[i := h']> (handlers st)) (runners st ++ rs)).
  split; [apply (s_handler i h); [done|by rw Ht]|]. split; [done|]. cbn [runners handlers]. split.
  - etrans; [exact Hrs|]. by apply submseteq_skips_r.
  - pose proof (lookup_lt_Some _ _ _ Hi) as Hlt. rw (insert_take_drop _ _ h' Hlt).
    rw -(take_drop_middle _ _ _ Hi) in Hh. rw -Permutation_middle in Hh. rw -Permutation_middle.
    apply submseteq_skip. by apply (submseteq_app_inv_l _ _ [h]).
Qed.

(** The handler in the relay's hands does what the call did, and is done with or goes
    on as [h']. *)
Lemma covers_one h rest f f' h' rs st :
  covers f (h :: rest) st → hstep (db (fb_world f)) h (db (fb_world f')) h' rs →
  all_runners (fb_workers f') ⊆+ all_runners (fb_workers f) ++ rs →
  ∃ st', rtc (sys_step Other) st st' ∧ covers f' (h' :: rest) st'.
Proof.
  intros H1 H2 H3. destruct (covers_hstep _ _ _ _ _ _ _ H1 H2 H3) as (st' & Hs & Hc). exists st'. split; [|done].
  eapply rtc_l; [exact Hs|apply rtc_refl].
Qed.

Lemma one_store_call {A} (m : stM (fabric M G) A) m0 h h' rest f st :
  acts_as fb_world (λ f, all_runners (fb_workers f)) m m0 → (∀ d n, hstep d h (after m0 d n) h' []) →
  covers f (h :: rest) st → ∃ st', rtc (sys_step Other) st st' ∧ covers (m f).2 (h' :: rest) st'.
Proof.
  intros Hm Hs Hc. destruct (acts_as_step fb_world (λ f, all_runners (fb_workers f)) m m0 f Hm) as [Hdb Hrun].
  apply (covers_one h rest f _ h' []); [done|by rw Hdb|]. rw Hrun. by rw app_nil_r.
Qed.

(** A call of the store whose handler is done, or goes on. *)
Lemma store_action {A} (m : stM (fabric M G) A) m0 h hs h' hs' rest f st pc' :
  acts_as fb_world (λ f, all_runners (fb_workers f)) m m0 → (∀ d n, hstep d h (after m0 d n) h' []) →
  hs = h :: hs' → covers f (hs ++ rest) st → (∀ k, pc_handlers pc' k ↔ k = match h' with HDone => hs' | _ => h' :: hs' end) →
  let '(pc1, f') := st_bind m (λ _, st_ret pc') f in
  ∃ st' hs1, rtc (sys_step Other) st st' ∧ pc_handlers pc1 hs1 ∧ covers f' (hs1 ++ rest) st'.
Proof.
  intros Hm Hs -> Hc Hpc. destruct (one_store_call m m0 h h' (hs' ++ rest) f st Hm Hs Hc) as (st' & Hr & Hc').
  unfold st_bind, st_ret. destruct (m f) as [a f']. exists st', (match h' with HDone => hs' | _ => h' :: hs' end).
  split; [done|]. split; [by apply Hpc|]. destruct h'; try exact Hc'. eapply covers_less; [|exact Hc']. by apply submseteq_cons.
Qed.

Lemma relay_act_covers now cand disp pc hs rest f st :
  pc_handlers pc hs → covers f (hs ++ rest) st →
  let '(pc', f') := relay_act (relay_store E rgo) cand (call_worker E fate) disp (log_placement lib now) pc f in
  ∃ st' hs', rtc (sys_step Other) st st' ∧ pc_handlers pc' hs' ∧ covers f' (hs' ++ rest) st'.
Proof.
  intros Hpc Hc. pose proof (relay_store_backed (M := M) (G := G) E rgo) as Hb.
  destruct pc as [| |[|e es]|e es|e [|name ws] lastErr es|e msg es|e es|e worker es|e worker es|e reason es|e reason es]; cbn [relay_act pc_handlers] in *.
  - exists st, hs. split; [apply rtc_refl|done].
  - subst hs. unfold st_bind. destruct (pb_claim _ _ _ _ _ Hb drainBatch f) as [Hcl Hrun].
    destruct (rs_ClaimOutbox (relay_store E rgo) drainBatch f) as [r f1]. cbn [fst snd] in *.
    assert (db (fb_world f1) = db (fb_world f) ∧
      match r with Ok es => es = sql_claim_outbox rgo drainBatch (db (fb_world f)) | Err _ => True end) as [Hdb Hes].
    { unfold ClaimOutbox, query in Hcl. destruct (env_fault E (tick (fb_world f))); injection Hcl as <- Hw1; by rw -Hw1. }
    destruct Hc as (Ht & Hr & Hh). destruct r as [es|er]; unfold st_ret.
    + exists (mkSys (tables st) (handlers st ++ claimed es) (runners st)), (claimed es). split; [|split; [done|]].
      * destruct st as [d hs rns]. cbn [tables handlers runners] in *. apply (claims_sys rgo). intros e He. by rw Ht -Hes.
      * split; [by rw Hdb|]. cbn [runners handlers]. split; [by rw Hrun|]. rw (comm app (handlers st)). by apply submseteq_skips_l.
    + exists st, []. split; [apply rtc_refl|]. split; [done|]. split; [by rw Hdb|]. by rw Hrun.
  - exists st, []. split; [apply rtc_refl|]. split; [done|]. by subst hs.
  - subst hs. destruct (covers_one (HClaimed e) (claimed es ++ rest) f f (decide_entry e) [] st Hc) as (st' & Hr & Hc');
      [constructor|by rw app_nil_r|]. unfold st_ret. exists st', (decide_entry e :: claimed es).
    split; [done|]. split; [|done]. unfold decide_entry. by repeat case_match.
  - destruct (Nat.eqb _ 0); [|exists st, hs; split; [apply rtc_refl|]; split; [by exists false|done]].
    subst hs. destruct (covers_one (HDispatch e false) (claimed es ++ rest) f f (HRecord e (err_string (no_workers (e_Job e)))) [] st Hc)
      as (st' & Hr & Hc'); [constructor|by rw app_nil_r|]. exists st', (HRecord e (err_string (no_workers (e_Job e))) :: claimed es). done.
  - destruct Hpc as [a ->]. set (msg := err_string (not_accepted (e_Job e) lastErr)).
    destruct (covers_one (HDispatch e a) (claimed es ++ rest) f f (HRecord e msg) [] st Hc)
      as (st' & Hr & Hc'); [constructor|by rw app_nil_r|]. exists st', (HRecord e msg :: claimed es). done.
  - destruct Hpc as [a ->]. unfold st_bind.
    set (req := mkExecuteJobRequest (ID (e_Job e)) (Name (e_Job e)) (Payload (e_Job e))).
    destruct (call_worker E fate name req f) as [r f1] eqn:Hx. unfold st_ret.
    assert (∃ st' a', rtc (sys_step Other) st st' ∧ covers f1 (HDispatch e a' :: (claimed es ++ rest)) st' ∧ (is_ok r = true → a' = true))
      as (st' & a' & Hr & Hc' & Hok).
    { destruct (call_worker_calls E fate _ _ _ _ _ Hx) as [(Hr & Hdb & [R|(wk & R)])|(E' & n & wk & r' & w2 & Hm & Hdb & Hok & R)]; cbn [ejr_JobId req] in *.
      - exists st, a. split; [apply rtc_refl|]. rw Hr. split; [|done]. destruct Hc as (H1 & H2 & H3). split; [by rw Hdb|]. split; [by etrans|done].
      - destruct (covers_one (HDispatch e a) (claimed es ++ rest) f f1 (HDispatch e a) [RAccept (ID (e_Job e)) wk] st Hc)
          as (st' & Hr' & Hc'); [rw Hdb; constructor|done|]. exists st', a. rw Hr. done.
      - destruct r' as [[]|e'].
        + destruct (covers_one (HDispatch e a) (claimed es ++ rest) f f1 (HDispatch e true) [RRun (ID (e_Job e))] st Hc)
            as (st' & Hr' & Hc'); [rw Hdb; by eapply h_accept|done|]. by exists st', true.
        + destruct (covers_one (HDispatch e a) (claimed es ++ rest) f f1 (HDispatch e a) [] st Hc)
            as (st' & Hr' & Hc'); [rw Hdb; by eapply h_reject|done|]. exists st', a. split; [done|]. split; [done|]. by intros Hr1%Hok. }
    destruct r as [resp|er]; [|exists st', (HDispatch e a' :: claimed es); split; [done|]; split; [by exists a'|done]].
    rw (Hok eq_refl) in Hc'.
    destruct (covers_one (HDispatch e true) (claimed es ++ rest) f1 f1 (HClose e) [] st' Hc') as (st2 & Hr2 & Hc2);
      [constructor|by rw app_nil_r|]. exists st2, (HClose e :: claimed es). split; [by etrans|done].
  - eapply (store_action _ _ (HRecord e msg) hs HDone (claimed es)); [apply (pb_record _ _ _ _ _ Hb)|intros; constructor|done|done|done].
  - eapply (store_action _ _ (HClose e) hs HDone (claimed es)); [apply (pb_dispatched _ _ _ _ _ Hb)|intros; constructor|done|done|done].
  - eapply (store_action _ _ (HClose e) hs HDone (claimed es)); [apply (pb_dispatched _ _ _ _ _ Hb)|intros; constructor|done|done|done].
  - subst hs. unfold st_bind, st_ret, log_placement. destruct (ApplyPlacement lib _ _ _ _) as [er g].
    exists st, (claimed es). split; [apply rtc_refl|done].
  - eapply (store_action _ _ (HAbandon e reason) hs (HFail e reason) (claimed es)); [apply (pb_failed _ _ _ _ _ Hb)|intros; constructor|done|done|done].
  - eapply (store_action _ _ (HFail e reason) hs HDone (claimed es)); [apply (pb_finished _ _ _ _ _ Hb)|intros; constructor|done|done|done].
Qed.

(** ** Lemmas: every event is a run of the system *)

Definition pcs_held (scheds : gmap string fscheduler) (hm : gmap string (list handler)) : Prop :=
  ∀ s fs, scheds !! s = Some fs → ∃ hs, hm !! s = Some hs ∧ pc_handlers (fs_relay fs) hs.

Lemma pcs_held_insert scheds hm s fs hs :
  pcs_held scheds hm → pc_handlers (fs_relay fs) hs → pcs_held (<[s := fs]> scheds) (<[s := hs]> hm).
Proof.
  intros Hh Hpc s' fs'. rw !lookup_insert. case_decide; [|apply Hh]. intros [= <-]. by exists hs.
Qed.

(** A scheduler's record changes, and its relay stands for the same handlers. *)
Lemma pcs_held_same scheds hm s fs fs' :
  pcs_held scheds hm → scheds !! s = Some fs → (∀ hs, pc_handlers (fs_relay fs) hs → pc_handlers (fs_relay fs') hs) →
  pcs_held (<[s := fs']> scheds) hm.
Proof.
  intros Hh Hs Hsame s' fs1. rw lookup_insert. case_decide as Heq; [|apply Hh]. subst s'. intros [= <-].
  destruct (Hh s fs Hs) as (hs & Hhm & Hpc). eauto.
Qed.

Lemma covers_follows f f' hs st :
  follows (λ _, True) f f' → covers f hs st → ∃ st', rtc sys_any st st' ∧ covers f' hs st'.
Proof.
  intros Hf (H1 & H2 & H3). destruct (Hf st (conj H1 H2)) as (st' & Hr & [H4 H5] & H6). exists st'.
  split; [by apply (labelled_any (λ _, True))|]. split; [done|]. split; [done|]. by etrans.
Qed.

Hypothesis E_ok : env_ok E.

Lemma reaper_next_covers fs f hs st :
  covers f hs st → ∃ st', rtc sys_any st st' ∧ covers (reaper_next fs f).2 hs st'.
Proof using E_ok.
  intros Hc. unfold reaper_next. destruct (fs_reaper fs) as [|[|w ws] b|w ws b]; cbn [reaper_act].
  - exists st. split; [apply rtc_refl|]. done.
  - exists st. split; [apply rtc_refl|]. by destruct b.
  - destruct Hc as (H1 & H2 & H3). cbn [s_store].
    pose proof (s_reclaim E (tick (fb_world f)) rgj w st E_ok) as Hs. unfold after in Hs. rw H1 in Hs.
    replace (mkWorld (db (fb_world f)) (tick (fb_world f))) with (fb_world f) in Hs by (by destruct (fb_world f)).
    destruct (ReclaimJobs E rgj w (fb_world f)) as [r w1]. cbn [snd] in *. eexists.
    split; [eapply rtc_l; [exists (Reclaim w); exact Hs|apply rtc_refl]|]. done.
  - exists st. split; [apply rtc_refl|]. done.
Qed.

Lemma fstep_represented ev si st :
  frepresents si st → ∃ st', rtc sys_any st st' ∧ frepresents (fstep ev si) st'.
Proof using E_ok.
  intros (hm & Hpcs & Hc).
  assert (∀ s m, (∀ sc f, follows (λ _, True) f (m sc f).2) →
    ∃ st', rtc sys_any st st' ∧ frepresents (at_fscheduler s (on_sched m) si) st') as Hsched.
  { intros s m Hm. unfold at_fscheduler. destruct (fi_scheds si !! s) as [fs|] eqn:Hs; [|exists st; split; [apply rtc_refl|by exists hm]].
    unfold on_sched. specialize (Hm (fs_sched fs) (fi_fabric si)). destruct (m (fs_sched fs) (fi_fabric si)) as [sc f'].
    destruct (covers_follows _ _ _ _ Hm Hc) as (st' & Hr & Hc'). exists st'. split; [done|]. exists hm. split; [|done].
    by eapply (pcs_held_same _ _ _ fs). }
  assert (∀ f', follows (λ _, True) (fi_fabric si) f' → ∃ st', rtc sys_any st st' ∧ frepresents (mkFsite f' (fi_scheds si)) st') as Hwork.
  { intros f' Hf. destruct (covers_follows _ _ _ _ Hf Hc) as (st' & Hr & Hc'). exists st'. split; [done|]. by exists hm. }
  destruct ev as [s leads leaderID req|s leads ev|s now|s leads now|s|s now req|s now req|w i|w inst cap|w|s disp|s]; cbn [fstep].
  - apply Hsched. intros sc f. by apply submit_follows.
  - exists st. split; [apply rtc_refl|]. unfold at_fscheduler. destruct (fi_scheds si !! s) as [fs|] eqn:Hs; [|by exists hm].
    exists hm. split; [|done]. eapply (pcs_held_same _ _ _ fs); [done|done|]. intros hs.
    unfold relay_select. destruct (fs_relay fs) eqn:Hpc; try by rw -Hpc. destruct ev; [by rw -Hpc| |destruct (sc_wake _); [|by rw -Hpc]];
      by destruct leads.
  - unfold at_fscheduler. destruct (fi_scheds si !! s) as [fs|] eqn:Hs; [|exists st; split; [apply rtc_refl|by exists hm]].
    destruct (Hpcs s fs Hs) as (hs & Hhm & Hpc). unfold relay_next.
    pose proof (relay_act_covers now (candidates rgw (sc_reg (fs_sched fs)) now) (sc_disp (fs_sched fs)) (fs_relay fs) hs
      (all_handlers (delete s hm)) (fi_fabric si) st Hpc) as Hact.
    destruct (relay_act _ _ _ _ _ (fs_relay fs) (fi_fabric si)) as [pc f'].
    destruct Hact as (st' & hs' & Hr & Hpc' & Hc').
    { eapply covers_less; [|exact Hc]. by rw (all_handlers_lookup hm s hs Hhm). }
    exists st'. split; [eapply rtc_subrel; [|exact Hr]; intros a b Hab; by exists Other|]. exists (<[s := hs']> hm).
    split; [by apply pcs_held_insert|]. eapply covers_less; [|exact Hc']. by rw all_handlers_insert.
  - exists st. split; [apply rtc_refl|]. unfold at_fscheduler. destruct (fi_scheds si !! s) as [fs|] eqn:Hs; [|by exists hm].
    exists hm. split; [|done]. eapply (pcs_held_same _ _ _ fs); [done|done|]. intros hs. unfold reaper_select. by destruct (fs_reaper fs).
  - unfold at_fscheduler. destruct (fi_scheds si !! s) as [fs|] eqn:Hs; [|exists st; split; [apply rtc_refl|by exists hm]].
    destruct (reaper_next_covers fs (fi_fabric si) _ st Hc) as (st' & Hr & Hc').
    assert (fs_relay (reaper_next fs (fi_fabric si)).1 = fs_relay fs) as Hpc
      by (unfold reaper_next; by destruct (reaper_act _ _ _)).
    destruct (reaper_next fs (fi_fabric si)) as [fs' f']. exists st'. split; [done|]. exists hm. split; [|done].
    eapply (pcs_held_same _ _ _ fs); [done|done|by rw Hpc].
  - apply Hsched. intros sc f. by apply follows_same.
  - apply Hsched. intros sc f. by apply follows_same.
  - apply Hwork. by apply act_follows.
  - apply Hwork. apply follows_same; [done|]. cbn. rw all_runners_insert. simpl. apply all_runners_delete.
  - apply Hwork. apply follows_same; [done|]. apply all_runners_delete.
  - exists st. split; [apply rtc_refl|]. exists (<[s := []]> hm). split; [by apply pcs_held_insert|].
    eapply covers_less; [|exact Hc]. rw all_handlers_insert. apply all_handlers_delete.
  - exists st. split; [apply rtc_refl|]. exists hm. split; [|done]. cbn [fi_scheds]. intros s' fs [_ Hs]%lookup_delete_Some. by apply Hpcs.
Qed.

Lemma frun_represented x g evs :
  ∃ st, reachable st ∧ frepresents (run_fevents evs (fsite_init x g)) st.
Proof using E_ok.
  assert (∀ si st, frepresents si st → ∃ st', rtc sys_any st st' ∧ frepresents (run_fevents evs si) st') as Hrun.
  { induction evs as [|ev evs IH]; intros si st Hst; [exists st; split; [apply rtc_refl|done]|].
    destruct (fstep_represented ev si st Hst) as (st1 & H1 & Hst1). destruct (IH _ _ Hst1) as (st2 & H2 & Hst2).
    exists st2. split; [by etrans|done]. }
  apply (Hrun (fsite_init x g) sys_init). exists ∅. split; [by intros s fs|]. split; [done|].
  split; [by apply submseteq_nil_l|]. by apply submseteq_nil_l.
Qed.
End interleaved.

(** ** Properties *)

(** C5: the system covers the programs, call by call. Whatever requests arrive,
    whichever schedulers believe to lead, and however the single calls of relays,
    reapers and worker goroutines interleave, with processes stopping and starting,
    calls and answers lost and statements failing: what the code has done to the
    tables is a run of the system from empty tables, in which every worker goroutine
    is a runner and every command in the hands of a relay is a handler at the same
    point. So whatever holds of the system's reachable states holds of the programs. *)
Theorem interleaved_refines_system {UU : PgUuid} {JE : JsonEnv} {M G : Type}
    (E : env) (rgo : Ranger outbox_row) (rgj : Ranger job_row) (rgw : Ranger WorkerState)
    (reporter : option (string → string → bool → stM M unit)) (lib : RaftLib G) (fate : nat → call_fate)
    (x : M) (g : G) (evs : list fevent) :
  env_ok E →
  let si := run_fevents E rgo rgj rgw reporter lib fate evs (fsite_init x g) in
  ∃ st hm, reachable st ∧ tables st = db (fb_world (fi_fabric si)) ∧ all_runners (fb_workers (fi_fabric si)) ⊆+ runners st ∧
    all_handlers hm ⊆+ handlers st ∧
    (∀ s fs, fi_scheds si !! s = Some fs → ∃ hs, hm !! s = Some hs ∧ pc_handlers (fs_relay fs) hs).
Proof.
  intros HE si. destruct (frun_represented E rgo rgj rgw reporter lib fate HE x g evs) as (st & Hr & hm & Hpcs & Ht & Hrun & Hh). eauto 10.
Qed.

(** Two schedulers that believe to lead claim the same command. *)
Definition demo_fsite_run (evs : list fevent) : fsite (list (string * bool)) (list string) :=
  run_fevents (UU := any_uuid) (JE := demo_json_env) demo_env (ranger_asc _) (ranger_asc _) (ranger_asc _)
    (Some (λ id _ ok log, (tt, log ++ [(id, ok)]))) accepting_lib (λ _, CallDelivered) evs (fsite_init [] []).

Definition both_claim : list fevent :=
  [FSchedulerStarts "scheduler-1" demo_disp; FSchedulerStarts "scheduler-2" demo_disp; FWorkerStarts "worker-1" "worker-1" 2;
   FRegisters "scheduler-1" 0 (mkRegisterWorkerRequest "worker-1" EmptyString 2);
   FRegisters "scheduler-2" 0 (mkRegisterWorkerRequest "worker-1" EmptyString 2);
   FSubmit "scheduler-1" true "scheduler-1" (mkSubmitJobRequest "demo" EmptyString);
   FTurn "scheduler-1" true Woken; FTurn "scheduler-2" true Ticked;
   FRelay "scheduler-1" (λ _, Second); FRelay "scheduler-2" (λ _, Second)].

(** The first places the job and closes the command; the worker runs it to its end. *)
Definition first_finishes : list fevent :=
  replicate 6 (FRelay "scheduler-1" (λ _, Second)) ++ replicate 3 (FActs "worker-1" 0).

(** The second goes on with what it claimed. *)
Definition second_goes_on : list fevent := replicate 3 (FRelay "scheduler-2" (λ _, Second)).

Lemma second_holds : ∃ fs e, fi_scheds (demo_fsite_run (both_claim ++ first_finishes)) !! "scheduler-2" = Some fs ∧
  fs_relay fs = PBatch [e] ∧ Status (e_Job e) = StatusPending.
Proof. eexists _, _. split; [vm_compute; reflexivity|]. split; vm_compute; reflexivity. Qed.

Lemma interleaved_refines_system_witness :
  ∃ st, reachable (UU := any_uuid) st ∧ j_status <$> jobs (tables st) !! "id-1" = Some StatusSucceeded ∧
    ∃ h, h ∈ handlers st ∧ ∃ e, h = HClaimed e ∧ Status (e_Job e) = StatusPending.
Proof.
  destruct (interleaved_refines_system (UU := any_uuid) (JE := demo_json_env) demo_env (ranger_asc _) (ranger_asc _)
    (ranger_asc _) (Some (λ id _ ok log, (tt, log ++ [(id, ok)]))) accepting_lib (λ _, CallDelivered)
    [] [] (both_claim ++ first_finishes) demo_env_ok) as (st & hm & Hr & Ht & _ & Hh & Hpcs).
  exists st. split; [exact Hr|]. split; [rw Ht; clear; vm_compute; reflexivity|].
  destruct second_holds as (fs & e & Hs & He & Hst). destruct (Hpcs "scheduler-2" fs Hs) as (hs & Hhm & Hpc). clear Hpcs Hs Ht.
  rw He in Hpc. cbn in Hpc. subst hs. exists (HClaimed e). split; [|by exists e].
  eapply elem_of_submseteq; [|exact Hh]. rw (all_handlers_lookup hm "scheduler-2" _ Hhm). by left.
Defined.

(** Both goroutines go on to the end. *)
Definition both_report : list fevent := FActs "worker-1" 0 :: replicate 4 (FActs "worker-1" 1).

