(* ===== verification/Progress.v ===== *)
(** * A job gets done

    What the running cluster (Cluster) achieves while nothing is in its way: the
    database works, calls to workers are answered, a scheduler leads. A relay turn
    places the waiting jobs, the goroutine it leaves behind carries a job to its
    outcome, and a job whose worker died is placed again. *)

From S2P Require Import Prelude GoRuntime Json Proto Store Registry Dispatch WorkerSvc Relay Reaper System RaftNode SchedulerSvc Lifecycle Cluster.
Local Open Scope Z_scope.

(** ** What a placement leaves alone *)

(** Jobs stay, with their attempt counts. *)
Definition jobs_kept (d d' : DB) : Prop :=
  ∀ u r, jobs d !! u = Some r → ∃ r', jobs d' !! u = Some r' ∧ j_attempts r' = j_attempts r.

(** Worker processes stay; their goroutines only grow in number. *)
Definition procs_kept (ws ws' : gmap string wproc) : Prop :=
  ∀ k p, ws !! k = Some p → ∃ p', ws' !! k = Some p' ∧
    WorkerSvc.instance (wp_srv p') = WorkerSvc.instance (wp_srv p) ∧ wp_threads p `prefix_of` wp_threads p'.

(** Worker [k] has room for [n] more jobs. *)
Definition room (ws : gmap string wproc) (k : string) (n : Z) : Prop :=
  ∃ p, ws !! k = Some p ∧ 0 ≤ inflightN (wp_srv p) ∧ capacity (wp_srv p) < 2 ^ 31 ∧
    n ≤ capacity (wp_srv p) - inflightN (wp_srv p).

(** Between two moments of a relay turn; at most [n] slots were taken anywhere. *)
Record slots_used {M G} (n : Z) (f f' : fabric M G) : Prop := {
  ev_jobs : jobs_kept (db (fb_world f)) (db (fb_world f'));
  ev_procs : procs_kept (fb_workers f) (fb_workers f');
  ev_stats : fb_stats f' = fb_stats f;
  ev_room k m : room (fb_workers f) k m → room (fb_workers f') k (m - n);
}.

(** Some worker has a goroutine about to run job [id]. *)
Definition placed_at (ws : gmap string wproc) (id raw : string) (k : string) (i : nat) : Prop :=
  ∃ p, ws !! k = Some p ∧ wp_threads p !! i = Some (RStart id raw).

Section frame.
Context {M G : Type}.
Implicit Types f : fabric M G.

Lemma jobs_kept_refl d : jobs_kept d d.
Proof. by eexists. Qed.

Lemma jobs_kept_trans d1 d2 d3 : jobs_kept d1 d2 → jobs_kept d2 d3 → jobs_kept d1 d3.
Proof. intros H1 H2 u r (r1 & Hr1 & E1)%H1. apply H2 in Hr1 as (r2 & Hr2 & E2). exists r2. split; [done|congruence]. Qed.

Lemma procs_kept_refl ws : procs_kept ws ws.
Proof. intros k p Hp. by exists p. Qed.

Lemma procs_kept_trans ws1 ws2 ws3 : procs_kept ws1 ws2 → procs_kept ws2 ws3 → procs_kept ws1 ws3.
Proof.
  intros H1 H2 k p (p1 & Hp1 & I1 & T1)%H1. apply H2 in Hp1 as (p2 & Hp2 & I2 & T2).
  exists p2. split; [done|]. split; [congruence|by etrans].
Qed.

Lemma room_le ws k m n : n ≤ m → room ws k m → room ws k n.
Proof. intros Hle (p & Hp & H0 & H1 & H2). exists p. split; [done|]. split; [done|]. split; [done|lia]. Qed.

Lemma slots_used_refl n f : 0 ≤ n → slots_used n f f.
Proof.
  intros Hn. split; [apply jobs_kept_refl|apply procs_kept_refl|done|]. intros k m. apply room_le. lia.
Qed.

Lemma slots_used_trans m n f1 f2 f3 : slots_used m f1 f2 → slots_used n f2 f3 → slots_used (m + n) f1 f3.
Proof.
  intros [J1 P1 S1 R1] [J2 P2 S2 R2]. split; [by eapply jobs_kept_trans|by eapply procs_kept_trans|congruence|].
  intros k l Hl%R1%R2. by replace (l - (m + n)) with (l - m - n) by lia.
Qed.

Lemma slots_used_le m n f f' : m ≤ n → slots_used m f f' → slots_used n f f'.
Proof. intros Hle [J P S R]. split; [done|done|done|]. intros k l Hl%R. eapply room_le; [|done]. lia. Qed.

Lemma placed_kept ws ws' id raw k i : procs_kept ws ws' → placed_at ws id raw k i → placed_at ws' id raw k i.
Proof.
  intros Hk (p & Hp & Hi). apply Hk in Hp as (p' & Hp' & _ & Hpre). exists p'. split; [done|].
  by eapply prefix_lookup_Some.
Qed.

(** A database call that keeps the jobs. *)
Lemma on_world_slots {A} (m : stM world A) f :
  jobs_kept (db (fb_world f)) (db (m (fb_world f)).2) → slots_used 0 f (on_world m f).2.
Proof.
  intros Hj. unfold on_world. destruct (m (fb_world f)) as [r w]. split; [done|apply procs_kept_refl|done|].
  intros k l. apply room_le. lia.
Qed.
End frame.

(** ** Lemmas: statements *)

Section statements.
Context {UU : PgUuid} (E : env).

Lemma exec_outbox_kept id g w : jobs_kept (db w) (db (exec E (λ now, update_outbox id (g now)) w).2).
Proof.
  apply (exec_inv E (jobs_kept (db w))); [|apply jobs_kept_refl].
  intros now d rows d' Hk [[_ ->]|(u & o & o' & _ & _ & _ & _ & ->)]%update_outbox_ok; done.
Qed.

Lemma exec_job_kept id g w :
  (∀ now r r', g now r = Ok r' → j_attempts r' = j_attempts r) →
  jobs_kept (db w) (db (exec E (λ now, update_job id (g now)) w).2).
Proof.
  intros Hg. apply (exec_inv E (jobs_kept (db w))); [|apply jobs_kept_refl].
  intros now d rows d' Hk [[_ ->]|(u & r & r' & _ & Hr & Hf & _ & ->)]%update_job_ok; [done|].
  intros u0 r0 (r1 & Hr1 & E1)%Hk. cbn [jobs]. destruct (decide (u = u0)) as [->|Hne].
  - exists r'. rw lookup_insert_eq. split; [done|]. simplify_eq. rw (Hg _ _ _ Hf). congruence.
  - exists r1. by rw lookup_insert_ne.
Qed.

Hypothesis healthy : ∀ n, env_fault E n = NoFault.

(** An update of a job that is there succeeds. *)
Lemma exec_job_ok id u g r r' w :
  pg_uuid id = Some u → jobs (db w) !! u = Some r → g (env_now E (tick w)) r = Ok r' →
  exec E (λ now, update_job id (g now)) w = (Ok tt, mkWorld (mkDB (<[u := r']> (jobs (db w))) (outbox (db w))) (S (tick w))).
Proof using healthy. intros Hu Hr Hg. unfold exec, update_job. by rw healthy Hu Hr Hg. Qed.
End statements.

(** ** Lemmas: offering a job *)

Section placing.
Context {UU : PgUuid} {JE : JsonEnv} {M G : Type}.
Context (E : env) (rgo : Ranger outbox_row) (rgw : Ranger WorkerState) (lib : RaftLib G) (fate : nat → call_fate).
Hypothesis healthy : ∀ n, env_fault E n = NoFault.
Hypothesis delivered : ∀ n, fate n = CallDelivered.
Implicit Types f : fabric M G.

(** A call that changed nothing but the number of calls. *)
Definition only_called f f' : Prop :=
  fb_world f' = fb_world f ∧ fb_stats f' = fb_stats f ∧ fb_workers f' = fb_workers f.

Lemma only_called_slots f f' : only_called f f' → slots_used 0 f f'.
Proof.
  intros (Hw & Hs & Hp). split; rw ?Hw ?Hp //; [apply jobs_kept_refl|apply procs_kept_refl|].
  intros k m. apply room_le. lia.
Qed.

(** An offer to worker [k]: it takes the job exactly when it has a free slot. *)
Lemma call_worker_outcome k req f u r :
  ejr_JobId req ≠ EmptyString → pg_uuid (ejr_JobId req) = Some u → jobs (db (fb_world f)) !! u = Some r →
  let '(res, f') := call_worker E fate k req f in
  if is_ok res
  then slots_used 1 f f' ∧ ∃ i, placed_at (fb_workers f') (ejr_JobId req) (ejr_Payload req) k i
  else only_called f f' ∧ ¬ room (fb_workers f) k 1.
Proof using healthy delivered.
  intros Hid Hu Hr. unfold call_worker. rw delivered.
  destruct (fb_workers f !! k) as [p|] eqn:Hp.
  2: { simpl. split; [done|]. intros (p & Hp' & _). congruence. }
  unfold run_call, WorkerSvc.ExecuteJob. destruct (String.eqb_spec (ejr_JobId req) EmptyString); [done|].
  destruct (Z.leb_spec (capacity (wp_srv p)) (inflightN (wp_srv p))) as [Hfull|Hfree].
  { simpl. split; [|intros (p' & Hp' & _ & _ & Hn); simplify_eq; lia]. split; [done|]. split; [done|]. simpl.
    rw app_nil_r insert_id //. by destruct p. }
  unfold st_bind. cbn [js_MarkScheduled worker_store beside]. unfold MarkScheduled.
  rw (exec_job_ok E healthy (ejr_JobId req) u (λ now r, Ok (set_scheduled now (WorkerSvc.instance (wp_srv p)) r)) r
    _ _ Hu Hr eq_refl). cbn [st_ret is_ok fmap option_fmap option_map option_list].
  set (p' := mkWproc _ _). assert (wp_threads p `prefix_of` wp_threads p') as Hpre by (by eexists).
  split; [split|].
  - intros u0 r0 Hr0. cbn [fb_world db jobs]. destruct (decide (u = u0)) as [->|Hne].
    + rw lookup_insert_eq. eexists. split; [done|]. by simplify_eq.
    + rw lookup_insert_ne //. eauto.
  - intros k0 p0 Hp0. cbn [fb_workers]. destruct (decide (k = k0)) as [->|Hne].
    + exists p'. rw lookup_insert_eq. by simplify_eq.
    + exists p0. by rw lookup_insert_ne.
  - done.
  - intros k0 m (p0 & Hp0 & H0 & H1 & H2). cbn [fb_workers]. destruct (decide (k = k0)) as [->|Hne].
    + exists p'. rw lookup_insert_eq. split; [done|]. simplify_eq. unfold p'. cbn. rw i32_small; lia.
    + exists p0. rw lookup_insert_ne //. split; [done|]. split; [done|]. split; [done|lia].
  - exists (length (wp_threads p)), p'. cbn [fb_workers]. rw lookup_insert_eq. split; [done|].
    unfold p'. cbn [wp_threads]. by rw lookup_app_r // Nat.sub_diag.
Qed.

(** The offers of a dispatch to [ks], one of which has room. *)
Lemma offer_places job lastErr ks f u r k :
  ID job ≠ EmptyString → pg_uuid (ID job) = Some u → jobs (db (fb_world f)) !! u = Some r →
  k ∈ ks → room (fb_workers f) k 1 →
  ∃ inst f' k' i, offer (call_worker E fate) job lastErr ks f = (Ok inst, f') ∧ slots_used 1 f f' ∧
    placed_at (fb_workers f') (ID job) (Payload job) k' i.
Proof using healthy delivered.
  intros Hid Hu. revert lastErr f. induction ks as [|k1 ks IH]; intros lastErr f Hr Hk Hroom; [set_solver|].
  cbn [offer]. unfold st_bind.
  pose proof (call_worker_outcome k1 (mkExecuteJobRequest (ID job) (Name job) (Payload job)) f u r Hid Hu Hr) as Hc.
  destruct (call_worker E fate k1 _ f) as [[resp|e] f1]; cbn [is_ok ejr_JobId ejr_Payload] in Hc.
  - destruct Hc as [Hs [i Hi]]. by exists (ejr_WorkerInstance resp), f1, k1, i.
  - destruct Hc as [Hc Hno]. assert (k ∈ ks) as Hk' by (apply elem_of_cons in Hk as [->|]; done).
    pose proof (only_called_slots _ _ Hc) as Hs. destruct Hc as (Hw & _ & Hp).
    destruct (IH (Some e) f1) as (inst & f' & k' & i & Ho & Hs' & Hi); [by rw Hw|done|by rw Hp|].
    exists inst, f', k', i. split; [done|]. split; [by apply (slots_used_trans 0 1 f f1 f')|done].
Qed.

(** The offers of a dispatch in any case. *)
Lemma offer_slots job lastErr ks f u r :
  ID job ≠ EmptyString → pg_uuid (ID job) = Some u → jobs (db (fb_world f)) !! u = Some r →
  slots_used 1 f (offer (call_worker E fate) job lastErr ks f).2.
Proof using healthy delivered.
  intros Hid Hu. revert lastErr f. induction ks as [|k1 ks IH]; intros lastErr f Hr; cbn [offer].
  { by apply slots_used_refl. }
  unfold st_bind.
  pose proof (call_worker_outcome k1 (mkExecuteJobRequest (ID job) (Name job) (Payload job)) f u r Hid Hu Hr) as Hc.
  destruct (call_worker E fate k1 _ f) as [[resp|e] f1]; cbn [is_ok] in Hc; [by destruct Hc|].
  destruct Hc as [Hc _]. pose proof (only_called_slots _ _ Hc) as Hs. destruct Hc as (Hw & _ & _).
  apply (slots_used_trans 0 1 f f1 _ Hs), IH. by rw Hw.
Qed.
End placing.

(** ** Lemmas: a relay turn *)

Section turn.
Context {UU : PgUuid} {JE : JsonEnv} {M G : Type}.
Context (E : env) (rgo : Ranger outbox_row) (rgw : Ranger WorkerState) (lib : RaftLib G) (fate : nat → call_fate).
Hypothesis healthy : ∀ n, env_fault E n = NoFault.
Hypothesis delivered : ∀ n, fate n = CallDelivered.
Implicit Types f : fabric M G.

(** A scheduler that sees worker [k] as available throughout. *)
Context (reg : Registry) (disp : Dispatcher) (now : nat → Z) (k : string).
Hypothesis known : k ∈ byName disp.
Hypothesis available : ∀ n, k ∈ Available rgw (now n) reg.

Abbreviation hnd := (handle (relay_store E rgo) (code_dispatch (candidates (M := M) (G := G) rgw reg now) (call_worker E fate) disp)
  (log_placement lib now)).

(** A claimed entry whose job is in the table. *)
Definition entry_ok f (e : OutboxEntry) : Prop :=
  ID (e_Job e) ≠ EmptyString ∧ ∃ u r, pg_uuid (ID (e_Job e)) = Some u ∧ jobs (db (fb_world f)) !! u = Some r.

(** One the relay has to dispatch. *)
Definition due (e : OutboxEntry) : Prop :=
  Status (e_Job e) = StatusPending ∧ Attempts (e_Job e) < maxExecutionAttempts ∧ e_Attempts e < maxDispatchAttempts.

Lemma entry_ok_kept n f f' e : slots_used n f f' → entry_ok f e → entry_ok f' e.
Proof.
  intros [Hj _ _ _] (Hid & u & r & Hu & Hr). split; [done|]. apply Hj in Hr as (r' & Hr' & _). eauto.
Qed.

Lemma finished_slots f id ok msg : slots_used 0 f (on_world (MarkFinished E id ok msg) f).2.
Proof.
  apply on_world_slots, (exec_job_kept E id (λ now r, Ok (set_finished now (if negb ok then StatusFailed else StatusSucceeded) msg r))).
  by intros ? ? ? [= <-].
Qed.

Lemma dispatched_slots f id : slots_used 0 f (on_world (MarkOutboxDispatched E id) f).2.
Proof. by apply on_world_slots, (exec_outbox_kept E id (λ now o, Ok (mkOutboxRow (o_job o) OutboxDispatched (o_attempts o)
    (o_error o) (o_created o) (Some now)))). Qed.

Lemma failed_slots f id msg : slots_used 0 f (on_world (MarkOutboxFailed E id msg) f).2.
Proof. by apply on_world_slots, (exec_outbox_kept E id (λ now o, Ok (mkOutboxRow (o_job o) OutboxFailed (o_attempts o)
    (Some msg) (o_created o) (o_dispatched o)))). Qed.

Lemma record_slots f id msg : slots_used 0 f (on_world (RecordOutboxFailure E id msg) f).2.
Proof. by apply on_world_slots, (exec_outbox_kept E id (λ now o, match incr_int4 (o_attempts o) with
    | Err e => Err e
    | Ok n => Ok (mkOutboxRow (o_job o) (o_status o) n (Some msg) (o_created o) (o_dispatched o)) end)). Qed.

Lemma log_slots f id wk : slots_used 0 f (log_placement lib now id wk f).2.
Proof. unfold log_placement. destruct (ApplyPlacement _ _ _ _ _). by apply only_called_slots. Qed.

Lemma abandon_slots e reason f : slots_used 0 f (abandon (relay_store E rgo) e reason f).2.
Proof.
  unfold abandon, st_bind. cbn [relay_store rs_MarkOutboxFailed rs_MarkFinished pg_relay_store].
  pose proof (failed_slots f (e_ID e) reason) as H1. destruct (on_world _ f) as [r1 f1]. cbn [snd] in H1.
  pose proof (finished_slots f1 (ID (e_Job e)) false reason) as H2. destruct (on_world _ f1) as [r2 f2]. cbn [snd st_ret] in *.
  by apply (slots_used_trans 0 0 f f1 f2).
Qed.

(** Handling a claimed entry takes at most a slot, and places the job if it is due
    and the worker has room. *)
Lemma handle_places e f :
  entry_ok f e →
  slots_used 1 f (hnd e f).2 ∧
  (due e → room (fb_workers f) k 1 →
     ∃ k' i, placed_at (fb_workers (hnd e f).2) (ID (e_Job e)) (Payload (e_Job e)) k' i).
Proof using healthy delivered known available.
  intros (Hid & u & r & Hu & Hr). destruct (hnd e f) as [[] f'] eqn:Hh. cbn [snd]. revert Hh. unfold handle, due.
  destruct (String.eqb_spec (Status (e_Job e)) StatusPending) as [Hs|Hs]; cbn [negb].
  2: { unfold st_bind. cbn [relay_store rs_MarkOutboxDispatched pg_relay_store].
       pose proof (dispatched_slots f (e_ID e)) as H. destruct (on_world _ f) as [r1 f1]. intros [= <-].
       split; [by eapply slots_used_le; [|exact H]|]. by intros [? _]. }
  destruct (Z.leb_spec maxExecutionAttempts (Attempts (e_Job e))) as [Hx|Hx].
  { intros Hh. pose proof (abandon_slots e (execution_reason e) f) as H. rw Hh in H.
    split; [by eapply slots_used_le; [|exact H]|lia]. }
  destruct (Z.leb_spec maxDispatchAttempts (e_Attempts e)) as [Hy|Hy].
  { intros Hh. pose proof (abandon_slots e (dispatch_reason e) f) as H. rw Hh in H.
    split; [by eapply slots_used_le; [|exact H]|lia]. }
  unfold st_bind at 1. unfold code_dispatch at 1, Dispatch.Dispatch. cbn [eligible candidates].
  set (ks := filter (λ name, name ∈ byName disp) (Available rgw (now (fb_calls f)) reg)).
  assert (k ∈ ks) as Hk by (apply list_elem_of_filter; done).
  destruct (Nat.eqb_spec (length ks) 0) as [Hl|Hl]; [apply nil_length_inv in Hl; rw Hl in Hk; set_solver|].
  pose proof (offer_slots E fate healthy delivered (e_Job e) None ks f u r Hid Hu Hr) as Hsl.
  pose proof (offer_places E fate healthy delivered (e_Job e) None ks f u r k Hid Hu Hr Hk) as Hpl.
  destruct (offer _ (e_Job e) None ks f) as [[inst|er] f1]; cbn [snd] in Hsl; unfold st_bind.
  - cbn [relay_store rs_MarkOutboxDispatched pg_relay_store].
    pose proof (dispatched_slots f1 (e_ID e)) as H1. destruct (on_world _ f1) as [r1 f2]. cbn [snd] in H1.
    pose proof (log_slots f2 (ID (e_Job e)) inst) as H2. destruct (log_placement _ _ _ _ f2) as [r2 f3]. intros [= <-].
    pose proof (slots_used_trans 0 0 f1 f2 f3 H1 H2) as H3. split; [by apply (slots_used_trans 1 0 f f1 f3)|].
    intros _ Hroom. destruct (Hpl Hroom) as (inst' & f'' & k' & i & [= <- <-] & _ & Hp).
    exists k', i. eapply placed_kept; [|done]. apply H3.
  - cbn [relay_store rs_RecordOutboxFailure pg_relay_store].
    pose proof (record_slots f1 (e_ID e) (err_string er)) as H1. destruct (on_world _ f1) as [r1 f2]. intros [= <-].
    split; [by apply (slots_used_trans 1 0 f f1 f2)|]. intros _ Hroom. by destruct (Hpl Hroom) as (? & ? & ? & ? & ? & _).
Qed.

Lemma batch_places es f :
  Forall (entry_ok f) es → room (fb_workers f) k (Z.of_nat (length es)) →
  let f' := (st_iter hnd es f).2 in
  slots_used (Z.of_nat (length es)) f f' ∧
  Forall (λ e, due e → ∃ k' i, placed_at (fb_workers f') (ID (e_Job e)) (Payload (e_Job e)) k' i) es.
Proof using healthy delivered known available.
  revert f. induction es as [|e es IH]; intros f Hes Hroom; cbn [st_iter length].
  { split; [by apply slots_used_refl|constructor]. }
  inversion_clear Hes as [|? ? He Hes']. destruct (handle_places e f He) as [Hsl Hpl]. unfold st_bind.
  destruct (hnd e f) as [[] f1]. cbn [snd] in *.
  destruct (IH f1) as [Hsl' Hpl'].
  { eapply Forall_impl; [exact Hes'|]. intros e'. by eapply entry_ok_kept. }
  { eapply room_le; [|apply (ev_room _ _ _ Hsl), Hroom]. cbn [length]. lia. }
  cbv zeta in *. split.
  - replace (Z.of_nat (S (length es))) with (1 + Z.of_nat (length es)) by lia. by eapply slots_used_trans.
  - constructor; [|done]. intros Hdue. destruct (Hpl Hdue) as (k' & i & Hp).
    { eapply room_le; [|exact Hroom]. cbn [length]. lia. }
    exists k', i. eapply placed_kept; [|done]. apply Hsl'.
Qed.

(** The whole turn. *)
Lemma drain_places f :
  let es := sql_claim_outbox rgo drainBatch (db (fb_world f)) in
  let f' := (drain (relay_store E rgo) (code_dispatch (candidates (M := M) (G := G) rgw reg now) (call_worker E fate) disp)
    (log_placement lib now) f).2 in
  (∀ u, is_Some (jobs (db (fb_world f)) !! u) → pg_uuid u = Some u ∧ u ≠ EmptyString) →
  room (fb_workers f) k (Z.of_nat (length es)) →
  slots_used (Z.of_nat (length es)) f f' ∧
  ∀ e, e ∈ es → due e → ∃ k' i, placed_at (fb_workers f') (ID (e_Job e)) (Payload (e_Job e)) k' i.
Proof using healthy delivered known available.
  intros es f' Hids Hroom.
  set (f1 := mkFabric (mkWorld (db (fb_world f)) (S (tick (fb_world f)))) (fb_stats f) (fb_group f) (fb_workers f) (fb_calls f)).
  assert (f' = (st_iter hnd es f1).2) as ->.
  { subst f'. unfold drain, st_bind. cbn [relay_store rs_ClaimOutbox pg_relay_store].
    unfold on_world at 1. unfold ClaimOutbox, query. by rw healthy. }
  assert (Forall (entry_ok f1) es) as Hes.
  { apply Forall_forall. intros e (o & r & _ & _ & _ & Hr & Hj)%claim_elem. destruct (Hids (o_job o) ltac:(by eexists)) as [Hu Hne].
    split; [by rw Hj|]. exists (o_job o), r. by rw Hj. }
  destruct (batch_places es f1 Hes Hroom) as [[J P S R] Hpl]. split; [by split|].
  rewrite ->Forall_forall in Hpl. done.
Qed.
End turn.

(** ** Lemmas: a goroutine runs its job *)

(** The status a job with payload [raw] ends in. *)
Definition outcome_status {JE : JsonEnv} (raw : string) : string :=
  if (finish_args (execute raw).2).1 then StatusSucceeded else StatusFailed.

(** The statistics after a job's outcome was reported. *)
Definition reported {M} (reporter : option (string → string → bool → stM M unit)) (x : M) (inst id : string) (ok : bool) : M :=
  match reporter with Some rep => (rep id inst ok x).2 | None => x end.

Section running.
Context {UU : PgUuid} {JE : JsonEnv} {M G : Type}.
Context (E : env) (reporter : option (string → string → bool → stM M unit)).
Hypothesis healthy : ∀ n, env_fault E n = NoFault.
Implicit Types f : fabric M G.

(** Goroutine [i] of worker [k], of instance [inst], is at point [t]. *)
Definition at_point f (k : string) (i : nat) (inst : string) (t : thread) : Prop :=
  ∃ p, fb_workers f !! k = Some p ∧ WorkerSvc.instance (wp_srv p) = inst ∧ wp_threads p !! i = Some t.

Abbreviation act k i := (at_worker (G := G) k (λ p, act_thread E reporter p i)).

Lemma act_point f k i inst t t' w x :
  at_point f k i inst t →
  (∀ srv, WorkerSvc.instance srv = inst → ∃ srv', WorkerSvc.instance srv' = inst ∧
     thread_step (JS := worker_store E) (worker_reporter reporter) srv t (fb_world f, fb_stats f) =
       (Some (srv', t', None), (w, x))) →
  at_point (act k i f) k i inst t' ∧ fb_world (act k i f) = w ∧ fb_stats (act k i f) = x.
Proof.
  intros (p & Hp & Hi & Ht) Hs. destruct (Hs (wp_srv p) Hi) as (srv' & Hi' & Hst).
  unfold at_worker, act_thread. rw Hp Ht Hst. cbn [option_list]. rw app_nil_r. split; [|done].
  eexists. cbn [fb_workers]. split; [apply lookup_insert_eq|]. split; [done|]. cbn [wp_threads].
  apply list_lookup_insert_eq. by eapply lookup_lt_Some.
Qed.

(** Starting the job and executing it. *)
Lemma goroutine_starts f k i inst id raw u r :
  at_point f k i inst (RStart id raw) → pg_uuid id = Some u → jobs (db (fb_world f)) !! u = Some r →
  j_attempts r + 1 < 2 ^ 31 →
  let '(ok, msg) := finish_args (execute raw).2 in
  let f' := act k i (act k i f) in
  at_point f' k i inst (WorkerSvc.RFinish id ok msg) ∧ fb_stats f' = fb_stats f ∧
  ∃ now, jobs (db (fb_world f')) !! u = Some (set_running now (j_attempts r + 1) r).
Proof using healthy.
  intros Hpt Hu Hr Hn. destruct (finish_args (execute raw).2) as [ok msg] eqn:Hf. cbv zeta.
  set (r1 := set_running (env_now E (tick (fb_world f))) (j_attempts r + 1) r).
  destruct (act_point f k i inst _ (RExec id raw)
    (mkWorld (mkDB (<[u := r1]> (jobs (db (fb_world f)))) (outbox (db (fb_world f)))) (S (tick (fb_world f)))) (fb_stats f) Hpt)
    as (Hpt1 & Hw1 & Hs1).
  { intros srv Hi. exists srv. split; [done|]. cbn [thread_step]. unfold st_bind. cbn [js_MarkRunning worker_store beside].
    unfold MarkRunning, sql_mark_running. rw (exec_job_ok E healthy id u (λ now r, match incr_int4 (j_attempts r) with
      | Err e => Err e | Ok n => Ok (set_running now n r) end) r r1 _ Hu Hr); [done|].
    unfold incr_int4. by rw (proj2 (Z.ltb_lt _ _) Hn). }
  destruct (act_point (act k i f) k i inst _ (WorkerSvc.RFinish id ok msg) (fb_world (act k i f)) (fb_stats (act k i f)) Hpt1)
    as (Hpt2 & Hw2 & Hs2).
  { intros srv Hi. exists srv. split; [done|]. cbn [thread_step]. by rw Hf. }
  split; [done|]. split; [congruence|]. eexists. rw Hw2 Hw1. apply lookup_insert_eq.
Qed.

(** Recording and reporting the outcome, and the deferred counter updates. *)
Lemma goroutine_ends f k i inst id ok msg u r :
  at_point f k i inst (WorkerSvc.RFinish id ok msg) → pg_uuid id = Some u → jobs (db (fb_world f)) !! u = Some r →
  let f' := Nat.iter 4 (act k i) f in
  (∃ now, jobs (db (fb_world f')) !! u = Some (set_finished now (if ok then StatusSucceeded else StatusFailed) msg r)) ∧
  fb_stats f' = reported reporter (fb_stats f) inst id ok.
Proof using healthy.
  intros Hpt Hu Hr. cbn [Nat.iter].
  set (r1 := set_finished (env_now E (tick (fb_world f))) (if negb ok then StatusFailed else StatusSucceeded) msg r).
  destruct (act_point f k i inst _ (RReport id ok)
    (mkWorld (mkDB (<[u := r1]> (jobs (db (fb_world f)))) (outbox (db (fb_world f)))) (S (tick (fb_world f)))) (fb_stats f) Hpt)
    as (Hpt1 & Hw1 & Hs1).
  { intros srv Hi. exists srv. split; [done|]. cbn [thread_step]. unfold st_bind. cbn [js_MarkFinished worker_store beside].
    unfold MarkFinished. by rw (exec_job_ok E healthy id u (λ now r, Ok (set_finished now
      (if negb ok then StatusFailed else StatusSucceeded) msg r)) r r1 _ Hu Hr). }
  set (f1 := act k i f) in *.
  destruct (act_point f1 k i inst _ RRelease (fb_world f1) (reported reporter (fb_stats f1) inst id ok) Hpt1)
    as (Hpt2 & Hw2 & Hs2).
  { intros srv Hi. exists srv. split; [done|]. cbn [thread_step]. unfold st_bind, report, worker_reporter, reported. rw Hi.
    destruct reporter as [rep|]; cbn [fmap option_fmap option_map]; [|done]. by destruct (rep _ _ _ _) as [[] x']. }
  set (f2 := act k i f1) in *.
  destruct (act_point f2 k i inst _ WorkerSvc.RDone (fb_world f2) (fb_stats f2) Hpt2) as (Hpt3 & Hw3 & Hs3).
  { intros srv Hi. by exists (add_inflightN (-1) srv). }
  set (f3 := act k i f2) in *.
  destruct (act_point f3 k i inst _ REnd (fb_world f3) (fb_stats f3) Hpt3) as (_ & Hw4 & Hs4).
  { intros srv Hi. by exists (add_inflight (-1) srv). }
  rw Hw4 Hw3 Hw2 Hw1 Hs4 Hs3 Hs2 Hs1. split; [|done]. eexists. cbn [db jobs]. rw lookup_insert_eq. unfold r1. by destruct ok.
Qed.

Lemma goroutine_finishes f k i inst id raw u r :
  at_point f k i inst (RStart id raw) → pg_uuid id = Some u → jobs (db (fb_world f)) !! u = Some r →
  j_attempts r + 1 < 2 ^ 31 →
  let f' := Nat.iter 6 (act k i) f in
  (∃ r', jobs (db (fb_world f')) !! u = Some r' ∧ j_status r' = outcome_status raw ∧
     j_attempts r' = j_attempts r + 1) ∧
  fb_stats f' = reported reporter (fb_stats f) inst id (finish_args (execute raw).2).1.
Proof using healthy.
  intros Hpt Hu Hr Hn. pose proof (goroutine_starts f k i inst id raw u r Hpt Hu Hr Hn) as H. unfold outcome_status.
  destruct (finish_args (execute raw).2) as [ok msg]. destruct H as (Hpt1 & Hs1 & now1 & Hr1).
  destruct (goroutine_ends _ k i inst id ok msg u _ Hpt1 Hu Hr1) as ((now2 & Hr2) & Hs2).
  cbn [Nat.iter] in *. split; [|by rw Hs2 Hs1]. eexists. split; [exact Hr2|]. by destruct ok.
Qed.
End running.

(** ** Lemmas: from a waiting job to its outcome *)

Section outcome.
Context {UU : PgUuid} {JE : JsonEnv} {M G : Type}.
Context (E : env) (rgo : Ranger outbox_row) (rgj : Ranger job_row) (rgw : Ranger WorkerState).
Context (reporter : option (string → string → bool → stM M unit)) (lib : RaftLib G) (fate : nat → call_fate).
Hypothesis healthy : ∀ n, env_fault E n = NoFault.
Hypothesis delivered : ∀ n, fate n = CallDelivered.
Implicit Types si : site M G.

Abbreviation run := (run_events (M := M) (G := G) E rgo rgj rgw reporter lib fate).
Abbreviation db_of si := (db (fb_world (si_fabric si))).

Definition named_jobs (d : DB) : Prop := ∀ u, is_Some (jobs d !! u) → pg_uuid u = Some u ∧ u ≠ EmptyString.

(** Worker [k] can take the whole batch that scheduler [s] claims next. *)
Definition ready si (s k : string) (now : nat → Z) : Prop :=
  ∃ sc, si_scheds si !! s = Some sc ∧ k ∈ byName (sc_disp sc) ∧ (∀ n, k ∈ Available rgw (now n) (sc_reg sc)) ∧
    let es := sql_claim_outbox rgo drainBatch (db_of si) in
    Z.of_nat (length es) < drainBatch ∧ room (fb_workers (si_fabric si)) k (Z.of_nat (length es)).

Lemma acts_run n k i si :
  run (replicate n (Acts k i)) si =
    mkSite (Nat.iter n (at_worker k (λ p, act_thread E reporter p i)) (si_fabric si)) (si_scheds si).
Proof.
  revert si. induction n as [|n IH]; intros si; [by destruct si|]. cbn [replicate]. unfold run_events. cbn [foldl].
  fold (run (replicate n (Acts k i)) (step E rgo rgj rgw reporter lib fate (Acts k i) si)). rw IH. cbn [step si_fabric si_scheds].
  f_equal. symmetry. apply Nat.iter_succ_r.
Qed.

Lemma waiting_job_done si s k now c o id x :
  named_jobs (db_of si) → ready si s k now →
  outbox (db_of si) !! c = Some o → o_status o = OutboxPending → o_job o = id → o_attempts o < maxDispatchAttempts →
  jobs (db_of si) !! id = Some x → j_status x = StatusPending → j_attempts x < maxExecutionAttempts →
  ∃ k' i inst, let si' := run (RelayTurn s true Ticked now :: replicate 6 (Acts k' i)) si in
    (∃ x', jobs (db_of si') !! id = Some x' ∧ j_status x' = outcome_status (j_payload x) ∧ j_attempts x' = j_attempts x + 1) ∧
    fb_stats (si_fabric si') =
      reported reporter (fb_stats (si_fabric si)) inst id (finish_args (execute (j_payload x)).2).1.
Proof using healthy delivered.
  intros Hids (sc & Hsc & Hk & Hav & Hlen & Hroom) Ho Hop <- Hoa Hx Hxp Hxa.
  set (es := sql_claim_outbox rgo drainBatch (db_of si)) in *.
  destruct (drain_places E rgo rgw lib fate healthy delivered (sc_reg sc) (sc_disp sc) now k Hk Hav (si_fabric si) Hids Hroom)
    as [[Hj Hp Hst _] Hpl]. fold es in Hpl.
  assert (∃ e, e ∈ es ∧ e_ID e = c) as (e & He & Hec).
  { destruct (decide (c ∈ e_ID <$> es)) as [(e & -> & He)%list_elem_of_fmap|Hni]; [by exists e|]. exfalso.
    destruct (claim_window rgo drainBatch (db_of si) c o) as [Hfull _]; [done|done|done|by eexists|done|]. unfold es in Hlen. lia. }
  destruct (claim_elem _ _ _ _ He) as (o' & r & Ho' & _ & Hoa' & Hr & Hjob). rw Hec in Ho'. simplify_eq.
  destruct (Hpl e He) as (k' & i & Hpt); [split; [|split]; rw ?Hjob //=; lia|].
  destruct Hpt as (p & Hp' & Ht). rw Hjob in Ht. cbn [ID Payload scanJob] in Ht.
  destruct (Hj _ _ Hx) as (x1 & Hx1 & Ha1). destruct (Hids (o_job o) ltac:(by eexists)) as [Hu _].
  destruct (goroutine_finishes E reporter healthy _ k' i _ (o_job o) (j_payload x) (o_job o) x1
    ltac:(by exists p) Hu Hx1 ltac:(unfold maxExecutionAttempts in Hxa; lia)) as [(x' & Hx' & Hs' & Ha') Hst'].
  exists k', i, (WorkerSvc.instance (wp_srv p)). cbv zeta. unfold run_events. cbn [foldl].
  fold (run (replicate 6 (Acts k' i)) (step E rgo rgj rgw reporter lib fate (RelayTurn s true Ticked now) si)).
  rw acts_run. cbn [si_fabric step]. unfold at_scheduler. rw Hsc. unfold relay_turn. cbn [run_select si_fabric].
  rw Hst in Hst'. split; [|exact Hst']. exists x'. split; [exact Hx'|]. split; [done|congruence].
Qed.
End outcome.

Section recovery.
Context {UU : PgUuid} {JE : JsonEnv} {M G : Type}.
Context (E : env) (rgo : Ranger outbox_row) (rgj : Ranger job_row) (rgw : Ranger WorkerState).
Context (reporter : option (string → string → bool → stM M unit)) (lib : RaftLib G) (fate : nat → call_fate).
Hypothesis healthy : ∀ n, env_fault E n = NoFault.
Implicit Types si : site M G.

(** A sweep that finds worker [wk] dead gives its jobs a fresh command. *)
Lemma reaper_requeues si s sc t wk id x :
  si_scheds si !! s = Some sc → reg_ok (sc_reg sc) → wk ∈ Dead rgw t (sc_reg sc) →
  named_jobs (db (fb_world (si_fabric si))) → uuids_fresh E (fb_world (si_fabric si)) →
  jobs (db (fb_world (si_fabric si))) !! id = Some x → reclaimable wk x = true →
  let si' := step E rgo rgj rgw reporter lib fate (ReaperTick s true t) si in
  named_jobs (db (fb_world (si_fabric si'))) ∧ fb_stats (si_fabric si') = fb_stats (si_fabric si) ∧
  ∃ now oid, jobs (db (fb_world (si_fabric si'))) !! id = Some (set_reclaimed now x) ∧
    outbox (db (fb_world (si_fabric si'))) !! oid = Some (new_outbox_row id now).
Proof using healthy.
  intros Hsc Hreg Hdead Hids Hfresh Hx Hrec. cbn [step]. unfold at_scheduler. rw Hsc. unfold reaper_tick, run_tick, sweep.
  cbn [negb]. set (sh := mkShared (fb_world (si_fabric si)) (sc_reg sc) (sc_wake sc)). cbn [s_reg sh].
  destruct (sweep_loop (ReclaimJobs E rgj) false (Dead rgw t (sc_reg sc)) sh) as [b sh'] eqn:Hl.
  assert (∀ u, is_Some (jobs (db (s_store sh)) !! u) → pg_uuid u = Some u) as Hids' by (intros u Hu; by apply Hids).
  destruct (sweep_loop_spec E rgj _ _ _ _ _ Hids' Hl) as ((Hdom & Hsub & Hrows) & _ & _ & _ & Hreg' & _).
  pose proof (sweep_loop_healthy E rgj healthy (Dead rgw t (sc_reg sc)) false sh Hids' Hfresh) as Hh. rw Hl in Hh.
  destruct Hh as [Hgone _]. specialize (Hgone wk Hdead).
  assert (is_Some (Registry.workers (sc_reg sc) !! wk)) as [w0 Hw0] by (apply elem_of_Dead in Hdead as (w & Hw & _); [by eexists|done]).
  assert (∀ id x, jobs (db (s_store sh')) !! id = Some x → reclaimable wk x = false) as Hnone.
  { destruct (Hreg' wk) as [He|(_ & _ & H)]; [|done]. rw Hgone in He. cbn [sh s_reg] in He. congruence. }
  assert (s_store (if b then mkShared (s_store sh') (s_reg sh') (Wake (s_wake sh')) else sh') = s_store sh') as Hst
    by (by destruct b).
  cbn [si_fabric fb_world fb_stats]. rw Hst. split; [|split; [done|]].
  - intros u Hu. apply Hids. apply elem_of_dom. change (db (fb_world (si_fabric si))) with (db (s_store sh)). rw -Hdom.
    by apply elem_of_dom.
  - destruct (Hrows id x Hx) as [Hx'|(n & now & oid & _ & _ & Hx' & _ & Ho)]; [|eauto].
    rw (Hnone id x Hx') in Hrec. done.
Qed.
End recovery.

(** ** Properties *)

(** C6: a waiting job gets done. When the database works, calls to workers are
    answered, a scheduler that leads sees some configured worker as available, its
    next batch is not full and that worker has room for it, then one turn of the
    relay and the six actions of the goroutine it leaves behind take any pending
    job within its budgets, whose command is pending too, to the status its payload
    asks for, with one more attempt, and report the outcome exactly once. *)
Theorem job_completes {UU : PgUuid} {JE : JsonEnv} {M G : Type}
    (E : env) (rgo : Ranger outbox_row) (rgj : Ranger job_row) (rgw : Ranger WorkerState)
    (reporter : option (string → string → bool → stM M unit)) (lib : RaftLib G) (fate : nat → call_fate)
    (si : site M G) (s k : string) (now : nat → Z) (c id : string) (o : outbox_row) (x : job_row) :
  (∀ n, env_fault E n = NoFault) → (∀ n, fate n = CallDelivered) →
  let d := db (fb_world (si_fabric si)) in
  named_jobs d → ready rgo rgw si s k now →
  outbox d !! c = Some o → o_status o = OutboxPending → o_job o = id → o_attempts o < maxDispatchAttempts →
  jobs d !! id = Some x → j_status x = StatusPending → j_attempts x < maxExecutionAttempts →
  ∃ k' i inst,
    let f' := si_fabric (run_events E rgo rgj rgw reporter lib fate
      (RelayTurn s true Ticked now :: replicate 6 (Acts k' i)) si) in
    (∃ x', jobs (db (fb_world f')) !! id = Some x' ∧ j_status x' = outcome_status (j_payload x) ∧
       j_attempts x' = j_attempts x + 1) ∧
    fb_stats f' = reported reporter (fb_stats (si_fabric si)) inst id (finish_args (execute (j_payload x)).2).1.
Proof. intros HE Hf d. apply (waiting_job_done E rgo rgj rgw reporter lib fate HE Hf si s k now c o id x). Qed.

(** A scheduler, a worker with two slots, and a submitted job. *)
Definition waiting_site : site (list (string * bool)) (list string) :=
  demo_site_run (take 4 demo_events).

Lemma waiting_named : named_jobs (UU := any_uuid) (db (fb_world (si_fabric waiting_site))).
Proof.
  assert (map_Forall (λ u _, u ≠ EmptyString) (jobs (db (fb_world (si_fabric waiting_site))))) as H
    by (apply (bool_decide_unpack _); by vm_compute).
  intros u [r Hr]. split; [done|]. by apply (H u r).
Qed.

Lemma waiting_ready : ready (ranger_asc _) (ranger_asc _) waiting_site "scheduler-1" "worker-1" (λ _, Second).
Proof.
  eexists. split; [vm_compute; reflexivity|]. split; [apply (bool_decide_unpack _); by vm_compute|].
  split; [intros _; apply (bool_decide_unpack _); by vm_compute|].
  split; [by vm_compute|]. eexists. split; [vm_compute; reflexivity|]. by vm_compute.
Qed.

Lemma job_completes_witness :
  ∃ k' i, let f' := si_fabric (run_events (UU := any_uuid) (JE := demo_json_env) demo_env (ranger_asc _) (ranger_asc _)
      (ranger_asc _) (Some (λ id _ ok log, (tt, log ++ [(id, ok)]))) accepting_lib (λ _, CallDelivered)
      (RelayTurn "scheduler-1" true Ticked (λ _, Second) :: replicate 6 (Acts k' i)) waiting_site) in
    (∃ x', jobs (db (fb_world f')) !! "id-1" = Some x' ∧ j_status x' = StatusSucceeded) ∧ fb_stats f' = [("id-1", true)].
Proof.
  destruct (job_completes (UU := any_uuid) (JE := demo_json_env) demo_env (ranger_asc _) (ranger_asc _)
    (ranger_asc _) (Some (λ id _ ok log, (tt, log ++ [(id, ok)]))) accepting_lib (λ _, CallDelivered)
    waiting_site "scheduler-1" "worker-1" (λ _, Second) "id-2" "id-1" (new_outbox_row "id-1" 1000)
    (new_job_row "demo" EmptyString 1000))
    as (k' & i & inst & (x' & Hx & Hs & _) & Hst).
  - reflexivity.
  - reflexivity.
  - exact waiting_named.
  - exact waiting_ready.
  - by vm_compute.
  - reflexivity.
  - reflexivity.
  - by vm_compute.
  - by vm_compute.
  - reflexivity.
  - by vm_compute.
  - exists k', i. split; [exists x'; split; [exact Hx|]|]; [rw Hs; by vm_compute|]. rw Hst. by vm_compute.
Defined.


(** The worker accepted and started the job, then it stopped; another one has
    registered ten seconds later. *)
Definition crashed_site : site (list (string * bool)) (list string) :=
  demo_site_run (demo_events ++ [WorkerStops "worker-1"; WorkerStarts "worker-2" "worker-2" 1;
    Registers "scheduler-1" (10 * Second) (mkRegisterWorkerRequest "worker-2" EmptyString 1)]).

Lemma crashed_named : named_jobs (UU := any_uuid) (db (fb_world (si_fabric crashed_site))).
Proof.
  assert (map_Forall (λ u _, u ≠ EmptyString) (jobs (db (fb_world (si_fabric crashed_site))))) as H
    by (apply (bool_decide_unpack _); by vm_compute).
  intros u [r Hr]. split; [done|]. by apply (H u r).
Qed.

Lemma crashed_fresh : uuids_fresh (UU := any_uuid) demo_env (fb_world (si_fabric crashed_site)).
Proof.
  destruct demo_env_fresh as (Hu & Hinj & _). split; [done|]. split; [done|]. intros n Hn.
  assert (map_Forall (λ u _, u = env_uuid demo_env 1) (jobs (db (fb_world (si_fabric crashed_site))))) as Hj
    by (apply (bool_decide_unpack _); by vm_compute).
  assert (map_Forall (λ u _, u = env_uuid demo_env 2) (outbox (db (fb_world (si_fabric crashed_site))))) as Ho
    by (apply (bool_decide_unpack _); by vm_compute).
  assert (2 < n)%nat as Hn2 by (eapply Nat.lt_le_trans; [|exact Hn]; apply (bool_decide_unpack _); by vm_compute).
  split; apply eq_None_not_Some; intros [r Hr]; [apply Hj in Hr|apply Ho in Hr]; apply Hinj in Hr; lia.
Qed.

Definition crashed_sched : scheduler :=
  default (start_scheduler demo_disp) (si_scheds crashed_site !! "scheduler-1").

Lemma crashed_ready :
  ready (ranger_asc _) (ranger_asc _)
    (step (UU := any_uuid) (JE := demo_json_env) demo_env (ranger_asc _) (ranger_asc _) (ranger_asc _)
      (Some (λ id _ ok log, (tt, log ++ [(id, ok)]))) accepting_lib (λ _, CallDelivered)
      (ReaperTick "scheduler-1" true (11 * Second)) crashed_site) "scheduler-1" "worker-2" (λ _, 11 * Second).
Proof.
  eexists. split; [vm_compute; reflexivity|]. split; [apply (bool_decide_unpack _); by vm_compute|].
  split; [intros _; apply (bool_decide_unpack _); by vm_compute|].
  split; [by vm_compute|]. eexists. split; [vm_compute; reflexivity|]. by vm_compute.
Qed.

