(* ===== verification/Timing.v ===== *)
(** * Heartbeats, thresholds and the clock

    A worker's loop (internal/heartbeat) sends a beat every interval and gives each
    call a deadline; the schedulers' handlers record when it arrives; the registry
    compares these times with the thresholds of cmd/scheduler, and the reaper looks
    every tick. Here the runs of the cluster carry those times: beats may be late,
    within the deadline, or lost, and anything else may happen in between. *)

From S2P Require Import Prelude GoRuntime Json Proto Store Registry Dispatch Relay Reaper RaftNode SchedulerSvc Reporting Lifecycle Cluster Progress.
Local Open Scope Z_scope.

(** [tick] of internal/reaper, and when its [n]-th tick comes. *)
Definition reaperTick : Z := 2 * Second.
Definition ticked (r0 : Z) (n : nat) : Z := r0 + Z.of_nat n * reaperTick.

(** When the [n]-th beat of a loop that started at [t0] is sent. *)
Definition sent (t0 : Z) (n : nat) : Z := t0 + Z.of_nat n * Heartbeat.Interval.

(** When scheduler [s] reads its clock for an event. *)
Definition clock_of (s : string) (ev : event) : option Z :=
  match ev with
  | Registers s' now _ | Beats s' now _ | ReaperTick s' _ now => if String.eqb s' s then Some now else None
  | _ => None
  end.

(** A message of worker [wk] to scheduler [s]: when it came and what load it
    reported. *)
Definition message_of (s wk : string) (ev : event) : option (Z * Z * Z) :=
  match ev with
  | Registers s' now req =>
      if String.eqb s' s && String.eqb (rwr_WorkerId req) wk then Some (now, rwr_Capacity req, 0) else None
  | Beats s' now req =>
      if String.eqb s' s && String.eqb (hbr_WorkerId req) wk then Some (now, hbr_Capacity req, hbr_Inflight req) else None
  | _ => None
  end.

(** The event leaves the process of scheduler [s] running. *)
Definition spares (s : string) (ev : event) : Prop :=
  match ev with SchedulerStarts s' _ | SchedulerStops s' => s' ≠ s | _ => True end.

(** Scheduler [s] runs through all of [evs], and its clock does not run backwards
    and has not passed [t]. *)
Record observed (s : string) (evs : list event) (t : Z) : Prop := {
  ob_spares : Forall (spares s) evs;
  ob_sorted : StronglySorted Z.le (omap (clock_of s) evs);
  ob_past : Forall (λ a, a ≤ t) (omap (clock_of s) evs);
}.

(** The beats of one worker at one scheduler: when each arrived, if it did. At most
    [losses] in a row are lost. *)
Record beating (t0 : Z) (losses : nat) (arrival : nat → option Z) : Prop := {
  bt_window n a : arrival n = Some a → sent t0 n ≤ a ≤ sent t0 n + Heartbeat.perCallTimeout;
  bt_losses n : ∃ m, (n ≤ m ≤ n + losses)%nat ∧ is_Some (arrival m);
}.

(** ** Lemmas: the clock *)

(** Once beats are due, the last one that arrived is not old. *)
Lemma recent_beat t0 losses arrival t :
  beating t0 losses arrival → sent t0 losses + Heartbeat.perCallTimeout ≤ t →
  ∃ m a, arrival m = Some a ∧ a ≤ t ∧ t - a < Heartbeat.perCallTimeout + (Z.of_nat losses + 1) * Heartbeat.Interval.
Proof.
  intros [Hwin Hloss] Ht.
  set (q := (t - t0 - Heartbeat.perCallTimeout) / Heartbeat.Interval).
  assert (0 < Heartbeat.Interval) as HI by done.
  pose proof (Z.div_mod (t - t0 - Heartbeat.perCallTimeout) Heartbeat.Interval ltac:(done)) as Hdm.
  pose proof (Z.mod_pos_bound (t - t0 - Heartbeat.perCallTimeout) Heartbeat.Interval HI) as Hmod. fold q in Hdm.
  assert (Z.of_nat losses ≤ q) as Hq.
  { apply Z.div_le_lower_bound; [done|]. unfold sent in Ht. lia. }
  destruct (Hloss (Z.to_nat (q - Z.of_nat losses))) as (m & Hm & [a Ha]). exists m, a.
  apply Hwin in Ha as Hw. split; [done|]. unfold sent in Hw.
  assert (q - Z.of_nat losses ≤ Z.of_nat m ≤ q) as Hmq by lia.
  assert ((q - Z.of_nat losses) * Heartbeat.Interval ≤ Z.of_nat m * Heartbeat.Interval ≤ q * Heartbeat.Interval) by nia.
  split; nia.
Qed.

(** The first tick after [a]. *)
Lemma next_tick r0 a :
  r0 ≤ a → let n := S (Z.to_nat ((a - r0) / reaperTick)) in
  a < ticked r0 n ≤ a + reaperTick ∧ ∀ i, (i < n)%nat → ticked r0 i ≤ a.
Proof.
  intros Hr n. subst n. unfold ticked, reaperTick, Second, Millisecond.
  pose proof (Z.div_mod (a - r0) (2 * (1000 * 1000000)) ltac:(done)) as Hdm.
  pose proof (Z.mod_pos_bound (a - r0) (2 * (1000 * 1000000)) ltac:(done)) as Hmod.
  pose proof (Z.div_pos (a - r0) (2 * (1000 * 1000000)) ltac:(lia) ltac:(done)) as Hq.
  split; [lia|]. intros i Hi. lia.
Qed.

Lemma message_clock s wk ev a c i : message_of s wk ev = Some (a, c, i) → clock_of s ev = Some a.
Proof.
  destruct ev; cbn [message_of clock_of]; try done; destruct (String.eqb _ s); try done; cbn [andb];
    by destruct (String.eqb _ wk); intros [= <- _ _].
Qed.

Lemma observed_app s evs evs' t : observed s (evs ++ evs') t → observed s evs t.
Proof.
  intros [H1 H2 H3]. rw omap_app in H2, H3. apply Forall_app in H1 as [H1 _]. apply Forall_app in H3 as [H3 _].
  split; [done|by apply StronglySorted_app_1_l in H2|done].
Qed.

Lemma observed_last s evs ev t b a : observed s (evs ++ [ev]) t → clock_of s ev = Some b →
  b ≤ t ∧ (a ∈ omap (clock_of s) (evs ++ [ev]) → a ≤ b).
Proof.
  intros [_ H2 H3] Hb. rw omap_app in H2, H3. rw omap_app. cbn [omap list_omap] in H2, H3 |- *. rw Hb in H2, H3. rw Hb.
  apply Forall_app in H3 as [_ H3]. inversion_clear H3 as [|? ? Hbt _]. split; [done|].
  intros [Ha|Ha]%elem_of_app; [|set_solver]. apply (StronglySorted_app_1_elem_of _ _ _ a b H2 Ha). set_solver.
Qed.

(** ** Lemmas: the registry of a scheduler in a run *)

(** What an event does to the entry of worker [wk] in a registry: a message of the
    worker replaces it, and only a reaper that finds the worker dead removes it. *)
Record registry_event (s wk : string) (ev : event) (reg reg' : Registry) : Prop := {
  re_ok : reg_ok reg';
  re_ttl : staleTTL reg' = staleTTL reg ∧ deadTTL reg' = deadTTL reg;
  re_entry : Registry.workers reg' !! wk =
    match message_of s wk ev with
    | Some (now, c, i) => Some (mkWorkerState wk c i now false)
    | None => Registry.workers reg !! wk
    end ∨
    ∃ leads now w, ev = ReaperTick s leads now ∧
      Registry.workers reg !! wk = Some w ∧ is_dead now reg w = true;
}.

Lemma registry_event_same s wk ev reg : reg_ok reg → message_of s wk ev = None → registry_event s wk ev reg reg.
Proof. intros Hok H. split; [done|done|]. left. by rw H. Qed.

Lemma sweep_registry {W} (reclaim : string → stM W (result err (list Job))) b ns sh :
  let reg' := s_reg (sweep_loop reclaim b ns sh).2 in
  (reg_ok (s_reg sh) → reg_ok reg') ∧ (staleTTL reg' = staleTTL (s_reg sh) ∧ deadTTL reg' = deadTTL (s_reg sh)) ∧
  ∀ m, m ∉ ns → Registry.workers reg' !! m = Registry.workers (s_reg sh) !! m.
Proof.
  revert b sh. induction ns as [|w ns IH]; intros b sh; [done|]. cbn [sweep_loop]. unfold st_bind, sweep_worker.
  destruct (reclaim w (s_store sh)) as [[js|e] st].
  - assert (∀ b', let reg' := s_reg (sweep_loop reclaim b' ns (mkShared st (Forget w (s_reg sh)) (s_wake sh))).2 in
      (reg_ok (s_reg sh) → reg_ok reg') ∧ (staleTTL reg' = staleTTL (s_reg sh) ∧ deadTTL reg' = deadTTL (s_reg sh)) ∧
      ∀ m, m ∉ w :: ns → Registry.workers reg' !! m = Registry.workers (s_reg sh) !! m) as Hgo.
    { intros b'. destruct (IH b' (mkShared st (Forget w (s_reg sh)) (s_wake sh))) as (H1 & H2 & H3).
      split; [intros Hok; by apply H1, Forget_ok|]. split; [done|]. intros m Hm. rw H3; [|set_solver].
      apply lookup_delete_ne. set_solver. }
    by destruct (Nat.eqb (length js) 0); apply Hgo.
  - destruct (IH b (mkShared st (s_reg sh) (s_wake sh))) as (H1 & H2 & H3). split; [done|]. split; [done|].
    intros m Hm. apply H3. set_solver.
Qed.

Section runs.
Context {UU : PgUuid} {JE : JsonEnv} {M G : Type}.
Context (E : env) (rgo : Ranger outbox_row) (rgj : Ranger job_row) (rgw : Ranger WorkerState).
Context (reporter : option (string → string → bool → stM M unit)) (lib : RaftLib G) (fate : nat → call_fate).
Implicit Types si : site M G.

Abbreviation step1 := (step E rgo rgj rgw reporter lib fate).
Abbreviation run := (run_events E rgo rgj rgw reporter lib fate).

Lemma at_scheduler_lookup s' s m si sc :
  si_scheds si !! s = Some sc →
  si_scheds (at_scheduler s' m si) !! s = Some (if String.eqb s' s then (m sc (si_fabric si)).1 else sc).
Proof.
  intros Hsc. unfold at_scheduler. destruct (String.eqb_spec s' s) as [->|Hne].
  - rw Hsc. destruct (m sc (si_fabric si)). apply lookup_insert_eq.
  - destruct (si_scheds si !! s') as [sc'|]; [|done]. destruct (m sc' (si_fabric si)). by rw lookup_insert_ne.
Qed.

Lemma reaper_tick_registry sc leads now (f : fabric M G) :
  let reg' := sc_reg (reaper_tick E rgj rgw sc leads now f).1 in
  (reg_ok (sc_reg sc) → reg_ok reg') ∧ (staleTTL reg' = staleTTL (sc_reg sc) ∧ deadTTL reg' = deadTTL (sc_reg sc)) ∧
  ∀ m, m ∉ Dead rgw now (sc_reg sc) → Registry.workers reg' !! m = Registry.workers (sc_reg sc) !! m.
Proof.
  unfold reaper_tick, run_tick. destruct leads; [|done]. cbn [negb]. unfold sweep.
  pose proof (sweep_registry (ReclaimJobs E rgj) false (Dead rgw now (sc_reg sc)) (mkShared (fb_world f) (sc_reg sc) (sc_wake sc))) as H.
  cbn [s_reg] in *. destruct (sweep_loop _ _ _ _) as [b sh']. by destruct b.
Qed.

(** A message recorded. *)
Lemma record_event s wk ev now c i reg n :
  reg_ok reg → wk ≠ EmptyString → n ≠ EmptyString →
  message_of s wk ev = (if String.eqb n wk then Some (now, c, i) else None) →
  registry_event s wk ev reg (Record_ now n c i reg).
Proof.
  intros Hok Hne Hn Hm. split; [by apply Record_ok|done|]. left. rw Hm. cbn [Record_ Registry.workers].
  destruct (String.eqb_spec n wk) as [->|Hd]; [apply lookup_insert_eq|by apply lookup_insert_ne].
Qed.

Lemma step_registry s wk ev si sc :
  spares s ev → wk ≠ EmptyString → si_scheds si !! s = Some sc → reg_ok (sc_reg sc) →
  ∃ sc', si_scheds (step1 ev si) !! s = Some sc' ∧ registry_event s wk ev (sc_reg sc) (sc_reg sc').
Proof.
  intros Hsp Hne Hsc Hok.
  destruct ev as [s' leads leaderID req|s' leads ev now|s' leads now|s' now req|s' now req|w i|w inst cap|w|s' disp|s'];
    cbn [step spares] in *.
  - eexists. split; [by apply at_scheduler_lookup|]. destruct (String.eqb s' s); [|by apply registry_event_same].
    unfold submit. destruct (SchedulerSvc.SubmitJob _ _ _ _ _) as [? []]. by apply registry_event_same.
  - eexists. split; [by apply at_scheduler_lookup|]. destruct (String.eqb s' s); [|by apply registry_event_same].
    unfold relay_turn. destruct (run_select _ _ _ _ _ _ _) as [[[]|] ?]; by apply registry_event_same.
  - eexists. split; [by apply at_scheduler_lookup|]. destruct (String.eqb s' s) eqn:Hs; [|by apply registry_event_same].
    destruct (reaper_tick_registry sc leads now (si_fabric si)) as (H1 & H2 & H3). split; [by apply H1|done|].
    destruct (decide (wk ∈ Dead rgw now (sc_reg sc))) as [Hd|Hd]; [|left; by apply H3].
    apply elem_of_Dead in Hd as (w & Hw & Hdd); [|done]. right. apply String.eqb_eq in Hs as ->. by exists leads, now, w.
  - eexists. split; [by apply at_scheduler_lookup|]. destruct (String.eqb s' s) eqn:Hs;
      [|apply registry_event_same; [done|]; cbn [message_of]; by rw Hs].
    unfold at_registry, RegisterWorker. cbn [fst sc_reg]. destruct (String.eqb_spec (rwr_WorkerId req) EmptyString) as [He|He].
    + apply registry_event_same; [done|]. cbn [message_of]. rw Hs He. by destruct wk.
    + apply record_event; [done..|]. cbn [message_of]. by rw Hs.
  - eexists. split; [by apply at_scheduler_lookup|]. destruct (String.eqb s' s) eqn:Hs;
      [|apply registry_event_same; [done|]; cbn [message_of]; by rw Hs].
    unfold at_registry, SchedulerSvc.Heartbeat. cbn [fst sc_reg]. destruct (String.eqb_spec (hbr_WorkerId req) EmptyString) as [He|He].
    + apply registry_event_same; [done|]. cbn [message_of]. rw Hs He. by destruct wk.
    + apply record_event; [done..|]. cbn [message_of]. by rw Hs.
  - exists sc. split; [done|]. by apply registry_event_same.
  - exists sc. split; [done|]. by apply registry_event_same.
  - exists sc. split; [done|]. by apply registry_event_same.
  - exists sc. split; [cbn; by rw lookup_insert_ne|]. by apply registry_event_same.
  - exists sc. split; [cbn; by rw lookup_delete_ne|]. by apply registry_event_same.
Qed.

(** A scheduler with these thresholds. *)
Definition watches si (s : string) (stale dead : Z) (reg : Registry) : Prop :=
  ∃ sc, si_scheds si !! s = Some sc ∧ sc_reg sc = reg ∧ reg_ok reg ∧ staleTTL reg = stale ∧ deadTTL reg = dead.

Lemma step_watches s wk ev si stale dead reg :
  spares s ev → wk ≠ EmptyString → watches si s stale dead reg →
  ∃ reg', watches (step1 ev si) s stale dead reg' ∧ registry_event s wk ev reg reg'.
Proof.
  intros Hsp Hne (sc & Hsc & <- & Hok & <- & <-).
  destruct (step_registry s wk ev si sc Hsp Hne Hsc Hok) as (sc' & Hsc' & Hev).
  exists (sc_reg sc'). split; [|done]. destruct Hev as [Hok' [H1 H2] _]. by exists sc'.
Qed.

(** A worker heard from at [a] stays in the registry while the reaper does not look
    after the death threshold has passed since, with the load of a message of its. *)
Lemma heard_lately s wk evs si stale dead reg0 t a c i ev0 :
  watches si s stale dead reg0 → 0 ≤ dead < max_i64 → wk ≠ EmptyString → observed s evs t →
  ev0 ∈ evs → message_of s wk ev0 = Some (a, c, i) →
  (∀ leads now, ReaperTick s leads now ∈ evs → now - a ≤ dead) →
  ∃ reg w ev, watches (run evs si) s stale dead reg ∧ Registry.workers reg !! wk = Some w ∧ a ≤ LastSeen w ∧
    ev ∈ evs ∧ message_of s wk ev = Some (LastSeen w, Registry.Capacity w, Registry.Inflight w).
Proof.
  intros Hw0 Hmax Hne. revert ev0 a c i.
  assert (∀ evs, Forall (spares s) evs → ∃ reg, watches (run evs si) s stale dead reg) as Hall.
  { intros evs0. induction evs0 as [|ev evs0 IH] using rev_ind; intros H; [by exists reg0|].
    apply Forall_app in H as [H1 H2]. inversion_clear H2. destruct (IH H1) as [reg Hreg].
    destruct (step_watches s wk ev (run evs0 si) stale dead reg) as (reg' & Hreg' & _); [done..|].
    exists reg'. by rw run_snoc. }
  induction evs as [|ev evs IH] using rev_ind; intros ev0 a c i Hob Hin Hmsg Hlook; [set_solver|].
  pose proof (ob_spares _ _ _ Hob) as Hsp. apply Forall_app in Hsp as [Hsp Hsp1]. inversion_clear Hsp1 as [|? ? Hspv _].
  destruct (message_of s wk ev) as [[[b c'] i']|] eqn:Hb.
  - destruct (Hall evs Hsp) as [reg Hreg]. destruct (step_watches s wk ev _ _ _ _ Hspv Hne Hreg) as (reg' & Hreg' & [_ _ [He|He]]).
    + rw Hb in He. eexists reg', _, ev. rw run_snoc. split; [done|]. split; [done|]. cbn [LastSeen].
      destruct (observed_last s evs ev t b a Hob (message_clock _ _ _ _ _ _ Hb)) as [_ Hab]. split; [|split; [set_solver|done]].
      apply Hab. apply list_elem_of_omap. exists ev0. split; [done|by eapply message_clock].
    + destruct He as (? & ? & ? & -> & _). done.
  - assert (ev0 ∈ evs) as Hin' by (apply elem_of_app in Hin as [?|Hin]; [done|]; apply list_elem_of_singleton in Hin; congruence).
    destruct (IH ev0 a c i) as (reg & w & ev1 & Hreg & Hw & Ha & Hev1 & Hm1);
      [by apply observed_app in Hob|done|done|intros leads now Hn; apply (Hlook leads); set_solver|].
    destruct (step_watches s wk ev _ _ _ _ Hspv Hne Hreg) as (reg' & Hreg' & [_ _ [He|He]]).
    + rw Hb in He. exists reg', w, ev1. rw run_snoc. split; [done|]. split; [congruence|]. split; [done|]. split; [set_solver|done].
    + destruct He as (leads & now & w' & -> & Hw' & Hdead). simplify_eq. exfalso.
      specialize (Hlook leads now ltac:(set_solver)). unfold is_dead in Hdead. reflect_bools.
      destruct Hreg as (sc & _ & <- & _ & _ & Hd). rw Hd in Hdead. unfold time_sub, max_i64, min_i64 in *. lia.
Qed.

(** A tick of the reaper leaves the jobs of a worker it does not presume dead. *)
Lemma reaper_keeps_jobs s si sc wk leads t id x :
  si_scheds si !! s = Some sc → wk ∉ Dead rgw t (sc_reg sc) →
  let d := db (fb_world (si_fabric si)) in
  named_jobs d → jobs d !! id = Some x → j_worker x = Some wk →
  jobs (db (fb_world (si_fabric (step1 (ReaperTick s leads t) si)))) !! id = Some x.
Proof.
  intros Hsc Hd d Hids Hx Hwk. cbn [step]. unfold at_scheduler. rw Hsc. unfold reaper_tick, run_tick.
  destruct leads; cbn [negb]; [|exact Hx]. unfold sweep. cbn [s_reg].
  set (sh := mkShared (fb_world (si_fabric si)) (sc_reg sc) (sc_wake sc)).
  destruct (sweep_loop _ false (Dead rgw t (sc_reg sc)) sh) as [b sh'] eqn:Hloop.
  assert (∀ u, is_Some (jobs (db (s_store sh)) !! u) → pg_uuid u = Some u) as Hids' by (intros u Hu; by apply Hids).
  destruct (sweep_loop_spec E rgj _ _ sh _ _ Hids' Hloop) as ((_ & _ & Hrows) & _).
  cbn [snd]. replace (s_store (if b then _ else sh')) with (s_store sh') by (by destruct b). cbn [si_fabric fb_world].
  destruct (Hrows id x Hx) as [Hx'|(n & now & oid & Hn & Hr & _)]; [exact Hx'|]. exfalso. apply Hd.
  unfold reclaimable in Hr. rw Hwk in Hr. reflect_bools. by subst.
Qed.
End runs.

(** ** Properties *)


(** A scheduler, and a worker whose first three beats reach it in time. *)
Definition watch_site : site (list (string * bool)) (list string) :=
  demo_site_run [SchedulerStarts "scheduler-1" demo_disp; WorkerStarts "worker-1" "worker-1" 2].

Definition beat_events : list event :=
  [Beats "scheduler-1" 0 (mkHeartbeatRequest "worker-1" 2 0 None);
   Registers "scheduler-1" Second (mkRegisterWorkerRequest "worker-2" EmptyString 1);
   Beats "scheduler-1" (2 * Second) (mkHeartbeatRequest "worker-1" 2 1 None);
   ReaperTick "scheduler-1" true (3 * Second);
   Beats "scheduler-1" (5 * Second) (mkHeartbeatRequest "worker-1" 2 1 None)].


(** C9: a crash is noticed in time. Let the last message of a worker reach a
    scheduler at [a], and let its reaper, started at [r0], look every tick. Then the
    scheduler does not presume the worker dead for eight seconds; its next tick
    comes at most two seconds later; and when it leads then and no statement fails,
    that tick returns every job scheduled or running on the worker to pending, with
    a fresh command in the outbox. *)
Theorem crash_noticed_in_time {UU : PgUuid} {JE : JsonEnv} {M G : Type}
    (E : env) (rgo : Ranger outbox_row) (rgj : Ranger job_row) (rgw : Ranger WorkerState)
    (reporter : option (string → string → bool → stM M unit)) (lib : RaftLib G) (fate : nat → call_fate)
    (si : site M G) (s wk : string) (disp : Dispatcher) (evs : list event) (ev0 : event) (a c i r0 : Z) :
  let n := S (Z.to_nat ((a + workerDeadTTL - r0) / reaperTick)) in
  let t := ticked r0 n in
  si_scheds si !! s = Some (start_scheduler disp) → observed s evs t → wk ≠ EmptyString → r0 ≤ a + workerDeadTTL →
  ev0 ∈ evs → message_of s wk ev0 = Some (a, c, i) →
  (∀ ev b c' i', ev ∈ evs → message_of s wk ev = Some (b, c', i') → b ≤ a) →
  (∀ leads now, ReaperTick s leads now ∈ evs → ∃ k, (k < n)%nat ∧ now = ticked r0 k) →
  let si' := run_events E rgo rgj rgw reporter lib fate evs si in
  let w := fb_world (si_fabric si') in
  workerDeadTTL < t - a ≤ workerDeadTTL + reaperTick ∧
  ∃ sc, si_scheds si' !! s = Some sc ∧
    (∀ t', t' - a ≤ workerDeadTTL → wk ∉ Dead rgw t' (sc_reg sc)) ∧ wk ∈ Dead rgw t (sc_reg sc) ∧
    ((∀ n, env_fault E n = NoFault) → named_jobs (db w) → uuids_fresh E w →
       ∀ id x, jobs (db w) !! id = Some x → reclaimable wk x = true →
       let d := db (fb_world (si_fabric (step E rgo rgj rgw reporter lib fate (ReaperTick s true t) si'))) in
       ∃ now oid, jobs d !! id = Some (set_reclaimed now x) ∧ outbox d !! oid = Some (new_outbox_row id now)).
Proof.
  intros n t Hsc Hob Hne Hr0 Hin Hmsg Hlast Hticks si' w.
  destruct (next_tick r0 (a + workerDeadTTL) Hr0) as [Ht Hbefore]. fold n in Ht, Hbefore. fold t in Ht. split; [lia|].
  assert (watches si s workerStaleTTL workerDeadTTL scheduler_registry) as Hw0
    by (exists (start_scheduler disp); repeat (split; [done|]); done).
  destruct (heard_lately E rgo rgj rgw reporter lib fate s wk evs si _ _ _ t a c i ev0 Hw0 ltac:(done) Hne Hob Hin Hmsg)
    as (reg & ws & ev & (sc & Hsc' & <- & Hok & Hst & Hdd) & Hw & Hseen & Hev & Hm).
  { intros leads now (k & Hk & ->)%Hticks. specialize (Hbefore k Hk). lia. }
  assert (LastSeen ws = a) as Hls by (specialize (Hlast _ _ _ _ Hev Hm); lia).
  assert (∀ t', is_dead t' (sc_reg sc) ws = bool_decide (workerDeadTTL < t' - a)) as Hage.
  { intros t'. unfold is_dead. rw Hdd Hls. apply eq_true_iff_eq. rw Z.ltb_lt bool_decide_eq_true.
    unfold time_sub, min_i64, max_i64, workerDeadTTL, Second, Millisecond. lia. }
  assert (wk ∈ Dead rgw t (sc_reg sc)) as Hdead.
  { apply elem_of_Dead; [done|]. exists ws. split; [done|]. rw Hage. apply bool_decide_eq_true. lia. }
  exists sc. split; [done|]. split; [|split; [done|]].
  - intros t' Ht' (w1 & Hw1 & Hd)%elem_of_Dead; [|done]. simplify_eq. rw Hage in Hd. apply bool_decide_eq_true in Hd. lia.
  - intros HE Hids Hfresh id x Hx Hrec.
    by destruct (reaper_requeues E rgo rgj rgw reporter lib fate HE si' s sc t wk id x Hsc' Hok Hdead Hids Hfresh Hx Hrec)
      as (_ & _ & Hdone).
Qed.

(** The worker of the demonstration run takes the job after its last beat; the
    reaper started at 1.5 seconds and looks at 9.5 seconds. *)
Definition silent_events : list event :=
  [Registers "scheduler-1" 0 (mkRegisterWorkerRequest "worker-1" EmptyString 2);
   Submit "scheduler-1" true "scheduler-1" (mkSubmitJobRequest "demo" EmptyString);
   RelayTurn "scheduler-1" true Woken (λ _, Second); Acts "worker-1" 0; WorkerStops "worker-1";
   ReaperTick "scheduler-1" true (7500 * Millisecond)].

Lemma crash_noticed_in_time_witness :
  let si' := run_events (UU := any_uuid) (JE := demo_json_env) demo_env (ranger_asc _) (ranger_asc _) (ranger_asc _)
      (Some (λ id _ ok log, (tt, log ++ [(id, ok)]))) accepting_lib (λ _, CallDelivered) silent_events watch_site in
  j_status <$> jobs (db (fb_world (si_fabric si'))) !! "id-1" = Some StatusRunning ∧
  ∃ sc, si_scheds si' !! "scheduler-1" = Some sc ∧ "worker-1" ∈ Dead (ranger_asc _) (9500 * Millisecond) (sc_reg sc).
Proof.
  split; [by vm_compute|].
  destruct (crash_noticed_in_time (UU := any_uuid) (JE := demo_json_env) demo_env (ranger_asc _) (ranger_asc _) (ranger_asc _)
    (Some (λ id _ ok log, (tt, log ++ [(id, ok)]))) accepting_lib (λ _, CallDelivered) watch_site "scheduler-1" "worker-1" demo_disp
    silent_events (Registers "scheduler-1" 0 (mkRegisterWorkerRequest "worker-1" EmptyString 2)) 0 2 0 (1500 * Millisecond))
    as (_ & sc & Hsc & _ & Hdead & _).
  - by vm_compute.
  - split; repeat constructor; by vm_compute.
  - done.
  - by vm_compute.
  - by left.
  - by vm_compute.
  - clear. intros ev b c i Hev. repeat (apply elem_of_cons in Hev as [->|Hev]; [first [discriminate 1 | by intros [= <- _ _]]|]).
    by apply elem_of_nil in Hev.
  - clear. intros leads now Hev.
    repeat (apply elem_of_cons in Hev as [Hev|Hev]; [first [discriminate Hev | injection Hev as -> ->; exists 3%nat; split; [vm_compute; lia|reflexivity]]|]).
    by apply elem_of_nil in Hev.
  - exists sc. split; [exact Hsc|exact Hdead].
Defined.

(** One missed beat can cost placements. With beat 1 lost and beat 2 on its way for
    as long as its deadline allows, the worker is not a candidate just before beat 2
    arrives, although it beats, has room and is not presumed dead. *)
Theorem one_missed_beat_goes_stale :
  ∃ arrival t, beating 0 1 arrival ∧ arrival 0%nat = Some 0 ∧ arrival 1%nat = None ∧
    (∀ n, n ≠ 1%nat → is_Some (arrival n)) ∧ (∀ n a, arrival n = Some a → a ≤ t → a = 0) ∧
    let reg := (SchedulerSvc.Heartbeat 0 (mkHeartbeatRequest "worker-1" 2 0 None) scheduler_registry).2 in
    Available (ranger_asc _) t reg = [] ∧ Dead (ranger_asc _) t reg = [].
Proof.
  exists (λ n, match n with O => Some 0 | 1%nat => None | _ => Some (sent 0 n + Heartbeat.perCallTimeout) end), (5200 * Millisecond).
  split; [|split; [done|split; [done|split; [by intros [|[|n]] Hn|split; [|split; by vm_compute]]]]].
  - split.
    + intros n a. unfold sent, Heartbeat.Interval, Heartbeat.perCallTimeout, Second, Millisecond.
      destruct n as [|[|n]]; intros [= <-]; lia.
    + intros [|[|n]]; [exists 0%nat|exists 2%nat|exists (S (S n))]; (split; [lia|by eexists]).
  - intros n a. unfold sent, Heartbeat.Interval, Heartbeat.perCallTimeout, Second, Millisecond.
    destruct n as [|[|n]]; intros [= <-]; lia.
Qed.
