(* ===== verification/Deadlines.v ===== *)
(** * Deadlines: how long calls, fan-outs and loops take

    Here the world the components act on carries a clock. A call under
    context.WithTimeout takes as long as the other side needs, at most its timeout;
    a fan-out takes as long as its slowest call; a loop over a time.Ticker takes its
    next turn when it is done and a tick is there. The code is that of the components,
    over calls of this kind; how long the other side takes is arbitrary, it may never
    answer. *)

From S2P Require Import Prelude GoRuntime Proto Crdt StateSvc Store Dispatch LeaderClient CrdtView Observer Reporting Lifecycle Cluster Timing.
Local Open Scope Z_scope.

Definition perAttemptTimeout : Z := 3 * Second.
Definition perReplicaTimeout : Z := 2 * Second.
Definition GossipInterval : Z := 1 * Second.
Definition perPeerTimeout : Z := 1500 * Millisecond.
Definition submitTimeout : Z := 15 * Second.
Definition roundPause : Z := 400 * Millisecond.
Definition perTargetTimeout : Z := 3 * Second.
Definition clusterCheckTimeout : Z := 10 * Second.

Definition deadline_exceeded : err := EStatus DeadlineExceeded "context deadline exceeded".

(** ** Calls one after the other *)

Record clocked (W : Type) : Type := mkClocked { ck_now : Z; ck_world : W }.
Arguments mkClocked {W} _ _.
Arguments ck_now {W} _.
Arguments ck_world {W} _.

(** How long a call to a target takes from a given moment; never, if there is no
    answer. *)
Definition pace : Type := string → Z → option Z.

(** The time a call under [timeout] takes. *)
Definition call_time (timeout : Z) (p : pace) (t : string) (now : Z) : Z :=
  match p t now with Some d => Z.min timeout (Z.max 0 d) | None => timeout end.

(** The call is answered before the timeout. *)
Definition in_time (timeout : Z) (p : pace) (t : string) (now : Z) : bool :=
  match p t now with Some d => d <=? timeout | None => false end.

(** A call under [timeout]: whatever it does on the other side, the caller has its
    answer, or an error once the time is up. *)
Definition within {W A} (timeout : Z) (p : pace) (t : string) (call : stM W (result err A)) : stM (clocked W) (result err A) := λ c,
  let '(r, w) := call (ck_world c) in
  (if in_time timeout p t (ck_now c) then r else Err deadline_exceeded, mkClocked (ck_now c + call_time timeout p t (ck_now c)) w).

(** ** Calls side by side *)

(** The moment a fan-out starts its calls, the moment the last of those so far is
    over, and the world. *)
Record span (W : Type) : Type := mkSpan { sp_from : Z; sp_until : Z; sp_world : W }.
Arguments mkSpan {W} _ _ _.
Arguments sp_from {W} _.
Arguments sp_until {W} _.
Arguments sp_world {W} _.

Definition alongside {W A} (timeout : Z) (p : pace) (t : string) (call : stM W (result err A)) : stM (span W) (result err A) := λ c,
  let '(r, w) := call (sp_world c) in
  (if in_time timeout p t (sp_from c) then r else Err deadline_exceeded,
   mkSpan (sp_from c) (Z.max (sp_until c) (sp_from c + call_time timeout p t (sp_from c))) w).

(** ** Loops over a ticker *)

(** The first time after [t] that a ticker started at [t0] fires. *)
Definition next_fire (t0 period t : Z) : Z := t0 + period * ((t - t0) / period + 1).

(** The loop: the start of each turn and the world it finds. A turn takes from its
    start to [sp_until]; what fired meanwhile waits in the ticker's channel, once. *)
Fixpoint turn {W} (t0 period : Z) (body : nat → Z → stM (span W) unit) (n : nat) (w : W) : Z * W :=
  match n with
  | O => (t0 + period, w)
  | S n' =>
      let '(s, w1) := turn t0 period body n' w in
      let c := (body n' s (mkSpan s s w1)).2 in
      (Z.max (sp_until c) (next_fire t0 period s), sp_world c)
  end.

(** ** Lemmas *)

Lemma call_time_bounds timeout p t now : 0 ≤ timeout → 0 ≤ call_time timeout p t now ≤ timeout.
Proof. intros Ht. unfold call_time. destruct (p t now); lia. Qed.

Lemma next_fire_bounds t0 period t : 0 < period → t < next_fire t0 period t ≤ t + period.
Proof.
  intros Hp. unfold next_fire. pose proof (Z.div_mod (t - t0) period ltac:(lia)). pose proof (Z.mod_pos_bound (t - t0) period Hp). nia.
Qed.

Lemma next_fire_on_tick t0 period n : 0 < period → next_fire t0 period (t0 + n * period) = t0 + (n + 1) * period.
Proof. intros Hp. unfold next_fire. replace (t0 + n * period - t0) with (n * period) by lia. rw Z.div_mul; lia. Qed.

(** A loop whose turns are shorter than the period takes every tick when it fires. *)
Lemma turn_on_time {W} t0 period (body : nat → Z → stM (span W) unit) w :
  0 < period → (∀ n s w1, sp_until (body n s (mkSpan s s w1)).2 ≤ s + period) →
  ∀ n, (turn t0 period body n w).1 = t0 + (Z.of_nat n + 1) * period.
Proof.
  intros Hp Hshort n. induction n as [|n IH]; [cbn; lia|]. cbn [turn]. destruct (turn t0 period body n w) as [s w1].
  cbn [fst] in *. subst s. specialize (Hshort n (t0 + (Z.of_nat n + 1) * period) w1). rw next_fire_on_tick; [nia|done].
Qed.

(** A loop whose turns take at most [most] starts a turn at least so often. *)
Lemma turn_pace {W} t0 period most (body : nat → Z → stM (span W) unit) w :
  0 < period → (∀ n s w1, sp_until (body n s (mkSpan s s w1)).2 ≤ s + most) →
  ∀ n, let s := (turn t0 period body n w).1 in s < (turn t0 period body (S n) w).1 ≤ s + Z.max period most.
Proof.
  intros Hp Hmost n. cbn [turn]. destruct (turn t0 period body n w) as [s w1]. cbn [fst]. specialize (Hmost n s w1).
  pose proof (next_fire_bounds t0 period s Hp). lia.
Qed.

(** A fan-out is over when its slowest call is. *)
Lemma fanOut_span {W A} timeout p (fn : string → stM W (result err A)) order c :
  0 ≤ timeout → sp_until c ≤ sp_from c + timeout →
  let c' := (Heartbeat.fanOut (λ t, alongside timeout p t (fn t)) order c).2 in
  sp_from c' = sp_from c ∧ sp_until c ≤ sp_until c' ≤ sp_from c + timeout ∧
  ∀ t, t ∈ order → sp_from c + call_time timeout p t (sp_from c) ≤ sp_until c'.
Proof.
  intros Ht. unfold Heartbeat.fanOut. set (g := λ t, st_bind (alongside timeout p t (fn t)) (λ _, st_ret tt)).
  assert (∀ t c, ∃ w, g t c = (tt, mkSpan (sp_from c) (Z.max (sp_until c) (sp_from c + call_time timeout p t (sp_from c))) w)) as Hg.
  { intros t c0. unfold g, st_bind, st_ret, alongside. destruct (fn t (sp_world c0)) as [r w]. eauto. }
  clearbody g. revert c. induction order as [|t0 order IH]; intros c Hc; cbn [st_iter].
  { split; [done|]. split; [unfold st_ret; cbn; lia|set_solver]. }
  unfold st_bind. destruct (Hg t0 c) as [w ->]. pose proof (call_time_bounds timeout p t0 (sp_from c) Ht).
  destruct (IH (mkSpan (sp_from c) (Z.max (sp_until c) (sp_from c + call_time timeout p t0 (sp_from c))) w)) as (H1 & H2 & H3);
    [cbn; lia|]. cbn [sp_from sp_until] in *. split; [done|]. split; [lia|]. intros t [->|Hin]%elem_of_cons; [lia|by apply H3].
Qed.

(** Time of a sequence of calls. *)
Section sequences.
Context {W : Type} (p : pace).

Lemma within_time {A} timeout t (call : stM W (result err A)) c :
  0 ≤ timeout → ck_now c ≤ ck_now (within timeout p t call c).2 ≤ ck_now c + timeout.
Proof.
  intros Ht. unfold within. destruct (call (ck_world c)). pose proof (call_time_bounds timeout p t (ck_now c) Ht). cbn. lia.
Qed.

Lemma offer_time (call : string → ExecuteJobRequest → stM W (result err ExecuteJobResponse)) job e0 ws c :
  ck_now c ≤ ck_now (offer (λ t req, within perAttemptTimeout p t (call t req)) job e0 ws c).2 ≤
    ck_now c + Z.of_nat (length ws) * perAttemptTimeout.
Proof.
  revert e0 c. induction ws as [|t ws IH]; intros e0 c; cbn [offer length]; [unfold st_ret; cbn; lia|]. unfold st_bind.
  pose proof (within_time perAttemptTimeout t (call t (mkExecuteJobRequest (ID job) (Name job) (Payload job))) c ltac:(done)) as Hone.
  destruct (within _ p t _ c) as [[resp|e] c1]; cbn [snd] in *; unfold st_ret; cbn [snd].
  - assert (0 ≤ Z.of_nat (length ws) * perAttemptTimeout) by (unfold perAttemptTimeout, Second, Millisecond; lia). lia.
  - specialize (IH (Some e) c1). lia.
Qed.

Lemma gossip_time rs (sync : string → CRDTState → stM W (result err CRDTState)) clients s c :
  let c' := (st_iter (gossip_with rs (λ t st, within perPeerTimeout p t (sync t st))) clients (s, c)).2.2 in
  ck_now c ≤ ck_now c' ≤ ck_now c + Z.of_nat (length clients) * perPeerTimeout.
Proof.
  set (g := gossip_with rs _).
  assert (∀ t s c, ∃ s1 c1, g t (s, c) = (tt, (s1, c1)) ∧ ck_now c ≤ ck_now c1 ≤ ck_now c + perPeerTimeout) as Hg.
  { intros t s0 c0. unfold g, gossip_with. pose proof (within_time perPeerTimeout t (sync t (snapshotLocked rs s0)) c0 ltac:(done)) as Hone.
    destruct (within _ p t _ c0) as [[st|e] c1]; eauto. }
  clearbody g. revert s c. induction clients as [|t ts IH]; intros s c; cbn [st_iter length]; [unfold st_ret; cbn; lia|].
  unfold st_bind. destruct (Hg t s c) as (s1 & c1 & -> & Hone). specialize (IH s1 c1). cbn zeta in IH. lia.
Qed.

Lemma set_all_time (call : string → bool → stM W (result err unit)) ms b errs c :
  ck_now c ≤ ck_now (set_all (λ t on, within perReplicaTimeout p t (call t on)) ms b errs c).2 ≤
    ck_now c + Z.of_nat (length ms) * perReplicaTimeout.
Proof.
  revert errs c. induction ms as [|t ms IH]; intros errs c; cbn [set_all length]; [unfold st_ret; cbn; lia|]. unfold st_bind.
  pose proof (within_time perReplicaTimeout t (call t b) c ltac:(done)) as Hone.
  destruct (within _ p t _ c) as [r c1]; cbn [snd] in *. specialize (IH (match r with Ok _ => errs | Err e => errs ++ [EWrap (t +:+ ": ") e] end) c1). lia.
Qed.
End sequences.

(** ** Routing under one deadline *)

Section routing.
Context {W T : Type} (p : pace) (call : string → stM W (result err T)).

(** A call under the deadline of the whole request. *)
Definition ctx_call (deadline : Z) (t : string) : stM (clocked W) (result err T) := λ c,
  if deadline <=? ck_now c then (Err deadline_exceeded, c) else within (deadline - ck_now c) p t (call t) c.

(** The deadline passes before the pause between two rounds is over. *)
Definition caller_gone (deadline : Z) (_ : nat) (c : clocked W) : bool := deadline <=? ck_now c + roundPause.

Definition request (deadline : Z) (r : Router) : stM (clocked W) (result (option err) T * Router) :=
  route (ctx_call deadline) (caller_gone deadline) r.

(** Requests one after the other, each with [timeout] from its start. *)
Fixpoint requests (timeout : Z) (k : nat) (r : Router) : stM (clocked W) (list (result (option err) T) * Router) := λ c,
  match k with
  | O => (([], r), c)
  | S k' =>
      let '((res, r1), c1) := request (ck_now c + timeout) r c in
      let '((rest, r2), c2) := requests timeout k' r1 c1 in
      ((res :: rest, r2), c2)
  end.

Definition cached (r : Router) : string := default EmptyString (members r !! Z.to_nat (leader r)).

Lemma pass_expired deadline ms start i k e c :
  deadline ≤ ck_now c →
  pass (ctx_call deadline) ms start i k (Some e) c = (Declined (if (k =? 0)%nat then Some e else Some deadline_exceeded), c).
Proof.
  intros Hd. revert i e. induction k as [|k IH]; intros i e; [done|]. cbn [pass]. unfold st_bind, ctx_call at 1.
  rw (proj2 (Z.leb_le _ _) Hd). cbn [retryable]. change (retryable deadline_exceeded) with true. cbn [negb]. rw IH. by destruct k.
Qed.

Lemma request_hangs deadline r c :
  router_ok r → ck_now c < deadline → p (cached r) (ck_now c) = None →
  request deadline r c = ((Err (Some deadline_exceeded), r), mkClocked deadline (call (cached r) (ck_world c)).2).
Proof.
  intros [Hne Hl] Hd Hp. unfold request, route, retryRounds. cbn [rounds]. unfold st_bind at 1.
  destruct (length (members r)) as [|n] eqn:Hlen; [by apply nil_length_inv in Hlen|]. cbn [pass].
  assert (member_index (leader r) (length (members r)) 0 = leader r) as -> by (unfold member_index; rw Z.rem_small; lia).
  fold (cached r). unfold st_bind at 1, ctx_call at 1. rw (proj2 (Z.leb_gt _ _) Hd). unfold within, in_time, call_time. rw Hp.
  destruct (call (cached r) (ck_world c)) as [r0 w]. change (retryable deadline_exceeded) with true. cbn [negb].
  replace (ck_now c + (deadline - ck_now c)) with deadline by lia. rw pass_expired; [|done].
  assert (caller_gone deadline 0 (mkClocked deadline w) = true) as Hgone by (apply Z.leb_le; cbn; unfold roundPause, Millisecond; lia).
  rw Hgone. cbn. by destruct n.
Qed.
End routing.

(** ** Properties *)

(** The arrivals at scheduler [s] of the beats of a loop. *)
Definition arrives (p : pace) (t0 : Z) (s : string) (n : nat) : option Z :=
  let now := sent t0 n in
  if in_time Heartbeat.perCallTimeout p s now then Some (now + call_time Heartbeat.perCallTimeout p s now) else None.


(** C35: a scheduler that hangs blocks the gateway. The router gives a call no deadline
    but the request's: when the scheduler it asks first takes requests and never
    answers (it is stopped, or cut off without its connections breaking), a request
    spends all its time there, no other scheduler is asked although one of them may
    lead by now, the request fails, and the router still asks that scheduler first:
    so does every further request. *)
Theorem hung_scheduler_blocks {W T : Type} (p : pace) (call : string → stM W (result err T)) (timeout : Z) (r : Router) (k : nat) (c : clocked W) :
  router_ok r → 0 < timeout → (∀ now, p (cached r) now = None) →
  requests p call timeout k r c =
    ((replicate k (Err (Some deadline_exceeded)), r),
     mkClocked (ck_now c + Z.of_nat k * timeout) (Nat.iter k (λ w, (call (cached r) w).2) (ck_world c))).
Proof.
  intros Hr Ht Hp. revert c. induction k as [|k IH]; intros c; cbn [requests].
  { replace (ck_now c + Z.of_nat 0 * timeout) with (ck_now c) by lia. by destruct c. }
  rw (request_hangs p call (ck_now c + timeout) r c Hr ltac:(lia) (Hp _)). rw IH. cbn [ck_now ck_world replicate].
  do 2 f_equal; [lia|]. exact (Nat.iter_swap k _ (λ w, (call (cached r) w).2) (ck_world c)).
Qed.

(** Three schedulers; the cached one hangs and the second would answer at once. *)
Definition demo_pace : pace := λ t _, if String.eqb t "scheduler-1" then None else Some (5 * Millisecond).
Definition demo_call (t : string) : stM (list string) (result err string) := λ log, (Ok t, log ++ [t]).
Definition demo_router : Router := mkRouter ["scheduler-1"; "scheduler-2"; "scheduler-3"] 0.

Lemma hung_scheduler_blocks_witness :
  requests demo_pace demo_call submitTimeout 2 demo_router (mkClocked 0 []) =
    (([Err (Some deadline_exceeded); Err (Some deadline_exceeded)], demo_router),
     mkClocked (30 * Second) ["scheduler-1"; "scheduler-1"]).
Proof.
  rewrite (hung_scheduler_blocks demo_pace demo_call submitTimeout demo_router 2 (mkClocked 0 [])).
  - reflexivity.
  - split; [discriminate|]. cbn. lia.
  - reflexivity.
  - reflexivity.
Defined.

(** The pace of gossip. A round of a replica with [n] peers takes at most [n] times
    1.5 seconds, and the next one starts within that time or the interval. *)
Definition in_turn {X W} (m : stM (X * clocked W) unit) : stM (span (X * W)) unit := λ c,
  let '(_, (x, k)) := m ((sp_world c).1, mkClocked (sp_from c) (sp_world c).2) in (tt, mkSpan (sp_from c) (ck_now k) (x, ck_world k)).

Theorem gossip_pace {W : Type} (p : pace) (rs : Ranges) (sync : string → CRDTState → stM W (result err CRDTState))
    (clients : list string) (t0 : Z) (s : StateSvc.Server) (w : W) (n : nat) :
  let body (_ : nat) (_ : Z) := in_turn (gossip_tick rs (λ t st, within perPeerTimeout p t (sync t st)) clients) in
  let start k := (turn t0 GossipInterval body k (s, w)).1 in
  start n < start (S n) ≤ start n + Z.max GossipInterval (Z.of_nat (length clients) * perPeerTimeout).
Proof.
  intros body start. apply turn_pace; [done|]. intros k now [s1 w1]. unfold body, in_turn, gossip_tick. cbn [sp_world sp_from fst snd].
  destruct (negb (gossipOn s1)); [cbn; unfold perPeerTimeout, Millisecond; lia|].
  pose proof (gossip_time p rs sync clients s1 (mkClocked now w1)) as Ht. cbn zeta in Ht.
  destruct (st_iter _ clients _) as [u [s2 c2]]. cbn in *. lia.
Qed.

(** A dispatch asks each eligible worker for at most three seconds. *)
Theorem dispatch_time {W : Type} (p : pace) (cand : option (clocked W → list string))
    (call : string → ExecuteJobRequest → stM W (result err ExecuteJobResponse)) (d : Dispatcher) (job : Job) (c : clocked W) :
  ck_now (Dispatch cand (λ t req, within perAttemptTimeout p t (call t req)) d job c).2 ≤
    ck_now c + Z.of_nat (length (eligible cand d c).1) * perAttemptTimeout.
Proof.
  unfold Dispatch. destruct (eligible cand d c) as [ws d']. cbn [fst]. destruct (Nat.eqb _ _).
  - cbn. unfold perAttemptTimeout, Second, Millisecond. lia.
  - pose proof (offer_time p call job None ws c) as H. destruct (offer _ job None ws c) as [r c']. cbn in *. lia.
Qed.

(** Opening or healing a partition asks each replica for at most two seconds. *)
Theorem set_gossip_time {W : Type} (p : pace) (call : string → bool → stM W (result err unit)) (ms : list string) (b : bool) (c : clocked W) :
  ck_now (CrdtView.SetGossip (λ t on, within perReplicaTimeout p t (call t on)) ms b c).2 ≤
    ck_now c + Z.of_nat (length ms) * perReplicaTimeout.
Proof.
  unfold CrdtView.SetGossip, st_bind. pose proof (set_all_time p call ms b [] c) as H.
  destruct (set_all _ ms b [] c) as [errs c']. cbn in *. lia.
Qed.

(** ** Health under deadlines *)

(** What a goroutine of ClusterCheck adds for a target whose check would return [e]. *)
Definition timed_check (p : pace) (now : Z) (t : string) (e : option err) : option err :=
  if in_time perTargetTimeout p t now then e else Some deadline_exceeded.

(** The goroutines of a ClusterCheck started at [now], and when the last is done;
    targets are told apart by their address, the database by its name. *)
Definition timed_checks (p : pace) (targets : gmap string string) (check : string → option err) (ping : option (option err)) (now : Z) :
    list ComponentHealth * Z :=
  (ObserverSvc.checks targets (λ addr, timed_check p now addr (check addr)) (timed_check p now ObserverSvc.dbComponentName <$> ping),
   foldr (λ t u, Z.max (now + call_time perTargetTimeout p t now) u) now
     ((map_to_list targets).*2 ++ match ping with Some _ => [ObserverSvc.dbComponentName] | None => [] end)).

(** One hung target does not stall the aggregation. Whatever targets hang, all checks
    are over three seconds after the start, well within the gateway's ten; a target
    that does not answer in time is listed as not serving, and the others with what
    their own check found. *)
Theorem hung_target_reported (p : pace) (targets : gmap string string) (check : string → option err) (ping : option (option err))
    (now : Z) (finished : list ComponentHealth) (name addr : string) :
  let '(components, done_at) := timed_checks p targets check ping now in
  finished ≡ₚ components → targets !! name = Some addr →
  now ≤ done_at ≤ now + perTargetTimeout ∧ done_at < now + clusterCheckTimeout ∧
  ObserverSvc.componentHealth name (timed_check p now addr (check addr)) ∈ ccr_Components (ObserverSvc.ClusterCheck finished done_at).
Proof.
  cbn [timed_checks]. intros Hf Ht.
  assert (∀ l, now ≤ foldr (λ t u, Z.max (now + call_time perTargetTimeout p t now) u) now l ≤ now + perTargetTimeout) as Hdone.
  { intros l. induction l as [|t l IH]; cbn [foldr]; [unfold perTargetTimeout, Second, Millisecond; lia|].
    pose proof (call_time_bounds perTargetTimeout p t now ltac:(done)). lia. }
  match goal with |- now ≤ foldr ?g ?u ?l ≤ _ ∧ _ => specialize (Hdone l) end. split; [done|].
  split; [unfold clusterCheckTimeout, perTargetTimeout, Second, Millisecond in *; lia|].
  unfold ObserverSvc.ClusterCheck. cbn [ccr_Components]. rw elem_of_go_sort Hf. unfold ObserverSvc.checks. apply elem_of_app. left.
  apply list_elem_of_fmap. exists (name, addr). split; [done|]. by apply elem_of_map_to_list.
Qed.
