(* ===== verification/Accounting.v ===== *)
(** * Counting goroutines over a run of the cluster

    The worker goroutines at one point of their code form a multiset; [tallied] adds
    up what each event of a run puts there. Two accounts are kept this way: the
    placements a consensus group has agreed on are among the jobs that workers took
    ([start_key]), and what statemanager replicas count are outcomes that workers
    wrote to the database ([outcome_key]). *)

From stdpp Require Import gmultiset.
From S2P Require Import Prelude GoRuntime Json GoTime Proto Store Registry Dispatch WorkerSvc Relay Reaper System RaftNode SchedulerSvc Lifecycle Cluster.
Local Open Scope Z_scope.

(** ** Accounts *)

(** A goroutine that is about to run a job: the job and the worker's instance. *)
Definition start_key (inst : string) (t : thread) : option (string * string) :=
  match t with RStart id _ => Some (id, inst) | _ => None end.

(** A goroutine that has recorded an outcome and is about to report it. *)
Definition outcome_key (inst : string) (t : thread) : option (string * string * bool) :=
  match t with RReport id ok => Some (id, inst, ok) | _ => None end.

Section accounts.
Context {K : Type} `{Countable K} (key : string → thread → option K).

Definition of_threads (inst : string) (ts : list thread) : gmultiset K := list_to_set_disj (omap (key inst) ts).

Definition of_proc (p : wproc) : gmultiset K := of_threads (WorkerSvc.instance (wp_srv p)) (wp_threads p).

(** The goroutines that count, in all worker processes. *)
Definition present (ws : gmap string wproc) : gmultiset K :=
  list_to_set_disj (map_to_list ws ≫= λ kp, omap (key (WorkerSvc.instance (wp_srv kp.2))) (wp_threads kp.2)).

(** ** Lemmas *)

Lemma size_list_to_set_disj (ks : list K) : size (list_to_set_disj ks : gmultiset K) = length ks.
Proof.
  induction ks as [|k ks IH]; [done|]. rw list_to_set_disj_cons gmultiset_size_disj_union gmultiset_size_singleton IH. done.
Qed.

Lemma present_empty : present ∅ = ∅.
Proof. unfold present. by rw map_to_list_empty. Qed.

Lemma present_lookup ws wk p : ws !! wk = Some p → present ws = of_proc p ⊎ present (delete wk ws).
Proof.
  intros Hp. unfold present. rw -(map_to_list_delete ws wk p Hp). cbn [mbind list_bind]. by rw list_to_set_disj_app.
Qed.

Lemma present_insert ws wk p : present (<[wk := p]> ws) = of_proc p ⊎ present (delete wk ws).
Proof. rw (present_lookup _ wk p); [|apply lookup_insert_eq]. by rw delete_insert_eq. Qed.

Lemma present_delete ws wk : present (delete wk ws) ⊆ present ws.
Proof.
  destruct (ws !! wk) as [p|] eqn:Hp; [|by rw delete_id]. rw (present_lookup ws wk p Hp). apply gmultiset_disj_union_subseteq_r.
Qed.

Lemma of_threads_app inst ts ts' : of_threads inst (ts ++ ts') = of_threads inst ts ⊎ of_threads inst ts'.
Proof. unfold of_threads. by rw omap_app list_to_set_disj_app. Qed.

Lemma of_threads_single inst t k : key inst t = Some k → of_threads inst [t] = {[+ k +]}.
Proof. intros Hk. unfold of_threads. cbn [omap list_omap]. rw Hk. apply (right_id_L ∅ (⊎)). Qed.

Lemma of_threads_none inst t : key inst t = None → of_threads inst [t] = ∅.
Proof. intros Hk. unfold of_threads. cbn [omap list_omap]. by rw Hk. Qed.

(** A process with the same goroutines and some more. *)
Lemma present_append ws wk p srv ts :
  ws !! wk = Some p → WorkerSvc.instance srv = WorkerSvc.instance (wp_srv p) →
  present (<[wk := mkWproc srv (wp_threads p ++ ts)]> ws) = present ws ⊎ of_threads (WorkerSvc.instance (wp_srv p)) ts.
Proof.
  intros Hp Hi. rw present_insert (present_lookup ws wk p Hp). unfold of_proc. cbn [wp_srv wp_threads].
  rw Hi of_threads_app. multiset_solver.
Qed.

(** A process one of whose goroutines has moved on, and may have started another. *)
Lemma present_act ws wk p srv i t t' started :
  ws !! wk = Some p → wp_threads p !! i = Some t → WorkerSvc.instance srv = WorkerSvc.instance (wp_srv p) →
  let inst := WorkerSvc.instance (wp_srv p) in
  ∃ rest, present ws = of_threads inst [t] ⊎ rest ∧
    present (<[wk := mkWproc srv (<[i := t']> (wp_threads p) ++ option_list started)]> ws) =
      of_threads inst (t' :: option_list started) ⊎ rest.
Proof.
  intros Hp Ht Hi inst. destruct (omap_insert (key inst) _ _ _ Ht) as (rest & Hold & Hnew).
  assert (∀ u, of_threads inst [u] = list_to_set_disj (option_list (key inst u))) as Hone.
  { intros u. unfold of_threads. cbn [omap list_omap]. by destruct (key inst u). }
  exists (list_to_set_disj rest ⊎ present (delete wk ws)). rw (present_lookup ws wk p Hp) present_insert. split.
  - unfold of_proc, of_threads at 1. fold inst. rw Hold list_to_set_disj_app Hone. multiset_solver.
  - unfold of_proc. cbn [wp_srv wp_threads]. rw Hi. fold inst. rw of_threads_app.
    change (t' :: option_list started) with ([t'] ++ option_list started). rw of_threads_app Hone.
    unfold of_threads at 1. rw Hnew list_to_set_disj_app. multiset_solver.
Qed.
End accounts.

(** ** Runs *)

Section runs.
Context {UU : PgUuid} {JE : JsonEnv} {M G : Type}.
Context (E : env) (rgo : Ranger outbox_row) (rgj : Ranger job_row) (rgw : Ranger WorkerState).
Context (reporter : option (string → string → bool → stM M unit)) (lib : RaftLib G) (fate : nat → call_fate).
Context {K : Type} `{Countable K} (key : string → thread → option K).
Implicit Types si : site M G.

Abbreviation step1 := (step E rgo rgj rgw reporter lib fate).
Abbreviation run := (run_events E rgo rgj rgw reporter lib fate).
Abbreviation held si := (present key (fb_workers (si_fabric si))).

(** What the events of a run add to the account. *)
Fixpoint tallied (evs : list event) (si : site M G) : gmultiset K :=
  match evs with
  | [] => ∅
  | ev :: evs' => (held (step1 ev si) ∖ held si) ⊎ tallied evs' (step1 ev si)
  end.

Lemma tallied_snoc evs ev si :
  tallied (evs ++ [ev]) si = tallied evs si ⊎ (held (step1 ev (run evs si)) ∖ held (run evs si)).
Proof.
  revert si. induction evs as [|ev0 evs IH]; intros si; cbn [app tallied]; [multiset_solver|]. rw IH. apply (assoc_L (⊎)).
Qed.
End runs.

(** ** Lemmas: what a turn of the relay preserves *)

Section relay_rel.
Context {UU : PgUuid} {JE : JsonEnv} {M G : Type}.
Context (E : env) (rgo : Ranger outbox_row) (rgw : Ranger WorkerState) (lib : RaftLib G) (fate : nat → call_fate).
Context (R : relation (fabric M G)) `{!PreOrder R}.
Hypothesis R_store : ∀ A (m : stM world A) f, R f (on_world m f).2.
Hypothesis R_call : ∀ name req f, R f (call_worker E fate name req f).2.
Hypothesis R_log : ∀ now id worker f, R f (log_placement lib now id worker f).2.

Lemma bind_rel {A B} (m : stM (fabric M G) A) (k : A → stM (fabric M G) B) f :
  R f (m f).2 → (∀ a f1, R f1 (k a f1).2) → R f (st_bind m k f).2.
Proof using PreOrder0. intros Hm Hk. unfold st_bind. destruct (m f) as [a f1]. etrans; [exact Hm|apply Hk]. Qed.

Lemma iter_rel {A} (g : A → stM (fabric M G) unit) l f : (∀ a f1, R f1 (g a f1).2) → R f (st_iter g l f).2.
Proof using PreOrder0.
  intros Hg. revert f. induction l as [|a l IH]; intros f; [reflexivity|]. by apply bind_rel.
Qed.

Lemma offer_rel job e0 ws f : R f (offer (call_worker E fate) job e0 ws f).2.
Proof using PreOrder0 R_call.
  revert e0 f. induction ws as [|name ws IH]; intros e0 f; cbn [offer]; [reflexivity|].
  apply bind_rel; [apply R_call|]. intros [resp|e] f1; [reflexivity|apply IH].
Qed.

Lemma handle_rel cand disp now e f :
  R f (handle (relay_store E rgo) (code_dispatch cand (call_worker E fate) disp) (log_placement lib now) e f).2.
Proof using PreOrder0 R_store R_call R_log.
  unfold handle, abandon. destruct (negb _); [apply bind_rel; [apply R_store|reflexivity]|].
  destruct (_ <=? _); [apply bind_rel; [apply R_store|intros; apply bind_rel; [apply R_store|reflexivity]]|].
  destruct (_ <=? _); [apply bind_rel; [apply R_store|intros; apply bind_rel; [apply R_store|reflexivity]]|].
  apply bind_rel.
  - unfold code_dispatch, Dispatch.Dispatch. destruct (eligible cand disp f) as [ws d']. destruct (Nat.eqb _ _); [reflexivity|].
    pose proof (offer_rel (e_Job e) None ws f) as H. by destruct (offer _ _ _ ws f).
  - intros [wk|er] f1; (apply bind_rel; [apply R_store|]); [|reflexivity]. intros. apply bind_rel; [apply R_log|reflexivity].
Qed.

Lemma relay_turn_rel sc leads ev now f : R f (relay_turn E rgo rgw lib fate sc leads ev now f).2.
Proof using PreOrder0 R_store R_call R_log.
  assert (∀ f, R f (drain (relay_store E rgo) (code_dispatch (candidates rgw (sc_reg sc) now) (call_worker E fate) (sc_disp sc))
    (log_placement lib now) f).2) as Hdrain.
  { intros f1. unfold drain. apply bind_rel; [apply R_store|]. intros [entries|e] f2; [|reflexivity]. apply iter_rel. intros. apply handle_rel. }
  unfold relay_turn, run_select. destruct ev; [reflexivity| |destruct (sc_wake sc); [|reflexivity]];
    (destruct leads; [apply Hdrain|reflexivity]).
Qed.
End relay_rel.
