(* ===== verification/Placements.v ===== *)
(** * The placement history is true

    A scheduler that places a job on a worker proposes the placement to the consensus
    group, and every member shows the group's recent placements (internal/outbox,
    internal/dispatch, internal/raftnode, internal/workersvc together). Here the
    group is any log that only grows by what is proposed to it, and members have
    applied some of it: whatever is lost on the way, each placement they show is a
    goroutine that a worker started for that job. *)

From stdpp Require Import gmultiset.
From S2P Require Import Prelude GoRuntime Json GoTime Proto Store Registry Dispatch WorkerSvc Relay Reaper System RaftNode SchedulerSvc Lifecycle Cluster Accounting.
Local Open Scope Z_scope.

(** The entries a group has agreed on are those it was handed, some of them: an
    [Apply] adds its entry or nothing, whatever it answers. *)
Definition appends_only {G : Type} (lib : RaftLib G) (committed : G → list string) : Prop :=
  ∀ data g, committed (raft_Apply lib data g).2 = committed g ∨
    committed (raft_Apply lib data g).2 = committed g ++ [data].

Definition placed_pair (p : Placement) : string * string := (JobID p, Worker p).

(** The placements in a log. *)
Definition logged {JE : JsonEnv} (log : list string) : gmultiset (string * string) :=
  list_to_set_disj (placed_pair <$> decoded log).

(** Ids the database accepts are plain text. *)
Definition ids_utf8 {UU : PgUuid} : Prop := ∀ u, pg_uuid u = Some u → utf8 u.

(** The name under which a worker runs is plain text. *)
Definition named_plainly (ev : event) : Prop :=
  match ev with WorkerStarts _ inst _ => utf8 inst | _ => True end.

Definition named_procs (ws : gmap string wproc) : Prop :=
  map_Forall (λ _ p, utf8 (WorkerSvc.instance (wp_srv p))) ws.

(** ** Lemmas: one turn of the relay *)

Section relay.
Context {UU : PgUuid} {JE : JsonEnv} {M G : Type}.
Context (E : env) (rgo : Ranger outbox_row) (fate : nat → call_fate) (committed : G → list string).
Implicit Types f : fabric M G.

Abbreviation started f := (present start_key (fb_workers f)).
Abbreviation agreed f := (logged (committed (fb_group f))).

Lemma logged_snoc log data :
  logged (log ++ [data]) = logged log ⊎ logged [data].
Proof. unfold logged, decoded. by rw omap_app fmap_app list_to_set_disj_app. Qed.

(** Between the two states some goroutines were started, and for [owed] of them the
    placement is not in the log yet. *)
Definition grows (owed : gmultiset (string * string)) f f' : Prop :=
  named_procs (fb_workers f) → named_procs (fb_workers f') ∧
  ∃ ss, started f' = started f ⊎ ss ∧ agreed f' ⊎ owed ⊆ agreed f ⊎ ss.

Lemma grows_refl f : grows ∅ f f.
Proof. intros Hn. split; [done|]. exists ∅. split; multiset_solver. Qed.

Lemma grows_trans f f1 f2 : grows ∅ f f1 → grows ∅ f1 f2 → grows ∅ f f2.
Proof.
  intros H1 H2 Hn. destruct (H1 Hn) as (Hn1 & s1 & E1 & L1). destruct (H2 Hn1) as (Hn2 & s2 & E2 & L2).
  split; [done|]. exists (s1 ⊎ s2). rw E2 E1. split; multiset_solver.
Qed.

Lemma grows_same f f' : fb_workers f' = fb_workers f → fb_group f' = fb_group f → grows ∅ f f'.
Proof. intros Hw Hg Hn. rw Hw Hg. by apply grows_refl. Qed.

(** A call of ExecuteJob: what it starts, and what it answers. *)
Definition owes (id : string) (r : result err string) : gmultiset (string * string) :=
  match r with Ok inst => {[+ (id, inst) +]} | Err _ => ∅ end.

Lemma run_call_grows name p lost req f r f' :
  fb_workers f !! name = Some p → run_call E name p lost req f = (r, f') →
  fb_group f' = fb_group f ∧
  (utf8 (WorkerSvc.instance (wp_srv p)) → ∀ resp, r = Ok resp → utf8 (ejr_WorkerInstance resp)) ∧
  grows (match r with Ok resp => {[+ (ejr_JobId req, ejr_WorkerInstance resp) +]} | Err _ => ∅ end) f f'.
Proof.
  intros Hp. unfold run_call.
  destruct (WorkerSvc.ExecuteJob _ req _) as [[[r0 srv] st] [w x]] eqn:Hx.
  assert (WorkerSvc.instance srv = WorkerSvc.instance (wp_srv p) ∧
    (∀ resp, r0 = Ok resp → ejr_WorkerInstance resp = WorkerSvc.instance (wp_srv p) ∧ ∃ raw, st = Some (ejr_JobId req, raw))) as [Hi Hr].
  { revert Hx. unfold WorkerSvc.ExecuteJob, st_bind, st_ret. clear. intros Hx. repeat case_match; simplify_eq/=; split; try done.
    intros resp [= <-]. eauto. }
  intros [= <- <-]. cbn [fb_group fb_workers]. split; [done|]. split.
  { intros Hu resp Hresp. destruct lost; [done|]. by destruct (Hr resp Hresp) as [-> _]. }
  intros Hn. split; [by apply map_Forall_insert_2; [cbn; rw Hi; apply (Hn name p Hp)|]|].
  eexists. split; [by apply present_append|]. cbn [fb_group]. destruct lost; [multiset_solver|].
  destruct r0 as [resp|e]; [|multiset_solver].
  destruct (Hr resp eq_refl) as [-> [raw ->]]. apply gmultiset_disj_union_mono_l.
  by rw (of_threads_single start_key _ (RStart (ejr_JobId req) raw) (ejr_JobId req, WorkerSvc.instance (wp_srv p)) eq_refl).
Qed.

Lemma call_worker_grows name req f r f' :
  call_worker E fate name req f = (r, f') →
  fb_group f' = fb_group f ∧
  (named_procs (fb_workers f) → ∀ resp, r = Ok resp → utf8 (ejr_WorkerInstance resp)) ∧
  grows (match r with Ok resp => {[+ (ejr_JobId req, ejr_WorkerInstance resp) +]} | Err _ => ∅ end) f f'.
Proof.
  unfold call_worker. destruct (fb_workers f !! name) as [p|] eqn:Hp; [|intros [= <- <-]; split; [done|split; [done|by apply grows_same]]].
  destruct (fate (fb_calls f)).
  - intros H. destruct (run_call_grows name p false req f r f' Hp H) as (H1 & H2 & H3). split; [done|]. split; [|done].
    intros Hn. apply H2. by apply (Hn name).
  - intros [= <- <-]. split; [done|split; [done|by apply grows_same]].
  - intros H. destruct (run_call_grows name p true req f r f' Hp H) as (H1 & H2 & H3). split; [done|]. split; [|done].
    intros Hn. apply H2. by apply (Hn name).
  - intros [= <- <-]. split; [done|]. split; [done|]. intros Hn. cbn [fb_workers fb_group].
    split; [apply map_Forall_insert_2; [exact (Hn name p Hp)|done]|]. exists ∅.
    split; [|done].
    by rw (present_append start_key _ name p (wp_srv p) [XEnter req] Hp eq_refl).
Qed.

Lemma offer_grows job e0 ws f r f' :
  offer (call_worker E fate) job e0 ws f = (r, f') →
  fb_group f' = fb_group f ∧ (named_procs (fb_workers f) → ∀ inst, r = Ok inst → utf8 inst) ∧ grows (owes (ID job) r) f f'.
Proof using.
  revert e0 f. induction ws as [|name ws IH]; intros e0 f H; cbn [offer] in H.
  { unfold st_ret in H. injection H as <- <-. split; [done|split; [done|by apply grows_same]]. }
  unfold st_bind in H. destruct (call_worker E fate name _ f) as [r1 f1] eqn:Hc.
  apply call_worker_grows in Hc as (Hg & Hu & Hgr). destruct r1 as [resp|e].
  - unfold st_ret in H. injection H as <- <-. split; [done|]. split; [|done]. intros Hn inst [= <-]. by apply Hu.
  - destruct (IH _ _ H) as (Hg1 & Hu1 & Hgr1). split; [congruence|].
    split; [intros Hn; destruct (Hgr Hn) as [Hn1 _]; by apply Hu1|].
    intros Hn. destruct (Hgr Hn) as (Hn1 & s1 & E1 & L1). destruct (Hgr1 Hn1) as (Hn2 & s2 & E2 & L2).
    split; [done|]. exists (s1 ⊎ s2). rw E2 E1 (assoc_L (⊎)). split; [done|]. rw Hg1 in L2 |- *. rw Hg in L1, L2 |- *.
    clear -L1 L2. multiset_solver.
Qed.

Context (lib : RaftLib G).
Hypothesis log_grows : appends_only lib committed.

(** The entry a placement is proposed as, when there is one. *)
Lemma log_placement_grows now id worker f :
  utf8 id → utf8 worker →
  let f' := (log_placement lib now id worker f).2 in
  fb_workers f' = fb_workers f ∧ agreed f' ⊆ agreed f ⊎ {[+ (id, worker) +]}.
Proof using log_grows.
  intros Hid Hw. unfold log_placement, ApplyPlacement, marshal.
  destruct (placement_json (mkPlacement id worker (now (fb_calls f)))) as [v|] eqn:Hv; [|split; [done|]; cbn; multiset_solver].
  unfold st_bind, st_ret. pose proof (log_grows (text_of v) (fb_group f)) as Hl.
  destruct (raft_Apply lib (text_of v) (fb_group f)) as [r g]. cbn [fst snd fb_workers fb_group] in *. split; [done|].
  destruct Hl as [->| ->]; [multiset_solver|]. rw logged_snoc. apply gmultiset_disj_union_mono_l. destruct max_depth as [d Hd].
  destruct (placement_roundtrip (mkPlacement id worker (now (fb_calls f))) v zero_placement (S (S d)) (conj Hid Hw) Hv) as [Hok Hdec].
  rw -Hd in Hok. unfold logged, decoded. cbn [omap list_omap]. rw (Unmarshal_text _ _ _ _ Hok Hdec). cbn [fmap list_fmap].
  unfold placed_pair. cbn [JobID Worker]. rw list_to_set_disj_cons list_to_set_disj_nil (right_id_L ∅ (⊎)). done.
Qed.

(** One command handled. *)
Lemma handle_grows cand disp now e f :
  utf8 (ID (e_Job e)) →
  grows ∅ f (handle (relay_store E rgo) (code_dispatch cand (call_worker E fate) disp) (log_placement lib now) e f).2.
Proof using log_grows.
  intros Hid. assert (∀ (m : stM world (result err unit)) f, grows ∅ f (on_world m f).2) as Hst.
  { intros m f0. unfold on_world. destruct (m (fb_world f0)). by apply grows_same. }
  assert (∀ m (k : result err unit → stM (fabric M G) unit) f,
    (∀ r f1, grows ∅ f1 (k r f1).2) → grows ∅ f (st_bind (on_world m) k f).2) as Hbind.
  { intros m k f0 Hk. unfold st_bind. specialize (Hst m f0). destruct (on_world m f0) as [r f1]. eapply grows_trans; [exact Hst|apply Hk]. }
  unfold handle. destruct (negb _); [apply Hbind; intros; apply grows_refl|].
  destruct (_ <=? _); [apply Hbind; intros; apply Hbind; intros; apply grows_refl|].
  destruct (_ <=? _); [apply Hbind; intros; apply Hbind; intros; apply grows_refl|].
  unfold st_bind at 1. unfold code_dispatch at 1, Dispatch.Dispatch.
  destruct (eligible cand disp f) as [ws d']. destruct (Nat.eqb _ _); [apply Hbind; intros; apply grows_refl|].
  destruct (offer _ _ _ ws f) as [r f1] eqn:Ho. apply offer_grows in Ho as (Hg & Hu & Hgr).
  destruct r as [inst|er]; [|eapply grows_trans; [exact Hgr|]; apply Hbind; intros; apply grows_refl].
  unfold st_bind at 1, rs_MarkOutboxDispatched, relay_store at 1, on_world.
  destruct (rs_MarkOutboxDispatched _ (e_ID e) (fb_world f1)) as [r2 w2]. unfold st_bind, st_ret.
  intros Hn. specialize (Hu Hn inst eq_refl). destruct (Hgr Hn) as (Hn1 & ss & E1 & L1).
  match goal with |- context [log_placement lib now ?i ?w ?g] => 
    pose proof (log_placement_grows now i w g Hid Hu) as [Hw Hl]; destruct (log_placement lib now i w g) as [r3 f3] end.
  cbn [fst snd fb_workers fb_group] in *. rw Hw. split; [done|]. exists ss. split; [done|].
  cbn [owes] in L1. clear -L1 Hl. multiset_solver.
Qed.

(** A batch. *)
Lemma drain_grows cand disp now f :
  (∀ j, is_Some (jobs (db (fb_world f)) !! j) → utf8 j) →
  grows ∅ f (drain (relay_store E rgo) (code_dispatch cand (call_worker E fate) disp) (log_placement lib now) f).2.
Proof using log_grows.
  intros Hids. unfold drain, st_bind, relay_store at 1. cbn [rs_ClaimOutbox]. unfold on_world.
  destruct (rs_ClaimOutbox (pg_relay_store E rgo) drainBatch (fb_world f)) as [[entries|e] w] eqn:Hc; [|by apply grows_same].
  assert (∀ e, e ∈ entries → utf8 (ID (e_Job e))) as Hutf.
  { intros e He. revert Hc. cbn [rs_ClaimOutbox pg_relay_store]. unfold ClaimOutbox, query.
    destruct (env_fault E _); intros [= <- <-].
    destruct (claim_elem _ _ _ _ He) as (o & x & _ & _ & _ & Hj & ->). cbn [ID scanJob]. apply Hids. by eexists. }
  apply (st_iter_inv (grows ∅ f)); [|by apply grows_same].
  intros e f1 He Hf1. eapply grows_trans; [exact Hf1|]. by apply handle_grows, Hutf.
Qed.
End relay.

(** ** Lemmas: a run *)

Section runs.
Context {UU : PgUuid} {JE : JsonEnv} {M G : Type}.
Context (E : env) (rgo : Ranger outbox_row) (rgj : Ranger job_row) (rgw : Ranger WorkerState).
Context (reporter : option (string → string → bool → stM M unit)) (lib : RaftLib G) (fate : nat → call_fate).
Context (committed : G → list string).
Implicit Types si : site M G.

Abbreviation step1 := (step E rgo rgj rgw reporter lib fate).
Abbreviation run := (run_events E rgo rgj rgw reporter lib fate).
Abbreviation workers_of si := (fb_workers (si_fabric si)).
Abbreviation log_of si := (committed (fb_group (si_fabric si))).

(** Goroutines never change the name of their worker, nor the consensus group. *)
Lemma act_named wk i (f : fabric M G) :
  named_procs (fb_workers f) →
  named_procs (fb_workers (at_worker wk (λ p, act_thread E reporter p i) f)) ∧
  fb_group (at_worker wk (λ p, act_thread E reporter p i) f) = fb_group f.
Proof.
  intros Hn. unfold at_worker. destruct (fb_workers f !! wk) as [p|] eqn:Hp; [|done].
  unfold act_thread. destruct (wp_threads p !! i) as [t|];
    [|split; [|done]; apply map_Forall_insert_2; [exact (Hn wk p Hp)|done]].
  destruct (thread_step _ _ t _) as [o [w x]] eqn:Hstep. apply thread_runner in Hstep.
  split; [|done]. cbn [fb_workers]. apply map_Forall_insert_2; [|done].
  destruct o as [[[srv t'] st]|]; cbn [wp_srv]; [|exact (Hn wk p Hp)]. destruct Hstep as [-> _]. exact (Hn wk p Hp).
Qed.

Lemma step_named ev si :
  named_plainly ev → named_procs (workers_of si) →
  (∀ s leads e now, ev ≠ RelayTurn s leads e now) →
  named_procs (workers_of (step1 ev si)) ∧ fb_group (si_fabric (step1 ev si)) = fb_group (si_fabric si).
Proof.
  intros Hev Hn Hr.
  assert (∀ s m, (∀ sc f, fb_workers (m sc f).2 = fb_workers f ∧ fb_group (m sc f).2 = fb_group f) →
    named_procs (workers_of (at_scheduler (M := M) (G := G) s m si)) ∧
    fb_group (si_fabric (at_scheduler s m si)) = fb_group (si_fabric si)) as Hat.
  { intros s m Hm. unfold at_scheduler. destruct (si_scheds si !! s) as [sc|]; [|done].
    destruct (Hm sc (si_fabric si)) as [H1 H2]. destruct (m sc (si_fabric si)). cbn [si_fabric snd] in *. by rw H1. }
  destruct ev as [s leads leaderID req|s leads ev now|s leads now|s now req|s now req|w i|w inst cap|w|s disp|s];
    cbn [step named_plainly] in *; try done.
  - apply Hat. intros sc f. unfold submit. by destruct (SchedulerSvc.SubmitJob _ _ _ _ _) as [? []].
  - by destruct (Hr s leads ev now).
  - apply Hat. intros sc f. unfold reaper_tick. by destruct (run_tick _ _ _ _ _) as [? []].
  - by apply Hat.
  - by apply Hat.
  - by apply act_named.
  - split; [|done]. by apply map_Forall_insert_2.
  - split; [|done]. by apply map_Forall_delete.
Qed.

Hypothesis log_grows : appends_only lib committed.

Lemma step_agreed ev si :
  named_plainly ev → named_procs (workers_of si) → (∀ j, is_Some (jobs (db (fb_world (si_fabric si))) !! j) → utf8 j) →
  named_procs (workers_of (step1 ev si)) ∧
  logged (log_of (step1 ev si)) ⊆ logged (log_of si) ⊎ (present start_key (workers_of (step1 ev si)) ∖ present start_key (workers_of si)).
Proof using log_grows.
  intros Hev Hn Hids.
  assert ((∃ s leads e now, ev = RelayTurn s leads e now) ∨ ∀ s leads e now, ev ≠ RelayTurn s leads e now)
    as [(s & leads & e & now & ->)|Hne] by (destruct ev; naive_solver); cycle 1.
  { destruct (step_named ev si Hev Hn) as [H1 H2]; [done|]. split; [done|]. rw H2. multiset_solver. }
  cbn [step]. unfold at_scheduler. destruct (si_scheds si !! s) as [sc|]; [|split; [done|multiset_solver]].
  assert (grows committed ∅ (si_fabric si) (relay_turn E rgo rgw lib fate sc leads e now (si_fabric si)).2) as Hg.
  { unfold relay_turn, run_select. destruct e; [apply grows_refl| |destruct (sc_wake sc); [|apply grows_refl]];
      (destruct leads; [by apply drain_grows|apply grows_refl]). }
  destruct (relay_turn _ _ _ _ _ _ _ _ _ _) as [sc' f']. destruct (Hg Hn) as (Hn' & ss & E1 & L1). cbn [si_fabric snd] in *.
  split; [done|]. rw E1. clear -L1. multiset_solver.
Qed.

Lemma run_agreed x g evs :
  env_ok E → ids_utf8 → Forall named_plainly evs → committed g = [] →
  let si := run evs (site_init x g) in
  named_procs (workers_of si) ∧
  logged (log_of si) ⊆ tallied E rgo rgj rgw reporter lib fate start_key evs (site_init x g).
Proof using log_grows.
  intros HE Hutf Hevs Hg. induction evs as [|ev evs IH] using rev_ind.
  { cbn. rw Hg. split; [apply map_Forall_empty|]. done. }
  apply Forall_app in Hevs as [Hevs Hev]. inversion_clear Hev as [|? ? Hev1 _]. destruct (IH Hevs) as [Hn Hl].
  destruct (run_represented E rgo rgj rgw reporter lib fate HE x g evs) as (st & Hreach & Ht & _).
  apply sys_inv_reachable in Hreach as ([Hj _] & _). rw run_snoc tallied_snoc.
  destruct (step_agreed ev (run evs (site_init x g)) Hev1 Hn) as [Hn' Hl'].
  { intros j Hs. apply Hutf, Hj. by rw Ht. }
  split; [done|]. etrans; [exact Hl'|]. by apply gmultiset_disj_union_mono_r.
Qed.
End runs.

(** ** Properties *)

(** C10: what the schedulers show as placements happened. In every run of the
    cluster, however leadership moves, calls and answers are lost, statements fail
    and processes come and go: the placements in the consensus log are among the
    goroutines that workers started, each for the job and at the worker it names and
    each logged at most once; so every placement that any member shows, whatever
    part of the log it has applied, is a job that worker took. *)
Theorem placements_happened {UU : PgUuid} {JE : JsonEnv} {M G : Type}
    (E : env) (rgo : Ranger outbox_row) (rgj : Ranger job_row) (rgw : Ranger WorkerState)
    (reporter : option (string → string → bool → stM M unit)) (lib : RaftLib G) (fate : nat → call_fate)
    (committed : G → list string) (x : M) (g : G) (evs : list event) :
  env_ok E → ids_utf8 → appends_only lib committed → committed g = [] → Forall named_plainly evs →
  let log := committed (fb_group (si_fabric (run_events E rgo rgj rgw reporter lib fate evs (site_init x g)))) in
  let taken := tallied E rgo rgj rgw reporter lib fate start_key evs (site_init x g) in
  logged log ⊆ taken ∧
  ∀ applied g', applied `prefix_of` log →
    let shown := info lib g' (replay applied fsm_zero) in
    Forall (λ p, placed_pair p ∈ taken) (i_RecentPlacements shown) ∧
    i_PlacementCount shown ≤ Z.of_nat (size taken).
Proof.
  intros HE Hutf Hlog Hg Hevs log taken.
  destruct (run_agreed E rgo rgj rgw reporter lib fate committed Hlog x g evs HE Hutf Hevs Hg) as [_ Hsub].
  fold log in Hsub. fold taken in Hsub. split; [done|]. intros applied g' [rest Hrest].
  assert (logged applied ⊆ taken) as Hpre.
  { etrans; [|exact Hsub]. unfold logged, decoded. rw Hrest omap_app fmap_app list_to_set_disj_app. multiset_solver. }
  rw replay_decoded. unfold info, Placements. cbn [Count Recent i_RecentPlacements i_PlacementCount]. split.
  - apply Forall_forall. intros p Hp. eapply gmultiset_elem_of_subseteq; [|exact Hpre]. unfold logged.
    apply elem_of_list_to_set_disj, list_elem_of_fmap. exists p. split; [done|]. eapply elem_of_suffix; [exact Hp|apply suffix_drop].
  - apply gmultiset_subseteq_size in Hpre. unfold logged in Hpre. rw size_list_to_set_disj length_fmap in Hpre.
    etrans; [apply Z.mod_le; lia|]. lia.
Qed.

(** Ids may be any plain text. *)
Definition text_uuid : PgUuid.
Proof.
  refine {| pg_uuid := λ s, if utf8_ok 0 (String.list_ascii_of_string s) then Some s else None |}.
  intros s u Hs. case_match eqn:Hu; [|done]. injection Hs as <-. by rw Hu.
Defined.

Lemma text_ids : ids_utf8 (UU := text_uuid).
Proof. intros u. cbn. unfold utf8. by destruct (utf8_ok 0 _). Qed.

(** A database that is asked for one job. *)
Definition one_job_env : env := mkEnv (λ n, 1000 + Z.of_nat n) (λ _, NoFault) (λ _, "id-1").

Lemma accepting_appends : appends_only accepting_lib (λ log, log).
Proof. intros data g. by right. Qed.

Lemma placements_happened_witness :
  ("id-1", "worker-1") ∈ tallied (UU := text_uuid) (JE := demo_json_env) one_job_env (ranger_asc _) (ranger_asc _) (ranger_asc _)
    None accepting_lib (λ _, CallDelivered) start_key demo_events (site_init tt []).
Proof.
  destruct (placements_happened (UU := text_uuid) (JE := demo_json_env) one_job_env (ranger_asc _) (ranger_asc _) (ranger_asc _)
    None accepting_lib (λ _, CallDelivered) (λ log, log) tt [] demo_events) as [_ H].
  - intros n. by vm_compute.
  - exact text_ids.
  - exact accepting_appends.
  - reflexivity.
  - repeat constructor.
  - destruct (H _ [] (reflexivity _)) as [Hall _]. rewrite -> Forall_forall in Hall.
    apply (Hall (mkPlacement "id-1" "worker-1" Second)). clear. 
    match goal with |- ?x ∈ ?l => replace l with [x] by (vm_compute; reflexivity) end. by left.
Defined.
