(* ===== verification/Statistics.v ===== *)
(** * The statistics of a running cluster

    Workers report the outcomes they have recorded to their statemanager replica
    (internal/workersvc, internal/statereport, internal/statesvc together). Here the
    reporter of the cluster's workers is the client of internal/statereport, over a
    network that refuses calls, loses answers or delivers them after the caller has
    gone, and the replicas gossip meanwhile. What they show is compared with the
    outcomes that worker goroutines recorded in the database. *)

From stdpp Require Import gmultiset.
From S2P Require Import Prelude GoRuntime Json Proto Crdt StateSvc Store Registry Dispatch WorkerSvc Relay Reaper System RaftNode SchedulerSvc Reporting Lifecycle Cluster Accounting.
Local Open Scope Z_scope.

(** ** The replicas behind the reporter *)

(** The replicas with their network, the reports that are on their way although the
    caller has given up, and the number of reports sent. *)
Record stats : Type := mkStats {
  st_replicas : StateSvc.cluster;
  st_late : list (string * ReportJobEventRequest);
  st_sent : nat;
}.

(** The fate of a ReportJobEvent call: it is answered, it is refused, its answer is
    lost, or the caller's deadline passes before the replica looks at it. *)
Inductive report_fate : Type := ReportDelivered | ReportRefused | ReportLost | ReportLate.

Definition set_replicas (c : StateSvc.cluster) (m : stats) : stats := mkStats c (st_late m) (st_sent m).

(** Replica [r] handles a report. *)
Definition at_replica (rs : Ranges) (nowMS : Z) (r : string) (req : ReportJobEventRequest) :
    stM stats (result err unit) := λ m,
  match nodes (st_replicas m) !! r with
  | None => (Err (EStatus Unavailable "connection refused"), m)
  | Some s =>
      let '(res, s') := StateSvc.ReportJobEvent rs nowMS req s in
      (res, set_replicas (mkCluster (<[r := s']> (nodes (st_replicas m))) (net (st_replicas m))) m)
  end.

Section replicas.
Context (rs : Ranges).

(** What happens to the replicas besides the reports of live callers: they gossip and
    are partitioned, and late reports arrive or get lost. *)
Inductive replicas_step : stats → stats → Prop :=
| rs_gossip ev c m :
    (∀ r req, ev ≠ EvReport r req) → cl_step (st_replicas m) ev c → replicas_step m (set_replicas c m)
| rs_arrives nowMS r req c late late' n :
    late ≡ₚ (r, req) :: late' →
    replicas_step (mkStats c late n) (mkStats (st_replicas (at_replica rs nowMS r req (mkStats c late n)).2) late' n)
| rs_vanishes r req c late late' n :
    late ≡ₚ (r, req) :: late' → replicas_step (mkStats c late n) (mkStats c late' n).

(** ** Accounts of reports *)

(** The outcome a report carries. *)
Definition report_key (req : ReportJobEventRequest) : string * string * bool :=
  (rje_JobId req, rje_Worker req, String.eqb (rje_Outcome req) OutcomeSucceeded).

Fixpoint counted (evs : list StateSvc.event) : gmultiset (string * string * bool) :=
  match evs with
  | [] => ∅
  | EvReport _ req :: evs' => {[+ report_key req +]} ⊎ counted evs'
  | _ :: evs' => counted evs'
  end.

Definition underway (m : stats) : gmultiset (string * string * bool) :=
  list_to_set_disj ((λ p, report_key p.2) <$> st_late m).

Lemma underway_take c late late' r req n :
  late ≡ₚ (r, req) :: late' → underway (mkStats c late n) = {[+ report_key req +]} ⊎ underway (mkStats c late' n).
Proof. intros Hp. unfold underway. cbn [st_late]. rw Hp. cbn [fmap list_fmap snd]. by rw list_to_set_disj_cons. Qed.

(** What the replicas have seen is a run of them. *)
Record replica_run (names : gset string) (bound : nat) (evs : list StateSvc.event) (m : stats) : Prop := {
  rr_run : cl_run (init_cluster names) evs (st_replicas m);
  rr_short : (length evs ≤ bound)%nat;
}.

Lemma at_replica_run names bound evs nowMS r req m :
  replica_run names bound evs m →
  let m' := (at_replica rs nowMS r req m).2 in
  ∃ evs', replica_run names (S bound) evs' m' ∧ st_late m' = st_late m ∧ st_sent m' = st_sent m ∧
    counted evs' ⊆ counted evs ⊎ {[+ report_key req +]} ∧
    (r ∈ names → is_ok (at_replica rs nowMS r req m).1 = true → counted evs' = counted evs ⊎ {[+ report_key req +]}).
Proof.
  intros [Hrun Hlen]. unfold at_replica. pose proof (nodes_dom_run _ _ _ Hrun) as Hdom.
  destruct (nodes (st_replicas m) !! r) as [s|] eqn:Hs.
  - destruct (StateSvc.ReportJobEvent rs nowMS req s) as [[[]|e] s'] eqn:Hrep; cbn [fst snd is_ok].
    + exists (EvReport r req :: evs). cbn [set_replicas st_late st_sent counted]. split.
      { split; [|cbn; lia]. eapply run_step; [exact Hrun|]. destruct m as [[ns ms] late n].
        cbn [st_replicas set_replicas nodes net] in *. by eapply step_report. }
      repeat split; [multiset_solver|]. intros. multiset_solver.
    + assert (s' = s) as -> by (revert Hrep; unfold StateSvc.ReportJobEvent; repeat case_match; by intros [= <-]).
      exists evs. rw insert_id; [|done]. split; [split; [|lia]; by destruct m as [[ns ms] late n]|].
      cbn [set_replicas st_late st_sent]. repeat split; [multiset_solver|done].
  - exists evs. cbn [fst snd is_ok]. split; [split; [done|lia]|]. repeat split; [multiset_solver|done].
Qed.

Lemma replicas_step_run names bound evs m m' :
  replicas_step m m' → replica_run names bound evs m →
  ∃ evs', replica_run names (S bound) evs' m' ∧ counted evs' ⊎ underway m' ⊆ counted evs ⊎ underway m ∧
    (st_late m = [] → st_late m' = [] ∧ counted evs' = counted evs).
Proof.
  intros Hs Hrr. destruct Hs as [ev c m Hev Hstep|nowMS r req c late late' n Hp|r req c late late' n Hp].
  - exists (ev :: evs). destruct Hrr as [Hrun Hlen]. split; [split; [by eapply run_step|cbn; lia]|].
    assert (counted (ev :: evs) = counted evs) as -> by (destruct ev; [by edestruct Hev|done..]). done.
  - destruct (at_replica_run names bound evs nowMS r req (mkStats c late n)) as (evs' & Hr' & _ & _ & Hsub & _); [done|].
    exists evs'. split; [by destruct Hr'|]. rw (underway_take _ _ _ _ _ _ Hp). unfold underway. cbn [st_late].
    split; [clear -Hsub; multiset_solver|]. intros ->. by apply Permutation_nil_cons in Hp.
  - exists evs. split; [destruct Hrr; split; [done|lia]|]. rw (underway_take _ _ _ _ _ _ Hp).
    split; [clear; multiset_solver|]. cbn [st_late]. intros ->. by apply Permutation_nil_cons in Hp.
Qed.
End replicas.

Section reporter.
Context (rs : Ranges) (clock : nat → Z) (rfate : nat → report_fate) (home : string → string).

(** The client of replica [r]. *)
Definition send_report (r : string) (req : ReportJobEventRequest) : stM stats (result err unit) := λ m,
  let n := st_sent m in
  let m1 := mkStats (st_replicas m) (st_late m) (S n) in
  match rfate n with
  | ReportDelivered => at_replica rs (clock n) r req m1
  | ReportRefused => (Err (EStatus Unavailable "connection refused"), m1)
  | ReportLost => (Err (EStatus DeadlineExceeded "context deadline exceeded"), (at_replica rs (clock n) r req m1).2)
  | ReportLate =>
      (Err (EStatus DeadlineExceeded "context deadline exceeded"),
       mkStats (st_replicas m1) ((r, req) :: st_late m1) (st_sent m1))
  end.

(** The reporter of cmd/worker: each worker has its replica. *)
Definition statistics_reporter (jobID worker : string) (succeeded : bool) : stM stats unit :=
  StateReport.ReportJobEvent (send_report (home worker)) jobID worker succeeded.

Lemma report_key_sent jobID worker (ok : bool) :
  report_key (mkReportJobEventRequest jobID worker (if negb ok then OutcomeFailed else OutcomeSucceeded)) = (jobID, worker, ok).
Proof. by destruct ok. Qed.

(** One report: it is counted, underway or lost. *)
Lemma reporter_run names bound evs jobID worker ok m :
  replica_run names bound evs m →
  let m' := (statistics_reporter jobID worker ok m).2 in
  ∃ evs', replica_run names (S bound) evs' m' ∧
    counted evs' ⊎ underway m' ⊆ counted evs ⊎ underway m ⊎ {[+ (jobID, worker, ok) +]} ∧
    ((∀ n, rfate n = ReportDelivered) → home worker ∈ names → jobID ≠ EmptyString → worker ≠ EmptyString →
     counted evs' ⊎ underway m' = counted evs ⊎ underway m ⊎ {[+ (jobID, worker, ok) +]}).
Proof.
  intros Hrr. unfold statistics_reporter, StateReport.ReportJobEvent, st_bind, st_ret, send_report.
  set (req := mkReportJobEventRequest jobID worker _). pose proof (report_key_sent jobID worker ok : report_key req = _) as Hk.
  set (m1 := mkStats (st_replicas m) (st_late m) (S (st_sent m))).
  assert (replica_run names bound evs m1) as Hm1 by (by destruct Hrr).
  pose proof (at_replica_run rs names bound evs (clock (st_sent m)) (home worker) req m1 Hm1) as (evs' & Hr' & Hlate & _ & Hsub & Heq).
  assert (underway (at_replica rs (clock (st_sent m)) (home worker) req m1).2 = underway m) as Hu by (unfold underway; by rw Hlate).
  rw Hk in Hsub, Heq.
  destruct (rfate (st_sent m)) eqn:Hf; cbn [snd].
  - exists evs'. destruct (at_replica _ _ _ _ m1) as [res m2] eqn:Hat. cbn [fst snd] in *. split; [done|]. rw Hu.
    split; [clear -Hsub; multiset_solver|]. intros _ Hh Hj Hw. rw (Heq Hh); [clear; multiset_solver|].
    pose proof (nodes_dom_run _ _ _ (rr_run _ _ _ _ Hrr)) as Hdom. rw -Hdom in Hh. apply elem_of_dom in Hh as [s Hs].
    revert Hat. unfold at_replica. cbn [st_replicas m1]. rw Hs. subst req. unfold StateSvc.ReportJobEvent. cbn [rje_JobId rje_Worker rje_Outcome].
    destruct (String.eqb_spec jobID EmptyString); [done|]. destruct (String.eqb_spec worker EmptyString); [done|].
    by destruct ok; intros [= <- _].
  - exists evs. split; [destruct Hrr; split; [done|cbn; lia]|]. split; [clear; unfold underway; cbn; multiset_solver|].
    intros Hall. by rw Hall in Hf.
  - exists evs'. destruct (at_replica _ _ _ _ m1) as [res m2] eqn:Hat. cbn [fst snd] in *. split; [done|]. rw Hu.
    split; [clear -Hsub; multiset_solver|]. intros Hall. by rw Hall in Hf.
  - exists evs. split; [destruct Hrr; split; [done|cbn; lia]|]. unfold underway. cbn [st_late fmap list_fmap snd]. rw Hk.
    split; [rw list_to_set_disj_cons; clear; multiset_solver|]. intros Hall. by rw Hall in Hf.
Qed.

End reporter.

(** ** Runs of the cluster with its replicas *)

Definition set_stats {M G : Type} (m : M) (si : site M G) : site M G :=
  let f := si_fabric si in
  mkSite (mkFabric (fb_world f) m (fb_group f) (fb_workers f) (fb_calls f)) (si_scheds si).

Section full.
Context {UU : PgUuid} {JE : JsonEnv} {G : Type}.
Context (E : env) (rgo : Ranger outbox_row) (rgj : Ranger job_row) (rgw : Ranger WorkerState).
Context (lib : RaftLib G) (fate : nat → call_fate).
Context (rs : Ranges) (clock : nat → Z) (rfate : nat → report_fate) (home : string → string) (names : gset string).
Implicit Types si : site stats G.

Abbreviation rep := (statistics_reporter rs clock rfate home).
Abbreviation step1 := (step E rgo rgj rgw (Some rep) lib fate).
Abbreviation held si := (present outcome_key (fb_workers (si_fabric si))).
Abbreviation stats_of si := (fb_stats (si_fabric si)).

(** A run from the start, by events that satisfy [ok], with its length and the
    outcomes that goroutines have recorded so far. *)
Inductive full_run (ok : site stats G → event → Prop) (g : G) : nat → gmultiset (string * string * bool) → site stats G → Prop :=
| full_start : full_run ok g 0 ∅ (site_init (mkStats (init_cluster names) [] 0) g)
| full_event n rec si ev :
    full_run ok g n rec si → ok si ev → full_run ok g (S n) (rec ⊎ (held (step1 ev si) ∖ held si)) (step1 ev si)
| full_replicas n rec si m :
    full_run ok g n rec si → replicas_step rs (stats_of si) m → full_run ok g (S n) rec (set_stats m si).

(** ** Lemmas: an event *)

(** The relay neither reports nor stands in for a worker. *)
Definition undisturbed (f f' : fabric stats G) : Prop :=
  fb_stats f' = fb_stats f ∧ present outcome_key (fb_workers f') = present outcome_key (fb_workers f).

#[local] Instance undisturbed_preorder : PreOrder undisturbed.
Proof. split; [done|]. intros a b c [H1 H2] [H3 H4]. split; congruence. Qed.

Lemma execute_stats srv req w (x : stats) r w' x' :
  WorkerSvc.ExecuteJob (JS := worker_store E) srv req (w, x) = (r, (w', x')) →
  x' = x ∧ WorkerSvc.instance r.1.2 = WorkerSvc.instance srv ∧ (∀ id raw, r.2 = Some (id, raw) → id ≠ EmptyString).
Proof.
  unfold WorkerSvc.ExecuteJob, st_bind, st_ret. destruct (String.eqb_spec (ejr_JobId req) EmptyString); [by intros [= <- <- <-]|].
  destruct (_ <=? _); [by intros [= <- <- <-]|]. cbn [js_MarkScheduled worker_store beside].
  destruct (MarkScheduled E _ _ w) as [[[]|e] w1]; intros [= <- <- <-]; [|done].
  split; [done|]. split; [done|]. cbn. by intros id raw [= <- _].
Qed.

Lemma call_undisturbed name req f : undisturbed f (call_worker E fate name req f).2.
Proof.
  assert (∀ p lost, fb_workers f !! name = Some p → undisturbed f (run_call E name p lost req f).2) as Hrun.
  { intros p lost Hp. unfold run_call. destruct (WorkerSvc.ExecuteJob _ req _) as [[[r srv] st] [w x]] eqn:Hx.
    apply execute_stats in Hx as (-> & Hi & _). split; [done|]. cbn [fb_workers snd].
    rw (present_append outcome_key _ name p srv _ Hp Hi). rw -{2}(right_id_L ∅ (⊎) (present outcome_key (fb_workers f))).
    f_equal. by destruct st as [[]|]. }
  unfold call_worker. destruct (fb_workers f !! name) as [p|] eqn:Hp; [|done]. destruct (fate (fb_calls f)); [by apply Hrun|done|by apply Hrun|].
  split; [done|]. cbn [fb_workers snd]. rw (present_append outcome_key _ name p (wp_srv p) [XEnter req] Hp eq_refl).
  apply (right_id_L ∅ (⊎)).
Qed.

Lemma scheduler_undisturbed s m si :
  (∀ sc f, undisturbed f (m sc f).2) → undisturbed (si_fabric si) (si_fabric (at_scheduler s m si)).
Proof.
  intros Hm. unfold at_scheduler. destruct (si_scheds si !! s) as [sc|]; [|done].
  specialize (Hm sc (si_fabric si)). by destruct (m sc (si_fabric si)).
Qed.

(** What an event other than an action of a goroutine does. *)
Lemma step_undisturbed ev si :
  (∀ wk i, ev ≠ Acts wk i) →
  stats_of (step1 ev si) = stats_of si ∧ held (step1 ev si) ⊆ held si ∧
  (match ev with WorkerStarts wk _ _ => fb_workers (si_fabric si) !! wk = None | WorkerStops _ => False | _ => True end →
   held (step1 ev si) = held si).
Proof.
  intros Hev. assert (∀ si' (P : Prop), undisturbed (si_fabric si) (si_fabric si') →
    stats_of si' = stats_of si ∧ held si' ⊆ held si ∧ (P → held si' = held si)) as Hu
    by (intros si' P [H1 H2]; rw H2; done).
  destruct ev as [s leads leaderID req|s leads ev now|s leads now|s now req|s now req|w i|w inst cap|w|s disp|s]; cbn [step].
  - apply Hu, scheduler_undisturbed. intros sc f. unfold submit. by destruct (SchedulerSvc.SubmitJob _ _ _ _ _) as [? []].
  - apply Hu, scheduler_undisturbed. intros sc f. apply relay_turn_rel; [apply _| |apply call_undisturbed|].
    + intros A m f1. unfold on_world. by destruct (m (fb_world f1)).
    + intros n id wk f1. unfold log_placement. by destruct (ApplyPlacement lib _ _ _ _).
  - apply Hu, scheduler_undisturbed. intros sc f. unfold reaper_tick. by destruct (run_tick _ _ _ _ _) as [? []].
  - by apply Hu, scheduler_undisturbed.
  - by apply Hu, scheduler_undisturbed.
  - by edestruct Hev.
  - split; [done|]. cbn [si_fabric set_workers fb_workers]. rw present_insert.
    assert (of_proc outcome_key (mkWproc (WorkerSvc.New inst cap) []) = ∅) as -> by done. rw (left_id_L ∅ (⊎)).
    split; [apply present_delete|]. intros Hw. by rw delete_id.
  - split; [done|]. split; [apply present_delete|done].
  - done.
  - done.
Qed.

(** What an action of a goroutine does: it reports, or it leaves the replicas alone
    and may record an outcome. *)
Lemma act_outcome wk i si :
  let si' := step1 (Acts wk i) si in
  (stats_of si' = stats_of si ∧ ∃ fresh, held si' = held si ⊎ fresh) ∨
  ∃ p id ok, fb_workers (si_fabric si) !! wk = Some p ∧ RReport id ok ∈ wp_threads p ∧
    held si = held si' ⊎ {[+ (id, WorkerSvc.instance (wp_srv p), ok) +]} ∧
    stats_of si' = (rep id (WorkerSvc.instance (wp_srv p)) ok (stats_of si)).2.
Proof.
  cbn [step]. unfold at_worker. destruct (fb_workers (si_fabric si) !! wk) as [p|] eqn:Hp;
    [|left; split; [done|]; exists ∅; by rw (right_id_L ∅ (⊎))].
  unfold act_thread. destruct (wp_threads p !! i) as [t|] eqn:Ht;
    [|left; split; [done|]; exists ∅; cbn [si_fabric fb_workers]; rw insert_id; [by rw (right_id_L ∅ (⊎))|done]].
  destruct (thread_step (JS := worker_store E) (worker_reporter (Some rep)) (wp_srv p) t _) as [o [w x]] eqn:Hs.
  pose proof (thread_runner _ _ _ _ _ _ _ _ _ Hs) as Hr. destruct o as [[[srv t'] st]|].
  - destruct Hr as [Hi _]. destruct (present_act outcome_key _ wk p srv i t t' st Hp Ht Hi) as (rest & Hold & Hnew).
    cbn [si_fabric fb_workers fb_stats]. rw Hold Hnew.
    destruct t; cbn [thread_step] in Hs; unfold st_ret, st_bind in Hs;
      try (left; split; [by repeat case_match; simplify_eq/=|]; exists (of_threads outcome_key (WorkerSvc.instance (wp_srv p)) (t' :: option_list st));
           rw of_threads_none; [|done]; clear; multiset_solver).
    + left. cbn [js_MarkScheduled worker_store beside] in Hs. destruct (MarkScheduled _ _ _ _). split; [by simplify_eq|].
      eexists. rw of_threads_none; [|done]. rw (left_id_L ∅ (⊎)) (comm_L (⊎)). done.
    + left. cbn [js_MarkRunning worker_store beside] in Hs. destruct (MarkRunning _ _ _). split; [by simplify_eq|].
      eexists. rw of_threads_none; [|done]. rw (left_id_L ∅ (⊎)) (comm_L (⊎)). done.
    + left. cbn [js_MarkFinished worker_store beside] in Hs. destruct (MarkFinished _ _ _ _ _). split; [by simplify_eq|].
      eexists. rw of_threads_none; [|done]. rw (left_id_L ∅ (⊎)) (comm_L (⊎)). done.
    + right. exists p, jobID, succeeded. split; [done|]. split; [by eapply list_elem_of_lookup_2|].
      unfold report, worker_reporter in Hs. cbn [fmap option_fmap option_map] in Hs.
      destruct (rep jobID (WorkerSvc.instance (wp_srv p)) succeeded (fb_stats (si_fabric si))) as [[] x1]. simplify_eq/=.
      split; [|done]. rw (of_threads_single outcome_key _ (RReport jobID succeeded) (jobID, WorkerSvc.instance (wp_srv p), succeeded) eq_refl).
      change (of_threads outcome_key (WorkerSvc.instance (wp_srv p)) [RRelease]) with (∅ : gmultiset (string * string * bool)).
      clear. multiset_solver.
  - left. simplify_eq/=. split; [done|]. exists ∅. rw insert_id; [by rw (right_id_L ∅ (⊎))|done].
Qed.

(** ** Lemmas: a run *)

(** What replicas have counted, what is underway and what goroutines are about to
    report was recorded before. *)
Lemma full_truth ok g n rec si :
  full_run ok g n rec si →
  ∃ evs, replica_run names n evs (stats_of si) ∧ counted evs ⊎ underway (stats_of si) ⊎ held si ⊆ rec.
Proof.
  induction 1 as [|n rec si ev Hrun (evs & Hrr & Hsub) Hok|n rec si m Hrun (evs & Hrr & Hsub) Hstep].
  - exists []. split; [split; [constructor|done]|]. cbn. rw present_empty. done.
  - assert (∀ m, replica_run names n evs m → replica_run names (S n) evs m) as Hweak by (intros m []; split; [done|lia]).
    assert ((∃ wk i, ev = Acts wk i) ∨ ∀ wk i, ev ≠ Acts wk i) as [(wk & i & ->)|Hev] by (destruct ev; eauto).
    + destruct (act_outcome wk i si) as [(Hst & fresh & Hh)|(p & id & b & _ & _ & Hh & Hst)].
      * exists evs. rw Hst Hh. split; [by apply Hweak|]. clear -Hsub. multiset_solver.
      * destruct (reporter_run rs clock rfate home names n evs id (WorkerSvc.instance (wp_srv p)) b (stats_of si) Hrr) as (evs' & Hrr' & Hs' & _).
        exists evs'. rw Hst. split; [done|]. rw Hh in Hsub. clear -Hsub Hs'. multiset_solver.
    + destruct (step_undisturbed ev si Hev) as (Hst & Hh & _). exists evs. rw Hst. split; [by apply Hweak|].
      clear -Hsub Hh. multiset_solver.
  - destruct (replicas_step_run rs names n evs _ m Hstep Hrr) as (evs' & Hrr' & Hs' & _). exists evs'. split; [done|].
    cbn [set_stats si_fabric fb_stats fb_workers]. clear -Hsub Hs'. multiset_solver.
Qed.

(** ** Lemmas: a run in which nothing is lost *)

(** The jobs of a goroutine past the first check have an id. *)
Definition thread_named (t : thread) : Prop :=
  match t with
  | XLoad req | XCas req _ | XMark req | XGiveBack req _ | XWait req | XGo req => ejr_JobId req ≠ EmptyString
  | RStart id _ | RExec id _ | WorkerSvc.RFinish id _ _ | RReport id _ => id ≠ EmptyString
  | XEnter _ | XReply _ | RRelease | WorkerSvc.RDone | REnd => True
  end.

(** A worker with a name whose replica runs. *)
Definition proc_reports (p : wproc) : Prop :=
  WorkerSvc.instance (wp_srv p) ≠ EmptyString ∧ home (WorkerSvc.instance (wp_srv p)) ∈ names ∧
  Forall thread_named (wp_threads p).

Abbreviation all_report f := (map_Forall (λ _, proc_reports) (fb_workers (G := G) (M := stats) f)).

(** No worker process ends, and each new one has a fresh name and a replica. *)
Definition smooth si (ev : event) : Prop :=
  match ev with
  | WorkerStarts wk inst _ => fb_workers (si_fabric si) !! wk = None ∧ inst ≠ EmptyString ∧ home inst ∈ names
  | WorkerStops _ => False
  | _ => True
  end.

Definition stays_reporting (f f' : fabric stats G) : Prop := all_report f → all_report f'.

#[local] Instance stays_reporting_preorder : PreOrder stays_reporting.
Proof. split; [by intros f Hf|]. intros a b c H1 H2 H. by apply H2, H1. Qed.

Lemma stays_same f f' : fb_workers f' = fb_workers f → stays_reporting f f'.
Proof. intros Hw. unfold stays_reporting. by rw Hw. Qed.

Lemma call_stays name req f : stays_reporting f (call_worker E fate name req f).2.
Proof.
  intros Hall. assert (∀ p lost, fb_workers f !! name = Some p → all_report (run_call E name p lost req f).2) as Hrun.
  { intros p lost Hp. unfold run_call. destruct (WorkerSvc.ExecuteJob _ req _) as [[[r srv] st] [w x]] eqn:Hx.
    apply execute_stats in Hx as (_ & Hi & Hid). destruct (Hall name p Hp) as (H1 & H2 & H3).
    cbn [fb_workers snd]. apply map_Forall_insert_2; [|done]. cbn [fst snd] in *. split; [by rw Hi|]. split; [by rw Hi|].
    apply Forall_app. split; [done|]. destruct st as [[id raw]|]; repeat constructor. by apply (Hid id raw). }
  unfold call_worker. destruct (fb_workers f !! name) as [p|] eqn:Hp; [|done]. destruct (fate (fb_calls f)); [by apply Hrun|done|by apply Hrun|].
  destruct (Hall name p Hp) as (H1 & H2 & H3). apply map_Forall_insert_2; [|done]. split; [done|]. split; [done|].
  apply Forall_app. split; [done|]. by repeat constructor.
Qed.

Lemma thread_stays_named srv t w (x : stats) srv' t' st w' x' :
  thread_step (JS := worker_store E) (worker_reporter (Some rep)) srv t (w, x) = (Some (srv', t', st), (w', x')) →
  thread_named t → Forall thread_named (t' :: option_list st).
Proof.
  intros Hs Hn. destruct t; cbn [thread_step] in Hs; unfold st_ret, st_bind in Hs;
    repeat case_match; simplify_eq/=; repeat constructor; cbn; reflect_bools; done.
Qed.

Lemma act_stays wk i f : stays_reporting f (at_worker wk (λ p, act_thread E (Some rep) p i) f).
Proof.
  intros Hall. unfold at_worker. destruct (fb_workers f !! wk) as [p|] eqn:Hp; [|done].
  pose proof (Hall wk p Hp) as Hpr. unfold act_thread. destruct (wp_threads p !! i) as [t|] eqn:Ht;
    [|by apply map_Forall_insert_2].
  destruct (thread_step _ _ t _) as [o [w x]] eqn:Hs. pose proof (thread_runner _ _ _ _ _ _ _ _ _ Hs) as Hr.
  cbn [fb_workers]. apply map_Forall_insert_2; [|done]. destruct o as [[[srv t'] st]|]; [|done]. destruct Hr as [Hi _].
  destruct Hpr as (H1 & H2 & H3). split; [by cbn; rw Hi|]. split; [by cbn; rw Hi|]. cbn [wp_threads].
  pose proof (Forall_lookup_1 _ _ _ _ H3 Ht) as Hnt. pose proof (thread_stays_named _ _ _ _ _ _ _ _ _ Hs Hnt) as Hn.
  inversion_clear Hn. apply Forall_app. split; [by apply Forall_insert|done].
Qed.

Lemma step_stays ev si : smooth si ev → stays_reporting (si_fabric si) (si_fabric (step1 ev si)).
Proof.
  intros Hok. assert (∀ s m, (∀ sc f, stays_reporting f (m sc f).2) → stays_reporting (si_fabric si) (si_fabric (at_scheduler s m si))) as Hat.
  { intros s m Hm. unfold at_scheduler. destruct (si_scheds si !! s) as [sc|]; [|done].
    specialize (Hm sc (si_fabric si)). by destruct (m sc (si_fabric si)). }
  destruct ev as [s leads leaderID req|s leads ev now|s leads now|s now req|s now req|w i|w inst cap|w|s disp|s]; cbn [step smooth] in *.
  - apply Hat. intros sc f. unfold submit. destruct (SchedulerSvc.SubmitJob _ _ _ _ _) as [? []]. by apply stays_same.
  - apply Hat. intros sc f. apply relay_turn_rel; [apply _| |apply call_stays|].
    + intros A m f1. unfold on_world. destruct (m (fb_world f1)). by apply stays_same.
    + intros n id wk f1. unfold log_placement. destruct (ApplyPlacement lib _ _ _ _). by apply stays_same.
  - apply Hat. intros sc f. unfold reaper_tick. destruct (run_tick _ _ _ _ _) as [? []]. by apply stays_same.
  - apply Hat. intros sc f. by apply stays_same.
  - apply Hat. intros sc f. by apply stays_same.
  - apply act_stays.
  - intros Hall. apply map_Forall_insert_2; [|done]. destruct Hok as (_ & H1 & H2). split; [done|]. split; [done|]. constructor.
  - done.
  - by apply stays_same.
  - by apply stays_same.
Qed.

Lemma full_complete g n rec si :
  (∀ k, rfate k = ReportDelivered) → full_run smooth g n rec si →
  ∃ evs, replica_run names n evs (stats_of si) ∧ st_late (stats_of si) = [] ∧ counted evs ⊎ held si = rec ∧ all_report (si_fabric si).
Proof.
  intros Hf. induction 1 as [|n rec si ev Hrun (evs & Hrr & Hlate & Heq & Hall) Hok|n rec si m Hrun (evs & Hrr & Hlate & Heq & Hall) Hstep].
  - exists []. split; [split; [constructor|done]|]. cbn. rw present_empty. split; [done|]. split; [done|]. apply map_Forall_empty.
  - assert (∀ m, replica_run names n evs m → replica_run names (S n) evs m) as Hweak by (intros m []; split; [done|lia]).
    pose proof (step_stays ev si Hok Hall) as Hall'.
    assert ((∃ wk i, ev = Acts wk i) ∨ ∀ wk i, ev ≠ Acts wk i) as [(wk & i & ->)|Hev] by (destruct ev; eauto).
    + destruct (act_outcome wk i si) as [(Hst & fresh & Hh)|(p & id & b & Hp & Hin & Hh & Hst)].
      * exists evs. rw Hst Hh. split; [by apply Hweak|]. split; [done|]. split; [|done]. clear -Heq. multiset_solver.
      * destruct (Hall wk p Hp) as (H1 & H2 & H3). rewrite -> Forall_forall in H3. specialize (H3 _ Hin).
        destruct (reporter_run rs clock rfate home names n evs id (WorkerSvc.instance (wp_srv p)) b (stats_of si) Hrr) as (evs' & Hrr' & _ & He).
        specialize (He Hf H2 H3 H1). exists evs'.
        assert (st_late (stats_of (step1 (Acts wk i) si)) = []) as Hl'.
        { rw Hst. unfold statistics_reporter, StateReport.ReportJobEvent, st_bind, st_ret, send_report. rw Hf.
          unfold at_replica. cbn [st_replicas]. repeat case_match; simplify_eq/=; done. }
        rw Hst in Hl' |- *. split; [done|]. split; [done|]. split; [|done].
        unfold underway in He. rw Hl' Hlate in He. rw Hh in Heq |- *. clear -Heq He. cbn in He. multiset_solver.
    + destruct (step_undisturbed ev si Hev) as (Hst & _ & Hh). exists evs. rw Hst.
      rw (Hh ltac:(destruct ev; cbn in Hok; tauto)). split; [by apply Hweak|]. split; [done|]. split; [|done]. clear -Heq. multiset_solver.
  - destruct (replicas_step_run rs names n evs _ m Hstep Hrr) as (evs' & Hrr' & _ & He). destruct (He Hlate) as [Hl' Hc].
    exists evs'. split; [done|]. split; [done|]. split; [|done]. cbn [set_stats si_fabric fb_workers]. by rw Hc.
Qed.

(** What an event adds to the account has been written to the database. *)
Lemma recorded_written ev si id inst (ok : bool) :
  (id, inst, ok) ∈ held (step1 ev si) ∖ held si →
  ∃ wk n, store_view (fb_world (si_fabric (step1 ev si))) id = Some (if ok then StatusSucceeded else StatusFailed, wk, n).
Proof.
  intros Hin. assert ((∃ wk i, ev = Acts wk i) ∨ ∀ wk i, ev ≠ Acts wk i) as [(wk & i & ->)|Hev] by (destruct ev; eauto); cycle 1.
  { destruct (step_undisturbed ev si Hev) as (_ & Hh & _). exfalso. revert Hin. rw (gmultiset_empty_difference _ _ Hh). set_solver. }
  revert Hin. cbn [step]. unfold at_worker. destruct (fb_workers (si_fabric si) !! wk) as [p|] eqn:Hp; [|rw gmultiset_difference_diag; set_solver].
  unfold act_thread. destruct (wp_threads p !! i) as [t|] eqn:Ht;
    [|cbn [si_fabric fb_workers]; rw insert_id; [rw gmultiset_difference_diag; set_solver|done]].
  destruct (thread_step (JS := worker_store E) (worker_reporter (Some rep)) (wp_srv p) t _) as [o [w x]] eqn:Hs.
  pose proof (thread_runner _ _ _ _ _ _ _ _ _ Hs) as Hr. cbn [si_fabric fb_workers fb_world].
  destruct o as [[[srv t'] st]|]; [|rw insert_id; [rw gmultiset_difference_diag; set_solver|done]].
  destruct Hr as [Hi _]. destruct (present_act outcome_key _ wk p srv i t t' st Hp Ht Hi) as (rest & -> & ->). intros Hin.
  assert ((id, inst, ok) ∈ of_threads outcome_key (WorkerSvc.instance (wp_srv p)) (t' :: option_list st)) as Hnew
    by (clear -Hin; multiset_solver).
  apply elem_of_list_to_set_disj, list_elem_of_omap in Hnew as (u & Hu & Hk).
  assert (u = RReport id ok) as -> by (by destruct u; cbn in Hk; simplify_eq).
  destruct t; cbn [thread_step] in Hs; unfold st_ret, st_bind in Hs; try (repeat case_match; simplify_eq/=; set_solver).
  cbn [js_MarkFinished worker_store beside] in Hs. destruct (MarkFinished E jobID succeeded errMsg (fb_world (si_fabric si))) as [[[]|e] w1] eqn:Hm;
    [|simplify_eq/=; set_solver].
  injection Hs as <- <- <- <- <-. cbn [option_list] in Hu. apply list_elem_of_singleton in Hu. injection Hu as <- <-.
  destruct (js_finished (JobStore := pg_job_store E) id ok errMsg _ _ Hm) as (s0 & wk0 & n & _ & Hv). eauto.
Qed.
(** A list of events as a run. *)
Lemma full_events (ok : site stats G → event → Prop) g evs :
  let si0 := site_init (mkStats (init_cluster names) [] 0) g in
  (∀ pre ev post, evs = pre ++ ev :: post → ok (run_events E rgo rgj rgw (Some rep) lib fate pre si0) ev) →
  full_run ok g (length evs) (tallied E rgo rgj rgw (Some rep) lib fate outcome_key evs si0)
    (run_events E rgo rgj rgw (Some rep) lib fate evs si0).
Proof.
  intros si0. induction evs as [|ev evs IH] using rev_ind; intros Hok; [constructor|].
  rw tallied_snoc run_snoc length_app Nat.add_comm. cbn [length Nat.add]. apply full_event; [|by apply (Hok evs ev [])].
  apply IH. intros pre ev' post ->. apply (Hok pre ev' (post ++ [ev])). by rw -(assoc app).
Qed.
End full.

(** ** Counting *)

Definition outcome_text (ok : bool) : string := if ok then OutcomeSucceeded else OutcomeFailed.

(** How many of the outcomes are successes (or failures), and how many are of a
    worker. *)
Definition outcomes (ok : bool) (X : gmultiset (string * string * bool)) : Z := Z.of_nat (size (filter (λ k, k.2 = ok) X)).
Definition outcomes_at (wk : string) (X : gmultiset (string * string * bool)) : Z := Z.of_nat (size (filter (λ k, k.1.2 = wk) X)).

Section counting.
Context (P : string * string * bool → Prop) `{!∀ k, Decision (P k)}.

Lemma total_counted key_of k evs :
  Forall (λ ev, match ev with EvReport _ req => key_of req = k ↔ P (report_key req) | _ => True end) evs →
  total_accepted key_of k evs = Z.of_nat (size (filter P (counted evs))).
Proof.
  induction 1 as [|ev evs Hev _ IH]; [done|]. destruct ev as [r req|r|r]; cbn [total_accepted counted]; [|done..].
  rw gmultiset_filter_disj_union gmultiset_size_disj_union gmultiset_filter_singleton IH.
  destruct (decide (key_of req = k)), (decide (P (report_key req))); try tauto; rw ?gmultiset_size_singleton ?gmultiset_size_empty; lia.
Qed.

Lemma filter_size_mono (X Y : gmultiset (string * string * bool)) : X ⊆ Y → (size (filter P X) ≤ size (filter P Y))%nat.
Proof. intros HXY. by apply gmultiset_subseteq_size, gmultiset_filter_subseteq_mono. Qed.
End counting.

Lemma total_accepted_le key_of k evs : total_accepted key_of k evs ≤ Z.of_nat (length evs).
Proof. induction evs as [|[r req|r|r] evs IH]; cbn [total_accepted length]; [done|case_decide; lia|lia..]. Qed.

(** Replicas only accept the two outcomes. *)
Lemma run_outcomes names evs c :
  cl_run (init_cluster names) evs c →
  Forall (λ ev, match ev with EvReport _ req => rje_Outcome req = OutcomeSucceeded ∨ rje_Outcome req = OutcomeFailed | _ => True end) evs.
Proof.
  induction 1 as [|evs ev c c' _ IH Hstep]; constructor; [|done]. destruct Hstep as [rs now r req s s' ns ms _ Hrep| | | |]; try done.
  revert Hrep. unfold StateSvc.ReportJobEvent. destruct (_ || _); [done|].
  destruct (String.eqb_spec (rje_Outcome req) OutcomeSucceeded); [by left|]. destruct (String.eqb_spec (rje_Outcome req) OutcomeFailed); [by right|done].
Qed.

Lemma status_counted names evs c ok :
  cl_run (init_cluster names) evs c → total_accepted rje_Outcome (outcome_text ok) evs = outcomes ok (counted evs).
Proof.
  intros Hrun. apply total_counted. eapply Forall_impl; [exact (run_outcomes _ _ _ Hrun)|]. intros [r req|r|r] Hreq; try done.
  cbn [report_key snd]. unfold OutcomeSucceeded, OutcomeFailed in *. destruct (String.eqb_spec (rje_Outcome req) "succeeded") as [He|He], ok;
    cbn [outcome_text]; unfold OutcomeSucceeded, OutcomeFailed; split; try done; try (intros; congruence). destruct Hreq; congruence.
Qed.

Lemma worker_counted evs wk : total_accepted rje_Worker wk evs = outcomes_at wk (counted evs).
Proof. apply total_counted. apply Forall_forall. by intros [r req|r|r] _. Qed.

(** ** Properties *)


(** The demonstration run of the cluster, up to the report, with one replica. *)
Definition stats_events : list event :=
  demo_events ++ [Acts "worker-1" 0; Acts "worker-1" 0; Acts "worker-1" 0].

Definition stats_start : site stats (list string) := site_init (mkStats (init_cluster {["sm-1"]}) [] 0) [].

Definition demo_reporter : string → string → bool → stM stats unit :=
  statistics_reporter ranges_asc (λ _, 100) (λ _, ReportDelivered) (λ _, "sm-1").

Definition stats_site : site stats (list string) :=
  run_events (UU := any_uuid) (JE := demo_json_env) demo_env (ranger_asc _) (ranger_asc _) (ranger_asc _)
    (Some demo_reporter) accepting_lib (λ _, CallDelivered) stats_events stats_start.

Definition stats_recorded : gmultiset (string * string * bool) :=
  tallied (UU := any_uuid) (JE := demo_json_env) demo_env (ranger_asc _) (ranger_asc _) (ranger_asc _)
    (Some demo_reporter) accepting_lib (λ _, CallDelivered) outcome_key stats_events stats_start.

Lemma stats_run :
  full_run (UU := any_uuid) (JE := demo_json_env) demo_env (ranger_asc _) (ranger_asc _) (ranger_asc _) accepting_lib (λ _, CallDelivered)
    ranges_asc (λ _, 100) (λ _, ReportDelivered) (λ _, "sm-1") {["sm-1"]} (smooth (λ _, "sm-1") {["sm-1"]}) [] 9 stats_recorded stats_site.
Proof.
  apply (full_events (UU := any_uuid) (JE := demo_json_env) demo_env (ranger_asc _) (ranger_asc _) (ranger_asc _) accepting_lib
    (λ _, CallDelivered) ranges_asc (λ _, 100) (λ _, ReportDelivered) (λ _, "sm-1") {["sm-1"]} (smooth (λ _, "sm-1") {["sm-1"]}) [] stats_events).
  intros pre ev post Hevs.
  destruct pre as [|e1 [|e2 pre]]; [by injection Hevs as <- _| |].
  - injection Hevs as <- <- _. split; [reflexivity|]. split; [done|]. by apply elem_of_singleton.
  - injection Hevs as <- <- Hevs. assert (ev ∈ drop 2 stats_events) as Hin by (cbn; rw Hevs; set_solver). clear -Hin.
    repeat (apply elem_of_cons in Hin as [->|Hin]; [exact I|]). by apply elem_of_nil in Hin.
Qed.

Definition demo_replica : StateSvc.Server :=
  default (StateSvc.New EmptyString) (nodes (st_replicas (fb_stats (si_fabric stats_site))) !! "sm-1").

Lemma demo_replicas : nodes (st_replicas (fb_stats (si_fabric stats_site))) = {["sm-1" := demo_replica]}.
Proof. by vm_compute. Qed.



